(** * Event-based risk aggregation (openquake/calculators/event_based_risk.py)

    A shallow embedding of the aggregation engine of the event based risk
    calculator: the per-task aggregator ([_aggregate], [event_based_risk]),
    the epsilon sources ([EpsilonMatrix0], [EpsilonMatrix1]), the task
    distributor and reducer ([EbriskCalculator]) and the post-calculator
    ([EbrPostCalculator]).

    Conventions.
    - A Python exception is the result [None] of a function into [option].
      The two places where the model does not follow numpy, and returns
      [None] too, are stated at the definitions ([seed_array],
      [aggregate_asset]): what is proved of a result holds of the inputs
      the model covers.
    - numpy arrays are lists (a matrix is a list of rows); the element type
      of the float arrays is abstract, see [Arith], and is instantiated with
      IEEE binary32 ([numpy.float32]) where concrete values are computed.
    - Python dictionaries and the HDF5 datastore are finite maps ([gmap]).
    - Collaborators that live outside this module (the risk model, the
      curve builders, the statistics builder, the block splitter, numpy's
      random generator) are parameters. *)

From Stdlib Require Import ZArith SpecFloat.
From stdpp Require Import gmap strings list fin_maps sorting.

Local Open Scope string_scope.
Local Open Scope list_scope.
Local Open Scope nat_scope.

(** ** Arithmetic of the float arrays *)

(** The operations the module applies to array elements: the literal [0]
    of [numpy.zeros], [+] (of [+=] and [sum]), [*] and the test [x > 0]. *)
Class Arith (F : Type) := {
  fzero : F;
  fadd : F -> F -> F;
  fmul : F -> F -> F;
  fgt0 : F -> bool
}.

(** IEEE 754 binary32, the [F32 = numpy.float32] of the module, rounding to
    nearest even. *)
Module Binary32.
Definition prec : Z := 24%Z.
Definition emax : Z := 128%Z.
Definition f32 : Type := spec_float.
Definition zero : f32 := S754_zero false.
Definition add : f32 -> f32 -> f32 := SFadd prec emax.
Definition mul : f32 -> f32 -> f32 := SFmul prec emax.
Definition div : f32 -> f32 -> f32 := SFdiv prec emax.
(** [x > 0], false on NaN *)
Definition gt0 (x : f32) : bool := SFltb zero x.
(** the binary32 value nearest to the integer [z] *)
Definition of_Z (z : Z) : f32 := binary_normalize prec emax z 0%Z false.
(** the binary32 value nearest to [n / d], as a decimal literal is read *)
Definition of_ratio (n d : Z) : f32 := div (of_Z n) (of_Z d).
End Binary32.

#[export] Instance binary32_arith : Arith Binary32.f32 := {|
  fzero := Binary32.zero;
  fadd := Binary32.add;
  fmul := Binary32.mul;
  fgt0 := Binary32.gt0
|}.

(** Exact integer arithmetic, the idealisation in which additions are
    associative and commutative. *)
#[export] Instance Z_arith : Arith Z := {|
  fzero := 0%Z;
  fadd := Z.add;
  fmul := Z.mul;
  fgt0 := fun x => (0 <? x)%Z
|}.

(** ** Helpers shared by the loops *)

(** A loop whose body may raise. *)
Fixpoint foldM {A B : Type} (f : B -> A -> option B) (b : B) (xs : list A)
  : option B :=
  match xs with
  | [] => Some b
  | x :: xs' => match f b x with
                | Some b' => foldM f b' xs'
                | None => None
                end
  end.

(** [d[key]] on an [AccumDict(accum=default)]: a missing key reads as a
    fresh copy of the accumulator. *)
Definition accum_get {K V : Type} `{Countable K} (default : V)
    (d : gmap K V) (key : K) : V :=
  match d !! key with
  | Some v => v
  | None => default
  end.

(** The first [k] consecutive pieces of length [n] of [xs] *)
Fixpoint chunks {A : Type} (n : nat) (k : nat) (xs : list A) : list (list A) :=
  match k with
  | 0 => []
  | S k' => take n xs :: chunks n k' (drop n xs)
  end.

(** [enumerate(xs)] *)
Definition enumerate {A : Type} (xs : list A) : list (nat * A) :=
  zip (seq 0 (length xs)) xs.

Section Arrays.
Context {F : Type} `{Arith F}.

(** [numpy.zeros((n, m))] *)
Definition zeros (n m : nat) : list (list F) := replicate n (replicate m fzero).

(** [row.sum()]: the entries added left to right, starting from zero *)
Definition row_sum (row : list F) : F := foldl fadd fzero row.

(** [rows.sum(axis=0)] of an array of shape (n, m) *)
Definition col_sums (m : nat) (rows : list (list F)) : list F :=
  map (fun j => row_sum (map (fun row => nth j row fzero) rows)) (seq 0 m).

(** [rows * v] for a scalar [v] *)
Definition scale (rows : list (list F)) (v : F) : list (list F) :=
  map (map (fun x => fmul x v)) rows.

(** [x.shape == (n, m)] *)
Definition has_shape (n m : nat) (x : list (list F)) : bool :=
  (length x =? n) && forallb (fun row => length row =? m) x.

(** [a[indices] += b] with an index array: the rows [a[indices]] are
    gathered, [b] is added to them, and the sums are written back one
    index after the other, so that of a repeated index the last write
    stays.  An index out of range raises, as does a [b] that has not one
    row per index. *)
Definition iadd_at (a : list (list F)) (indices : list nat)
    (b : list (list F)) : option (list (list F)) :=
  if decide (length indices = length b) then
    match mapM (fun i => a !! i) indices with
    | Some rows =>
        Some (foldl (fun acc ir => <[ir.1 := ir.2]> acc) a
                    (zip indices (zip_with (zip_with fadd) rows b)))
    | None => None
    end
  else None.
End Arrays.

(** ** The aggregator: [_aggregate] and [event_based_risk] *)

Section Aggregator.
Context {F : Type} `{Arith F}.

(** An asset: its ordinal and [asset.value(loss_type)]. *)
Record Asset := { ordinal : nat; value : string -> F }.

(** One output of [riskmodel.gen_outputs]: the pair [(l, r)], the event
    ids, the assets and, per asset, the loss ratios of shape (E', I). *)
Record Output := {
  out_lr : nat * nat;
  out_eids : list Z;
  out_assets : list Asset;
  out_loss_ratios : list (list (list F))
}.

(** The fields of the monitor the task reads. [mon_loss_ratios] is the
    truth value of [monitor.loss_ratios]. *)
Record Monitor := {
  mon_avg_losses : bool;
  mon_loss_ratios : bool;
  mon_insured_losses : bool;
  mon_ses_ratio : F;
  mon_gmfbytes : Z
}.

(** A row of dtype [elt_dt]: [(eid, loss)] with [I] loss columns. *)
Record elt_rec := { elt_eid : Z; elt_loss : list F }.

(** A row of dtype [ela_dt]: [(eid, aid, loss)]. *)
Record ela_rec := { ela_eid : Z; ela_aid : nat; ela_loss : list F }.

(** [I = insured_losses + 1] *)
Definition num_I (insured_losses : bool) : nat :=
  if insured_losses then 2 else 1.

(** [dict(zip(eids, range(E)))]: of a repeated key the last value stays *)
Definition build_idx (eids : list Z) : gmap Z nat :=
  foldl (fun m ei => <[ei.1 := ei.2]> m) ∅ (zip eids (seq 0 (length eids))).

(** The three accumulators [_aggregate] updates, and the set [lrs]. *)
Record AggState := {
  st_agg : gmap (nat * nat) (list (list F));
  st_ass : gmap (nat * nat) (list (list ela_rec));
  st_avg : gmap (nat * nat) (list (list F));
  st_lrs : gset (nat * nat)
}.

(** The comprehension
    [[(eid, aid, loss) for eid, loss in zip(out.eids, loss_ratios)
      if loss.sum() > 0]]. *)
Definition asset_rows (aid : nat) (eids : list Z)
    (loss_ratios : list (list F)) : list ela_rec :=
  map (fun el => {| ela_eid := el.1; ela_aid := aid; ela_loss := el.2 |})
      (List.filter (fun el => fgt0 (row_sum el.2)) (zip eids loss_ratios)).

(** The body of [for i, asset in enumerate(out.assets)]. The arrays of
    [loss_ratios] have one row per event id of the output and [I]
    columns; another shape is refused. *)
Definition aggregate_asset (mon : Monitor) (A E : nat) (loss_type : string)
    (out : Output) (indices : list nat) (st : AggState)
    (ia : nat * Asset) : option AggState :=
  let I := num_I (mon_insured_losses mon) in
  let lr := out_lr out in
  let aid := ordinal ia.2 in
  loss_ratios ← out_loss_ratios out !! ia.1;
  if has_shape (length (out_eids out)) I loss_ratios then
    let losses := scale loss_ratios (value ia.2 loss_type) in
    avg' ← (if mon_avg_losses mon then
              let cur := accum_get (zeros A I) (st_avg st) lr in
              row ← cur !! aid;
              Some (<[lr := <[aid := zip_with fadd row
                       (map (fun x => fmul x (mon_ses_ratio mon))
                            (col_sums I loss_ratios))]> cur]> (st_avg st))
            else Some (st_avg st));
    let ass' :=
      if mon_loss_ratios mon then
        match asset_rows aid (out_eids out) loss_ratios with
        | [] => st_ass st
        | data => <[lr := accum_get [] (st_ass st) lr ++ [data]]> (st_ass st)
        end
      else st_ass st in
    agglr' ← iadd_at (accum_get (zeros E I) (st_agg st) lr) indices losses;
    Some {| st_agg := <[lr := agglr']> (st_agg st);
            st_ass := ass';
            st_avg := avg';
            st_lrs := st_lrs st |}
  else None.

(** The body of [for out in outputs]. *)
Definition aggregate_output (loss_types : list string) (mon : Monitor)
    (A E : nat) (idx : gmap Z nat) (st : AggState) (out : Output)
    : option AggState :=
  let I := num_I (mon_insured_losses mon) in
  let lr := out_lr out in
  loss_type ← loss_types !! lr.1;
  indices ← mapM (fun eid => idx !! eid) (out_eids out);
  let st1 := {| st_agg := <[lr := accum_get (zeros E I) (st_agg st) lr]> (st_agg st);
                st_ass := st_ass st;
                st_avg := st_avg st;
                st_lrs := {[lr]} ∪ st_lrs st |} in
  foldM (aggregate_asset mon A E loss_type out indices) st1
        (enumerate (out_assets out)).

(** The order of [sorted(lrs)] on pairs. *)
Definition lr_le (a b : nat * nat) : Prop :=
  a.1 < b.1 \/ (a.1 = b.1 /\ a.2 <= b.2).

#[export] Instance lr_le_dec a b : Decision (lr_le a b).
Proof. unfold lr_le. apply _. Defined.

(** [_aggregate]: the updated accumulators and [sorted(lrs)]. *)
Definition _aggregate (outputs : list Output) (loss_types : list string)
    (mon : Monitor) (A E : nat) (idx : gmap Z nat) (st : AggState)
    : option (AggState * list (nat * nat)) :=
  st' ← foldM (aggregate_output loss_types mon A E idx) st outputs;
  Some (st', merge_sort lr_le (elements (st_lrs st'))).

(** The result dictionary of a task. [res_avglosses] is present when
    [monitor.avg_losses] is set. *)
Record TaskResult := {
  res_agglosses : gmap (nat * nat) (list elt_rec);
  res_asslosses : gmap (nat * nat) (list ela_rec);
  res_avglosses : option (gmap (nat * nat) (list (list F)));
  res_gmfbytes : Z
}.

(** The comprehension
    [[(eids[i], loss) for i, loss in enumerate(agg[lr])
      if loss.sum() > 0]]. *)
Definition agg_records (eids : list Z) (agglr : list (list F))
    : option (list elt_rec) :=
  mapM (fun il => eid ← eids !! il.1;
                  Some {| elt_eid := eid; elt_loss := il.2 |})
       (List.filter (fun il => fgt0 (row_sum il.2)) (enumerate agglr)).

(** The body of [for lr in lrs]. *)
Definition store_agglosses (eids : list Z) (I : nat)
    (agg : gmap (nat * nat) (list (list F)))
    (acc : gmap (nat * nat) (list elt_rec)) (lr : nat * nat)
    : option (gmap (nat * nat) (list elt_rec)) :=
  records ← agg_records eids (accum_get (zeros (length eids) I) agg lr);
  match records with
  | [] => Some acc
  | _ => Some (<[lr := records]> acc)
  end.

(** [event_based_risk(riskinput, riskmodel, assetcol, monitor)], with the
    outputs of [riskmodel.gen_outputs] given. [A] is [len(assetcol)]. *)
Definition event_based_risk (eids : list Z) (outputs : list Output)
    (loss_types : list string) (A : nat) (mon : Monitor)
    : option TaskResult :=
  let I := num_I (mon_insured_losses mon) in
  let E := length eids in
  let idx := build_idx eids in
  let st0 := {| st_agg := ∅; st_ass := ∅; st_avg := ∅; st_lrs := ∅ |} in
  '(st, lrs) ← _aggregate outputs loss_types mon A E idx st0;
  agglosses ← foldM (store_agglosses eids I (st_agg st)) ∅ lrs;
  let asslosses :=
    omap (fun arrays => match arrays with
                        | [] => None
                        | _ => Some (concat arrays)
                        end) (st_ass st) in
  Some {| res_agglosses := agglosses;
          res_asslosses := asslosses;
          res_avglosses := if mon_avg_losses mon then Some (st_avg st) else None;
          res_gmfbytes := mon_gmfbytes mon |}.

(** A table of aggregate loss records is sparse when none of its entries
    is empty and every record has a total strictly greater than zero. *)
Definition sparse_table (t : gmap (nat * nat) (list elt_rec)) : Prop :=
  forall lr recs, t !! lr = Some recs ->
    recs <> [] /\ Forall (fun rec => fgt0 (row_sum (elt_loss rec)) = true) recs.

(** The rows the assets of an output add to the buffer of its pair: the
    comprehension of [asset_rows] for each asset and its loss ratios, in
    the order of the assets. *)
Definition output_rows (out : Output) : list ela_rec :=
  concat (zip_with (fun asset ratios =>
                      asset_rows (ordinal asset) (out_eids out) ratios)
                   (out_assets out) (out_loss_ratios out)).

(** The rows the outputs of the pair [lr] add to its buffer, in the order
    of the outputs. *)
Definition buffered_rows (outputs : list Output) (lr : nat * nat)
    : list ela_rec :=
  concat (map output_rows
              (List.filter (fun out => bool_decide (out_lr out = lr)) outputs)).

(** An asset loss record comes from the outputs when it is one of the
    rows of [asset_rows] of an asset of an output of the pair. *)
Definition from_outputs (outputs : list Output) (lr : nat * nat)
    (rec : ela_rec) : Prop :=
  exists out i asset ratios,
    out ∈ outputs /\ out_lr out = lr /\ out_assets out !! i = Some asset
    /\ out_loss_ratios out !! i = Some ratios
    /\ rec ∈ asset_rows (ordinal asset) (out_eids out) ratios.
End Aggregator.

Arguments Asset F : clear implicits.
Arguments Output F : clear implicits.
Arguments Monitor F : clear implicits.
Arguments elt_rec F : clear implicits.
Arguments ela_rec F : clear implicits.
Arguments AggState F : clear implicits.
Arguments TaskResult F : clear implicits.

(** ** The epsilon sources *)

(** numpy's global random generator, as far as the module uses it.
    [numpy.random.seed(s)] replaces the global state by one that depends on
    [s] alone, and raises [ValueError] for a seed outside [0, 2^32), leaving
    the state as it was; [numpy.random.normal(size=n)] returns [n] float64
    samples and the advanced state. *)
Class NumpyRandom (G F64 : Type) := {
  np_seed : Z -> option G;
  np_seed_range : forall s, is_Some (np_seed s) <-> (0 <= s < 2 ^ 32)%Z;
  np_normal : nat -> G -> list F64 * G;
  np_normal_length : forall n g, length (np_normal n g).1 = n
}.

(** The seeds [numpy.random.seed] accepts. *)
Definition valid_seed (s : Z) : Prop := (0 <= s < 2 ^ 32)%Z.

#[export] Instance valid_seed_dec s : Decision (valid_seed s).
Proof. unfold valid_seed. apply _. Defined.

(** [a[i]] for an integer [i] on an axis of length [n]: a negative index
    counts from the end, an index outside [-n, n) raises [IndexError]. *)
Definition np_index (n : nat) (i : Z) : option nat :=
  if decide (0 <= i < Z.of_nat n)%Z then Some (Z.to_nat i)
  else if decide (- Z.of_nat n <= i < 0)%Z then Some (Z.to_nat (i + Z.of_nat n))
  else None.

(** [m[a, e]] on a matrix *)
Definition matrix_get {A : Type} (m : list (list A)) (item : Z * Z) : option A :=
  a ← np_index (length m) item.1;
  row ← m !! a;
  e ← np_index (length row) item.2;
  row !! e.

(** [m[:, i] = col]: entry [a] of [col] goes to row [a], column [i] *)
Definition set_column {A : Type} (i : nat) (col : list A) (m : list (list A))
  : list (list A) :=
  imap (fun a row => match col !! a with
                     | Some v => <[i := v]> row
                     | None => row
                     end) m.

Module EpsilonMatrix0.
Section WithRandom.
Context {G F64 F32 : Type} `{NumpyRandom G F64}.
(** the conversion of a float64 sample stored into the float32 matrix,
    and the float32 zero of [numpy.zeros] *)
Variable astype_f32 : F64 -> F32.
Variable zero32 : F32.

(** The object: [num_assets], [seeds], and the cache [eps], [None]
    until the first read. *)
Record t := { num_assets : nat; seeds : list Z; eps : option (list (list F32)) }.

(** [__init__] *)
Definition init (num_assets : nat) (seeds : list Z) : t :=
  {| num_assets := num_assets; seeds := seeds; eps := None |}.

(** The body of [for i, seed in enumerate(self.seeds)], on the matrix
    and the global generator. The matrix is [None] once
    [numpy.random.seed] has raised: the loop is left, with the generator
    in the state the seeds before left it in. *)
Definition make_eps_step (N : nat) (mg : option (list (list F32)) * G)
    (iseed : nat * Z) : option (list (list F32)) * G :=
  match mg.1 with
  | None => mg
  | Some m =>
      match np_seed iseed.2 with
      | None => (None, mg.2)
      | Some g1 =>
          let '(sample, g2) := np_normal N g1 in
          (Some (set_column iseed.1 (map astype_f32 sample) m), g2)
      end
  end.

(** [make_eps]: the matrix of N x E epsilons, or [ValueError], and the
    generator after it *)
Definition make_eps (self : t) (g : G) : option (list (list F32)) * G :=
  foldl (make_eps_step (num_assets self))
        (Some (replicate (num_assets self)
                         (replicate (length (seeds self)) zero32)), g)
        (enumerate (seeds self)).

(** [__getitem__] at [item = (asset index, event index)]: the value (or
    the [ValueError] of [make_eps], or [IndexError]), the object, with its
    cache filled when [make_eps] returned, and the generator. *)
Definition getitem (self : t) (item : Z * Z) (g : G)
  : option F32 * t * G :=
  let '(om, g') := match eps self with
                   | None => make_eps self g
                   | Some m => (Some m, g)
                   end in
  match om with
  | Some m =>
      (matrix_get m item,
       {| num_assets := num_assets self; seeds := seeds self; eps := Some m |},
       g')
  | None => (None, self, g')
  end.
End WithRandom.
Arguments t F32 : clear implicits.
End EpsilonMatrix0.

Module EpsilonMatrix1.
Section WithRandom.
Context {G F64 : Type} `{NumpyRandom G F64}.

Record t := { num_events : nat; seed : Z; eps : list F64 }.

(** [__init__]: seeds the global generator and draws the vector; when
    [numpy.random.seed] raises there is no object, and the generator [g] is
    as it was *)
Definition init (num_events : nat) (seed : Z) (g : G) : option (t * G) :=
  g1 ← np_seed seed;
  let '(sample, g2) := np_normal num_events g1 in
  Some ({| num_events := num_events; seed := seed; eps := sample |}, g2).

(** [__getitem__]: [item[0]] is the asset index, [item[1]] the event
    index; the asset index is not looked at. *)
Definition getitem (self : t) (item : Z * Z) : option F64 :=
  e ← np_index (length (eps self)) item.2;
  eps self !! e.
End WithRandom.
Arguments t F64 : clear implicits.
End EpsilonMatrix1.

(** ** The datastore *)

(** The dense dataset ['avg_losses-rlzs'] of shape (A, R, C), kept by
    columns: the map sends [(r, c)] to the column [dset[:, r, c]] over the
    assets; a column that was never written reads as zeros. *)
Record AvgDset (F : Type) := {
  avg_A : nat;
  avg_R : nat;
  avg_C : nat;
  avg_cols : gmap (nat * nat) (list F)
}.
Arguments avg_A {F}.
Arguments avg_R {F}.
Arguments avg_C {F}.
Arguments avg_cols {F}.

(** A value of the dictionary of [build_agg_curve]: an array ([losses],
    [poes]) or a scalar ([avg]). *)
Inductive curve_value (F : Type) :=
| Arr (xs : list F)
| Scalar (x : F).
Arguments Arr {F}.
Arguments Scalar {F}.

(** The keys of the datastore the calculators use. The hierarchical keys
    ['agg_loss_table/rlz-%03d/%s' % (r, loss_type)] and
    ['ass_loss_ratios/rlz-%03d/%s' % (r, loss_type)] are the pairs
    [(r, loss_type)] of the two tables; a group is in the datastore when its
    table has a key.  [SC] and [SM] are the types of the statistical curves
    and maps of the statistics builder, [LM] of the loss maps of a curve
    builder. *)
Record Datastore (F SC SM LM : Type) := {
  ds_avg_losses : option (AvgDset F);
  ds_agg_loss_table : gmap (nat * string) (list (elt_rec F));
  ds_ass_loss_ratios : gmap (nat * string) (list (ela_rec F));
  (** [datastore['events'].attrs['num_events']], when ['events'] exists *)
  ds_events : option (option nat);
  (** [datastore['job_info']['gmfbytes']] *)
  ds_job_info : option Z;
  (** the attribute [nonzero_fraction] of the datasets of the two tables,
      as the pair (numerator, denominator) of the division *)
  ds_agg_nonzero : gmap (nat * string) (nat * nat);
  ds_ass_nonzero : gmap (nat * string) (nat * nat);
  (** ['rcurves-rlzs']: per field (loss type) an array (A, R, 2, C) *)
  ds_rcurves : option (gmap string (list (list (list (list F)))));
  (** ['loss_maps-rlzs']: per (loss type, realization) the maps column *)
  ds_loss_maps : option (gmap (string * nat) LM);
  ds_loss_curves_stats : option SC;
  ds_loss_maps_stats : option SM;
  (** ['agg_curve-rlzs']: the entries written, by (loss type, name, r) *)
  ds_agg_curve : option (gmap (string * string * nat) (curve_value F))
}.
Arguments ds_avg_losses {F SC SM LM}.
Arguments ds_agg_loss_table {F SC SM LM}.
Arguments ds_ass_loss_ratios {F SC SM LM}.
Arguments ds_events {F SC SM LM}.
Arguments ds_job_info {F SC SM LM}.
Arguments ds_agg_nonzero {F SC SM LM}.
Arguments ds_ass_nonzero {F SC SM LM}.
Arguments ds_rcurves {F SC SM LM}.
Arguments ds_loss_maps {F SC SM LM}.
Arguments ds_loss_curves_stats {F SC SM LM}.
Arguments ds_loss_maps_stats {F SC SM LM}.
Arguments ds_agg_curve {F SC SM LM}.

Section DatastoreOps.
Context {F SC SM LM : Type}.
Local Abbreviation DS := (Datastore F SC SM LM).

Definition set_avg_losses (v : option (AvgDset F)) (ds : DS) : DS :=
  {| ds_avg_losses := v;
     ds_agg_loss_table := ds_agg_loss_table ds;
     ds_ass_loss_ratios := ds_ass_loss_ratios ds;
     ds_events := ds_events ds; ds_job_info := ds_job_info ds;
     ds_agg_nonzero := ds_agg_nonzero ds; ds_ass_nonzero := ds_ass_nonzero ds;
     ds_rcurves := ds_rcurves ds; ds_loss_maps := ds_loss_maps ds;
     ds_loss_curves_stats := ds_loss_curves_stats ds;
     ds_loss_maps_stats := ds_loss_maps_stats ds;
     ds_agg_curve := ds_agg_curve ds |}.

Definition set_agg_loss_table (v : gmap (nat * string) (list (elt_rec F)))
    (ds : DS) : DS :=
  {| ds_avg_losses := ds_avg_losses ds;
     ds_agg_loss_table := v;
     ds_ass_loss_ratios := ds_ass_loss_ratios ds;
     ds_events := ds_events ds; ds_job_info := ds_job_info ds;
     ds_agg_nonzero := ds_agg_nonzero ds; ds_ass_nonzero := ds_ass_nonzero ds;
     ds_rcurves := ds_rcurves ds; ds_loss_maps := ds_loss_maps ds;
     ds_loss_curves_stats := ds_loss_curves_stats ds;
     ds_loss_maps_stats := ds_loss_maps_stats ds;
     ds_agg_curve := ds_agg_curve ds |}.

Definition set_ass_loss_ratios (v : gmap (nat * string) (list (ela_rec F)))
    (ds : DS) : DS :=
  {| ds_avg_losses := ds_avg_losses ds;
     ds_agg_loss_table := ds_agg_loss_table ds;
     ds_ass_loss_ratios := v;
     ds_events := ds_events ds; ds_job_info := ds_job_info ds;
     ds_agg_nonzero := ds_agg_nonzero ds; ds_ass_nonzero := ds_ass_nonzero ds;
     ds_rcurves := ds_rcurves ds; ds_loss_maps := ds_loss_maps ds;
     ds_loss_curves_stats := ds_loss_curves_stats ds;
     ds_loss_maps_stats := ds_loss_maps_stats ds;
     ds_agg_curve := ds_agg_curve ds |}.

Definition set_events (v : option (option nat)) (ds : DS) : DS :=
  {| ds_avg_losses := ds_avg_losses ds;
     ds_agg_loss_table := ds_agg_loss_table ds;
     ds_ass_loss_ratios := ds_ass_loss_ratios ds;
     ds_events := v; ds_job_info := ds_job_info ds;
     ds_agg_nonzero := ds_agg_nonzero ds; ds_ass_nonzero := ds_ass_nonzero ds;
     ds_rcurves := ds_rcurves ds; ds_loss_maps := ds_loss_maps ds;
     ds_loss_curves_stats := ds_loss_curves_stats ds;
     ds_loss_maps_stats := ds_loss_maps_stats ds;
     ds_agg_curve := ds_agg_curve ds |}.

Definition set_job_info (v : option Z) (ds : DS) : DS :=
  {| ds_avg_losses := ds_avg_losses ds;
     ds_agg_loss_table := ds_agg_loss_table ds;
     ds_ass_loss_ratios := ds_ass_loss_ratios ds;
     ds_events := ds_events ds; ds_job_info := v;
     ds_agg_nonzero := ds_agg_nonzero ds; ds_ass_nonzero := ds_ass_nonzero ds;
     ds_rcurves := ds_rcurves ds; ds_loss_maps := ds_loss_maps ds;
     ds_loss_curves_stats := ds_loss_curves_stats ds;
     ds_loss_maps_stats := ds_loss_maps_stats ds;
     ds_agg_curve := ds_agg_curve ds |}.

Definition set_nonzero (agg ass : gmap (nat * string) (nat * nat))
    (ds : DS) : DS :=
  {| ds_avg_losses := ds_avg_losses ds;
     ds_agg_loss_table := ds_agg_loss_table ds;
     ds_ass_loss_ratios := ds_ass_loss_ratios ds;
     ds_events := ds_events ds; ds_job_info := ds_job_info ds;
     ds_agg_nonzero := agg; ds_ass_nonzero := ass;
     ds_rcurves := ds_rcurves ds; ds_loss_maps := ds_loss_maps ds;
     ds_loss_curves_stats := ds_loss_curves_stats ds;
     ds_loss_maps_stats := ds_loss_maps_stats ds;
     ds_agg_curve := ds_agg_curve ds |}.

Definition set_rcurves (v : option (gmap string (list (list (list (list F))))))
    (ds : DS) : DS :=
  {| ds_avg_losses := ds_avg_losses ds;
     ds_agg_loss_table := ds_agg_loss_table ds;
     ds_ass_loss_ratios := ds_ass_loss_ratios ds;
     ds_events := ds_events ds; ds_job_info := ds_job_info ds;
     ds_agg_nonzero := ds_agg_nonzero ds; ds_ass_nonzero := ds_ass_nonzero ds;
     ds_rcurves := v; ds_loss_maps := ds_loss_maps ds;
     ds_loss_curves_stats := ds_loss_curves_stats ds;
     ds_loss_maps_stats := ds_loss_maps_stats ds;
     ds_agg_curve := ds_agg_curve ds |}.

Definition set_loss_maps (v : option (gmap (string * nat) LM)) (ds : DS) : DS :=
  {| ds_avg_losses := ds_avg_losses ds;
     ds_agg_loss_table := ds_agg_loss_table ds;
     ds_ass_loss_ratios := ds_ass_loss_ratios ds;
     ds_events := ds_events ds; ds_job_info := ds_job_info ds;
     ds_agg_nonzero := ds_agg_nonzero ds; ds_ass_nonzero := ds_ass_nonzero ds;
     ds_rcurves := ds_rcurves ds; ds_loss_maps := v;
     ds_loss_curves_stats := ds_loss_curves_stats ds;
     ds_loss_maps_stats := ds_loss_maps_stats ds;
     ds_agg_curve := ds_agg_curve ds |}.

Definition set_stats (c : option SC) (m : option SM) (ds : DS) : DS :=
  {| ds_avg_losses := ds_avg_losses ds;
     ds_agg_loss_table := ds_agg_loss_table ds;
     ds_ass_loss_ratios := ds_ass_loss_ratios ds;
     ds_events := ds_events ds; ds_job_info := ds_job_info ds;
     ds_agg_nonzero := ds_agg_nonzero ds; ds_ass_nonzero := ds_ass_nonzero ds;
     ds_rcurves := ds_rcurves ds; ds_loss_maps := ds_loss_maps ds;
     ds_loss_curves_stats := c;
     ds_loss_maps_stats := m;
     ds_agg_curve := ds_agg_curve ds |}.

Definition set_agg_curve
    (v : option (gmap (string * string * nat) (curve_value F))) (ds : DS) : DS :=
  {| ds_avg_losses := ds_avg_losses ds;
     ds_agg_loss_table := ds_agg_loss_table ds;
     ds_ass_loss_ratios := ds_ass_loss_ratios ds;
     ds_events := ds_events ds; ds_job_info := ds_job_info ds;
     ds_agg_nonzero := ds_agg_nonzero ds; ds_ass_nonzero := ds_ass_nonzero ds;
     ds_rcurves := ds_rcurves ds; ds_loss_maps := ds_loss_maps ds;
     ds_loss_curves_stats := ds_loss_curves_stats ds;
     ds_loss_maps_stats := ds_loss_maps_stats ds;
     ds_agg_curve := v |}.

(** [datastore.extend(key, rows)] on a table: the rows are appended to the
    dataset of the key, which is created when it is missing. *)
Definition extend {Rec : Type} (key : nat * string) (rows : list Rec)
    (table : gmap (nat * string) (list Rec)) : gmap (nat * string) (list Rec) :=
  <[key := accum_get [] table key ++ rows]> table.

(** ['agg_loss_table' in datastore], ['ass_loss_ratios' in datastore] *)
Definition has_group {Rec : Type} (table : gmap (nat * string) (list Rec)) : bool :=
  bool_decide (table ≠ ∅).

(** A datastore with none of the keys above but ['events']. *)
Definition empty_datastore : DS :=
  {| ds_avg_losses := None; ds_agg_loss_table := ∅; ds_ass_loss_ratios := ∅;
     ds_events := Some None; ds_job_info := None;
     ds_agg_nonzero := ∅; ds_ass_nonzero := ∅;
     ds_rcurves := None; ds_loss_maps := None;
     ds_loss_curves_stats := None; ds_loss_maps_stats := None;
     ds_agg_curve := None |}.
End DatastoreOps.

(** The parameters of the job ([oqparam]) the calculators read. The flags
    are the truth values of the parameters. *)
Record OqParam (F : Type) := {
  random_seed : Z;
  master_seed : Z;
  ruptures_per_block : nat;
  ignore_covs : bool;
  asset_correlation : bool;
  insured_losses : bool;
  avg_losses : bool;
  loss_ratios : bool;
  conditional_loss_poes : bool;
  ground_motion_fields : bool;
  hazard_curves_from_gmfs : bool;
  loss_curve_resolution : nat;
  ses_ratio : F
}.
Arguments random_seed {F}.
Arguments master_seed {F}.
Arguments ruptures_per_block {F}.
Arguments ignore_covs {F}.
Arguments asset_correlation {F}.
Arguments insured_losses {F}.
Arguments avg_losses {F}.
Arguments loss_ratios {F}.
Arguments conditional_loss_poes {F}.
Arguments ground_motion_fields {F}.
Arguments hazard_curves_from_gmfs {F}.
Arguments loss_curve_resolution {F}.
Arguments ses_ratio {F}.

(** What the calculators log. *)
Inductive log_entry :=
| WarnStoreGMFs           (* 'To store the ground motion fields change ...' *)
| WarnHazardCurves        (* 'To compute the hazard curves change ...' *)
| DebugSaving (sm_id start stop : nat)
| InfoGenerated (gmfbytes : Z)
| WarnNoLosses.           (* 'No losses were generated: most likely ...' *)

(** The exceptions told apart. *)
Inductive exn :=
| RuntimeError (msg : string)
| ZeroDivisionError
| OtherError.

(** [random_seed + numpy.arange(num_events)]. For a [random_seed] that
    fits int64 this is an int64 array, the sum wrapping around. For a
    [random_seed] outside int64 numpy leaves the integers of 64 bits (the
    sum is an array of floats or of objects) and the seeds are no longer
    the integers [random_seed + k]; the model does not follow numpy there
    and gives no array. *)
Definition wrap64 (z : Z) : Z := ((z + 2 ^ 63) mod 2 ^ 64 - 2 ^ 63)%Z.

Definition seed_array (random_seed : Z) (num_events : nat) : option (list Z) :=
  if decide (- 2 ^ 63 <= random_seed < 2 ^ 63)%Z then
    Some (map (fun k => wrap64 (random_seed + Z.of_nat k)) (seq 0 num_events))
  else None.


(** ** The task distributor and reducer: [EbriskCalculator] *)

(** A rupture of the stochastic event set. *)
Record EBRupture := { serial : Z; multiplicity : nat }.

(** The order of [sort(key=operator.attrgetter('serial'))] *)
Definition serial_le (a b : EBRupture) : Prop := (serial a <= serial b)%Z.

#[export] Instance serial_le_dec a b : Decision (serial_le a b).
Proof. unfold serial_le. apply _. Defined.

(** The [eps] argument of a risk input. *)
Inductive epsilon_source (F32 F64 : Type) :=
| NoEps
| Eps1 (e : EpsilonMatrix1.t F64)
| Eps0 (e : EpsilonMatrix0.t F32).
Arguments NoEps {F32 F64}.
Arguments Eps1 {F32 F64}.
Arguments Eps0 {F32 F64}.

(** The arguments of [RiskInputFromRuptures] that vary from block to block:
    the group, the ruptures of the block and the epsilon source. *)
Record RiskInput (F32 F64 : Type) := {
  ri_grp_id : nat;
  ri_ruptures : list EBRupture;
  ri_eps : epsilon_source F32 F64
}.
Arguments ri_grp_id {F32 F64}.
Arguments ri_ruptures {F32 F64}.
Arguments ri_eps {F32 F64}.

(** The seeds a risk input was given: those of an [EpsilonMatrix0], the one
    master seed of an [EpsilonMatrix1], none without epsilons. *)
Definition ri_seeds {F32 F64 : Type} (ri : RiskInput F32 F64) : list Z :=
  match ri_eps ri with
  | NoEps => []
  | Eps1 e => [EpsilonMatrix1.seed e]
  | Eps0 e => EpsilonMatrix0.seeds e
  end.

(** What [csm_info.get_info(sm_id)] gives for a source model: the ordinal,
    the ids of its source groups (the keys of [get_sm_by_grp()]) and the
    number of realizations of [get_rlzs_assoc], which depends on the
    ruptures through [count_ruptures]. *)
Record SourceModel := {
  sm_ordinal : nat;
  sm_grp_ids : list nat;
  sm_num_rlzs : gmap nat (list EBRupture) -> nat
}.

(** The attributes [build_starmap] returns with the starmap. *)
Record StarmapAttrs := {
  num_ruptures : gmap nat nat;
  num_events : nat;
  num_rlzs : nat;
  sm_id : nat
}.

(** An [IterResult] as [save_results] sees it: the attributes, the slice
    of realizations, and the results of its tasks in the order in which
    they complete. *)
Record IterResult (F : Type) := {
  ir_attrs : StarmapAttrs;
  ir_rlz_slice : nat * nat;
  ir_tasks : list (TaskResult F)
}.
Arguments ir_attrs {F}.
Arguments ir_rlz_slice {F}.
Arguments ir_tasks {F}.

(** The consecutive slices of realizations of source models with the
    given numbers of realizations, from [start] on *)
Fixpoint rlz_slices (start : nat) (ns : list nat) : list (nat * nat) :=
  match ns with
  | [] => []
  | n :: ns' => (start, start + n) :: rlz_slices (start + n) ns'
  end.

Module EbriskCalculator.
Section Calculator.
Context {G F64 F32 : Type} `{NumpyRandom G F64}.
Context {F SC SM LM : Type} `{Arith F}.
Local Abbreviation DS := (Datastore F SC SM LM).

(** [openquake.baselib.general.block_splitter(items, max_weight)] *)
Variable block_splitter : list EBRupture -> nat -> list (list EBRupture).

(** The calculator: the datastore, the counter [gmfbytes] and the log. *)
Record t := { datastore : DS; gmfbytes : Z; log : list log_entry }.

(** [sum(ebr.multiplicity for ebr in rupts)] *)
Definition count_events (rupts : list EBRupture) : nat :=
  sum_list (map multiplicity rupts).

(** The body of [for rupts in block_splitter(...)] on [start], the global
    generator and [allargs]. It raises when the [EpsilonMatrix1] cannot be
    built. *)
Definition starmap_block (oq : OqParam F) (covs : bool) (num_assets : nat)
    (n_all : nat) (seeds : list Z) (grp_id : nat)
    (st : nat * G * list (RiskInput F32 F64)) (rupts : list EBRupture)
    : option (nat * G * list (RiskInput F32 F64)) :=
  let '(start, g, allargs) := st in
  '(eps, start', g') ←
    (if ignore_covs oq || negb covs then Some (NoEps, start, g)
     else if asset_correlation oq then
       '(e, g1) ← EpsilonMatrix1.init n_all (master_seed oq) g;
       Some (Eps1 e, start, g1)
     else
       let n_events := count_events rupts in
       Some (Eps0 (EpsilonMatrix0.init num_assets
                     (take n_events (drop start seeds))),
             start + n_events, g));
  Some (start', g',
        allargs ++ [{| ri_grp_id := grp_id; ri_ruptures := rupts;
                       ri_eps := eps |}]).

(** The body of [for grp_id in grp_ids]. *)
Definition starmap_group (oq : OqParam F) (covs : bool) (num_assets : nat)
    (ruptures_by_grp : gmap nat (list EBRupture)) (n_all : nat)
    (seeds : list Z) (st : nat * G * list (RiskInput F32 F64)) (grp_id : nat)
    : option (nat * G * list (RiskInput F32 F64)) :=
  foldM (starmap_block oq covs num_assets n_all seeds grp_id) st
        (block_splitter (accum_get [] ruptures_by_grp grp_id)
                        (ruptures_per_block oq)).

(** [build_starmap]: the arguments of the tasks, the attributes, and the
    global generator afterwards. [covs] is the truth value of
    [riskmodel.covs], [num_assets] is [len(self.assetcol)]. *)
Definition build_starmap (oq : OqParam F) (covs : bool) (num_assets : nat)
    (sm : SourceModel) (ruptures_by_grp : gmap nat (list EBRupture)) (g : G)
    : option (list (RiskInput F32 F64) * StarmapAttrs * G) :=
  let grp_ids := merge_sort Nat.le (sm_grp_ids sm) in
  let n_all := sum_list (map (fun kv => count_events kv.2)
                             (map_to_list ruptures_by_grp)) in
  seeds ← seed_array (random_seed oq) n_all;
  '(_, g', allargs) ←
    foldM (starmap_group oq covs num_assets ruptures_by_grp n_all seeds)
          (0, g, []) grp_ids;
  Some (allargs,
        {| num_ruptures := (fun rupts => length rupts) <$> ruptures_by_grp;
           num_events := n_all;
           num_rlzs := sm_num_rlzs sm ruptures_by_grp;
           sm_id := sm_ordinal sm |},
        g').

(** The loop of [execute] over the source models, up to the submission of
    the tasks: per source model the risk inputs submitted, the attributes
    and the slice [rlz_slice]; [num_rlzs] is the running total. *)
Definition submit_model (oq : OqParam F) (covs : bool) (num_assets : nat)
    (ruptures_by_grp : gmap nat (list EBRupture))
    (st : nat * G * list (list (RiskInput F32 F64) * StarmapAttrs * (nat * nat)))
    (sm : SourceModel)
    : option (nat * G
              * list (list (RiskInput F32 F64) * StarmapAttrs * (nat * nat))) :=
  let '(n_rlzs, g, allres) := st in
  '(allargs, attrs, g') ←
    build_starmap oq covs num_assets sm ruptures_by_grp g;
  Some (n_rlzs + num_rlzs attrs, g',
        allres ++ [(allargs, attrs, (n_rlzs, n_rlzs + num_rlzs attrs))]).

Definition submit_all (oq : OqParam F) (covs : bool) (num_assets : nat)
    (source_models : list SourceModel)
    (ruptures_by_grp : gmap nat (list EBRupture)) (g : G)
    : option (nat * G
              * list (list (RiskInput F32 F64) * StarmapAttrs * (nat * nat))) :=
  foldM (submit_model oq covs num_assets ruptures_by_grp) (0, g, [])
        source_models.

(** All the risk inputs dispatched in a run, in the order of dispatch. *)
Definition dispatched (oq : OqParam F) (covs : bool) (num_assets : nat)
    (source_models : list SourceModel)
    (ruptures_by_grp : gmap nat (list EBRupture)) (g : G)
    : option (list (RiskInput F32 F64)) :=
  st ← submit_all oq covs num_assets source_models ruptures_by_grp g;
  Some (concat (map (fun x => x.1.1) st.2)).

(** [column j] of a matrix: [m[:, j]] *)
Definition column (j : nat) (m : list (list F)) : option (list F) :=
  mapM (fun row => row !! j) m.

(** [dset[:, r, c] += v] on the dense dataset: an index outside the shape
    raises, as does a [v] that has not one entry per asset. *)
Definition dset_iadd (dset : AvgDset F) (r c : nat) (v : list F)
    : option (AvgDset F) :=
  if decide (r < avg_R dset /\ c < avg_C dset /\ length v = avg_A dset) then
    Some {| avg_A := avg_A dset; avg_R := avg_R dset; avg_C := avg_C dset;
            avg_cols :=
              <[(r, c) := zip_with fadd
                  (accum_get (replicate (avg_A dset) fzero) (avg_cols dset) (r, c))
                  v]> (avg_cols dset) |}
  else None.

(** [v * vs], one value per asset on both sides *)
Definition mul_values (v vs : list F) : option (list F) :=
  if decide (length v = length vs) then Some (zip_with fmul v vs) else None.

(** The body of [for (l, r), losses in dic.pop('avglosses').items()].
    [vals loss_type] is [self.vals[loss_type]], the values of the assets. *)
Definition save_avglosses (loss_types : list string) (vals : string -> list F)
    (L : nat) (ins : bool) (start : nat) (dset : AvgDset F)
    (item : nat * nat * list (list F)) : option (AvgDset F) :=
  let '(l, r, losses) := item in
  loss_type ← loss_types !! l;
  let vs := vals loss_type in
  col0 ← column 0 losses;
  v0 ← mul_values col0 vs;
  dset1 ← dset_iadd dset (r + start) l v0;
  if ins then
    col1 ← column 1 losses;
    v1 ← mul_values col1 vs;
    dset_iadd dset1 (r + start) (l + L) v1
  else Some dset1.

(** The body of one of the two loops of [save_losses]. *)
Definition save_losses_item {Rec : Type} (loss_types : list string)
    (offset : nat) (table : gmap (nat * string) (list Rec))
    (item : nat * nat * list Rec) : option (gmap (nat * string) (list Rec)) :=
  let '(l, r, rows) := item in
  loss_type ← loss_types !! l;
  Some (extend (r + offset, loss_type) rows table).

(** [save_losses(agglosses, asslosses, offset)] *)
Definition save_losses (loss_types : list string)
    (agglosses : gmap (nat * nat) (list (elt_rec F)))
    (asslosses : gmap (nat * nat) (list (ela_rec F)))
    (offset : nat) (ds : DS) : option DS :=
  agg ← foldM (save_losses_item loss_types offset) (ds_agg_loss_table ds)
              (map_to_list agglosses);
  ass ← foldM (save_losses_item loss_types offset) (ds_ass_loss_ratios ds)
              (map_to_list asslosses);
  Some (set_ass_loss_ratios ass (set_agg_loss_table agg ds)).

(** The body of [for dic in res]. *)
Definition save_task (oq : OqParam F) (loss_types : list string)
    (vals : string -> list F) (L : nat) (start : nat) (self : t)
    (dic : TaskResult F) : option t :=
  ds1 ← (if avg_losses oq then
           avglosses ← res_avglosses dic;
           dset ← ds_avg_losses (datastore self);
           dset' ← foldM (save_avglosses loss_types vals L
                                         (insured_losses oq) start)
                         dset (map_to_list avglosses);
           Some (set_avg_losses (Some dset') (datastore self))
         else Some (datastore self));
  ds2 ← save_losses loss_types (res_agglosses dic) (res_asslosses dic) start ds1;
  Some {| datastore := ds2;
          gmfbytes := (gmfbytes self + res_gmfbytes dic)%Z;
          log := log self |}.

(** The body of [for res in allres], on the calculator and [num_events].
    No attribute [ruptures_by_grp] is ever set on a result, so that
    [save_events] is not called. *)
Definition save_result (oq : OqParam F) (loss_types : list string)
    (vals : string -> list F) (L : nat) (st : t * nat) (res : IterResult F)
    : option (t * nat) :=
  let '(start, stop) := ir_rlz_slice res in
  self ← foldM (save_task oq loss_types vals L start) st.1 (ir_tasks res);
  Some ({| datastore := datastore self;
           gmfbytes := gmfbytes self;
           log := log self ++ [DebugSaving (sm_id (ir_attrs res) + 1) start stop] |},
        st.2 + num_events (ir_attrs res)).

(** [save_results(allres, num_rlzs)]: the calculator afterwards and the
    total number of events. [loss_types] is [riskmodel.loss_types], [L] is
    [len(riskmodel.lti)], [A] is [len(self.assetcol)]. *)
Definition save_results (oq : OqParam F) (loss_types : list string)
    (vals : string -> list F) (L A : nat) (self : t)
    (allres : list (IterResult F)) (n_rlzs : nat) : option (t * nat) :=
  let ins := insured_losses oq in
  let ds0 :=
    if avg_losses oq then
      set_avg_losses
        (Some {| avg_A := A; avg_R := n_rlzs;
                 avg_C := L * (if ins then 2 else 1); avg_cols := ∅ |})
        (datastore self)
    else datastore self in
  let self0 := {| datastore := ds0; gmfbytes := 0; log := log self |} in
  '(self1, n_events) ← foldM (save_result oq loss_types vals L) (self0, 0) allres;
  match ds_events (datastore self1) with
  | Some _ =>
      Some ({| datastore := set_events (Some (Some n_events)) (datastore self1);
               gmfbytes := gmfbytes self1;
               log := log self1 |}, n_events)
  | None => None
  end.

(** [post_execute] of the parent class [EventBasedRuptureCalculator] *)
Variable parent_post_execute : t -> nat -> exn + t.

(** The attribute [nonzero_fraction = len(ds) / denom] of every dataset
    of a table *)
Definition nonzero_fractions {Rec : Type} (denom : nat)
    (table : gmap (nat * string) (list Rec)) : gmap (nat * string) (nat * nat) :=
  (fun rows => (length rows, denom)) <$> table.

(** [post_execute(num_events)]. The byte counts of [set_nbytes] are not
    part of the model. *)
Definition post_execute (A : nat) (self : t) (n_events : nat) : exn + t :=
  match parent_post_execute self n_events with
  | inl e => inl e
  | inr self1 =>
      if (gmfbytes self1 =? 0)%Z then
        inl (RuntimeError ("No GMFs were generated, perhaps they were " ++
                           "all below the minimum_intensity threshold"))
      else
        let log1 := log self1 ++ [InfoGenerated (gmfbytes self1)] in
        let ds1 := set_job_info (Some (gmfbytes self1)) (datastore self1) in
        let E := n_events in
        if has_group (ds_ass_loss_ratios ds1) && (A * E =? 0) then
          inl ZeroDivisionError
        else
          let ass_nz :=
            if has_group (ds_ass_loss_ratios ds1)
            then nonzero_fractions (A * E) (ds_ass_loss_ratios ds1)
            else ds_ass_nonzero ds1 in
          if negb (has_group (ds_agg_loss_table ds1)) then
            inr {| datastore := set_nonzero (ds_agg_nonzero ds1) ass_nz ds1;
                   gmfbytes := gmfbytes self1;
                   log := log1 ++ [WarnNoLosses] |}
          else if E =? 0 then inl ZeroDivisionError
          else
            inr {| datastore :=
                     set_nonzero (nonzero_fractions E (ds_agg_loss_table ds1))
                                 ass_nz ds1;
                   gmfbytes := gmfbytes self1;
                   log := log1 |}
  end.

(** The pool: the results of the tasks submitted for a source model, in
    the order in which they complete. *)
Variable run_tasks : list (RiskInput F32 F64) -> list (TaskResult F).

(** [execute], up to the data transfer report: the ruptures are sorted by
    serial, the tasks are submitted per source model, the results are
    saved. *)
Definition execute (oq : OqParam F) (covs : bool) (loss_types : list string)
    (L : nat) (assetcol : list (Asset F)) (source_models : list SourceModel)
    (ruptures_by_grp : gmap nat (list EBRupture)) (self : t) (g : G)
    : option (t * nat) :=
  let log1 := log self
              ++ (if ground_motion_fields oq then [WarnStoreGMFs] else [])
              ++ (if hazard_curves_from_gmfs oq then [WarnHazardCurves] else []) in
  let sorted :=
    merge_sort serial_le <$> ruptures_by_grp in
  '(n_rlzs, _, submitted) ←
    submit_all oq covs (length assetcol) source_models sorted g;
  let allres :=
    map (fun x => {| ir_attrs := x.1.2; ir_rlz_slice := x.2;
                     ir_tasks := run_tasks x.1.1 |}) submitted in
  save_results oq loss_types (fun lt => map (fun a => value a lt) assetcol)
               L (length assetcol)
               {| datastore := datastore self; gmfbytes := gmfbytes self;
                  log := log1 |}
               allres n_rlzs.
End Calculator.
Arguments t F SC SM LM : clear implicits.
End EbriskCalculator.


(** ** The aggregate curves: [build_agg_curve] *)

Section AggCurve.
Context {F : Type} `{Arith F}.

(** [scientific.event_based(loss_values, ses_ratio, curve_resolution)] and
    [scientific.average_loss((losses, poes))] of the risk library *)
Variable event_based : list F -> F -> nat -> option (list F * list F).
Variable average_loss : list F * list F -> option F.

(** [data['loss'][:, j]], the column [j] of the losses of the records
    (column 0 is the ground loss, column 1 the insured loss) *)
Definition loss_column (j : nat) (data : list (elt_rec F)) : option (list F) :=
  mapM (fun rec => elt_loss rec !! j) data.

(** The body of [for l, r, data in lr_data]. *)
Definition build_agg_curve_item (insured : bool) (ratio : F) (C : nat)
    (result : gmap (nat * nat * string) (curve_value F))
    (item : nat * nat * list (elt_rec F))
    : option (gmap (nat * nat * string) (curve_value F)) :=
  let '(l, r, data) := item in
  if length data =? 0 then Some result
  else
    gloss ← loss_column 0 data;
    lp ← event_based gloss ratio C;
    avg ← average_loss lp;
    let result1 := <[(l, r, "avg") := Scalar avg]>
                     (<[(l, r, "poes") := Arr lp.2]>
                        (<[(l, r, "losses") := Arr lp.1]> result)) in
    if insured then
      iloss ← loss_column 1 data;
      lp_ins ← event_based iloss ratio C;
      avg_ins ← average_loss lp_ins;
      Some (<[(l, r, "avg_ins") := Scalar avg_ins]>
              (<[(l, r, "poes_ins") := Arr lp_ins.2]>
                 (<[(l, r, "losses_ins") := Arr lp_ins.1]> result1)))
    else Some result1.

(** [build_agg_curve(lr_data, insured_losses, ses_ratio, curve_resolution,
    L, monitor)]: the dictionary [(l, r, name) -> value] *)
Definition build_agg_curve (lr_data : list (nat * nat * list (elt_rec F)))
    (insured : bool) (ratio : F) (C : nat)
    : option (gmap (nat * nat * string) (curve_value F)) :=
  foldM (build_agg_curve_item insured ratio C) ∅ lr_data.
End AggCurve.

(** ** The post-calculator: [EbrPostCalculator] *)

(** A numpy array of any dimension: its shape and its entries in C order *)
Record ndarray (F : Type) := { nd_shape : list nat; nd_data : list F }.
Arguments nd_shape {F}.
Arguments nd_data {F}.

(** A curve builder of the risk model. [cb_call] is the call
    [cb(assets, ratios_by_aid, ses_ratio)], which returns the ordinals of
    the assets with a curve and the curves; [cb_build_loss_maps] is
    [cb.build_loss_maps(assetcol.array, rcurves)]. *)
Record CurveBuilder (F LM : Type) := {
  cb_loss_type : string;
  cb_user_provided : bool;
  cb_curve_resolution : nat;
  cb_ratios : list F;
  cb_call : list (Asset F) -> gmap nat (list (ela_rec F)) -> F
            -> option (list nat * ndarray F);
  cb_build_loss_maps : list (Asset F)
                       -> gmap string (list (list (list (list F))))
                       -> option (list (nat * LM))
}.
Arguments cb_loss_type {F LM}.
Arguments cb_user_provided {F LM}.
Arguments cb_curve_resolution {F LM}.
Arguments cb_ratios {F LM}.
Arguments cb_call {F LM}.
Arguments cb_build_loss_maps {F LM}.

(** The composite risk model, as far as the post-calculator reads it. *)
Record RiskModel (F LM : Type) := {
  rm_loss_types : list string;
  rm_lti : gmap string nat;
  rm_curve_builders : list (CurveBuilder F LM)
}.
Arguments rm_loss_types {F LM}.
Arguments rm_lti {F LM}.
Arguments rm_curve_builders {F LM}.

(** A realization of the logic tree. *)
Record Realization (F : Type) := { rlz_ordinal : nat; rlz_weight : F }.
Arguments rlz_ordinal {F}.
Arguments rlz_weight {F}.

(** An output handed to the statistics builder ([scientific.Output]). *)
Record StatOutput (F : Type) := {
  so_assets : list nat;
  so_loss_type : string;
  so_ordinal : nat;
  so_weight : F;
  so_loss_curves : list (list F * list F);
  so_insured_curves : option (list (list F * list F));
  so_average_losses : list F;
  so_average_insured_losses : option (list F)
}.

(** [a.reshape(n1, n2, n3)]: the same entries in C order; raises when the
    sizes differ *)
Definition reshape3 {F : Type} (a : ndarray F) (n1 n2 n3 : nat)
    : option (list (list (list F))) :=
  if decide (length (nd_data a) = n1 * n2 * n3) then
    Some (chunks n2 n1 (chunks n3 (n1 * n2) (nd_data a)))
  else None.

(** Broadcasting along one axis: to length [n] from length [n] or 1 *)
Definition broadcast_axis {A : Type} (n : nat) (xs : list A) : option (list A) :=
  if decide (length xs = n) then Some xs
  else match xs with
       | [x] => Some (replicate n x)
       | _ => None
       end.

(** A block of two dimensions broadcast to the shape of the block [old] *)
Definition broadcast_block {F : Type} (old v : list (list F))
    : option (list (list F)) :=
  v' ← mapM (broadcast_axis (length (hd [] old))) v;
  broadcast_axis (length old) v'.

(** The write of the block of one asset at [field[a, r]], broadcast to the
    shape of the entry it replaces *)
Definition setitem_entry {F : Type} (r : nat)
    (acc : list (list (list (list F)))) (ab : nat * list (list F))
    : option (list (list (list (list F)))) :=
  per_rlz ← acc !! ab.1;
  old ← per_rlz !! r;
  block ← broadcast_block old ab.2;
  Some (<[ab.1 := <[r := block]> per_rlz]> acc).

(** [field[aids, r] = v] on a field of shape (A, R, 2, C): the value is
    broadcast to the shape (len(aids), 2, C) of the entries addressed, which
    are written asset after asset; an index out of range raises. *)
Definition setitem_aids_r {F : Type} (field : list (list (list (list F))))
    (aids : list nat) (r : nat) (v : list (list (list F)))
    : option (list (list (list (list F)))) :=
  v' ← broadcast_axis (length aids) v;
  foldM (setitem_entry r) field (zip aids v').


Module EbrPostCalculator.
Section Calculator.
Context {F SC SM LM : Type} `{Arith F}.
Local Abbreviation DS := (Datastore F SC SM LM).

(** [group_array(data, 'aid')] of baselib, and the functions of the risk
    library behind [build_agg_curve] and the statistics builder
    ([StatsBuilder.get_curves_maps]) *)
Variable group_array : list (ela_rec F) -> gmap nat (list (ela_rec F)).
Variable event_based : list F -> F -> nat -> option (list F * list F).
Variable average_loss : list F * list F -> option F.
Variable get_curves_maps : gmap string (list (StatOutput F)) -> option (SC * SM).

(** [numpy.zeros((A, R, 2), multi_lr_dt)]: one field per loss type, each
    of [curve_resolution] floats *)
Definition alloc_rcurves (A R : nat) (rm : RiskModel F LM)
    : gmap string (list (list (list (list F)))) :=
  foldl (fun m (lc : string * CurveBuilder F LM) =>
           <[lc.1 := replicate A (replicate R
                       (replicate 2 (replicate (cb_curve_resolution lc.2) fzero)))]> m)
        ∅ (zip (rm_loss_types rm) (rm_curve_builders rm)).

(** The realization indices [r] of the names [rlz-r] under
    ['ass_loss_ratios'] *)
Definition rlz_names {Rec : Type} (table : gmap (nat * string) (list Rec))
    : list nat :=
  elements (set_map (D:=gset nat) fst (dom table)).

(** The body of [for cb in self.riskmodel.curve_builders] for the
    realization [r]. *)
Definition save_rcurves_cb (oq : OqParam F) (assets : list (Asset F))
    (I : nat) (ds : DS) (r : nat)
    (rcurves : gmap string (list (list (list (list F)))))
    (cb : CurveBuilder F LM)
    : option (gmap string (list (list (list (list F))))) :=
  match ds_ass_loss_ratios ds !! (r, cb_loss_type cb) with
  | None => Some rcurves                      (* except KeyError: continue *)
  | Some data =>
      if cb_user_provided cb then
        '(aids, curves) ← cb_call cb assets (group_array data) (ses_ratio oq);
        if length aids =? 0 then Some rcurves  (* no curve *)
        else
          match nd_shape curves with
          | A :: L :: _ =>
              v ← reshape3 curves A I L;
              field ← rcurves !! cb_loss_type cb;
              field' ← setitem_aids_r field aids r v;
              Some (<[cb_loss_type cb := field']> rcurves)
          | _ => None
          end
      else Some rcurves
  end.

(** [save_rcurves(rcurves, I)] *)
Definition save_rcurves (oq : OqParam F) (rm : RiskModel F LM)
    (assets : list (Asset F))
    (rcurves : gmap string (list (list (list (list F))))) (I : nat) (ds : DS)
    : option DS :=
  if has_group (ds_ass_loss_ratios ds) then
    rcurves' ← foldM (fun rc r =>
                        foldM (save_rcurves_cb oq assets I ds r) rc
                              (rm_curve_builders rm))
                     rcurves (rlz_names (ds_ass_loss_ratios ds));
    Some (set_rcurves (Some rcurves') ds)
  else None.

(** [save_loss_maps(N, R)] *)
Definition save_loss_maps (oq : OqParam F) (rm : RiskModel F LM)
    (assets : list (Asset F)) (R : nat) (ds : DS) : option DS :=
  match conditional_loss_poes oq, ds_rcurves ds with
  | true, Some rcurves =>
      loss_maps ←
        foldM (fun lm (cb : CurveBuilder F LM) =>
                 if cb_user_provided cb then
                   maps ← cb_build_loss_maps cb assets rcurves;
                   foldM (fun lm' (rm' : nat * LM) =>
                            if decide (rm'.1 < R)
                            then Some (<[(cb_loss_type cb, rm'.1) := rm'.2]> lm')
                            else None) lm maps
                 else Some lm)
              ∅ (rm_curve_builders rm);
      Some (set_loss_maps (Some loss_maps) ds)
  | _, _ => Some ds
  end.

(** [_old_loss_curves(asset_values, rcurves, ratios)] *)
Definition _old_loss_curves (asset_values : list F) (rcurves : list (list F))
    (ratios : list F) : list (list F * list F) :=
  zip_with (fun avalue poes => (map (fun x => fmul avalue x) ratios, poes))
           asset_values rcurves.

(** [avg_losses[:, r, c]] *)
Definition avg_column (dset : AvgDset F) (r c : nat) : option (list F) :=
  if decide (r < avg_R dset /\ c < avg_C dset)
  then Some (accum_get (replicate (avg_A dset) fzero) (avg_cols dset) (r, c))
  else None.

(** [rcurves[:, r, i]] on a field of shape (A, R, 2, C) *)
Definition rcurves_column (field : list (list (list (list F)))) (r i : nat)
    : option (list (list F)) :=
  mapM (fun per_asset => per_rlz ← per_asset !! r; per_rlz !! i) field.

(** The body of [for rlz in rlzs] of [_collect_all_data]. [avg] is the
    dataset ['avg_losses-rlzs'], read when [oq.avg_losses] is set. *)
Definition collect_rlz (oq : OqParam F) (assets : list (Asset F)) (L l : nat)
    (cb : CurveBuilder F LM) (field : list (list (list (list F))))
    (avg : option (AvgDset F)) (rlz : Realization F) : option (StatOutput F) :=
  let A := length assets in
  let insured := insured_losses oq in
  let asset_values := map (fun a => value a (cb_loss_type cb)) assets in
  avgs ← (if avg_losses oq then
            dset ← avg;
            al ← avg_column dset (rlz_ordinal rlz) l;
            if insured then
              ail ← avg_column dset (rlz_ordinal rlz) (l + L);
              Some (al, Some ail)
            else Some (al, None)
          else Some (replicate A fzero, Some (replicate A fzero)));
  c0 ← rcurves_column field (rlz_ordinal rlz) 0;
  ic ← (if insured then
          c1 ← rcurves_column field (rlz_ordinal rlz) 1;
          Some (Some (_old_loss_curves asset_values c1 (cb_ratios cb)))
        else Some None);
  Some {| so_assets := map ordinal assets;
          so_loss_type := cb_loss_type cb;
          so_ordinal := rlz_ordinal rlz;
          so_weight := rlz_weight rlz;
          so_loss_curves := _old_loss_curves asset_values c0 (cb_ratios cb);
          so_insured_curves := ic;
          so_average_losses := avgs.1;
          so_average_insured_losses := avgs.2 |}.

(** [_collect_all_data]: the outputs by loss type. It is called when
    ['rcurves-rlzs'] is in the datastore. *)
Definition _collect_all_data (oq : OqParam F) (rm : RiskModel F LM)
    (assets : list (Asset F)) (rlzs : list (Realization F)) (ds : DS)
    : option (gmap string (list (StatOutput F))) :=
  avg ← (if avg_losses oq then
           dset ← ds_avg_losses ds; Some (Some dset)
         else Some None);
  r_curves ← ds_rcurves ds;
  let L := size (rm_lti rm) in
  foldM (fun data_by_lt (lcb : nat * CurveBuilder F LM) =>
           field ← r_curves !! cb_loss_type lcb.2;
           data ← mapM (collect_rlz oq assets L lcb.1 lcb.2 field avg) rlzs;
           Some (<[cb_loss_type lcb.2 := data]> data_by_lt))
        ∅ (enumerate (rm_curve_builders rm)).

(** [compute_store_stats(rlzs, builder)] *)
Definition compute_store_stats (oq : OqParam F) (rm : RiskModel F LM)
    (assets : list (Asset F)) (rlzs : list (Realization F)) (ds : DS)
    : option DS :=
  data_by_lt ← _collect_all_data oq rm assets rlzs ds;
  if bool_decide (data_by_lt = ∅) then Some ds
  else
    cm ← get_curves_maps data_by_lt;
    Some (set_stats (Some cm.1)
                    (if conditional_loss_poes oq then Some cm.2
                     else ds_loss_maps_stats ds)
                    ds).

(** The method [build_agg_curve]: one curve per realization, from the
    aggregate loss table. The tasks of [parallel.apply] each run
    [build_agg_curve] on a part of [lr_data] and their dictionaries, which
    have no key in common, are merged; this is the run on the whole list. *)
Definition build_agg_curve (oq : OqParam F) (rm : RiskModel F LM) (R : nat)
    (ds : DS) : option DS :=
  lr_data ← mapM (fun kv : nat * string * list (elt_rec F) =>
                    l ← rm_lti rm !! kv.1.2;
                    Some (l, kv.1.1, kv.2))
                 (map_to_list (ds_agg_loss_table ds));
  result ← build_agg_curve event_based average_loss lr_data
             (insured_losses oq) (ses_ratio oq) (loss_curve_resolution oq);
  agg_curve ← foldM (fun acc (kv : nat * nat * string * curve_value F) =>
                       lt ← rm_loss_types rm !! kv.1.1.1;
                       if decide (kv.1.1.2 < R)
                       then Some (<[(lt, kv.1.2, kv.1.1.2) := kv.2]> acc)
                       else None)
                    ∅ (map_to_list result);
  Some (set_agg_curve (Some agg_curve) ds).

(** [build_stats]. [rlzs] are the realizations of
    [datastore['csm_info'].get_rlzs_assoc()]. *)
Definition build_stats (oq : OqParam F) (rm : RiskModel F LM)
    (assets : list (Asset F)) (rlzs : list (Realization F)) (ds : DS)
    : option DS :=
  ds1 ← (if has_group (ds_agg_loss_table ds)
         then build_agg_curve oq rm (length rlzs) ds
         else Some ds);
  if 1 <? length rlzs then
    match ds_rcurves ds1 with
    | Some _ => compute_store_stats oq rm assets rlzs ds1
    | None => Some ds1
    end
  else Some ds1.

(** [execute] *)
Definition execute (oq : OqParam F) (rm : RiskModel F LM)
    (assets : list (Asset F)) (rlzs : list (Realization F)) (ds : DS)
    : option DS :=
  let A := length assets in
  let I := num_I (insured_losses oq) in
  let R := length rlzs in
  let rcurves := alloc_rcurves A R rm in
  ds1 ← (if loss_ratios oq then save_rcurves oq rm assets rcurves I ds
         else Some ds);
  ds2 ← (if conditional_loss_poes oq then save_loss_maps oq rm assets R ds1
         else Some ds1);
  build_stats oq rm assets rlzs ds2.
End Calculator.
End EbrPostCalculator.

(** ** The writes of a task, and stores that differ in the order of rows *)

Section Writes.
Context {F SC SM LM : Type} `{Arith F}.

(** The rows of a table under a key, none when the key is missing *)
Definition rows_at {Rec : Type} (key : nat * string)
    (table : gmap (nat * string) (list Rec)) : list Rec :=
  accum_get [] table key.

(** Two tables with the same keys and, under each key, the same rows up to
    their order *)
Definition table_equiv {Rec : Type}
    (t1 t2 : gmap (nat * string) (list Rec)) : Prop :=
  forall key, (is_Some (t1 !! key) <-> is_Some (t2 !! key))
              /\ rows_at key t1 ≡ₚ rows_at key t2.

(** Two datastores that agree but for the order of the rows of the two
    loss tables *)
Definition ds_equiv (d1 d2 : Datastore F SC SM LM) : Prop :=
  ds_avg_losses d1 = ds_avg_losses d2
  /\ table_equiv (ds_agg_loss_table d1) (ds_agg_loss_table d2)
  /\ table_equiv (ds_ass_loss_ratios d1) (ds_ass_loss_ratios d2)
  /\ ds_events d1 = ds_events d2
  /\ ds_job_info d1 = ds_job_info d2
  /\ ds_agg_nonzero d1 = ds_agg_nonzero d2
  /\ ds_ass_nonzero d1 = ds_ass_nonzero d2
  /\ ds_rcurves d1 = ds_rcurves d2
  /\ ds_loss_maps d1 = ds_loss_maps d2
  /\ ds_loss_curves_stats d1 = ds_loss_curves_stats d2
  /\ ds_loss_maps_stats d1 = ds_loss_maps_stats d2
  /\ ds_agg_curve d1 = ds_agg_curve d2.

Definition calc_equiv (s1 s2 : EbriskCalculator.t F SC SM LM) : Prop :=
  ds_equiv (EbriskCalculator.datastore s1) (EbriskCalculator.datastore s2)
  /\ EbriskCalculator.gmfbytes s1 = EbriskCalculator.gmfbytes s2
  /\ EbriskCalculator.log s1 = EbriskCalculator.log s2.

(** Two results of [save_results]: both raise, or both return the same
    number of events and calculators that agree up to the order of rows *)
Definition results_equiv
    (r1 r2 : option (EbriskCalculator.t F SC SM LM * nat)) : Prop :=
  match r1, r2 with
  | Some (s1, n1), Some (s2, n2) => n1 = n2 /\ calc_equiv s1 s2
  | None, None => True
  | _, _ => False
  end.

(** Two dense datasets of the same shape (A, R, C) in which the same
    columns were written, whatever their values *)
Definition dset_same_shape (d1 d2 : AvgDset F) : Prop :=
  avg_A d1 = avg_A d2 /\ avg_R d1 = avg_R d2 /\ avg_C d1 = avg_C d2
  /\ forall key, is_Some (avg_cols d1 !! key) <-> is_Some (avg_cols d2 !! key).

(** Two datastores that agree but for the order of the rows of the two
    loss tables and for the values of ['avg_losses-rlzs'], of which only
    the shape and the columns written are compared *)
Definition ds_equiv_tables (d1 d2 : Datastore F SC SM LM) : Prop :=
  option_Forall2 dset_same_shape (ds_avg_losses d1) (ds_avg_losses d2)
  /\ table_equiv (ds_agg_loss_table d1) (ds_agg_loss_table d2)
  /\ table_equiv (ds_ass_loss_ratios d1) (ds_ass_loss_ratios d2)
  /\ ds_events d1 = ds_events d2
  /\ ds_job_info d1 = ds_job_info d2
  /\ ds_agg_nonzero d1 = ds_agg_nonzero d2
  /\ ds_ass_nonzero d1 = ds_ass_nonzero d2
  /\ ds_rcurves d1 = ds_rcurves d2
  /\ ds_loss_maps d1 = ds_loss_maps d2
  /\ ds_loss_curves_stats d1 = ds_loss_curves_stats d2
  /\ ds_loss_maps_stats d1 = ds_loss_maps_stats d2
  /\ ds_agg_curve d1 = ds_agg_curve d2.

Definition calc_equiv_tables (s1 s2 : EbriskCalculator.t F SC SM LM) : Prop :=
  ds_equiv_tables (EbriskCalculator.datastore s1)
                  (EbriskCalculator.datastore s2)
  /\ EbriskCalculator.gmfbytes s1 = EbriskCalculator.gmfbytes s2
  /\ EbriskCalculator.log s1 = EbriskCalculator.log s2.


(** Two lists of results that differ in the order in which the tasks of
    each source model complete *)
Definition same_tasks (allres1 allres2 : list (IterResult F)) : Prop :=
  Forall2 (fun res1 res2 =>
             ir_attrs res1 = ir_attrs res2
             /\ ir_rlz_slice res1 = ir_rlz_slice res2
             /\ ir_tasks res1 ≡ₚ ir_tasks res2) allres1 allres2.

(** The additions [dset[:, r, c] += v] an item of ['avglosses'] asks for *)
Definition avg_updates (loss_types : list string) (vals : string -> list F)
    (L : nat) (ins : bool) (start : nat) (item : nat * nat * list (list F))
    : option (list (nat * nat * list F)) :=
  let '(l, r, losses) := item in
  loss_type ← loss_types !! l;
  let vs := vals loss_type in
  col0 ← EbriskCalculator.column 0 losses;
  v0 ← EbriskCalculator.mul_values col0 vs;
  if ins then
    col1 ← EbriskCalculator.column 1 losses;
    v1 ← EbriskCalculator.mul_values col1 vs;
    Some [(r + start, l, v0); (r + start, l + L, v1)]
  else Some [(r + start, l, v0)].

Definition apply_avg_update (dset : AvgDset F) (u : nat * nat * list F)
    : option (AvgDset F) :=
  EbriskCalculator.dset_iadd dset u.1.1 u.1.2 u.2.

(** The calls [extend(key, rows)] an item of a loss dictionary asks for *)
Definition table_update {Rec : Type} (loss_types : list string) (offset : nat)
    (item : nat * nat * list Rec) : option (nat * string * list Rec) :=
  let '(l, r, rows) := item in
  loss_type ← loss_types !! l;
  Some (r + offset, loss_type, rows).

Definition apply_table_update {Rec : Type}
    (table : gmap (nat * string) (list Rec)) (u : nat * string * list Rec)
    : gmap (nat * string) (list Rec) :=
  extend u.1 u.2 table.

(** All the writes of a task *)
Record Writes := {
  w_avg : list (nat * nat * list F);
  w_agg : list (nat * string * list (elt_rec F));
  w_ass : list (nat * string * list (ela_rec F));
  w_gmfbytes : Z
}.

Definition task_writes (oq : OqParam F) (loss_types : list string)
    (vals : string -> list F) (L : nat) (start : nat) (dic : TaskResult F)
    : option Writes :=
  au ← (if avg_losses oq then
          avglosses ← res_avglosses dic;
          @concat _ <$> mapM (avg_updates loss_types vals L (insured_losses oq) start)
                          (map_to_list avglosses)
        else Some []);
  gu ← mapM (table_update loss_types start) (map_to_list (res_agglosses dic));
  su ← mapM (table_update loss_types start) (map_to_list (res_asslosses dic));
  Some {| w_avg := au; w_agg := gu; w_ass := su;
          w_gmfbytes := res_gmfbytes dic |}.

Definition join_writes (ws : list Writes) : Writes :=
  {| w_avg := concat (map w_avg ws);
     w_agg := concat (map w_agg ws);
     w_ass := concat (map w_ass ws);
     w_gmfbytes := foldr Z.add 0%Z (map w_gmfbytes ws) |}.

Definition apply_writes (oq : OqParam F) (self : EbriskCalculator.t F SC SM LM)
    (w : Writes) : option (EbriskCalculator.t F SC SM LM) :=
  let ds := EbriskCalculator.datastore self in
  ds1 ← (if avg_losses oq then
           dset ← ds_avg_losses ds;
           dset' ← foldM apply_avg_update dset (w_avg w);
           Some (set_avg_losses (Some dset') ds)
         else Some ds);
  Some {| EbriskCalculator.datastore :=
            set_ass_loss_ratios
              (foldl apply_table_update (ds_ass_loss_ratios ds1) (w_ass w))
              (set_agg_loss_table
                 (foldl apply_table_update (ds_agg_loss_table ds1) (w_agg w))
                 ds1);
          EbriskCalculator.gmfbytes :=
            (EbriskCalculator.gmfbytes self + w_gmfbytes w)%Z;
          EbriskCalculator.log := EbriskCalculator.log self |}.
End Writes.
Arguments Writes F : clear implicits.

(** ** Concrete inputs *)

(** The scenario of two assets of values 100 and 200 and three events, in
    binary32: the loss ratios [0.1, 0, 0.2] of the first asset in
    realization 0 and [0, 0.3, 0] of the second in realization 1. *)
Module Scenario.
Import Binary32.

Definition A1 : Asset f32 := {| ordinal := 0; value := fun _ => of_Z 100 |}.
Definition A2 : Asset f32 := {| ordinal := 1; value := fun _ => of_Z 200 |}.

Definition eids : list Z := [0; 1; 2]%Z.

Definition out0 : Output f32 :=
  {| out_lr := (0, 0); out_eids := eids; out_assets := [A1];
     out_loss_ratios := [[[of_ratio 1 10]; [zero]; [of_ratio 2 10]]] |}.

Definition out1 : Output f32 :=
  {| out_lr := (0, 1); out_eids := eids; out_assets := [A2];
     out_loss_ratios := [[[zero]; [of_ratio 3 10]; [zero]]] |}.

Definition monitor : Monitor f32 :=
  {| mon_avg_losses := true; mon_loss_ratios := true;
     mon_insured_losses := false; mon_ses_ratio := of_Z 1;
     mon_gmfbytes := 96%Z |}.

Definition loss_types : list string := ["structural"].

(** An asset whose value is zero, with a loss ratio of one half in the
    single event 7. *)
Definition A0 : Asset f32 := {| ordinal := 0; value := fun _ => zero |}.

Definition out_zero_value : Output f32 :=
  {| out_lr := (0, 0); out_eids := [7%Z]; out_assets := [A0];
     out_loss_ratios := [[[of_ratio 1 2]]] |}.

(** Insured losses: a ground loss ratio of one half, an insured loss
    ratio of zero. *)
Definition monitor_insured : Monitor f32 :=
  {| mon_avg_losses := false; mon_loss_ratios := true;
     mon_insured_losses := true; mon_ses_ratio := of_Z 1;
     mon_gmfbytes := 32%Z |}.

Definition out_insured : Output f32 :=
  {| out_lr := (0, 0); out_eids := [7%Z]; out_assets := [A1];
     out_loss_ratios := [[[of_ratio 1 2; zero]]] |}.
End Scenario.

(** A small congruential generator, standing in for the generator of numpy
    where a concrete one is needed; its samples are integers. *)
Module ToyRandom.
Definition next (g : Z) : Z := ((1103515245 * g + 12345) mod 2 ^ 31)%Z.

Fixpoint draw (n : nat) (g : Z) : list Z * Z :=
  match n with
  | 0 => ([], g)
  | S n' => let g1 := next g in
            let '(xs, g2) := draw n' g1 in
            (g1 :: xs, g2)
  end.

(** The state after [seed(s)] is [s]; a seed outside [0, 2^32) is
    refused. *)
Definition seed (s : Z) : option Z :=
  if decide (0 <= s < 2 ^ 32)%Z then Some s else None.

#[global] Instance toy_random : NumpyRandom Z Z.
Proof.
  refine {| np_seed := seed; np_normal := draw |}.
  - intros s. unfold seed. case_decide; split; intros Hs;
      [done|by eexists|by destruct Hs|done].
  - intros n. induction n as [|n IH]; intros g; simpl; [reflexivity|].
    specialize (IH (next g)). destruct (draw n (next g)). simpl in *.
    by rewrite IH.
Defined.
End ToyRandom.

(** Two source models with one source group and one rupture of one event
    each, epsilons without asset correlation, random seed 42. *)
Module TwoModels.
(** Modelled from the spec: [block_splitter] of baselib is not part of the
    sources; the work is partitioned "by a configured block size", here
    into consecutive blocks of [max_weight] ruptures. *)
Definition block_splitter (items : list EBRupture) (max_weight : nat)
    : list (list EBRupture) :=
  chunks max_weight (Nat.div (length items + max_weight - 1) max_weight) items.

Definition oq : OqParam Binary32.f32 :=
  {| random_seed := 42; master_seed := 0; ruptures_per_block := 10;
     ignore_covs := false; asset_correlation := false;
     insured_losses := false; avg_losses := false; loss_ratios := false;
     conditional_loss_poes := false; ground_motion_fields := false;
     hazard_curves_from_gmfs := false; loss_curve_resolution := 2;
     ses_ratio := Binary32.of_Z 1 |}.

(** The same job with asset correlation. *)
Definition oq_corr : OqParam Binary32.f32 :=
  {| random_seed := 42; master_seed := 5; ruptures_per_block := 1;
     ignore_covs := false; asset_correlation := true;
     insured_losses := false; avg_losses := false; loss_ratios := false;
     conditional_loss_poes := false; ground_motion_fields := false;
     hazard_curves_from_gmfs := false; loss_curve_resolution := 2;
     ses_ratio := Binary32.of_Z 1 |}.

Definition sm0 : SourceModel :=
  {| sm_ordinal := 0; sm_grp_ids := [0]; sm_num_rlzs := fun _ => 1 |}.
Definition sm1 : SourceModel :=
  {| sm_ordinal := 1; sm_grp_ids := [1]; sm_num_rlzs := fun _ => 1 |}.

Definition ruptures_by_grp : gmap nat (list EBRupture) :=
  {[ 0 := [{| serial := 1; multiplicity := 1 |}];
     1 := [{| serial := 2; multiplicity := 1 |}] ]}.

(** One source model with two groups of two and one ruptures, blocks of
    one rupture. *)
Definition sm01 : SourceModel :=
  {| sm_ordinal := 0; sm_grp_ids := [1; 0]; sm_num_rlzs := fun _ => 1 |}.

Definition oq_blocks : OqParam Binary32.f32 :=
  {| random_seed := 42; master_seed := 0; ruptures_per_block := 1;
     ignore_covs := false; asset_correlation := false;
     insured_losses := false; avg_losses := false; loss_ratios := false;
     conditional_loss_poes := false; ground_motion_fields := false;
     hazard_curves_from_gmfs := false; loss_curve_resolution := 2;
     ses_ratio := Binary32.of_Z 1 |}.

Definition ruptures_three : gmap nat (list EBRupture) :=
  {[ 0 := [{| serial := 1; multiplicity := 2 |};
           {| serial := 2; multiplicity := 1 |}];
     1 := [{| serial := 3; multiplicity := 3 |}] ]}.
End TwoModels.

(** Two tasks of one source model with two realizations: the task of the
    scenario and a task with the event 3, in binary32; and three tasks in
    exact arithmetic. *)
Module Reduction.
Import Binary32.


(** An output without losses: all loss ratios are zero. *)
Definition out_no_loss : Output f32 :=
  {| out_lr := (0, 0); out_eids := Scenario.eids; out_assets := [Scenario.A1];
     out_loss_ratios := [[[zero]; [zero]; [zero]]] |}.

Definition oq : OqParam f32 :=
  {| random_seed := 42; master_seed := 0; ruptures_per_block := 10;
     ignore_covs := false; asset_correlation := false;
     insured_losses := false; avg_losses := true; loss_ratios := true;
     conditional_loss_poes := false; ground_motion_fields := false;
     hazard_curves_from_gmfs := false; loss_curve_resolution := 2;
     ses_ratio := of_Z 1 |}.

Definition attrs : StarmapAttrs :=
  {| num_ruptures := ∅; num_events := 4; num_rlzs := 2; sm_id := 0 |}.

Definition vals (loss_type : string) : list f32 :=
  map (fun a => value a loss_type) [Scenario.A1; Scenario.A2].

Definition calc0 : EbriskCalculator.t f32 unit unit unit :=
  {| EbriskCalculator.datastore := empty_datastore;
     EbriskCalculator.gmfbytes := 0;
     EbriskCalculator.log := [] |}.

Definition allres {F : Type} (tasks : list (TaskResult F))
    : list (IterResult F) :=
  [{| ir_attrs := attrs; ir_rlz_slice := (0, 2); ir_tasks := tasks |}].


(** A task that only adds [x] to the average loss of the single asset. *)
Definition avg_task (x : f32) : TaskResult f32 :=
  {| res_agglosses := ∅; res_asslosses := ∅;
     res_avglosses := Some {[ (0, 0) := [[x]] ]};
     res_gmfbytes := 8 |}.

Definition unit_vals (loss_type : string) : list f32 := [of_Z 1].

(** Exact arithmetic. *)
Definition oqZ : OqParam Z :=
  {| random_seed := 42; master_seed := 0; ruptures_per_block := 10;
     ignore_covs := false; asset_correlation := false;
     insured_losses := false; avg_losses := true; loss_ratios := true;
     conditional_loss_poes := false; ground_motion_fields := false;
     hazard_curves_from_gmfs := false; loss_curve_resolution := 2;
     ses_ratio := 1%Z |}.

Definition calcZ : EbriskCalculator.t Z unit unit unit :=
  {| EbriskCalculator.datastore := empty_datastore;
     EbriskCalculator.gmfbytes := 0;
     EbriskCalculator.log := [] |}.

Definition taskZ (eid : Z) (loss avg1 avg2 : Z) : TaskResult Z :=
  {| res_agglosses := {[ (0, 0) := [{| elt_eid := eid; elt_loss := [loss] |}] ]};
     res_asslosses := ∅;
     res_avglosses := Some {[ (0, 0) := [[avg1]; [avg2]] ]};
     res_gmfbytes := 8 |}.

Definition valsZ (loss_type : string) : list Z := [100; 200]%Z.

(** A calculator after the reduction: 96 bytes of ground motion fields
    and no loss table. *)
Definition calc_done : EbriskCalculator.t f32 unit unit unit :=
  {| EbriskCalculator.datastore := empty_datastore;
     EbriskCalculator.gmfbytes := 96;
     EbriskCalculator.log := [] |}.

(** The parent [post_execute] taken to return without a change. *)
Definition parent_returns {F : Type}
    (self : EbriskCalculator.t F unit unit unit) (n : nat)
    : exn + EbriskCalculator.t F unit unit unit := inr self.
End Reduction.

(** A post-calculation with one asset, one loss type with a curve of two
    points, no insured losses, in binary32. The functions of the risk
    library stand for the real ones, which are not part of the sources. *)
Module PostExample.
Import Binary32.

(** [group_array(data, 'aid')]: the records by the ordinal of the asset *)
Definition group_array (data : list (ela_rec f32))
    : gmap nat (list (ela_rec f32)) :=
  foldl (fun m rec => <[ela_aid rec := accum_get [] m (ela_aid rec) ++ [rec]]> m)
        ∅ data.

Definition event_based (losses : list f32) (ratio : f32) (C : nat)
    : option (list f32 * list f32) :=
  Some (losses, map (fun _ => ratio) losses).

Definition average_loss (lp : list f32 * list f32) : option f32 :=
  Some (row_sum lp.1).

(** The statistics builder taken to return the outputs it is given. *)
Definition get_curves_maps (data : gmap string (list (StatOutput f32)))
    : option (gmap string (list (StatOutput f32))
              * gmap string (list (StatOutput f32))) :=
  Some (data, data).

(** A curve builder that returns the one curve [0.5, 0.25] for the asset
    0, as an array of shape (1, 2). *)
Definition cb : CurveBuilder f32 unit :=
  {| cb_loss_type := "structural"; cb_user_provided := true;
     cb_curve_resolution := 2;
     cb_ratios := [of_ratio 1 10; of_ratio 2 10];
     cb_call := fun _ _ _ =>
       Some ([0], {| nd_shape := [1; 2];
                     nd_data := [of_ratio 1 2; of_ratio 1 4] |});
     cb_build_loss_maps := fun _ _ => Some [] |}.

Definition rm : RiskModel f32 unit :=
  {| rm_loss_types := ["structural"];
     rm_lti := {[ "structural" := 0 ]};
     rm_curve_builders := [cb] |}.

Definition oq : OqParam f32 :=
  {| random_seed := 42; master_seed := 0; ruptures_per_block := 10;
     ignore_covs := false; asset_correlation := false;
     insured_losses := false; avg_losses := false; loss_ratios := true;
     conditional_loss_poes := false; ground_motion_fields := false;
     hazard_curves_from_gmfs := false; loss_curve_resolution := 2;
     ses_ratio := of_Z 1 |}.

Definition ds : Datastore f32 (gmap string (list (StatOutput f32)))
                          (gmap string (list (StatOutput f32))) unit :=
  set_ass_loss_ratios
    {[ (0, "structural") :=
         [{| ela_eid := 7%Z; ela_aid := 0; ela_loss := [of_ratio 1 2] |}] ]}
    empty_datastore.

Definition one_rlz : list (Realization f32) :=
  [{| rlz_ordinal := 0; rlz_weight := of_Z 1 |}].

Definition two_rlzs : list (Realization f32) :=
  [{| rlz_ordinal := 0; rlz_weight := of_ratio 1 2 |};
   {| rlz_ordinal := 1; rlz_weight := of_ratio 1 2 |}].
End PostExample.

(** ** The matrix of accumulators: [square] *)

(** [square(L, R, factory)]: the matrix of shape (L, R) whose elements are
    the results of the calls [factory()], made row after row. The thunk may
    read and change a state: it is a function from the state to the element
    and the state after the call. *)
Section Square.
Context {St X : Type}.
Variable factory : St -> X * St.

(** The body of [for r in range(R)]: [n] calls, element after element. *)
Fixpoint calls (n : nat) (s : St) : list X * St :=
  match n with
  | 0 => ([], s)
  | S n' =>
      let '(x, s1) := factory s in
      let '(xs, s2) := calls n' s1 in
      (x :: xs, s2)
  end.

(** The body of [for l in range(L)]. *)
Fixpoint square (L R : nat) (s : St) : list (list X) * St :=
  match L with
  | 0 => ([], s)
  | S L' =>
      let '(row, s1) := calls R s in
      let '(rows, s2) := square L' R s1 in
      (row :: rows, s2)
  end.
End Square.

(** ** The shapes the aggregator keeps *)

Section AggregatorShapes.
Context {F : Type} `{Arith F}.

(** The accumulators of [_aggregate] have the shapes they were created
    with and hold keys of [lrs] only: the dense aggregates are of shape
    (E, I), the average losses of shape (A, I), and the loss of every asset
    loss record has [I] entries. *)
Definition shapes_kept (A E I : nat) (st : AggState F) : Prop :=
  (forall lr m, st_agg st !! lr = Some m -> has_shape E I m = true)
  /\ (forall lr m, st_avg st !! lr = Some m -> has_shape A I m = true)
  /\ (forall lr arrays, st_ass st !! lr = Some arrays ->
        Forall (Forall (fun rec => length (ela_loss rec) = I)) arrays)
  /\ (forall lr, is_Some (st_agg st !! lr) \/ is_Some (st_avg st !! lr)
                 \/ is_Some (st_ass st !! lr) -> lr ∈ st_lrs st).
End AggregatorShapes.

(** ** Stores that grow *)

(** A table extends another when it has its keys and, under each key, its
    rows first, in the same order. *)
Definition table_extends {Rec : Type}
    (t1 t2 : gmap (nat * string) (list Rec)) : Prop :=
  forall key, (is_Some (t1 !! key) -> is_Some (t2 !! key))
              /\ rows_at key t1 `prefix_of` rows_at key t2.

(** The columns written of the dense dataset are inside its shape. *)
Definition dset_in_shape {F : Type} (dset : AvgDset F) : Prop :=
  forall r c col, avg_cols dset !! (r, c) = Some col ->
    r < avg_R dset /\ c < avg_C dset /\ length col = avg_A dset.

(** ** The post-calculator and what it is given *)

(** The names under which [build_agg_curve] stores the values of a pair
    (loss type, realization): three of the ground losses and, with insured
    losses, three of the insured losses. *)
Definition curve_names (insured : bool) : list string :=
  ["losses"; "poes"; "avg"]
  ++ (if insured then ["losses_ins"; "poes_ins"; "avg_ins"] else []).

(** What the calculator of the losses left in the datastore: the average
    losses, the two tables with their attributes, the number of events and
    the size of the ground motion fields. *)
Definition ebrisk_outputs {F SC SM LM : Type} (ds : Datastore F SC SM LM) :=
  (ds_avg_losses ds, ds_agg_loss_table ds, ds_ass_loss_ratios ds,
   ds_events ds, ds_job_info ds, ds_agg_nonzero ds, ds_ass_nonzero ds).

(** A field of ['rcurves-rlzs'] of shape (A, R, 2, C). *)
Definition field_shape {F : Type} (A R C : nat)
    (field : list (list (list (list F)))) : Prop :=
  length field = A
  /\ Forall (fun per_rlz =>
               length per_rlz = R
               /\ Forall (fun entry =>
                            length entry = 2
                            /\ Forall (fun row => length row = C) entry)
                         per_rlz)
            field.

(** ** More concrete inputs *)

(** Calculators in the middle of a run. *)
Module Growth.
Import Binary32.

(** An aggregate loss table with one row of the event 9, in exact
    arithmetic. *)
Definition calc_row : EbriskCalculator.t Z unit unit unit :=
  {| EbriskCalculator.datastore :=
       set_agg_loss_table
         {[ (0, "structural") := [{| elt_eid := 9; elt_loss := [7%Z] |}] ]}
         empty_datastore;
     EbriskCalculator.gmfbytes := 5;
     EbriskCalculator.log := [] |}.

(** A datastore without the dataset ['events']. *)
Definition calc_no_events : EbriskCalculator.t Z unit unit unit :=
  {| EbriskCalculator.datastore := set_events None empty_datastore;
     EbriskCalculator.gmfbytes := 0;
     EbriskCalculator.log := [] |}.

(** The dataset ['avg_losses-rlzs'] of two assets, two realizations and
    one loss type, as [save_results] creates it. *)
Definition calc_avg : EbriskCalculator.t f32 unit unit unit :=
  {| EbriskCalculator.datastore :=
       set_avg_losses
         (Some {| avg_A := 2; avg_R := 2; avg_C := 1; avg_cols := ∅ |})
         empty_datastore;
     EbriskCalculator.gmfbytes := 0;
     EbriskCalculator.log := [] |}.

(** After the reduction: 96 bytes of ground motion fields, two aggregate
    loss records and one asset loss record of the realization 0. *)
Definition calc_tables : EbriskCalculator.t f32 unit unit unit :=
  {| EbriskCalculator.datastore :=
       set_ass_loss_ratios
         {[ (0, "structural") :=
              [{| ela_eid := 0; ela_aid := 0; ela_loss := [of_ratio 1 10] |}] ]}
         (set_agg_loss_table
            {[ (0, "structural") :=
                 [{| elt_eid := 0; elt_loss := [of_Z 10] |};
                  {| elt_eid := 2; elt_loss := [of_Z 20] |}] ]}
            empty_datastore);
     EbriskCalculator.gmfbytes := 96;
     EbriskCalculator.log := [] |}.

(** The datastore of the post-calculation after the curves of two
    realizations were stored, with an aggregate loss table of the
    realization 1. *)
Definition ds_curves
    : Datastore f32 (gmap string (list (StatOutput f32)))
                (gmap string (list (StatOutput f32))) unit :=
  set_agg_loss_table
    {[ (1, "structural") := [{| elt_eid := 1%Z; elt_loss := [of_Z 60] |}] ]}
    (set_rcurves
       (Some {[ "structural" :=
                  [[ [[of_ratio 1 2; of_ratio 1 4]; [zero; zero]];
                     [[of_ratio 1 4; of_ratio 1 8]; [zero; zero]] ]] ]})
       PostExample.ds).



End Growth.

(** * Properties *)

(** ** Loops that may raise *)

Lemma foldM_app {A B : Type} (f : B -> A -> option B) (b : B) (xs ys : list A) :
  foldM f b (xs ++ ys) = foldM f b xs ≫= fun b' => foldM f b' ys.
Proof.
  revert b. induction xs as [|x xs IH]; intros b; simpl; [done|].
  destruct (f b x); simpl; [apply IH | done].
Qed.

(** An invariant of the body, on the elements of the list, is an
    invariant of the loop. *)
Lemma foldM_invariant_in {A B : Type} (P : B -> Prop) (f : B -> A -> option B)
    (xs : list A) (b b' : B) :
  (forall b x b', x ∈ xs -> P b -> f b x = Some b' -> P b') ->
  P b -> foldM f b xs = Some b' -> P b'.
Proof.
  revert b. induction xs as [|x xs IH]; intros b Hstep Hb; simpl.
  - intros [= <-]. exact Hb.
  - destruct (f b x) as [b1|] eqn:E; [|done]. apply IH.
    + intros b0 y b0' Hy. apply Hstep. by right.
    + eapply Hstep; [by left|exact Hb|exact E].
Qed.

(** An invariant of the body is an invariant of the loop. *)
Lemma foldM_invariant {A B : Type} (P : B -> Prop) (f : B -> A -> option B)
    (xs : list A) (b b' : B) :
  (forall b x b', P b -> f b x = Some b' -> P b') ->
  P b -> foldM f b xs = Some b' -> P b'.
Proof.
  intros Hstep. revert b. induction xs as [|x xs IH]; intros b Hb; simpl.
  - intros [= <-]. exact Hb.
  - destruct (f b x) as [b1|] eqn:E; [|done]. eauto.
Qed.

Lemma enumerate_snoc {A : Type} (xs : list A) (x : A) :
  enumerate (xs ++ [x]) = enumerate xs ++ [(length xs, x)].
Proof.
  unfold enumerate. rewrite length_app. simpl.
  rewrite Nat.add_1_r, seq_S. simpl.
  rewrite zip_with_app by (by rewrite length_seq). done.
Qed.

Lemma zip_with_snoc_lookup {A B C : Type} (f : A -> B -> C) (xs : list A)
    (x : A) (ys : list B) (y : B) :
  ys !! length xs = Some y ->
  zip_with f (xs ++ [x]) ys = zip_with f xs ys ++ [f x y].
Proof.
  revert ys. induction xs as [|x0 xs IH]; intros [|y0 ys] Hy; simpl in *;
    try done.
  - injection Hy as ->. by destruct ys.
  - by rewrite IH.
Qed.

(** ** The sparse aggregate table *)

Section AggregatorFacts.
Context {F : Type} `{Arith F}.

Lemma agg_records_positive (eids : list Z) (agglr : list (list F))
    (recs : list (elt_rec F)) :
  agg_records eids agglr = Some recs ->
  Forall (fun rec => fgt0 (row_sum (elt_loss rec)) = true) recs.
Proof.
  unfold agg_records. intros Hm. apply mapM_Some in Hm.
  assert (Hf : Forall (fun il : nat * list F => fgt0 (row_sum il.2) = true)
                 (List.filter (fun il => fgt0 (row_sum il.2)) (enumerate agglr))).
  { apply Forall_forall. intros il Hin. apply list_elem_of_In in Hin.
    apply filter_In in Hin. tauto. }
  revert Hf. induction Hm as [|il rec l k Hrec _ IH]; intros Hf; [constructor|].
  inversion Hf as [|? ? Hil Hl]; subst. constructor; [|by apply IH].
  destruct (eids !! il.1); simpl in Hrec; [|done].
  injection Hrec as <-. exact Hil.
Qed.

Lemma store_agglosses_sparse (eids : list Z) (I : nat)
    (agg : gmap (nat * nat) (list (list F)))
    (acc acc' : gmap (nat * nat) (list (elt_rec F))) (lr : nat * nat) :
  sparse_table acc -> store_agglosses eids I agg acc lr = Some acc' ->
  sparse_table acc'.
Proof.
  unfold store_agglosses. intros Hacc Hs.
  destruct (agg_records eids _) as [records|] eqn:E; simpl in Hs; [|done].
  apply agg_records_positive in E.
  destruct records as [|rec records]; injection Hs as <-; [done|].
  intros lr' recs. rewrite lookup_insert.
  case_decide; [|by apply Hacc]. intros [= <-]. done.
Qed.

(** C1. Every record of the result of [event_based_risk] under
    ['agglosses'] has a total loss, summed over the insured dimensions,
    strictly greater than zero, for every pair (loss type, realization);
    a pair is a key of the result only with at least one such record:
    the rows of the dense aggregate with total zero are not in the
    sparse array. *)
Theorem agglosses_sparsity (eids : list Z) (outputs : list (Output F))
    (loss_types : list string) (A : nat) (mon : Monitor F)
    (res : TaskResult F) (lr : nat * nat) (recs : list (elt_rec F)) :
  event_based_risk eids outputs loss_types A mon = Some res ->
  res_agglosses res !! lr = Some recs ->
  recs <> [] /\ Forall (fun rec => fgt0 (row_sum (elt_loss rec)) = true) recs.
Proof.
  unfold event_based_risk. intros Hr.
  destruct (_aggregate _ _ _ _ _ _ _) as [[st lrs]|]; simpl in Hr; [|done].
  destruct (foldM _ ∅ lrs) as [agglosses|] eqn:Hf; simpl in Hr; [|done].
  injection Hr as <-. simpl.
  revert lr recs. change (sparse_table agglosses).
  eapply (foldM_invariant sparse_table); [|..|exact Hf].
  - intros b x b'. apply store_agglosses_sparse.
  - intros lr recs. by rewrite lookup_empty.
Qed.

(** ** The asset loss records *)

Lemma asset_rows_elem (aid : nat) (eids : list Z) (ratios : list (list F))
    (rec : ela_rec F) :
  rec ∈ asset_rows aid eids ratios <->
  exists k, eids !! k = Some (ela_eid rec) /\ ratios !! k = Some (ela_loss rec)
            /\ ela_aid rec = aid /\ fgt0 (row_sum (ela_loss rec)) = true.
Proof.
  unfold asset_rows. rewrite list_elem_of_In, in_map_iff. split.
  - intros ([eid row] & <- & Hin). apply filter_In in Hin as [Hin Hpos].
    apply list_elem_of_In, list_elem_of_lookup in Hin as [k Hk].
    apply lookup_zip_with_Some in Hk as (x & y & [= <- <-] & Hx & Hy).
    exists k. done.
  - intros (k & Hx & Hy & <- & Hpos).
    exists (ela_eid rec, ela_loss rec). split; [by destruct rec|].
    apply filter_In. split; [|done].
    apply list_elem_of_In, list_elem_of_lookup. exists k.
    apply lookup_zip_with_Some. eauto.
Qed.

(** What one asset of an output adds to the buffer of asset loss records
    of the pair of the output, and to its dense aggregate. *)
Lemma aggregate_asset_effect (mon : Monitor F) (A E : nat) (loss_type : string)
    (out : Output F) (indices : list nat) (st st' : AggState F) (i : nat)
    (asset : Asset F) :
  aggregate_asset mon A E loss_type out indices st (i, asset) = Some st' ->
  exists ratios,
    out_loss_ratios out !! i = Some ratios /\
    concat (accum_get [] (st_ass st') (out_lr out)) =
      concat (accum_get [] (st_ass st) (out_lr out)) ++
      (if mon_loss_ratios mon
       then asset_rows (ordinal asset) (out_eids out) ratios else []) /\
    (st_agg st' !! out_lr out) =
      iadd_at (accum_get (zeros E (num_I (mon_insured_losses mon))) (st_agg st)
                         (out_lr out))
              indices (scale ratios (value asset loss_type)).
Proof.
  unfold aggregate_asset. simpl. intros Hs.
  destruct (out_loss_ratios out !! i) as [ratios|]; simpl in Hs; [|done].
  exists ratios. split; [done|].
  destruct (has_shape _ _ ratios); [|done].
  destruct (if mon_avg_losses mon then _ else _) as [avg'|]; simpl in Hs; [|done].
  destruct (iadd_at _ indices _) as [agglr'|]; simpl in Hs; [|done].
  injection Hs as <-. simpl. split; [|by rewrite lookup_insert_eq].
  destruct (mon_loss_ratios mon); [|by rewrite app_nil_r].
  destruct (asset_rows _ _ ratios) as [|rec data] eqn:Hdata.
  - by rewrite app_nil_r.
  - unfold accum_get at 1. rewrite lookup_insert_eq.
    rewrite concat_app. simpl. by rewrite app_nil_r.
Qed.

(** An asset leaves the buffers of the other pairs as they are. *)
Lemma aggregate_asset_other (mon : Monitor F) (A E : nat) (loss_type : string)
    (out : Output F) (indices : list nat) (st st' : AggState F)
    (ia : nat * Asset F) (lr : nat * nat) :
  aggregate_asset mon A E loss_type out indices st ia = Some st' ->
  lr <> out_lr out -> st_ass st' !! lr = st_ass st !! lr.
Proof.
  unfold aggregate_asset. simpl. intros Hstep Hne.
  destruct (out_loss_ratios out !! ia.1); simpl in Hstep; [|done].
  destruct (has_shape _ _ _); [|done].
  destruct (if mon_avg_losses mon then _ else _); simpl in Hstep; [|done].
  destruct (iadd_at _ _ _); simpl in Hstep; [|done].
  injection Hstep as <-. simpl.
  destruct (mon_loss_ratios mon); [|done].
  destruct (asset_rows _ _ _); [done|]. by rewrite lookup_insert_ne.
Qed.

(** What the loop over the assets of an output adds to the buffers. *)
Lemma aggregate_assets_rows (mon : Monitor F) (A E : nat) (loss_type : string)
    (out : Output F) (indices : list nat) (assets : list (Asset F))
    (st st' : AggState F) (lr : nat * nat) :
  mon_loss_ratios mon = true ->
  foldM (aggregate_asset mon A E loss_type out indices) st
        (enumerate assets) = Some st' ->
  concat (accum_get [] (st_ass st') lr)
  = concat (accum_get [] (st_ass st) lr)
    ++ (if bool_decide (out_lr out = lr)
        then concat (zip_with (fun asset ratios =>
                                 asset_rows (ordinal asset) (out_eids out)
                                            ratios)
                              assets (out_loss_ratios out))
        else []).
Proof.
  intros Hflag. revert st'.
  induction assets as [|asset assets IH] using rev_ind; intros st'.
  - simpl. intros [= <-]. by destruct (bool_decide _); rewrite app_nil_r.
  - rewrite enumerate_snoc, foldM_app.
    destruct (foldM _ st (enumerate assets)) as [st2|]; simpl; [|done].
    destruct (aggregate_asset _ _ _ _ _ _ st2 _) as [st3|] eqn:Hstep;
      simpl; [|done].
    intros [= <-]. specialize (IH st2 eq_refl).
    destruct (aggregate_asset_effect _ _ _ _ _ _ _ _ _ _ Hstep)
      as (ratios & Hratios & Hbuf & _).
    rewrite Hflag in Hbuf. case_bool_decide as Hlr.
    + subst lr. rewrite Hbuf, IH.
      rewrite (zip_with_snoc_lookup _ _ _ _ _ Hratios), concat_app. simpl.
      by rewrite app_nil_r, app_assoc.
    + unfold accum_get at 1.
      rewrite (aggregate_asset_other _ _ _ _ _ _ _ _ _ _ Hstep)
        by congruence.
      exact IH.
Qed.

(** What an output adds to the buffers: its rows, to the buffer of its
    pair. *)
Lemma aggregate_output_rows (loss_types : list string) (mon : Monitor F)
    (A E : nat) (idx : gmap Z nat) (st st' : AggState F) (out : Output F)
    (lr : nat * nat) :
  mon_loss_ratios mon = true ->
  aggregate_output loss_types mon A E idx st out = Some st' ->
  concat (accum_get [] (st_ass st') lr)
  = concat (accum_get [] (st_ass st) lr)
    ++ (if bool_decide (out_lr out = lr) then output_rows out else []).
Proof.
  intros Hflag. unfold aggregate_output.
  destruct (loss_types !! (out_lr out).1) as [loss_type|]; simpl; [|done].
  destruct (mapM _ (out_eids out)) as [indices|]; simpl; [|done].
  intros Hfold.
  by rewrite (aggregate_assets_rows _ _ _ _ _ _ _ _ _ _ Hflag Hfold).
Qed.

(** What the outputs add to the buffers. *)
Lemma aggregate_outputs_rows (loss_types : list string) (mon : Monitor F)
    (A E : nat) (idx : gmap Z nat) (outputs : list (Output F))
    (st st' : AggState F) (lr : nat * nat) :
  mon_loss_ratios mon = true ->
  foldM (aggregate_output loss_types mon A E idx) st outputs = Some st' ->
  concat (accum_get [] (st_ass st') lr)
  = concat (accum_get [] (st_ass st) lr) ++ buffered_rows outputs lr.
Proof.
  intros Hflag. revert st.
  induction outputs as [|out outputs IH]; intros st; simpl.
  - intros [= <-]. by rewrite app_nil_r.
  - destruct (aggregate_output _ _ _ _ _ st out) as [st1|] eqn:Hout; [|done].
    intros Hfold. rewrite (IH _ Hfold).
    rewrite (aggregate_output_rows _ _ _ _ _ _ _ _ _ Hflag Hout).
    unfold buffered_rows. simpl.
    destruct (bool_decide (out_lr out = lr)); simpl;
      [by rewrite app_assoc|by rewrite app_nil_r].
Qed.

(** Without asset loss output nothing is buffered. *)
Lemma aggregate_outputs_no_rows (loss_types : list string) (mon : Monitor F)
    (A E : nat) (idx : gmap Z nat) (outputs : list (Output F))
    (st st' : AggState F) :
  mon_loss_ratios mon = false ->
  foldM (aggregate_output loss_types mon A E idx) st outputs = Some st' ->
  st_ass st' = st_ass st.
Proof.
  intros Hflag Hfold. pattern st'.
  eapply foldM_invariant; [| |exact Hfold]; cbv beta; [|done].
  clear st' Hfold. intros st1 out st2 Hst1. unfold aggregate_output.
  destruct (loss_types !! (out_lr out).1) as [loss_type|]; simpl; [|done].
  destruct (mapM _ (out_eids out)) as [indices|]; simpl; [|done].
  intros Hfold. pattern st2.
  eapply foldM_invariant; [| |exact Hfold]; cbv beta; [|done].
  clear st2 Hfold. intros st2 ia st3 Hst2. unfold aggregate_asset. simpl.
  destruct (out_loss_ratios out !! ia.1); simpl; [|done].
  destruct (has_shape _ _ _); [|done].
  destruct (if mon_avg_losses mon then _ else _); simpl; [|done].
  destruct (iadd_at _ _ _); simpl; [|done].
  intros [= <-]. simpl. by rewrite Hflag.
Qed.

(** The asset loss records of the result under a pair: the arrays of the
    buffer of the pair, one after the other. *)
Lemma asslosses_concat (eids : list Z) (outputs : list (Output F))
    (loss_types : list string) (A : nat) (mon : Monitor F)
    (res : TaskResult F) :
  event_based_risk eids outputs loss_types A mon = Some res ->
  exists st,
    foldM (aggregate_output loss_types mon A (length eids) (build_idx eids))
          {| st_agg := ∅; st_ass := ∅; st_avg := ∅; st_lrs := ∅ |} outputs
    = Some st
    /\ forall lr, accum_get [] (res_asslosses res) lr
                  = concat (accum_get [] (st_ass st) lr).
Proof.
  unfold event_based_risk, _aggregate. intros Hr.
  destruct (foldM _ _ outputs) as [st|] eqn:Hfold; simpl in Hr; [|done].
  destruct (foldM _ ∅ _) as [agglosses|]; simpl in Hr; [|done].
  injection Hr as <-. exists st. split; [done|].
  intros lr. unfold accum_get. simpl. rewrite lookup_omap.
  destruct (st_ass st !! lr) as [[|a arrays]|]; done.
Qed.

(** C6, as the code has it. When asset loss output is requested, the
    asset loss records of the result of [event_based_risk] under a pair
    (loss type, realization) are the rows [(eid, aid, loss)] that the
    comprehension of [_aggregate] keeps, for the outputs of the pair in
    their order, their assets in their order and their events in their
    order: the row of an asset and an event is among the records if and
    only if the loss ratios of the asset in the event, summed over the
    insured dimensions, are strictly positive. The test is on the loss
    ratios, which are what the row holds, not on the ratios scaled by the
    value of the asset. With two insured dimensions, a row whose insured
    entry is zero and whose ground entry is positive is kept; the
    hypothesis on the arithmetic, for this part, is that adding zero does
    not change the sign test. Without asset loss output the result has no
    asset loss record. *)
Theorem asset_rows_buffered (eids : list Z) (outputs : list (Output F))
    (loss_types : list string) (A : nat) (mon : Monitor F)
    (res : TaskResult F) :
  event_based_risk eids outputs loss_types A mon = Some res ->
  (mon_loss_ratios mon = false -> res_asslosses res = ∅)
  /\ (mon_loss_ratios mon = true ->
      (forall lr,
         accum_get [] (res_asslosses res) lr = buffered_rows outputs lr)
      /\ (forall out i asset ratios k eid row,
            out ∈ outputs ->
            out_assets out !! i = Some asset ->
            out_loss_ratios out !! i = Some ratios ->
            out_eids out !! k = Some eid -> ratios !! k = Some row ->
            ({| ela_eid := eid; ela_aid := ordinal asset; ela_loss := row |}
               ∈ accum_get [] (res_asslosses res) (out_lr out)
             <-> fgt0 (row_sum row) = true))
      /\ ((forall x, fgt0 (fadd (fadd fzero x) fzero) = fgt0 x) ->
          forall out i asset ratios k eid ground,
            out ∈ outputs ->
            out_assets out !! i = Some asset ->
            out_loss_ratios out !! i = Some ratios ->
            out_eids out !! k = Some eid ->
            ratios !! k = Some [ground; fzero] ->
            fgt0 ground = true ->
            {| ela_eid := eid; ela_aid := ordinal asset;
               ela_loss := [ground; fzero] |}
              ∈ accum_get [] (res_asslosses res) (out_lr out))).
Proof.
  intros Hres.
  destruct (asslosses_concat _ _ _ _ _ _ Hres) as (st & Hfold & Hrecs).
  split.
  - intros Hflag.
    pose proof (aggregate_outputs_no_rows _ _ _ _ _ _ _ _ Hflag Hfold) as Hass.
    simpl in Hass. revert Hres. unfold event_based_risk, _aggregate.
    rewrite Hfold. simpl.
    destruct (foldM _ ∅ _) as [agglosses|]; simpl; [|done].
    intros [= <-]. simpl. rewrite Hass. apply omap_empty.
  - intros Hflag.
    assert (Hall : forall lr,
              accum_get [] (res_asslosses res) lr = buffered_rows outputs lr).
    { intros lr. rewrite Hrecs.
      rewrite (aggregate_outputs_rows _ _ _ _ _ _ _ _ lr Hflag Hfold).
      unfold accum_get. simpl. by rewrite lookup_empty. }
    assert (Hiff : forall out i asset ratios k eid row,
              out ∈ outputs ->
              out_assets out !! i = Some asset ->
              out_loss_ratios out !! i = Some ratios ->
              out_eids out !! k = Some eid -> ratios !! k = Some row ->
              ({| ela_eid := eid; ela_aid := ordinal asset; ela_loss := row |}
                 ∈ accum_get [] (res_asslosses res) (out_lr out)
               <-> fgt0 (row_sum row) = true)).
    { intros out i asset ratios k eid row Hout Hasset Hratios Hk Hrow.
      rewrite Hall. unfold buffered_rows. split.
      - intros Hin. apply list_elem_of_In, in_concat in Hin as (rows & Hrows & Hin).
        apply in_map_iff in Hrows as (out' & <- & _).
        unfold output_rows in Hin. apply in_concat in Hin as (rows & Hrows & Hin).
        apply list_elem_of_In, list_elem_of_lookup in Hrows as [i' Hi'].
        apply lookup_zip_with_Some in Hi' as (asset' & ratios' & -> & _ & _).
        apply list_elem_of_In, asset_rows_elem in Hin as (_ & _ & _ & _ & Hpos).
        exact Hpos.
      - intros Hpos. apply list_elem_of_In, in_concat.
        exists (output_rows out). split.
        + apply in_map, filter_In. split; [by apply list_elem_of_In|].
          by apply bool_decide_eq_true_2.
        + unfold output_rows. apply in_concat.
          exists (asset_rows (ordinal asset) (out_eids out) ratios). split.
          * apply list_elem_of_In, list_elem_of_lookup. exists i.
            apply lookup_zip_with_Some. eauto.
          * apply list_elem_of_In, asset_rows_elem. exists k. done. }
    split_and!; [exact Hall|exact Hiff|].
    intros Hzero out i asset ratios k eid ground Hout Hasset Hratios Hk Hrow
      Hpos.
    apply (Hiff out i asset ratios k eid _ Hout Hasset Hratios Hk Hrow).
    unfold row_sum. simpl. by rewrite Hzero.
Qed.

(** C7, as the code has it. The loss field of each asset loss record an
    asset adds to the buffer is the row of loss ratios of the asset in the
    event of the record, not scaled by the value of the asset; the ratios
    scaled by the value are what is added to the dense aggregate of the
    pair. *)
Theorem asset_loss_records_hold_ratios (mon : Monitor F) (A E : nat)
    (loss_type : string) (out : Output F) (indices : list nat)
    (st st' : AggState F) (i : nat) (asset : Asset F)
    (ratios : list (list F)) :
  mon_loss_ratios mon = true ->
  out_loss_ratios out !! i = Some ratios ->
  aggregate_asset mon A E loss_type out indices st (i, asset) = Some st' ->
  concat (accum_get [] (st_ass st') (out_lr out)) =
    concat (accum_get [] (st_ass st) (out_lr out)) ++
    asset_rows (ordinal asset) (out_eids out) ratios
  /\ (forall rec, rec ∈ asset_rows (ordinal asset) (out_eids out) ratios ->
        exists k, out_eids out !! k = Some (ela_eid rec)
                  /\ ratios !! k = Some (ela_loss rec)
                  /\ ela_aid rec = ordinal asset)
  /\ st_agg st' !! out_lr out =
       iadd_at (accum_get (zeros E (num_I (mon_insured_losses mon))) (st_agg st)
                          (out_lr out))
               indices (scale ratios (value asset loss_type)).
Proof.
  intros Hflag Hratios Hs.
  destruct (aggregate_asset_effect _ _ _ _ _ _ _ _ _ _ Hs)
    as (ratios' & Hr' & Hbuf & Hagg).
  rewrite Hratios in Hr'. injection Hr' as <-. rewrite Hflag in Hbuf.
  split; [exact Hbuf|]. split; [|exact Hagg].
  intros rec Hrec. apply asset_rows_elem in Hrec as (k & ? & ? & ? & _).
  exists k. done.
Qed.

Lemma enumerate_elem {A : Type} (xs : list A) (i : nat) (x : A) :
  (i, x) ∈ enumerate xs -> xs !! i = Some x.
Proof.
  intros Hin. apply list_elem_of_lookup in Hin as [k Hk].
  unfold enumerate in Hk.
  apply lookup_zip_with_Some in Hk as (j & y & [= <- <-] & Hj & Hy).
  apply lookup_seq in Hj as [-> _]. exact Hy.
Qed.

(** The buffers of asset loss records hold, under each pair, rows of
    [asset_rows] of the assets of the outputs of the pair. *)
Lemma _aggregate_buffers (outputs : list (Output F)) (loss_types : list string)
    (mon : Monitor F) (A E : nat) (idx : gmap Z nat) (st : AggState F)
    (lrs : list (nat * nat)) :
  _aggregate outputs loss_types mon A E idx
             {| st_agg := ∅; st_ass := ∅; st_avg := ∅; st_lrs := ∅ |}
    = Some (st, lrs) ->
  forall lr arrays, st_ass st !! lr = Some arrays ->
    forall rec, rec ∈ concat arrays -> from_outputs outputs lr rec.
Proof.
  unfold _aggregate. intros Hagg.
  destruct (foldM _ _ outputs) as [st'|] eqn:Hfold; simpl in Hagg; [|done].
  injection Hagg as <- _.
  revert Hfold.
  apply (foldM_invariant_in
           (fun st : AggState F =>
              forall lr arrays, st_ass st !! lr = Some arrays ->
                forall rec, rec ∈ concat arrays -> from_outputs outputs lr rec)).
  - intros st0 out st1 Hout Hst0. unfold aggregate_output.
    destruct (loss_types !! (out_lr out).1) as [loss_type|]; simpl; [|done].
    destruct (mapM _ (out_eids out)) as [indices|]; simpl; [|done].
    apply (foldM_invariant_in
             (fun st : AggState F =>
                forall lr arrays, st_ass st !! lr = Some arrays ->
                  forall rec, rec ∈ concat arrays ->
                    from_outputs outputs lr rec)); [|exact Hst0].
    intros st2 [i asset] st3 Hin Hst2 Hstep lr arrays Harr rec Hrec.
    apply enumerate_elem in Hin.
    destruct (aggregate_asset_effect _ _ _ _ _ _ _ _ _ _ Hstep)
      as (ratios & Hratios & Hbuf & _).
    destruct (decide (lr = out_lr out)) as [->|Hne].
    + unfold accum_get in Hbuf. rewrite Harr in Hbuf.
      rewrite Hbuf in Hrec. apply elem_of_app in Hrec as [Hrec|Hrec].
      * destruct (st_ass st2 !! out_lr out) as [arrays0|] eqn:H0;
          [by eapply Hst2|]. simpl in Hrec. by apply elem_of_nil in Hrec.
      * destruct (mon_loss_ratios mon); [|by apply elem_of_nil in Hrec].
        exists out, i, asset, ratios. done.
    + rewrite (aggregate_asset_other _ _ _ _ _ _ _ _ _ _ Hstep Hne) in Harr.
      by eapply Hst2.
  - intros lr arrays. simpl. by rewrite lookup_empty.
Qed.

(** Every asset loss record of the result of [event_based_risk] is a row
    of [asset_rows] of an asset of an output of its pair: its loss field
    is a row of loss ratios, with a strictly positive total. *)
Lemma asslosses_records (eids : list Z) (outputs : list (Output F))
    (loss_types : list string) (A : nat) (mon : Monitor F)
    (res : TaskResult F) (lr : nat * nat) (recs : list (ela_rec F))
    (rec : ela_rec F) :
  event_based_risk eids outputs loss_types A mon = Some res ->
  res_asslosses res !! lr = Some recs -> rec ∈ recs ->
  from_outputs outputs lr rec /\ fgt0 (row_sum (ela_loss rec)) = true.
Proof.
  unfold event_based_risk. intros Hr Hrecs Hrec.
  destruct (_aggregate _ _ _ _ _ _ _) as [[st lrs]|] eqn:Hagg; simpl in Hr;
    [|done].
  destruct (foldM _ ∅ lrs) as [agglosses|]; simpl in Hr; [|done].
  injection Hr as <-. simpl in Hrecs. rewrite lookup_omap in Hrecs.
  destruct (st_ass st !! lr) as [arrays|] eqn:Harr; simpl in Hrecs; [|done].
  destruct arrays as [|a arrays]; [done|]. injection Hrecs as <-.
  pose proof (_aggregate_buffers _ _ _ _ _ _ _ _ Hagg lr _ Harr rec Hrec)
    as Hfrom.
  split; [exact Hfrom|].
  destruct Hfrom as (out & i & asset & ratios & _ & _ & _ & _ & Hin).
  by apply asset_rows_elem in Hin as (_ & _ & _ & _ & Hpos).
Qed.
End AggregatorFacts.

(** The scenario of the two assets: the result has the records of the
    events 0 and 2 for realization 0, all with a positive total. *)
Lemma agglosses_sparsity_witness :
  exists res recs,
    event_based_risk Scenario.eids [Scenario.out0; Scenario.out1]
                     Scenario.loss_types 2 Scenario.monitor = Some res
    /\ res_agglosses res !! (0, 0) = Some recs
    /\ recs <> []
    /\ Forall (fun rec => fgt0 (row_sum (elt_loss rec)) = true) recs.
Proof.
  destruct (event_based_risk Scenario.eids [Scenario.out0; Scenario.out1]
              Scenario.loss_types 2 Scenario.monitor) as [res|] eqn:Hres;
    [|by vm_compute in Hres].
  destruct (res_agglosses res !! (0, 0)) as [recs|] eqn:Hrecs.
  - exists res, recs. split; [done|]. split; [done|].
    exact (agglosses_sparsity _ _ _ _ _ _ _ _ Hres Hrecs).
  - exfalso. vm_compute in Hres. injection Hres as <-. by vm_compute in Hrecs.
Defined.

(** The aggregate loss records of the scenario: the events 0 and 2 with
    losses 10 and 20 for realization 0, the event 1 for realization 1; the
    events without loss are dropped. *)
Example scenario_agglosses :
  (fun res => (res_agglosses res !! (0, 0), res_agglosses res !! (0, 1)))
    <$> event_based_risk Scenario.eids [Scenario.out0; Scenario.out1]
                         Scenario.loss_types 2 Scenario.monitor
  = Some (Some [ {| elt_eid := 0; elt_loss := [Binary32.of_Z 10] |};
                 {| elt_eid := 2; elt_loss := [Binary32.of_Z 20] |} ],
          Some [ {| elt_eid := 1;
                    elt_loss := [Binary32.mul (Binary32.of_ratio 3 10)
                                              (Binary32.of_Z 200)] |} ]).
Proof. vm_compute. reflexivity. Qed.

(** In binary32, adding zero on either side leaves the test [x > 0] as it
    was. *)
Lemma binary32_add_zero_sign (x : Binary32.f32) :
  fgt0 (fadd (fadd fzero x) fzero) = fgt0 x.
Proof. destruct x as [[]|[]| |[] m e]; reflexivity. Qed.

(** C6, the claim as stated fails. The rows are kept on the loss ratios,
    not on the losses, the ratios scaled by the value of the asset. An
    asset of value zero with a loss ratio of one half in the event 7: the
    row (7, 0, 0.5) is among the asset loss records, while the loss, the
    ratio scaled by the value, is zero, and no aggregate loss record
    exists. *)
Lemma asset_row_with_zero_loss :
  (fun res => (res_asslosses res !! (0, 0), res_agglosses res !! (0, 0)))
    <$> event_based_risk [7%Z] [Scenario.out_zero_value]
                         Scenario.loss_types 1 Scenario.monitor
  = Some (Some [ {| ela_eid := 7; ela_aid := 0;
                    ela_loss := [Binary32.of_ratio 1 2] |} ], None)
  /\ map (fun x => fmul x (value Scenario.A0 "structural"))
         [Binary32.of_ratio 1 2] = [Binary32.zero]
  /\ fgt0 (row_sum (map (fun x => fmul x (value Scenario.A0 "structural"))
                        [Binary32.of_ratio 1 2])) = false.
Proof. repeat split; vm_compute; reflexivity. Qed.

(** With insured losses, the row of ground loss ratio one half and
    insured loss ratio zero is among the asset loss records of the
    result, which are the rows of the comprehension. *)
Lemma asset_rows_buffered_witness :
  exists res,
    event_based_risk [7%Z] [Scenario.out_insured] Scenario.loss_types 1
                     Scenario.monitor_insured = Some res
    /\ accum_get [] (res_asslosses res) (0, 0)
       = buffered_rows [Scenario.out_insured] (0, 0)
    /\ {| ela_eid := 7; ela_aid := 0;
          ela_loss := [Binary32.of_ratio 1 2; Binary32.zero] |}
         ∈ accum_get [] (res_asslosses res) (0, 0).
Proof.
  destruct (event_based_risk [7%Z] [Scenario.out_insured] Scenario.loss_types
              1 Scenario.monitor_insured) as [res|] eqn:Hres;
    [|by vm_compute in Hres].
  exists res. split; [done|].
  destruct (asset_rows_buffered _ _ _ _ _ _ Hres) as [_ Hrows].
  destruct (Hrows eq_refl) as (Hall & _ & Hins).
  split; [apply Hall|].
  apply (Hins binary32_add_zero_sign Scenario.out_insured 0 Scenario.A1
              [[Binary32.of_ratio 1 2; Binary32.zero]] 0 7%Z
              (Binary32.of_ratio 1 2));
    [apply list_elem_of_here|reflexivity..].
Defined.

(** C7, the claim as stated fails. The first asset of the scenario, of
    value 100 with loss ratios 0.1 and 0.2: the loss fields of its records
    are 0.1 and 0.2, not the losses 10 and 20. *)
Lemma asset_record_not_scaled :
  (fun res => res_asslosses res !! (0, 0))
    <$> event_based_risk Scenario.eids [Scenario.out0]
                         Scenario.loss_types 2 Scenario.monitor
  = Some (Some [ {| ela_eid := 0; ela_aid := 0;
                    ela_loss := [Binary32.of_ratio 1 10] |};
                 {| ela_eid := 2; ela_aid := 0;
                    ela_loss := [Binary32.of_ratio 2 10] |} ])
  /\ map (fun x => fmul x (value Scenario.A1 "structural"))
         [Binary32.of_ratio 1 10] = [Binary32.of_Z 10]
  /\ [Binary32.of_ratio 1 10] <> [Binary32.of_Z 10].
Proof. repeat split; vm_compute; [reflexivity..|discriminate]. Qed.

(** The first asset of the scenario: the rows it adds to the buffer are
    the rows of [asset_rows] of its loss ratios. *)
Lemma asset_loss_records_hold_ratios_witness :
  exists st',
    aggregate_asset Scenario.monitor 2 3 "structural" Scenario.out0 [0; 1; 2]
      {| st_agg := ∅; st_ass := ∅; st_avg := ∅; st_lrs := ∅ |}
      (0, Scenario.A1) = Some st'
    /\ concat (accum_get [] (st_ass st') (0, 0)) =
         asset_rows 0 Scenario.eids
           [[Binary32.of_ratio 1 10]; [Binary32.zero]; [Binary32.of_ratio 2 10]].
Proof.
  destruct (aggregate_asset Scenario.monitor 2 3 "structural" Scenario.out0
              [0; 1; 2]
              {| st_agg := ∅; st_ass := ∅; st_avg := ∅; st_lrs := ∅ |}
              (0, Scenario.A1)) as [st'|] eqn:Hs; [|by vm_compute in Hs].
  exists st'. split; [done|].
  destruct (asset_loss_records_hold_ratios Scenario.monitor 2 3 "structural"
              Scenario.out0 [0; 1; 2] _ st' 0 Scenario.A1
              [[Binary32.of_ratio 1 10]; [Binary32.zero]; [Binary32.of_ratio 2 10]]
              eq_refl eq_refl Hs) as (Hbuf & _ & _).
  exact Hbuf.
Defined.

(** ** The epsilon sources *)

Lemma np_index_lt (n : nat) (i : Z) (k : nat) : np_index n i = Some k -> k < n.
Proof.
  unfold np_index. repeat case_decide; intros [= <-]; lia.
Qed.

Lemma set_column_length {A : Type} (i : nat) (col : list A) (m : list (list A)) :
  length (set_column i col m) = length m.
Proof. apply length_imap. Qed.

Lemma set_column_lookup {A : Type} (i : nat) (col : list A)
    (m : list (list A)) (a : nat) :
  set_column i col m !! a =
  (fun row => match col !! a with Some v => <[i := v]> row | None => row end)
    <$> m !! a.
Proof. unfold set_column. by rewrite list_lookup_imap. Qed.

Lemma enumerate_app {A : Type} (xs ys : list A) :
  enumerate (xs ++ ys)
  = enumerate xs ++ zip (seq (length xs) (length ys)) ys.
Proof.
  unfold enumerate. rewrite length_app, seq_app.
  by rewrite zip_with_app by (by rewrite length_seq).
Qed.

Lemma np_seed_valid {G F64 : Type} `{NumpyRandom G F64} (s : Z) :
  valid_seed s -> exists gs, np_seed s = Some gs.
Proof. intros Hs. by apply np_seed_range. Qed.

Lemma np_seed_invalid {G F64 : Type} `{NumpyRandom G F64} (s : Z) :
  ~ valid_seed s -> np_seed s = None.
Proof.
  intros Hs. destruct (np_seed s) as [gs|] eqn:Hgs; [|done].
  destruct Hs. apply np_seed_range. by eexists.
Qed.

Section EpsilonFacts.
Context {G F64 F32 : Type} `{NumpyRandom G F64}.
Variable astype_f32 : F64 -> F32.
Variable zero32 : F32.

(** The matrix after a step does not depend on the state of the
    generator before it. *)
Lemma make_eps_step_matrix (N : nat) (om : option (list (list F32)))
    (g1 g2 : G) (iseed : nat * Z) :
  (EpsilonMatrix0.make_eps_step astype_f32 N (om, g1) iseed).1
  = (EpsilonMatrix0.make_eps_step astype_f32 N (om, g2) iseed).1.
Proof.
  unfold EpsilonMatrix0.make_eps_step. simpl.
  destruct om as [m|]; [|done].
  destruct (np_seed iseed.2) as [gs|]; [|done].
  by destruct (np_normal N gs).
Qed.

Lemma make_eps_fold_matrix (N : nat) (om : option (list (list F32)))
    (g1 g2 : G) (l : list (nat * Z)) :
  (foldl (EpsilonMatrix0.make_eps_step astype_f32 N) (om, g1) l).1
  = (foldl (EpsilonMatrix0.make_eps_step astype_f32 N) (om, g2) l).1.
Proof.
  revert om g1 g2. induction l as [|x l IH]; intros om g1 g2; [done|].
  simpl. pose proof (make_eps_step_matrix N om g1 g2 x) as Hstep.
  destruct (EpsilonMatrix0.make_eps_step astype_f32 N (om, g1) x) as [om1 g1'].
  destruct (EpsilonMatrix0.make_eps_step astype_f32 N (om, g2) x) as [om2 g2'].
  simpl in Hstep. subst om2. apply IH.
Qed.

(** Once [numpy.random.seed] has raised nothing more is done. *)
Lemma make_eps_fold_raised (N : nat) (g : G) (l : list (nat * Z)) :
  foldl (EpsilonMatrix0.make_eps_step astype_f32 N) (None, g) l = (None, g).
Proof. induction l as [|x l IH]; [done|]. simpl. exact IH. Qed.

(** The loop ends with a matrix exactly when every seed is accepted. *)
Lemma make_eps_fold_is_Some (N : nat) (m0 : list (list F32)) (g : G)
    (l : list Z) :
  is_Some (foldl (EpsilonMatrix0.make_eps_step astype_f32 N) (Some m0, g)
                 (enumerate l)).1
  <-> Forall valid_seed l.
Proof.
  induction l as [|s l IH] using rev_ind.
  - simpl. split; [by constructor|by eexists].
  - rewrite enumerate_snoc, foldl_app, Forall_app, Forall_singleton. simpl.
    destruct (foldl _ (Some m0, g) (enumerate l)) as [om g'] eqn:Hfold.
    simpl in IH. unfold EpsilonMatrix0.make_eps_step. simpl.
    destruct om as [m|]; simpl.
    + destruct (np_seed s) as [gs|] eqn:Hgs.
      * destruct (np_normal N gs) as [sample g2]. simpl.
        split; [|by eexists]. intros _. split; [by apply IH; eexists|].
        apply np_seed_range. by eexists.
      * simpl. split; [by intros []|]. intros [_ Hs].
        apply np_seed_valid in Hs as [gs Hs]. congruence.
    + split; [by intros []|]. intros [Hl _]. apply IH in Hl. by destruct Hl.
Qed.

(** The matrix after the columns of the accepted seeds [l] were written:
    it keeps its shape, and the entry of asset [a] in the column of a seed
    is the sample [a] of the generator seeded with that seed. *)
Lemma make_eps_fold (N E : nat) (m0 : list (list F32)) (g : G) (l : list Z) :
  Forall valid_seed l ->
  length m0 = N -> Forall (fun row => length row = E) m0 -> length l <= E ->
  exists m,
    (foldl (EpsilonMatrix0.make_eps_step astype_f32 N) (Some m0, g)
           (enumerate l)).1 = Some m /\
    length m = N /\ Forall (fun row => length row = E) m /\
    forall a i s, a < N -> l !! i = Some s ->
      exists gs, np_seed s = Some gs /\
        (m !! a ≫= fun row => row !! i)
        = astype_f32 <$> ((np_normal N gs).1 !! a).
Proof.
  intros Hvalid Hlen Hrows. induction l as [|s' l IH] using rev_ind; intros HE.
  - simpl. exists m0. split_and!; try done.
  - rewrite length_app in HE. simpl in HE.
    apply Forall_app in Hvalid as [Hvalid Hs'].
    rewrite Forall_singleton in Hs'.
    destruct IH as (m & Hm & IHlen & IHrows & IHval); [done|lia|].
    rewrite enumerate_snoc, foldl_app. simpl.
    destruct (foldl _ (Some m0, g) (enumerate l)) as [om g'] eqn:Hfold.
    simpl in Hm. subst om.
    unfold EpsilonMatrix0.make_eps_step. simpl.
    destruct (np_seed_valid s' Hs') as [gs' Hgs']. rewrite Hgs'.
    pose proof (np_normal_length N gs') as Hsample.
    destruct (np_normal N gs') as [sample g2] eqn:Hnp. simpl in *.
    eexists. split; [done|].
    split; [by rewrite set_column_length|]. split.
    + apply Forall_forall. intros row Hrow.
      apply list_elem_of_lookup in Hrow as [a Ha].
      rewrite set_column_lookup in Ha.
      destruct (m !! a) as [row0|] eqn:Hrow0; simpl in Ha; [|done].
      injection Ha as <-.
      assert (length row0 = E) as Hr0.
      { rewrite Forall_forall in IHrows. apply IHrows.
        apply list_elem_of_lookup. eauto. }
      destruct (map astype_f32 sample !! a);
        [by rewrite length_insert|done].
    + intros a i s Ha Hs. rewrite set_column_lookup.
      destruct (m !! a) as [row0|] eqn:Hrow0; simpl;
        [|apply lookup_ge_None in Hrow0; lia].
      assert (length row0 = E) as Hr0.
      { rewrite Forall_forall in IHrows. apply IHrows.
        apply list_elem_of_lookup. eauto. }
      change (map astype_f32 sample) with (astype_f32 <$> sample).
      rewrite list_lookup_fmap.
      destruct (sample !! a) as [x|] eqn:Hx; simpl;
        [|apply lookup_ge_None in Hx; lia].
      apply lookup_app_Some in Hs as [Hs|[Hge Hs]].
      * rewrite list_lookup_insert_ne
          by (apply lookup_lt_Some in Hs; lia).
        destruct (IHval a i s Ha Hs) as (gs & Hgs & Hv).
        exists gs. split; [done|]. rewrite Hrow0 in Hv. exact Hv.
      * destruct (i - length l) as [|?] eqn:Hi; simpl in Hs; [|done].
        injection Hs as <-. assert (i = length l) as -> by lia.
        exists gs'. split; [done|].
        rewrite list_lookup_insert_eq by lia. rewrite Hnp. simpl.
        by rewrite Hx.
Qed.

(** The outcome of [make_eps] does not depend on the state of the global
    generator. *)
Lemma make_eps_generator_free (self : EpsilonMatrix0.t F32) (g1 g2 : G) :
  (EpsilonMatrix0.make_eps astype_f32 zero32 self g1).1
  = (EpsilonMatrix0.make_eps astype_f32 zero32 self g2).1.
Proof. apply make_eps_fold_matrix. Qed.

(** [make_eps] returns a matrix exactly when every seed is accepted. *)
Lemma make_eps_is_Some (self : EpsilonMatrix0.t F32) (g : G) :
  is_Some (EpsilonMatrix0.make_eps astype_f32 zero32 self g).1
  <-> Forall valid_seed (EpsilonMatrix0.seeds self).
Proof. apply make_eps_fold_is_Some. Qed.

(** The matrix of [make_eps] for accepted seeds: of shape (N, E), with
    entries given by the seeds. *)
Lemma make_eps_spec (self : EpsilonMatrix0.t F32) (g : G) :
  Forall valid_seed (EpsilonMatrix0.seeds self) ->
  exists m,
    (EpsilonMatrix0.make_eps astype_f32 zero32 self g).1 = Some m /\
    length m = EpsilonMatrix0.num_assets self /\
    Forall (fun row => length row = length (EpsilonMatrix0.seeds self)) m /\
    forall a i s, a < EpsilonMatrix0.num_assets self ->
      EpsilonMatrix0.seeds self !! i = Some s ->
      exists gs, np_seed s = Some gs /\
        (m !! a ≫= fun row => row !! i)
        = astype_f32 <$> ((np_normal (EpsilonMatrix0.num_assets self) gs).1 !! a).
Proof.
  intros Hvalid. unfold EpsilonMatrix0.make_eps. apply make_eps_fold.
  - done.
  - apply length_replicate.
  - apply Forall_forall. intros row Hrow.
    apply elem_of_replicate in Hrow as [-> _]. apply length_replicate.
  - done.
Qed.
End EpsilonFacts.

Section EpsilonDeterminism.
Context {G F64 F32 : Type} `{NumpyRandom G F64}.
Variable astype_f32 : F64 -> F32.
Variable zero32 : F32.

(** A read of a fresh [EpsilonMatrix0]: the entry of the matrix of
    [make_eps], which is cached; when [make_eps] raises, the read raises
    and nothing is cached. *)
Lemma getitem_fresh (N : nat) (seeds : list Z) (item : Z * Z) (g : G) :
  let self := EpsilonMatrix0.init N seeds in
  let r := EpsilonMatrix0.getitem astype_f32 zero32 self item g in
  r.2 = (EpsilonMatrix0.make_eps astype_f32 zero32 self g).2 /\
  match (EpsilonMatrix0.make_eps astype_f32 zero32 self g).1 with
  | Some m =>
      r.1.1 = matrix_get m item /\
      r.1.2 = {| EpsilonMatrix0.num_assets := N; EpsilonMatrix0.seeds := seeds;
                 EpsilonMatrix0.eps := Some m |}
  | None => r.1.1 = None /\ r.1.2 = self
  end.
Proof.
  unfold EpsilonMatrix0.getitem. simpl.
  by destruct (EpsilonMatrix0.make_eps _ _ _ g) as [[m|] g'].
Qed.

(** A read of an [EpsilonMatrix0] whose cache is filled does not touch the
    generator. *)
Lemma getitem_cached (N : nat) (seeds : list Z) (m : list (list F32))
    (item : Z * Z) (g : G) :
  EpsilonMatrix0.getitem astype_f32 zero32
    {| EpsilonMatrix0.num_assets := N; EpsilonMatrix0.seeds := seeds;
       EpsilonMatrix0.eps := Some m |} item g
  = (matrix_get m item,
     {| EpsilonMatrix0.num_assets := N; EpsilonMatrix0.seeds := seeds;
        EpsilonMatrix0.eps := Some m |}, g).
Proof. done. Qed.

(** The value read from a fresh [EpsilonMatrix0] does not depend on the
    state of the global generator. *)
Lemma getitem_generator_free (N : nat) (seeds : list Z) (item : Z * Z)
    (g1 g2 : G) :
  (EpsilonMatrix0.getitem astype_f32 zero32
     (EpsilonMatrix0.init N seeds) item g1).1
  = (EpsilonMatrix0.getitem astype_f32 zero32
       (EpsilonMatrix0.init N seeds) item g2).1.
Proof.
  destruct (getitem_fresh N seeds item g1) as [_ H1].
  destruct (getitem_fresh N seeds item g2) as [_ H2].
  rewrite (make_eps_generator_free astype_f32 zero32 _ g2 g1) in H2.
  destruct (EpsilonMatrix0.make_eps astype_f32 zero32 _ g1).1 as [m|];
    destruct H1 as [H1 H1'], H2 as [H2 H2']; apply injective_projections;
    congruence.
Qed.

(** The entry of the matrix of [make_eps] at a valid index: the sample of
    the asset drawn after seeding with the seed of the event. *)
Lemma make_eps_entry (N : nat) (seeds : list Z) (a e : Z) (ka ke : nat) (g : G) :
  Forall valid_seed seeds ->
  np_index N a = Some ka -> np_index (length seeds) e = Some ke ->
  exists s gs x m,
    seeds !! ke = Some s /\ np_seed s = Some gs /\
    (np_normal N gs).1 !! ka = Some x /\
    (EpsilonMatrix0.make_eps astype_f32 zero32
       (EpsilonMatrix0.init N seeds) g).1 = Some m /\
    matrix_get m (a, e) = Some (astype_f32 x).
Proof.
  intros Hvalid Ha He.
  pose proof (np_index_lt _ _ _ Ha) as Hka.
  pose proof (np_index_lt _ _ _ He) as Hke.
  destruct (lookup_lt_is_Some_2 seeds ke Hke) as [s Hs].
  destruct (make_eps_spec astype_f32 zero32 (EpsilonMatrix0.init N seeds) g
              Hvalid) as (m & Hmk & Hm & Hrows & Hval). simpl in *.
  destruct (Hval ka ke s Hka Hs) as (gs & Hgs & Hv).
  pose proof (np_normal_length N gs) as Hlen.
  destruct (lookup_lt_is_Some_2 (np_normal N gs).1 ka) as [x Hx];
    [lia|].
  exists s, gs, x, m. split_and!; try done.
  unfold matrix_get. simpl. rewrite Hm, Ha. simpl.
  rewrite Hx in Hv. simpl in Hv.
  destruct (m !! ka) as [row|] eqn:Hrow; simpl in *; [|done].
  assert (length row = length seeds) as ->.
  { rewrite Forall_forall in Hrows. apply Hrows.
    apply list_elem_of_lookup. eauto. }
  rewrite He. simpl. exact Hv.
Qed.

(** The construction of an [EpsilonMatrix1]. *)
Lemma init1_spec (n_events : nat) (seed : Z) (g : G) :
  match np_seed seed with
  | Some gs =>
      EpsilonMatrix1.init n_events seed g
      = Some ({| EpsilonMatrix1.num_events := n_events;
                 EpsilonMatrix1.seed := seed;
                 EpsilonMatrix1.eps := (np_normal n_events gs).1 |},
              (np_normal n_events gs).2)
  | None => EpsilonMatrix1.init n_events seed g = None
  end.
Proof.
  unfold EpsilonMatrix1.init. destruct (np_seed seed) as [gs|]; [|done].
  simpl. by destruct (np_normal n_events gs).
Qed.

(** C4. Epsilon determinism. The outcome of a read of an [EpsilonMatrix0]
    (asset correlation 0), a value or an exception, is the same for the
    first read, for a repeated read of the same object and for the read of
    a second object built from the same number of assets and the same
    seeds, at every index and whatever the states of the global generator
    at the times of the reads; when the seeds are seeds that
    [numpy.random.seed] accepts and the index is valid, the outcome is a
    value: the sample of the asset drawn after seeding with the seed of the
    event. Two [EpsilonMatrix1] (asset correlation 1) built with the same
    number of events and the same seed are the same object, or both
    constructions raise, whatever the state of the generator at their
    construction; with a seed that is accepted and a valid event index a
    read of the object returns a value. *)
Theorem epsilon_determinism (N : nat) (seeds : list Z) (n_events : nat)
    (seed : Z) (a e : Z) (g1 g2 g3 : G) :
  let first := EpsilonMatrix0.getitem astype_f32 zero32
                 (EpsilonMatrix0.init N seeds) (a, e) g1 in
  (EpsilonMatrix0.getitem astype_f32 zero32 first.1.2 (a, e) g3).1.1
  = first.1.1
  /\ (EpsilonMatrix0.getitem astype_f32 zero32
        (EpsilonMatrix0.init N seeds) (a, e) g2).1.1 = first.1.1
  /\ (forall ka ke,
        Forall valid_seed seeds ->
        np_index N a = Some ka -> np_index (length seeds) e = Some ke ->
        exists s gs x,
          seeds !! ke = Some s /\ np_seed s = Some gs
          /\ (np_normal N gs).1 !! ka = Some x
          /\ first.1.1 = Some (astype_f32 x))
  /\ fst <$> EpsilonMatrix1.init n_events seed g1
     = fst <$> EpsilonMatrix1.init n_events seed g2
  /\ (forall ke1,
        valid_seed seed -> np_index n_events e = Some ke1 ->
        exists eps1 g1' g2' (w : F64),
          EpsilonMatrix1.init n_events seed g1 = Some (eps1, g1')
          /\ EpsilonMatrix1.init n_events seed g2 = Some (eps1, g2')
          /\ EpsilonMatrix1.getitem eps1 (a, e) = Some w).
Proof.
  simpl. split_and!.
  - destruct (getitem_fresh N seeds (a, e) g1) as [_ H1].
    destruct (EpsilonMatrix0.make_eps astype_f32 zero32 _ g1).1 as [m|] eqn:Hm;
      destruct H1 as [Hv Hself]; rewrite Hself, Hv.
    + by rewrite getitem_cached.
    + destruct (getitem_fresh N seeds (a, e) g3) as [_ H3].
      rewrite (make_eps_generator_free astype_f32 zero32 _ g3 g1), Hm in H3.
      by destruct H3.
  - by rewrite (getitem_generator_free N seeds (a, e) g2 g1).
  - intros ka ke Hvalid Ha He.
    destruct (make_eps_entry N seeds a e ka ke g1 Hvalid Ha He)
      as (s & gs & x & m & Hs & Hgs & Hx & Hm & Hv).
    exists s, gs, x. split_and!; try done.
    destruct (getitem_fresh N seeds (a, e) g1) as [_ H1].
    rewrite Hm in H1. destruct H1 as [-> _]. exact Hv.
  - pose proof (init1_spec n_events seed g1) as H1.
    pose proof (init1_spec n_events seed g2) as H2.
    destruct (np_seed seed) as [gs|]; by rewrite H1, H2.
  - intros ke1 Hseed He1.
    pose proof (init1_spec n_events seed g1) as H1.
    pose proof (init1_spec n_events seed g2) as H2.
    destruct (np_seed_valid seed Hseed) as [gs Hgs]. rewrite Hgs in H1, H2.
    pose proof (np_normal_length n_events gs) as Hlen.
    destruct (lookup_lt_is_Some_2 (np_normal n_events gs).1 ke1) as [w Hw].
    { apply np_index_lt in He1. lia. }
    eexists _, _, _, w. split_and!; [exact H1|exact H2|].
    unfold EpsilonMatrix1.getitem. simpl. rewrite Hlen, He1. exact Hw.
Qed.
End EpsilonDeterminism.

(** Two assets and the seeds 42, 43, 44, read at the asset 1 and the last
    event, with the generator in three different states; three events
    and the seed 5 for the correlated source. *)
Lemma epsilon_determinism_witness :
  (exists v : Binary32.f32,
     (EpsilonMatrix0.getitem Binary32.of_Z Binary32.zero
        (EpsilonMatrix0.init 2 [42; 43; 44]%Z) (1, -1)%Z 7%Z).1.1 = Some v
     /\ (EpsilonMatrix0.getitem Binary32.of_Z Binary32.zero
           (EpsilonMatrix0.getitem Binary32.of_Z Binary32.zero
              (EpsilonMatrix0.init 2 [42; 43; 44]%Z) (1, -1)%Z 7%Z).1.2
           (1, -1)%Z 11%Z).1.1 = Some v
     /\ (EpsilonMatrix0.getitem Binary32.of_Z Binary32.zero
           (EpsilonMatrix0.init 2 [42; 43; 44]%Z) (1, -1)%Z 9%Z).1.1 = Some v)
  /\ (exists eps1 g1' g2' (w : Z),
        EpsilonMatrix1.init 3 5%Z 7%Z = Some (eps1, g1')
        /\ EpsilonMatrix1.init 3 5%Z 9%Z = Some (eps1, g2')
        /\ EpsilonMatrix1.getitem eps1 (1, -1)%Z = Some w).
Proof.
  destruct (epsilon_determinism Binary32.of_Z Binary32.zero 2 [42; 43; 44]%Z 3
              5%Z 1%Z (-1)%Z 7%Z 9%Z 11%Z) as (H1 & H2 & H3 & _ & H5).
  split.
  - destruct (H3 1 2) as (s & gs & x & _ & _ & _ & Hv);
      [repeat constructor; unfold valid_seed; lia|reflexivity|reflexivity|].
    exists (Binary32.of_Z x). cbv zeta in H1, H2, Hv. by rewrite H1, H2.
  - apply (H5 2); [unfold valid_seed; lia|reflexivity].
Defined.

(** A seed that [numpy.random.seed] refuses: every read raises, whatever
    the index. *)
Lemma epsilon_read_raises_on_negative_seed :
  (EpsilonMatrix0.getitem Binary32.of_Z Binary32.zero
     (EpsilonMatrix0.init 2 [43; -1]%Z) (0, 0)%Z 7%Z).1.1 = None
  /\ EpsilonMatrix1.init 3 (2 ^ 32)%Z 7%Z = None.
Proof. split; reflexivity. Qed.

(** ** The seed ranges of the risk inputs *)

Lemma foldl_invariant {A B : Type} (P : B -> Prop) (f : B -> A -> B)
    (xs : list A) (b : B) :
  (forall b x, P b -> P (f b x)) -> P b -> P (foldl f b xs).
Proof.
  intros Hstep. revert b. induction xs as [|x xs IH]; intros b Hb; simpl; eauto.
Qed.

Lemma wrap64_inj (a b : Z) :
  (- 2 ^ 64 < a - b < 2 ^ 64)%Z -> wrap64 a = wrap64 b -> a = b.
Proof.
  unfold wrap64. intros Hab Heq.
  assert (Hm : ((a + 2 ^ 63) mod 2 ^ 64 = (b + 2 ^ 63) mod 2 ^ 64)%Z) by lia.
  pose proof (Z.div_mod (a + 2 ^ 63) (2 ^ 64) ltac:(lia)) as Ha.
  pose proof (Z.div_mod (b + 2 ^ 63) (2 ^ 64) ltac:(lia)) as Hb.
  rewrite Hm in Ha. lia.
Qed.

(** A loop whose body never raises does not raise. *)
Lemma foldM_total {A B : Type} (f : B -> A -> option B) (xs : list A)
    (b : B) :
  (forall b x, is_Some (f b x)) -> is_Some (foldM f b xs).
Proof.
  intros Hstep. revert b. induction xs as [|x xs IH]; intros b; simpl.
  - by eexists.
  - destruct (Hstep b x) as [b1 ->]. apply IH.
Qed.

(** The seed array of a [random_seed] that fits int64. *)
Lemma seed_array_Some (random_seed : Z) (n : nat) (seeds : list Z) :
  seed_array random_seed n = Some seeds ->
  (- 2 ^ 63 <= random_seed < 2 ^ 63)%Z
  /\ seeds = map (fun k => wrap64 (random_seed + Z.of_nat k)) (seq 0 n).
Proof. unfold seed_array. case_decide; [|done]. by intros [= <-]. Qed.

Lemma seed_array_is_Some (random_seed : Z) (n : nat) :
  (- 2 ^ 63 <= random_seed < 2 ^ 63)%Z -> is_Some (seed_array random_seed n).
Proof. intros Hr. unfold seed_array. rewrite decide_True by done. by eexists. Qed.

(** The seeds of the array are pairwise distinct, up to 2^64 events. *)
Lemma seed_array_NoDup (random_seed : Z) (n : nat) (seeds : list Z) :
  seed_array random_seed n = Some seeds ->
  (Z.of_nat n <= 2 ^ 64)%Z -> NoDup seeds.
Proof.
  intros [_ ->]%seed_array_Some Hn. apply NoDup_alt. intros i j x Hi Hj.
  change (map ?f ?l) with (f <$> l) in Hi, Hj.
  rewrite list_lookup_fmap in Hi, Hj.
  destruct (seq 0 n !! i) as [i'|] eqn:Ei; simpl in Hi; [|done].
  destruct (seq 0 n !! j) as [j'|] eqn:Ej; simpl in Hj; [|done].
  apply lookup_seq in Ei as [-> Hi']. apply lookup_seq in Ej as [-> Hj'].
  injection Hi as Hi. injection Hj as Hj. rewrite <- Hj in Hi.
  apply wrap64_inj in Hi; lia.
Qed.

Lemma NoDup_concat_disjoint {A : Type} (ls : list (list A)) (i j : nat)
    (x y : list A) (z : A) :
  NoDup (concat ls) -> i <> j -> ls !! i = Some x -> ls !! j = Some y ->
  z ∈ x -> z ∈ y -> False.
Proof.
  revert i j. induction ls as [|l ls IH]; intros i j Hnd Hij Hi Hj Hx Hy;
    [done|].
  simpl in Hnd. apply NoDup_app in Hnd as (_ & Hdisj & Hnd).
  assert (Hin : forall k w, ls !! k = Some w -> z ∈ w -> z ∈ concat ls).
  { intros k w Hk Hw. apply list_elem_of_In, in_concat. exists w.
    split; apply list_elem_of_In; [|done].
    apply list_elem_of_lookup. eauto. }
  destruct i as [|i], j as [|j]; simpl in *; [done|..].
  - injection Hi as ->. eapply Hdisj; eauto.
  - injection Hj as ->. eapply Hdisj; eauto.
  - eapply (IH i j); eauto.
Qed.

Section SeedRanges.
Context {G F64 F32 : Type} `{NumpyRandom G F64}.
Context {F : Type}.
Variable block_splitter : list EBRupture -> nat -> list (list EBRupture).

(** The body of the loop over the blocks returns, unless it is to build an
    [EpsilonMatrix1] with a master seed that [numpy.random.seed] refuses. *)
Lemma starmap_block_is_Some (oq : OqParam F) (covs : bool)
    (num_assets n_all : nat) (seeds : list Z) (grp_id : nat)
    (st : nat * G * list (RiskInput F32 F64)) (rupts : list EBRupture) :
  ignore_covs oq || negb covs = true \/ asset_correlation oq = false
  \/ valid_seed (master_seed oq) ->
  is_Some (EbriskCalculator.starmap_block oq covs num_assets n_all seeds
             grp_id st rupts).
Proof.
  intros Hcase. destruct st as [[start g] allargs].
  unfold EbriskCalculator.starmap_block.
  destruct (ignore_covs oq || negb covs); simpl; [by eexists|].
  destruct (asset_correlation oq); simpl; [|by eexists].
  destruct Hcase as [?|[?|Hseed]]; [done|done|].
  unfold EpsilonMatrix1.init.
  destruct (np_seed_valid _ Hseed) as [gs ->]. simpl.
  destruct (np_normal n_all gs). simpl. by eexists.
Qed.

(** [build_starmap] returns for a [random_seed] that fits int64, unless
    it is to build an [EpsilonMatrix1] with a master seed that
    [numpy.random.seed] refuses. *)
Lemma build_starmap_is_Some (oq : OqParam F) (covs : bool) (num_assets : nat)
    (sm : SourceModel) (ruptures_by_grp : gmap nat (list EBRupture)) (g : G) :
  (- 2 ^ 63 <= random_seed oq < 2 ^ 63)%Z ->
  ignore_covs oq || negb covs = true \/ asset_correlation oq = false
  \/ valid_seed (master_seed oq) ->
  is_Some (EbriskCalculator.build_starmap (F32:=F32) block_splitter oq covs
             num_assets sm ruptures_by_grp g).
Proof.
  intros Hseed Hcase. unfold EbriskCalculator.build_starmap.
  set (n_all := sum_list _).
  destruct (seed_array_is_Some (random_seed oq) n_all Hseed) as [seeds ->].
  simpl.
  destruct (foldM_total
              (EbriskCalculator.starmap_group (F32:=F32) block_splitter oq
                 covs num_assets ruptures_by_grp n_all seeds)
              (merge_sort Nat.le (sm_grp_ids sm)) (0, g, []))
    as [[[start g'] allargs] ->].
  - intros st grp_id. unfold EbriskCalculator.starmap_group.
    apply foldM_total. intros st1 rupts. by apply starmap_block_is_Some.
  - simpl. by eexists.
Qed.

(** Without asset correlation, the seeds of the risk inputs built so far
    are, one after the other, the first [start] seeds of the array. *)
Lemma starmap_block_seeds (oq : OqParam F) (covs : bool) (num_assets n_all : nat)
    (seeds : list Z) (grp_id : nat)
    (st st' : nat * G * list (RiskInput F32 F64)) (rupts : list EBRupture) :
  asset_correlation oq = false ->
  concat (map ri_seeds st.2) = take st.1.1 seeds ->
  EbriskCalculator.starmap_block oq covs num_assets n_all seeds
    grp_id st rupts = Some st' ->
  concat (map ri_seeds st'.2) = take st'.1.1 seeds.
Proof.
  intros Hcorr Hinv. destruct st as [[start g] allargs]. simpl in *.
  unfold EbriskCalculator.starmap_block. rewrite Hcorr.
  destruct (ignore_covs oq || negb covs); simpl; intros [= <-]; simpl.
  - rewrite map_app, concat_app. simpl. rewrite Hinv.
    by rewrite !app_nil_r.
  - rewrite map_app, concat_app. simpl. rewrite Hinv.
    unfold ri_seeds. simpl. rewrite app_nil_r. by rewrite take_take_drop.
Qed.

Lemma build_starmap_seeds (oq : OqParam F) (covs : bool) (num_assets : nat)
    (sm : SourceModel) (ruptures_by_grp : gmap nat (list EBRupture)) (g : G)
    (r : list (RiskInput F32 F64) * StarmapAttrs * G) :
  asset_correlation oq = false ->
  EbriskCalculator.build_starmap (F32:=F32) block_splitter oq covs num_assets sm
    ruptures_by_grp g = Some r ->
  exists start seeds,
    seed_array (random_seed oq) (num_events r.1.2) = Some seeds
    /\ concat (map ri_seeds r.1.1) = take start seeds.
Proof.
  intros Hcorr. unfold EbriskCalculator.build_starmap.
  set (n_all := sum_list _).
  destruct (seed_array (random_seed oq) n_all) as [seeds|] eqn:Hseeds;
    simpl; [|done].
  destruct (foldM _ (0, g, []) _) as [[[start g'] allargs]|] eqn:Hfold;
    simpl; [|done].
  intros [= <-]. simpl. exists start, seeds. split; [done|].
  set (P := fun st : nat * G * list (RiskInput F32 F64) =>
              concat (map ri_seeds st.2) = take st.1.1 seeds).
  change (P (start, g', allargs)).
  eapply foldM_invariant; [| |exact Hfold]; [|done].
  intros st grp_id st' Hst. unfold EbriskCalculator.starmap_group.
  apply foldM_invariant; [|done].
  intros st1 rupts st1' Hst1. by apply starmap_block_seeds.
Qed.

(** C5, as the code has it. For a [random_seed] that fits int64 and
    without asset correlation, [build_starmap] returns, and among the risk
    inputs of this one call, that is of one source model, any two distinct
    ones have no seed in common, up to 2^64 events: their seed ranges are
    consecutive slices of the seed array [random_seed + k] (wrapping around
    in int64), which has no repetition, cut by the running offset
    [start]. *)
Theorem seed_ranges_disjoint (oq : OqParam F) (covs : bool) (num_assets : nat)
    (sm : SourceModel) (ruptures_by_grp : gmap nat (list EBRupture)) (g : G) :
  (- 2 ^ 63 <= random_seed oq < 2 ^ 63)%Z ->
  asset_correlation oq = false ->
  exists r,
    EbriskCalculator.build_starmap (F32:=F32) block_splitter oq covs
      num_assets sm ruptures_by_grp g = Some r
    /\ forall (i j : nat) (ri rj : RiskInput F32 F64) (s : Z),
         (Z.of_nat (num_events r.1.2) <= 2 ^ 64)%Z ->
         i <> j -> r.1.1 !! i = Some ri -> r.1.1 !! j = Some rj ->
         s ∈ ri_seeds ri -> s ∉ ri_seeds rj.
Proof.
  intros Hseed Hcorr.
  destruct (build_starmap_is_Some oq covs num_assets sm ruptures_by_grp g
              Hseed) as [r Hr]; [by right; left|].
  exists r. split; [done|].
  intros i j ri rj s Hn Hij Hi Hj Hsi Hsj.
  destruct (build_starmap_seeds oq covs num_assets sm ruptures_by_grp g r
              Hcorr Hr) as (start & seeds & Hseeds & Hconcat).
  eapply (NoDup_concat_disjoint (map ri_seeds _) i j);
    [| exact Hij | | | exact Hsi | exact Hsj].
  - rewrite Hconcat. eapply sublist_NoDup; [|apply sublist_take].
    by eapply seed_array_NoDup.
  - change (map ?f ?l) with (f <$> l). by rewrite list_lookup_fmap, Hi.
  - change (map ?f ?l) with (f <$> l). by rewrite list_lookup_fmap, Hj.
Qed.

Lemma build_starmap_num_rlzs (oq : OqParam F) (covs : bool) (num_assets : nat)
    (sm : SourceModel) (ruptures_by_grp : gmap nat (list EBRupture)) (g : G)
    (r : list (RiskInput F32 F64) * StarmapAttrs * G) :
  EbriskCalculator.build_starmap (F32:=F32) block_splitter oq covs
    num_assets sm ruptures_by_grp g = Some r ->
  num_rlzs r.1.2 = sm_num_rlzs sm ruptures_by_grp.
Proof.
  unfold EbriskCalculator.build_starmap.
  destruct (seed_array _ _) as [seeds|]; simpl; [|done].
  destruct (foldM _ _ _) as [[[start g'] allargs]|]; simpl; [|done].
  by intros [= <-].
Qed.

(** The slices of realizations given to the source models in [execute]
    are consecutive, in the order of the source models: they are fixed
    before any task completes. *)
Lemma submit_all_slices (oq : OqParam F) (covs : bool) (num_assets : nat)
    (source_models : list SourceModel)
    (ruptures_by_grp : gmap nat (list EBRupture)) (g : G)
    (st : nat * G
          * list (list (RiskInput F32 F64) * StarmapAttrs * (nat * nat))) :
  EbriskCalculator.submit_all (F32:=F32) block_splitter oq covs
    num_assets source_models ruptures_by_grp g = Some st ->
  map (fun x => x.2) st.2
  = rlz_slices 0 (map (fun sm => sm_num_rlzs sm ruptures_by_grp)
                      source_models).
Proof.
  unfold EbriskCalculator.submit_all.
  assert (Hgen : forall sms n g0 acc st,
            foldM (EbriskCalculator.submit_model (F32:=F32)
                     block_splitter oq covs num_assets
                     ruptures_by_grp) (n, g0, acc) sms = Some st ->
            map (fun x => x.2) st.2
            = map (fun x => x.2) acc
              ++ rlz_slices n (map (fun sm => sm_num_rlzs sm ruptures_by_grp)
                                   sms)).
  { intros sms. induction sms as [|sm sms IH]; intros n g0 acc st0; simpl.
    - intros [= <-]. simpl. by rewrite app_nil_r.
    - destruct (EbriskCalculator.build_starmap _ _ _ _ _ _ g0)
        as [[[allargs attrs] g1]|] eqn:Hb; simpl; [|done].
      apply build_starmap_num_rlzs in Hb. simpl in Hb.
      intros Hst. rewrite (IH _ _ _ _ Hst), map_app. simpl. rewrite Hb.
      by rewrite <- app_assoc. }
  apply (Hgen source_models 0 g []).
Qed.
End SeedRanges.

(** C5, the claim as stated fails. A run with two source models, each with
    one source group of one rupture: the offset starts from zero again for
    the second source model, and the two risk inputs dispatched are both
    given the seed 42. *)
Lemma seed_ranges_overlap_across_models :
  map ri_seeds <$> EbriskCalculator.dispatched (F32:=Binary32.f32)
                     TwoModels.block_splitter TwoModels.oq true 2
                     [TwoModels.sm0; TwoModels.sm1] TwoModels.ruptures_by_grp
                     7%Z
  = Some [[42%Z]; [42%Z]].
Proof. vm_compute. reflexivity. Qed.

(** With asset correlation every risk input is given the one master
    seed. *)
Example correlated_inputs_share_master_seed :
  (fun r => map ri_seeds r.1.1)
    <$> EbriskCalculator.build_starmap (F32:=Binary32.f32)
          TwoModels.block_splitter TwoModels.oq_corr true 2
          TwoModels.sm01 TwoModels.ruptures_three 7%Z
  = Some [[5%Z]; [5%Z]; [5%Z]].
Proof. vm_compute. reflexivity. Qed.

(** One source model with three blocks, of 2, 1 and 3 events: the seed 42
    of the first block is not among the seeds of the second. *)
Lemma seed_ranges_disjoint_witness :
  exists r ri rj,
    EbriskCalculator.build_starmap (F32:=Binary32.f32)
      TwoModels.block_splitter TwoModels.oq_blocks true 2 TwoModels.sm01
      TwoModels.ruptures_three 7%Z = Some r
    /\ r.1.1 !! 0 = Some ri /\ r.1.1 !! 1 = Some rj
    /\ ri_seeds ri = [42; 43]%Z /\ ri_seeds rj = [44%Z]
    /\ 42%Z ∉ ri_seeds rj.
Proof.
  destruct (seed_ranges_disjoint (F32:=Binary32.f32) TwoModels.block_splitter
              TwoModels.oq_blocks true 2 TwoModels.sm01
              TwoModels.ruptures_three 7%Z)
    as (r & Hr & Hdisj); [by vm_compute|reflexivity|].
  assert (Hseeds : map ri_seeds r.1.1 = [[42; 43]; [44]; [45; 46; 47]]%Z).
  { vm_compute in Hr. by injection Hr as <-. }
  destruct (r.1.1 !! 0) as [ri|] eqn:Hi;
    [|apply (f_equal (fun l => length l)) in Hseeds;
      apply lookup_ge_None in Hi; rewrite length_map in Hseeds;
      simpl in Hseeds; lia].
  destruct (r.1.1 !! 1) as [rj|] eqn:Hj;
    [|apply (f_equal (fun l => length l)) in Hseeds;
      apply lookup_ge_None in Hj; rewrite length_map in Hseeds;
      simpl in Hseeds; lia].
  assert (Hri : ri_seeds ri = [42; 43]%Z).
  { apply (f_equal (fun l => l !! 0)) in Hseeds.
    change (map ?f ?l) with (f <$> l) in Hseeds.
    rewrite list_lookup_fmap, Hi in Hseeds. by injection Hseeds. }
  assert (Hrj : ri_seeds rj = [44%Z]).
  { apply (f_equal (fun l => l !! 1)) in Hseeds.
    change (map ?f ?l) with (f <$> l) in Hseeds.
    rewrite list_lookup_fmap, Hj in Hseeds. by injection Hseeds. }
  exists r, ri, rj. split_and!; try done.
  apply (Hdisj 0 1 ri rj 42%Z); [|lia|exact Hi|exact Hj|].
  - vm_compute in Hr. injection Hr as <-. by vm_compute.
  - rewrite Hri. apply list_elem_of_here.
Defined.

(** ** The reduction and the order in which the tasks complete *)

Lemma foldM_cons {A B : Type} (f : B -> A -> option B) (b : B) (x : A)
    (xs : list A) :
  foldM f b (x :: xs) = f b x ≫= fun b' => foldM f b' xs.
Proof. simpl. by destruct (f b x). Qed.

(** A loop whose steps commute does not depend on the order of the list. *)
Lemma foldM_Permutation_eq {A B : Type} (f : B -> A -> option B)
    (l l' : list A) :
  (forall b x y, f b x ≫= (fun b' => f b' y) = f b y ≫= (fun b' => f b' x)) ->
  l ≡ₚ l' -> forall b, foldM f b l = foldM f b l'.
Proof.
  intros Hcomm Hperm.
  induction Hperm as [|x l l' _ IH|x y l|l1 l2 l3 _ IH1 _ IH2]; intros b.
  - done.
  - rewrite !foldM_cons. destruct (f b x); simpl; [apply IH|done].
  - rewrite !foldM_cons. specialize (Hcomm b x y).
    destruct (f b y) as [b1|], (f b x) as [b2|]; simpl in *;
      rewrite ?foldM_cons.
    + by rewrite Hcomm.
    + by rewrite <- Hcomm.
    + by rewrite Hcomm.
    + done.
  - by rewrite IH1, IH2.
Qed.

(** The same, up to a relation the steps respect. *)
Lemma foldM_Permutation_rel {A B : Type} (R : relation B) `{!Equivalence R}
    (f : B -> A -> option B) (l l' : list A) :
  (forall b b' x, R b b' -> option_Forall2 R (f b x) (f b' x)) ->
  (forall b x y, option_Forall2 R (f b x ≫= fun b' => f b' y)
                                  (f b y ≫= fun b' => f b' x)) ->
  l ≡ₚ l' -> forall b b', R b b' ->
  option_Forall2 R (foldM f b l) (foldM f b' l').
Proof.
  intros Hproper Hcomm Hperm.
  assert (Hfold : forall l b b', R b b' ->
            option_Forall2 R (foldM f b l) (foldM f b' l)).
  { clear l l' Hperm. intros l. induction l as [|x l IH]; intros b b' Hb.
    - by constructor.
    - rewrite !foldM_cons.
      destruct (Hproper b b' x Hb) as [b1 b1' Hb1|]; simpl; [by apply IH|].
      constructor. }
  induction Hperm as [|x l l' _ IH|x y l|l1 l2 l3 _ IH1 _ IH2]; intros b b' Hb.
  - by constructor.
  - rewrite !foldM_cons.
    destruct (Hproper b b' x Hb) as [b1 b1' Hb1|]; simpl; [by apply IH|].
    constructor.
  - rewrite !foldM_cons.
    assert (Hstep : option_Forall2 R (f b y ≫= fun b1 => f b1 x)
                                     (f b' x ≫= fun b1 => f b1 y)).
    { etrans; [apply Hcomm|].
      destruct (Hproper b b' x Hb) as [b1 b1' Hb1|]; simpl;
        [by apply Hproper|constructor]. }
    destruct (f b y) as [b1|], (f b' x) as [b2|]; simpl in *;
      rewrite ?foldM_cons.
    + destruct Hstep as [c c' Hc|]; simpl; [by apply Hfold|constructor].
    + inversion Hstep. constructor.
    + inversion Hstep. constructor.
    + constructor.
  - etrans; [by apply IH1|]. apply IH2. reflexivity.
Qed.

Lemma concat_map_Permutation {A B : Type} (f : A -> list B) (l l' : list A) :
  l ≡ₚ l' -> concat (map f l) ≡ₚ concat (map f l').
Proof.
  induction 1 as [|x l l' _ IH|x y l|l1 l2 l3 _ IH1 _ IH2]; simpl.
  - done.
  - by apply Permutation_app.
  - rewrite !app_assoc. apply Permutation_app; [|done].
    apply Permutation_app_comm.
  - by etrans.
Qed.

Section ReducerFacts.
Context {F SC SM LM : Type} `{Arith F}.
Local Abbreviation Calc := (EbriskCalculator.t F SC SM LM).

(** Exact arithmetic: the addition is associative and commutative. *)
Hypothesis fadd_assoc : forall x y z : F, fadd x (fadd y z) = fadd (fadd x y) z.
Hypothesis fadd_comm : forall x y : F, fadd x y = fadd y x.

Lemma zip_with_fadd_swap (c v w : list F) :
  zip_with fadd (zip_with fadd c v) w = zip_with fadd (zip_with fadd c w) v.
Proof.
  revert v w. induction c as [|x c IH]; intros [|y v] [|z w]; simpl; try done.
  f_equal; [|apply IH].
  by rewrite <- !fadd_assoc, (fadd_comm y z).
Qed.

Lemma apply_avg_update_comm (dset : AvgDset F) (u1 u2 : nat * nat * list F) :
  apply_avg_update dset u1 ≫= (fun d => apply_avg_update d u2)
  = apply_avg_update dset u2 ≫= (fun d => apply_avg_update d u1).
Proof.
  destruct u1 as [[r1 c1] v1], u2 as [[r2 c2] v2].
  unfold apply_avg_update, EbriskCalculator.dset_iadd. simpl.
  repeat (case_decide; simpl); try done.
  f_equal. f_equal.
  destruct (decide ((r1, c1) = (r2, c2))) as [[= -> ->]|Hne].
  - unfold accum_get. rewrite !lookup_insert_eq, !insert_insert_eq.
    by rewrite zip_with_fadd_swap.
  - unfold accum_get. rewrite !lookup_insert_ne by done.
    by apply insert_insert_ne.
Qed.

(** The additions to the dense dataset may be made in any order. *)
Lemma avg_updates_Permutation (dset : AvgDset F)
    (us us' : list (nat * nat * list F)) :
  us ≡ₚ us' -> foldM apply_avg_update dset us = foldM apply_avg_update dset us'.
Proof.
  intros Hperm. apply foldM_Permutation_eq; [|done].
  intros b x y. apply apply_avg_update_comm.
Qed.
End ReducerFacts.

Section WritesFacts.
Context {F SC SM LM : Type} `{Arith F}.
Local Abbreviation Calc := (EbriskCalculator.t F SC SM LM).

(** [save_avglosses] makes the additions of [avg_updates]. *)
Lemma save_avglosses_updates (loss_types : list string)
    (vals : string -> list F) (L : nat) (ins : bool) (start : nat)
    (dset : AvgDset F) (item : nat * nat * list (list F)) :
  EbriskCalculator.save_avglosses loss_types vals L ins start dset item
  = avg_updates loss_types vals L ins start item
      ≫= foldM apply_avg_update dset.
Proof.
  destruct item as [[l r] losses].
  unfold EbriskCalculator.save_avglosses, avg_updates, apply_avg_update.
  destruct (loss_types !! l) as [loss_type|]; simpl; [|done].
  destruct (EbriskCalculator.column 0 losses) as [col0|]; simpl; [|done].
  destruct (EbriskCalculator.mul_values col0 _) as [v0|]; simpl; [|done].
  destruct ins; simpl.
  - destruct (EbriskCalculator.column 1 losses) as [col1|]; simpl;
      [|by destruct (EbriskCalculator.dset_iadd _ _ _ _)].
    destruct (EbriskCalculator.mul_values col1 _) as [v1|]; simpl;
      [|by destruct (EbriskCalculator.dset_iadd _ _ _ _)].
    destruct (EbriskCalculator.dset_iadd dset _ _ v0) as [dset1|]; simpl;
      [|done].
    by destruct (EbriskCalculator.dset_iadd dset1 _ _ v1).
  - by destruct (EbriskCalculator.dset_iadd dset _ _ v0).
Qed.

Lemma foldM_save_avglosses (loss_types : list string)
    (vals : string -> list F) (L : nat) (ins : bool) (start : nat)
    (items : list (nat * nat * list (list F))) (dset : AvgDset F) :
  foldM (EbriskCalculator.save_avglosses loss_types vals L ins start) dset items
  = mapM (avg_updates loss_types vals L ins start) items
      ≫= fun ups => foldM apply_avg_update dset (concat ups).
Proof.
  revert dset. induction items as [|item items IH]; intros dset; [done|].
  rewrite foldM_cons, save_avglosses_updates. csimpl.
  destruct (avg_updates _ _ _ _ _ item) as [u|]; simpl; [|done].
  destruct (foldM apply_avg_update dset u) as [d'|] eqn:Hu; simpl.
  - rewrite IH. destruct (mapM _ items) as [ups|]; simpl; [|done].
    by rewrite foldM_app, Hu.
  - destruct (mapM _ items) as [ups|]; simpl; [|done].
    by rewrite foldM_app, Hu.
Qed.

(** [save_losses] makes the calls of [table_update]. *)
Lemma save_losses_item_update {Rec : Type} (loss_types : list string)
    (offset : nat) (item : nat * nat * list Rec)
    (table : gmap (nat * string) (list Rec)) :
  EbriskCalculator.save_losses_item loss_types offset table item
  = apply_table_update table <$> table_update loss_types offset item.
Proof.
  destruct item as [[l r] rows].
  unfold EbriskCalculator.save_losses_item, table_update.
  by destruct (loss_types !! l).
Qed.

Lemma foldM_save_losses_item {Rec : Type} (loss_types : list string)
    (offset : nat) (items : list (nat * nat * list Rec))
    (table : gmap (nat * string) (list Rec)) :
  foldM (EbriskCalculator.save_losses_item loss_types offset) table items
  = (fun us => foldl apply_table_update table us)
      <$> mapM (table_update loss_types offset) items.
Proof.
  revert table. induction items as [|item items IH]; intros table; [done|].
  rewrite foldM_cons, save_losses_item_update. csimpl.
  destruct (table_update loss_types offset item) as [u|]; simpl; [|done].
  rewrite IH. by destruct (mapM _ items).
Qed.

(** The rows of a table after a list of calls of [extend]: those it had,
    then the rows of the calls for the key, in the order of the calls. *)
Lemma rows_at_foldl {Rec : Type} (key : nat * string)
    (us : list (nat * string * list Rec))
    (table : gmap (nat * string) (list Rec)) :
  rows_at key (foldl apply_table_update table us)
  = rows_at key table
    ++ concat (map snd (List.filter (fun u => bool_decide (u.1 = key)) us)).
Proof.
  revert table. induction us as [|[k rows] us IH]; intros table; simpl.
  - by rewrite app_nil_r.
  - rewrite IH. unfold apply_table_update, extend, rows_at, accum_get. simpl.
    case_bool_decide as Hk; simpl.
    + subst k. rewrite lookup_insert_eq. by rewrite app_assoc.
    + by rewrite lookup_insert_ne.
Qed.

Lemma is_Some_foldl {Rec : Type} (key : nat * string)
    (us : list (nat * string * list Rec))
    (table : gmap (nat * string) (list Rec)) :
  is_Some (foldl apply_table_update table us !! key)
  <-> is_Some (table !! key) \/ key ∈ map fst us.
Proof.
  revert table. induction us as [|[k rows] us IH]; intros table; simpl.
  - split; [by left|]. intros [?|Hin]; [done|]. by apply elem_of_nil in Hin.
  - rewrite IH. unfold apply_table_update, extend. simpl.
    rewrite lookup_insert. rewrite elem_of_cons.
    case_decide as Hk.
    + subst k. split; [by right; left|]. intros _. left. by eexists.
    + split; [intros [?|?]; auto|]. intros [?|[?|?]]; auto. congruence.
Qed.

Lemma table_equiv_foldl {Rec : Type}
    (t t' : gmap (nat * string) (list Rec))
    (us us' : list (nat * string * list Rec)) :
  table_equiv t t' -> us ≡ₚ us' ->
  table_equiv (foldl apply_table_update t us) (foldl apply_table_update t' us').
Proof.
  intros Ht Hus key. destruct (Ht key) as [Hdom Hrows]. split.
  - rewrite !is_Some_foldl, Hdom.
    assert (key ∈ map fst us <-> key ∈ map fst us') as ->; [|done].
    change (map ?f ?l) with (f <$> l). by rewrite Hus.
  - rewrite !rows_at_foldl. apply Permutation_app; [done|].
    assert (Hf : List.filter (fun u : nat * string * list Rec =>
                                bool_decide (u.1 = key)) us
                 ≡ₚ List.filter (fun u => bool_decide (u.1 = key)) us').
    { clear -Hus. induction Hus as [|x l l' _ IH|x y l|l1 l2 l3 _ IH1 _ IH2];
        simpl; [done| | |by etrans].
      - destruct (bool_decide _); by rewrite IH.
      - destruct (bool_decide (x.1 = key)), (bool_decide (y.1 = key));
          try done. apply perm_swap. }
    by apply concat_map_Permutation.
Qed.

Lemma table_equiv_refl {Rec : Type} (t : gmap (nat * string) (list Rec)) :
  table_equiv t t.
Proof. intros key. done. Qed.

Lemma table_equiv_sym {Rec : Type} (t1 t2 : gmap (nat * string) (list Rec)) :
  table_equiv t1 t2 -> table_equiv t2 t1.
Proof. intros Ht key. destruct (Ht key) as [Hd Hr]. by rewrite Hd, Hr. Qed.

Lemma table_equiv_trans {Rec : Type}
    (t1 t2 t3 : gmap (nat * string) (list Rec)) :
  table_equiv t1 t2 -> table_equiv t2 t3 -> table_equiv t1 t3.
Proof.
  intros H12 H23 key. destruct (H12 key) as [Hd Hr], (H23 key) as [Hd' Hr'].
  split; [by rewrite Hd|by etrans].
Qed.

#[export] Instance calc_equiv_equivalence :
  Equivalence (calc_equiv (F:=F) (SC:=SC) (SM:=SM) (LM:=LM)).
Proof.
  split.
  - intros s. unfold calc_equiv, ds_equiv.
    split_and!; try done; apply table_equiv_refl.
  - intros s1 s2 (Hds & Hg & Hl). unfold calc_equiv, ds_equiv in *.
    destruct Hds as (?&?&?&?&?&?&?&?&?&?&?&?).
    split_and!; try done; by apply table_equiv_sym.
  - intros s1 s2 s3 (Hds & Hg & Hl) (Hds' & Hg' & Hl').
    unfold calc_equiv, ds_equiv in *.
    destruct Hds as (?&?&?&?&?&?&?&?&?&?&?&?).
    destruct Hds' as (?&?&?&?&?&?&?&?&?&?&?&?).
    split_and!; try congruence; by eapply table_equiv_trans.
Qed.

Lemma save_losses_updates (loss_types : list string)
    (agglosses : gmap (nat * nat) (list (elt_rec F)))
    (asslosses : gmap (nat * nat) (list (ela_rec F))) (offset : nat)
    (ds : Datastore F SC SM LM) :
  EbriskCalculator.save_losses loss_types agglosses asslosses offset ds
  = gu ← mapM (table_update loss_types offset) (map_to_list agglosses);
    su ← mapM (table_update loss_types offset) (map_to_list asslosses);
    Some (set_ass_loss_ratios
            (foldl apply_table_update (ds_ass_loss_ratios ds) su)
            (set_agg_loss_table
               (foldl apply_table_update (ds_agg_loss_table ds) gu) ds)).
Proof.
  unfold EbriskCalculator.save_losses. rewrite !foldM_save_losses_item.
  destruct (mapM _ (map_to_list agglosses)); simpl; [|done].
  by destruct (mapM _ (map_to_list asslosses)).
Qed.

(** [save_task] makes the writes of the task. *)
Lemma save_task_writes (oq : OqParam F) (loss_types : list string)
    (vals : string -> list F) (L start : nat) (self : Calc)
    (dic : TaskResult F) :
  EbriskCalculator.save_task oq loss_types vals L start self dic
  = task_writes oq loss_types vals L start dic ≫= apply_writes oq self.
Proof.
  unfold EbriskCalculator.save_task, task_writes, apply_writes.
  destruct (avg_losses oq); simpl.
  - destruct (res_avglosses dic) as [avgl|]; simpl; [|done].
    destruct (ds_avg_losses (EbriskCalculator.datastore self)) as [dset|];
      simpl.
    + rewrite foldM_save_avglosses.
      destruct (mapM _ (map_to_list avgl)) as [ups|]; simpl; [|done].
      destruct (foldM apply_avg_update dset (concat ups)) as [dset'|] eqn:Hf;
        simpl; rewrite ?save_losses_updates;
        (destruct (mapM _ (map_to_list (res_agglosses dic))); simpl; [|done]);
        (destruct (mapM _ (map_to_list (res_asslosses dic))); simpl; [|done]);
        by rewrite Hf.
    + destruct (mapM _ (map_to_list avgl)) as [ups|]; simpl; [|done].
      destruct (mapM _ (map_to_list (res_agglosses dic))); simpl; [|done].
      by destruct (mapM _ (map_to_list (res_asslosses dic))).
  - rewrite save_losses_updates.
    destruct (mapM _ (map_to_list (res_agglosses dic))); simpl; [|done].
    by destruct (mapM _ (map_to_list (res_asslosses dic))).
Qed.

Lemma foldM_save_task (oq : OqParam F) (loss_types : list string)
    (vals : string -> list F) (L start : nat) (tasks : list (TaskResult F))
    (self : Calc) :
  foldM (EbriskCalculator.save_task oq loss_types vals L start) self tasks
  = mapM (task_writes oq loss_types vals L start) tasks
      ≫= foldM (apply_writes oq) self.
Proof.
  revert self. induction tasks as [|dic tasks IH]; intros self; [done|].
  rewrite foldM_cons, save_task_writes. csimpl.
  destruct (task_writes _ _ _ _ _ dic) as [w|]; simpl; [|done].
  destruct (apply_writes oq self w) as [self1|] eqn:Hw; simpl.
  - rewrite IH. destruct (mapM _ tasks) as [ws|]; simpl; [|done].
    by rewrite Hw.
  - destruct (mapM _ tasks) as [ws|]; simpl; [|done]. by rewrite Hw.
Qed.

(** The writes of a task on calculators that agree up to the order of
    rows *)
Lemma apply_writes_proper (oq : OqParam F) (s s' : Calc) (w : Writes F) :
  calc_equiv s s' ->
  option_Forall2 calc_equiv (apply_writes oq s w) (apply_writes oq s' w).
Proof.
  intros (Hds & Hg & Hl). unfold apply_writes.
  destruct Hds as (Havg & Hagg & Hass & ? & ? & ? & ? & ? & ? & ? & ? & ?).
  rewrite <- Havg, <- Hg, <- Hl.
  destruct (avg_losses oq); simpl.
  - destruct (ds_avg_losses _) as [dset|]; simpl; [|constructor].
    destruct (foldM apply_avg_update dset (w_avg w)); simpl; constructor.
    unfold calc_equiv, ds_equiv. simpl.
    split_and!; try done; by apply table_equiv_foldl.
  - constructor. unfold calc_equiv, ds_equiv. simpl.
    split_and!; try done; by apply table_equiv_foldl.
Qed.

(** The writes of two tasks in either order *)
Lemma apply_writes_comm (oq : OqParam F) (s : Calc) (w1 w2 : Writes F) :
  (avg_losses oq = true ->
   (forall x y z : F, fadd x (fadd y z) = fadd (fadd x y) z)
   /\ (forall x y : F, fadd x y = fadd y x)) ->
  option_Forall2 calc_equiv
    (apply_writes oq s w1 ≫= fun s1 => apply_writes oq s1 w2)
    (apply_writes oq s w2 ≫= fun s2 => apply_writes oq s2 w1).
Proof.
  intros Hlaws. unfold apply_writes.
  assert (Htab : forall (Rec : Type) (t : gmap (nat * string) (list Rec)) u1 u2,
            table_equiv (foldl apply_table_update (foldl apply_table_update t u1) u2)
                        (foldl apply_table_update (foldl apply_table_update t u2) u1)).
  { intros Rec t u1 u2. rewrite <- !foldl_app.
    apply table_equiv_foldl; [apply table_equiv_refl|apply Permutation_app_comm]. }
  destruct (avg_losses oq) eqn:Havg; simpl.
  - destruct (Hlaws eq_refl) as [Hassoc Hcomm].
    destruct (ds_avg_losses _) as [dset|]; simpl; [|constructor].
    pose proof (avg_updates_Permutation Hassoc Hcomm dset
                  (w_avg w1 ++ w_avg w2) (w_avg w2 ++ w_avg w1)
                  (Permutation_app_comm _ _)) as Hperm.
    rewrite !foldM_app in Hperm.
    destruct (foldM apply_avg_update dset (w_avg w1)) as [d1|],
             (foldM apply_avg_update dset (w_avg w2)) as [d2|];
      simpl in *; rewrite ?Havg; simpl.
    + rewrite Hperm.
      destruct (foldM apply_avg_update d2 (w_avg w1)); simpl; constructor.
      unfold calc_equiv, ds_equiv. simpl.
      split_and!; try done; try apply Htab. lia.
    + rewrite Hperm. constructor.
    + rewrite <- Hperm. constructor.
    + constructor.
  - constructor.
    unfold calc_equiv, ds_equiv. simpl.
    split_and!; try done; try apply Htab. lia.
Qed.

Lemma mapM_Permutation {A B : Type} (f : A -> option B) (l l' : list A) :
  l ≡ₚ l' -> option_Forall2 (≡ₚ) (mapM f l) (mapM f l').
Proof.
  induction 1 as [|x l l' _ IH|x y l|l1 l2 l3 _ IH1 _ IH2]; csimpl.
  - by constructor.
  - destruct (f x); simpl; [|constructor].
    destruct (mapM f l), (mapM f l'); inversion IH; subst; simpl;
      constructor. by constructor.
  - destruct (f y), (f x), (mapM f l); simpl; constructor. apply perm_swap.
  - destruct (mapM f l1), (mapM f l2), (mapM f l3);
      inversion IH1; inversion IH2; subst; constructor.
    by etrans.
Qed.

(** The results of the tasks of a source model, saved in two orders, on
    calculators that agree up to the order of rows *)
Lemma save_tasks_equiv (oq : OqParam F) (loss_types : list string)
    (vals : string -> list F) (L start : nat)
    (tasks tasks' : list (TaskResult F)) (s s' : Calc) :
  (avg_losses oq = true ->
   (forall x y z : F, fadd x (fadd y z) = fadd (fadd x y) z)
   /\ (forall x y : F, fadd x y = fadd y x)) ->
  calc_equiv s s' -> tasks ≡ₚ tasks' ->
  option_Forall2 calc_equiv
    (foldM (EbriskCalculator.save_task oq loss_types vals L start) s tasks)
    (foldM (EbriskCalculator.save_task oq loss_types vals L start) s' tasks').
Proof.
  intros Hlaws Hs Htasks. rewrite !foldM_save_task.
  destruct (mapM_Permutation (task_writes oq loss_types vals L start)
              tasks tasks' Htasks) as [ws ws' Hws|]; simpl; [|constructor].
  apply (foldM_Permutation_rel calc_equiv); auto.
  - intros b b' w. apply apply_writes_proper.
  - intros b w1 w2. by apply apply_writes_comm.
Qed.
End WritesFacts.

(** ** The reduction in any arithmetic *)

Section WritesShape.
Context {F SC SM LM : Type} `{Arith F}.
Local Abbreviation Calc := (EbriskCalculator.t F SC SM LM).

#[export] Instance dset_same_shape_equivalence :
  Equivalence (dset_same_shape (F:=F)).
Proof.
  split.
  - intros d. by split_and!.
  - intros d1 d2 (HA & HR & HC & Hk).
    split_and!; try done; intros key; by rewrite Hk.
  - intros d1 d2 d3 (HA & HR & HC & Hk) (HA' & HR' & HC' & Hk').
    split_and!; try congruence; intros key; by rewrite Hk.
Qed.




#[export] Instance calc_equiv_tables_equivalence :
  Equivalence (calc_equiv_tables (F:=F) (SC:=SC) (SM:=SM) (LM:=LM)).
Proof.
  split.
  - intros s. unfold calc_equiv_tables, ds_equiv_tables.
    split_and!; first [done|reflexivity|apply table_equiv_refl].
  - intros s1 s2 (Hds & Hg & Hl). unfold calc_equiv_tables, ds_equiv_tables in *.
    destruct Hds as (?&?&?&?&?&?&?&?&?&?&?&?).
    split_and!; first [done|by symmetry|by apply table_equiv_sym].
  - intros s1 s2 s3 (Hds & Hg & Hl) (Hds' & Hg' & Hl').
    unfold calc_equiv_tables, ds_equiv_tables in *.
    destruct Hds as (?&?&?&?&?&?&?&?&?&?&?&?).
    destruct Hds' as (?&?&?&?&?&?&?&?&?&?&?&?).
    split_and!;
      first [congruence|by etrans|by eapply table_equiv_trans].
Qed.

(** Calculators that agree exactly agree in this sense. *)
Lemma calc_equiv_tables_of_equiv (s s' : Calc) :
  calc_equiv s s' -> calc_equiv_tables s s'.
Proof.
  intros (Hds & Hg & Hl). destruct Hds as (Havg&?&?&?&?&?&?&?&?&?&?&?).
  unfold calc_equiv_tables, ds_equiv_tables. split_and!; try done.
  rewrite Havg. reflexivity.
Qed.






End WritesShape.

Section ReductionOrder.
Context {F SC SM LM : Type} `{Arith F}.
Local Abbreviation Calc := (EbriskCalculator.t F SC SM LM).

Lemma save_result_equiv (oq : OqParam F) (loss_types : list string)
    (vals : string -> list F) (L : nat) (s s' : Calc) (n : nat)
    (res res' : IterResult F) :
  (avg_losses oq = true ->
   (forall x y z : F, fadd x (fadd y z) = fadd (fadd x y) z)
   /\ (forall x y : F, fadd x y = fadd y x)) ->
  calc_equiv s s' ->
  ir_attrs res = ir_attrs res' -> ir_rlz_slice res = ir_rlz_slice res' ->
  ir_tasks res ≡ₚ ir_tasks res' ->
  results_equiv
    (EbriskCalculator.save_result oq loss_types vals L (s, n) res)
    (EbriskCalculator.save_result oq loss_types vals L (s', n) res').
Proof.
  intros Hlaws Hs Hattrs Hslice Htasks.
  unfold EbriskCalculator.save_result. rewrite <- Hattrs, <- Hslice.
  destruct (ir_rlz_slice res) as [start stop]. simpl.
  destruct (save_tasks_equiv oq loss_types vals L start _ _ s s'
              Hlaws Hs Htasks) as [s1 s1' Hs1|]; simpl; [|done].
  split; [done|]. destruct Hs1 as (Hds & Hg & Hl).
  unfold calc_equiv. simpl. by rewrite Hl.
Qed.

Lemma foldM_save_result_equiv (oq : OqParam F) (loss_types : list string)
    (vals : string -> list F) (L : nat)
    (allres allres' : list (IterResult F)) (s s' : Calc) (n : nat) :
  (avg_losses oq = true ->
   (forall x y z : F, fadd x (fadd y z) = fadd (fadd x y) z)
   /\ (forall x y : F, fadd x y = fadd y x)) ->
  same_tasks allres allres' -> calc_equiv s s' ->
  results_equiv
    (foldM (EbriskCalculator.save_result oq loss_types vals L) (s, n) allres)
    (foldM (EbriskCalculator.save_result oq loss_types vals L) (s', n) allres').
Proof.
  intros Hlaws Hall. revert s s' n.
  induction Hall as [|res res' allres allres' (Hattrs & Hslice & Htasks) _ IH];
    intros s s' n Hs.
  - simpl. done.
  - rewrite !foldM_cons.
    pose proof (save_result_equiv oq loss_types vals L s s' n res res'
                  Hlaws Hs Hattrs Hslice Htasks) as Hres.
    destruct (EbriskCalculator.save_result _ _ _ _ (s, n) res) as [[s1 n1]|],
             (EbriskCalculator.save_result _ _ _ _ (s', n) res') as [[s1' n1']|];
      simpl in *; try done.
    destruct Hres as [<- Hs1]. by apply IH.
Qed.

(** [save_results] on the results saved in two orders of completion, in
    an arithmetic whose addition is associative and commutative. *)
Lemma save_results_exact (oq : OqParam F)
    (loss_types : list string) (vals : string -> list F) (L A : nat)
    (self : Calc) (allres allres' : list (IterResult F)) (n_rlzs : nat) :
  (avg_losses oq = true ->
   (forall x y z : F, fadd x (fadd y z) = fadd (fadd x y) z)
   /\ (forall x y : F, fadd x y = fadd y x)) ->
  same_tasks allres allres' ->
  results_equiv
    (EbriskCalculator.save_results oq loss_types vals L A self allres n_rlzs)
    (EbriskCalculator.save_results oq loss_types vals L A self allres' n_rlzs).
Proof.
  intros Hlaws Hall. unfold EbriskCalculator.save_results.
  match goal with
  | |- context [foldM _ (?s0, 0) allres] =>
      pose proof (foldM_save_result_equiv oq loss_types vals L allres allres'
                    s0 s0 0 Hlaws Hall (reflexivity _)) as Hfold
  end.
  destruct (foldM _ _ allres) as [[s1 n1]|],
           (foldM _ _ allres') as [[s1' n1']|]; simpl in *; try done.
  destruct Hfold as [<- (Hds & Hg & Hl)].
  pose proof Hds as (? & ? & ? & Hev & ? & ? & ? & ? & ? & ? & ? & ?).
  rewrite <- Hev. destruct (ds_events _); simpl; [|done].
  split; [done|]. unfold calc_equiv, ds_equiv. simpl. split_and!; done.
Qed.

End ReductionOrder.


(** In binary32 the dense average losses depend on the order as well:
    three tasks that add 2^24, 1 and 1 to the same entry give 2^24 in one
    order and 2^24 + 2 in another. *)
Example avg_losses_depend_on_order_binary32 :
  let run tasks :=
    r ← EbriskCalculator.save_results Reduction.oq Scenario.loss_types
          Reduction.unit_vals 1 1 Reduction.calc0 (Reduction.allres tasks) 2;
    dset ← ds_avg_losses (EbriskCalculator.datastore r.1);
    avg_cols dset !! (0, 0) in
  run [Reduction.avg_task (Binary32.of_Z 16777216);
       Reduction.avg_task (Binary32.of_Z 1);
       Reduction.avg_task (Binary32.of_Z 1)]
  = Some [Binary32.of_Z 16777216]
  /\ run [Reduction.avg_task (Binary32.of_Z 1);
          Reduction.avg_task (Binary32.of_Z 1);
          Reduction.avg_task (Binary32.of_Z 16777216)]
     = Some [Binary32.of_Z 16777218].
Proof. split; vm_compute; reflexivity. Qed.


(** Two tasks in exact arithmetic, saved in the two orders: both runs
    return, with stores that agree up to the order of rows, the average
    losses included. *)
Example save_results_exact_arithmetic :
  is_Some (EbriskCalculator.save_results Reduction.oqZ Scenario.loss_types
             Reduction.valsZ 1 2 Reduction.calcZ
             (Reduction.allres [Reduction.taskZ 0 10 1 2;
                                Reduction.taskZ 3 50 4 5]) 2)
  /\ results_equiv
       (EbriskCalculator.save_results Reduction.oqZ Scenario.loss_types
          Reduction.valsZ 1 2 Reduction.calcZ
          (Reduction.allres [Reduction.taskZ 0 10 1 2;
                             Reduction.taskZ 3 50 4 5]) 2)
       (EbriskCalculator.save_results Reduction.oqZ Scenario.loss_types
          Reduction.valsZ 1 2 Reduction.calcZ
          (Reduction.allres [Reduction.taskZ 3 50 4 5;
                             Reduction.taskZ 0 10 1 2]) 2).
Proof.
  split; [vm_compute; eauto|].
  apply save_results_exact.
  - intros _. split; intros; simpl; lia.
  - constructor; [|constructor]. split_and!; [done|done|apply perm_swap].
Qed.
(** ** The fatal condition of [post_execute] *)

Lemma foldM_sum {A B : Type} (m : B -> Z) (g : A -> Z)
    (f : B -> A -> option B) (xs : list A) (b b' : B) :
  (forall b x b', f b x = Some b' -> m b' = (m b + g x)%Z) ->
  foldM f b xs = Some b' ->
  m b' = (m b + foldr Z.add 0%Z (map g xs))%Z.
Proof.
  intros Hstep. revert b. induction xs as [|x xs IH]; intros b; simpl.
  - intros [= <-]. lia.
  - destruct (f b x) as [b1|] eqn:E; [|done]. intros Hf.
    rewrite (IH _ Hf), (Hstep _ _ _ E). lia.
Qed.

Section PostExecute.
Context {F SC SM LM : Type} `{Arith F}.
Local Abbreviation Calc := (EbriskCalculator.t F SC SM LM).
Variable parent_post_execute : Calc -> nat -> exn + Calc.

Lemma save_task_gmfbytes (oq : OqParam F) (loss_types : list string)
    (vals : string -> list F) (L start : nat) (s s' : Calc)
    (dic : TaskResult F) :
  EbriskCalculator.save_task oq loss_types vals L start s dic = Some s' ->
  EbriskCalculator.gmfbytes s'
  = (EbriskCalculator.gmfbytes s + res_gmfbytes dic)%Z.
Proof.
  unfold EbriskCalculator.save_task. intros Hs.
  destruct (if avg_losses oq then _ else _) as [ds1|]; simpl in Hs; [|done].
  destruct (EbriskCalculator.save_losses _ _ _ _ ds1); simpl in Hs; [|done].
  by injection Hs as <-.
Qed.

(** The counter [gmfbytes] after [save_results]: the sum of the byte counts
    of all the tasks. *)
Lemma save_results_gmfbytes (oq : OqParam F) (loss_types : list string)
    (vals : string -> list F) (L A : nat) (self s : Calc)
    (allres : list (IterResult F)) (n_rlzs n : nat) :
  EbriskCalculator.save_results oq loss_types vals L A self allres n_rlzs
  = Some (s, n) ->
  EbriskCalculator.gmfbytes s
  = foldr Z.add 0%Z
      (map (fun res => foldr Z.add 0%Z (map res_gmfbytes (ir_tasks res)))
           allres).
Proof.
  unfold EbriskCalculator.save_results. intros Hs.
  destruct (foldM _ _ allres) as [[s1 n1]|] eqn:Hf; simpl in Hs; [|done].
  destruct (ds_events _); simpl in Hs; [|done]. injection Hs as <- <-. simpl.
  apply (foldM_sum (fun st : Calc * nat => EbriskCalculator.gmfbytes st.1)
           (fun res => foldr Z.add 0%Z (map res_gmfbytes (ir_tasks res))))
    in Hf; [exact Hf|].
  intros [b k] res [b' k']. unfold EbriskCalculator.save_result. simpl.
  destruct (ir_rlz_slice res) as [start stop].
  destruct (foldM _ b (ir_tasks res)) as [b1|] eqn:Hb; simpl; [|done].
  intros [= <- <-]. simpl.
  apply (foldM_sum EbriskCalculator.gmfbytes res_gmfbytes) in Hb; [exact Hb|].
  intros. by eapply save_task_gmfbytes.
Qed.

(** C2, as the code has it. Once the [post_execute] of the parent class
    has returned, [post_execute] raises its RuntimeError exactly when the
    counter [gmfbytes], the bytes of ground motion fields of all tasks, is
    zero. When ground motion fields were generated and the datastore has
    no ['agg_loss_table'], that is when no task produced a loss, it does
    not raise: it logs the warning 'No losses were generated' and returns
    (the attributes of ['ass_loss_ratios'], if present, need a positive
    number of assets and events). *)
Theorem post_execute_outcome (A : nat) (self self1 : Calc) (n_events : nat) :
  parent_post_execute self n_events = inr self1 ->
  ((exists msg, EbriskCalculator.post_execute parent_post_execute A self n_events
                = inl (RuntimeError msg))
   <-> EbriskCalculator.gmfbytes self1 = 0%Z)
  /\ (EbriskCalculator.gmfbytes self1 <> 0%Z ->
      has_group (ds_agg_loss_table (EbriskCalculator.datastore self1)) = false ->
      has_group (ds_ass_loss_ratios (EbriskCalculator.datastore self1)) = false
      \/ A * n_events <> 0 ->
      exists self',
        EbriskCalculator.post_execute parent_post_execute A self n_events
        = inr self'
        /\ EbriskCalculator.log self'
           = EbriskCalculator.log self1
             ++ [InfoGenerated (EbriskCalculator.gmfbytes self1); WarnNoLosses]
        /\ EbriskCalculator.gmfbytes self' = EbriskCalculator.gmfbytes self1).
Proof.
  intros Hparent. unfold EbriskCalculator.post_execute. rewrite Hparent.
  split.
  - destruct (EbriskCalculator.gmfbytes self1 =? 0)%Z eqn:Hz.
    + apply Z.eqb_eq in Hz. split; [done|]. intros _. by eexists.
    + apply Z.eqb_neq in Hz. split; [|done]. intros [msg Hmsg]. exfalso.
      simpl in Hmsg.
      destruct (has_group (ds_ass_loss_ratios _) && (A * n_events =? 0));
        [done|].
      destruct (negb (has_group (ds_agg_loss_table _))); [done|].
      by destruct (n_events =? 0).
  - intros Hnz Hagg Hass.
    apply Z.eqb_neq in Hnz. rewrite Hnz. simpl. rewrite Hagg. simpl.
    assert (has_group (ds_ass_loss_ratios (EbriskCalculator.datastore self1))
            && (A * n_events =? 0) = false) as ->.
    { destruct Hass as [->|Hne]; [done|].
      apply Nat.eqb_neq in Hne. rewrite Hne. apply andb_false_r. }
    eexists. split; [done|]. simpl. by rewrite <- app_assoc.
Qed.
End PostExecute.

(** C2, the claim as stated fails. A task whose loss ratios are all zero
    produces no loss record; with 96 bytes of ground motion fields the
    reduction and [post_execute] complete, with the warning in the log:
    the run is not aborted. *)
Lemma run_without_losses_completes :
  (dic ← event_based_risk Scenario.eids [Reduction.out_no_loss]
           Scenario.loss_types 2 Scenario.monitor;
   r ← EbriskCalculator.save_results Reduction.oq Scenario.loss_types
         Reduction.vals 1 2 Reduction.calc0 (Reduction.allres [dic]) 2;
   Some (map_to_list (res_agglosses dic), map_to_list (res_asslosses dic),
         match EbriskCalculator.post_execute Reduction.parent_returns 2
                 r.1 r.2 with
         | inr s => Some (EbriskCalculator.log s, EbriskCalculator.gmfbytes s)
         | inl _ => None
         end))
  = Some ([], [], Some ([DebugSaving 1 0 2; InfoGenerated 96; WarnNoLosses],
                        96%Z)).
Proof. vm_compute. reflexivity. Qed.

(** A calculator with 96 bytes of ground motion fields and no loss
    table: no RuntimeError, the warning is logged. *)
Lemma post_execute_outcome_witness :
  ((exists msg,
      EbriskCalculator.post_execute Reduction.parent_returns 2
        Reduction.calc_done 3 = inl (RuntimeError msg))
   <-> EbriskCalculator.gmfbytes Reduction.calc_done = 0%Z)
  /\ exists self',
       EbriskCalculator.post_execute Reduction.parent_returns 2
         Reduction.calc_done 3 = inr self'
       /\ EbriskCalculator.log self' = [InfoGenerated 96; WarnNoLosses].
Proof.
  destruct (post_execute_outcome Reduction.parent_returns 2
              Reduction.calc_done Reduction.calc_done 3 eq_refl)
    as [Hiff Hwarn].
  split; [exact Hiff|].
  destruct Hwarn as (self' & Hpost & Hlog & _);
    [by vm_compute | reflexivity | by left | ].
  exists self'. split; [exact Hpost|exact Hlog].
Defined.

(** ** Empty results *)

Section EmptyResults.
Context {F SC SM LM : Type} `{Arith F}.
Variable group_array : list (ela_rec F) -> gmap nat (list (ela_rec F)).
Variable event_based : list F -> F -> nat -> option (list F * list F).
Variable average_loss : list F * list F -> option F.

(** A triple without data leaves the dictionary as it is. *)
Lemma build_agg_curve_item_empty (insured : bool) (ratio : F) (C : nat)
    (result : gmap (nat * nat * string) (curve_value F)) (l r : nat) :
  build_agg_curve_item event_based average_loss insured ratio C result (l, r, [])
  = Some result.
Proof. done. Qed.

(** The keys of the dictionary belong to the pairs that have data. *)
Lemma build_agg_curve_keys (lr_data : list (nat * nat * list (elt_rec F)))
    (insured : bool) (ratio : F) (C : nat)
    (result0 result : gmap (nat * nat * string) (curve_value F))
    (l r : nat) :
  (forall data, (l, r, data) ∈ lr_data -> data = []) ->
  (forall name, result0 !! (l, r, name) = None) ->
  foldM (build_agg_curve_item event_based average_loss insured ratio C)
        result0 lr_data = Some result ->
  forall name, result !! (l, r, name) = None.
Proof.
  revert result0. induction lr_data as [|[[l' r'] data] lr_data IH];
    intros result0 Hempty H0.
  - by intros [= <-].
  - rewrite foldM_cons.
    destruct (build_agg_curve_item event_based average_loss insured ratio C
                result0 (l', r', data)) as [result1|] eqn:Hitem; [|done].
    simpl. apply IH.
    + intros data' Hin. apply Hempty. by right.
    + intros name. unfold build_agg_curve_item in Hitem.
      destruct (length data =? 0) eqn:Hlen.
      { injection Hitem as <-. apply H0. }
      assert ((l', r') <> (l, r)) as Hne.
      { intros [= -> ->]. rewrite (Hempty data) in Hlen; [done|by left]. }
      destruct (loss_column 0 data); simpl in Hitem; [|done].
      destruct (event_based _ _ _) as [lp|]; simpl in Hitem; [|done].
      destruct (average_loss lp); simpl in Hitem; [|done].
      destruct insured.
      * destruct (loss_column 1 data); simpl in Hitem; [|done].
        destruct (event_based _ _ _) as [lp1|]; simpl in Hitem; [|done].
        destruct (average_loss lp1); simpl in Hitem; [|done].
        injection Hitem as <-.
        rewrite !lookup_insert_ne by congruence. apply H0.
      * injection Hitem as <-.
        rewrite !lookup_insert_ne by congruence. apply H0.
Qed.

(** A run on triples without data returns the dictionary it started from. *)
Lemma build_agg_curve_all_empty (pairs : list (nat * nat)) (insured : bool)
    (ratio : F) (C : nat) (acc : gmap (nat * nat * string) (curve_value F)) :
  foldM (build_agg_curve_item event_based average_loss insured ratio C) acc
        (map (fun lr => (lr.1, lr.2, [])) pairs) = Some acc.
Proof.
  induction pairs as [|[l r] pairs IH]; [done|].
  simpl map. by rewrite foldM_cons, build_agg_curve_item_empty.
Qed.

(** C9. Empty results are skipped, not raised. A triple of
    [build_agg_curve] without data is skipped: the run on a list with such
    a triple is the run on the list without it, which holds for the
    exceptions raised for other triples as well; when every triple of a
    pair (loss type, realization) is without data, the dictionary returned
    has no entry for the pair; a run on triples without data returns the
    empty dictionary. In [save_rcurves], a pair (realization, curve
    builder) whose dataset is missing leaves the curves as they are, and
    the loop goes on with them. *)
Theorem empty_results_are_skipped
    (xs ys lr_data : list (nat * nat * list (elt_rec F)))
    (pairs : list (nat * nat)) (l r : nat)
    (insured : bool) (ratio : F) (C : nat)
    (result : gmap (nat * nat * string) (curve_value F))
    (oq : OqParam F) (assets : list (Asset F)) (I : nat)
    (ds : Datastore F SC SM LM) (r' : nat)
    (rcurves : gmap string (list (list (list (list F)))))
    (cb : CurveBuilder F LM) :
  (forall data, (l, r, data) ∈ lr_data -> data = []) ->
  build_agg_curve event_based average_loss lr_data insured ratio C
    = Some result ->
  ds_ass_loss_ratios ds !! (r', cb_loss_type cb) = None ->
  build_agg_curve event_based average_loss (xs ++ (l, r, []) :: ys)
                  insured ratio C
    = build_agg_curve event_based average_loss (xs ++ ys) insured ratio C
  /\ (forall name, result !! (l, r, name) = None)
  /\ build_agg_curve event_based average_loss
       (map (fun lr => (lr.1, lr.2, [])) pairs) insured ratio C = Some ∅
  /\ EbrPostCalculator.save_rcurves_cb group_array oq assets I ds r' rcurves cb
     = Some rcurves.
Proof.
  intros Hempty Hres Hmissing. split_and!.
  - unfold build_agg_curve. rewrite !foldM_app.
    destruct (foldM _ ∅ xs) as [res1|]; [|done].
    unfold mbind, option_bind.
    by rewrite foldM_cons, build_agg_curve_item_empty.
  - eapply build_agg_curve_keys; [exact Hempty| |exact Hres].
    intros name. apply lookup_empty.
  - apply build_agg_curve_all_empty.
  - unfold EbrPostCalculator.save_rcurves_cb. by rewrite Hmissing.
Qed.
End EmptyResults.

(** A triple without data before a triple with one record, and a
    realization without dataset for the loss type of the curve builder. *)
Lemma empty_results_are_skipped_witness :
  build_agg_curve PostExample.event_based PostExample.average_loss
    ([] ++ (0, 0, []) :: [(0, 1, [{| elt_eid := 1%Z;
                                      elt_loss := [Binary32.of_Z 60] |}])])
    false (Binary32.of_Z 1) 2
  = build_agg_curve PostExample.event_based PostExample.average_loss
      ([] ++ [(0, 1, [{| elt_eid := 1%Z; elt_loss := [Binary32.of_Z 60] |}])])
      false (Binary32.of_Z 1) 2
  /\ EbrPostCalculator.save_rcurves_cb PostExample.group_array PostExample.oq
       [Scenario.A1] 1 PostExample.ds 1 ∅ PostExample.cb = Some ∅.
Proof.
  destruct (build_agg_curve PostExample.event_based PostExample.average_loss
              [(0, 0, []);
               (0, 1, [{| elt_eid := 1%Z; elt_loss := [Binary32.of_Z 60] |}])]
              false (Binary32.of_Z 1) 2) as [result|] eqn:Hres;
    [|by vm_compute in Hres].
  destruct (empty_results_are_skipped (SC:=gmap string (list (StatOutput Binary32.f32)))
              (SM:=gmap string (list (StatOutput Binary32.f32)))
              PostExample.group_array
              PostExample.event_based PostExample.average_loss
              [] [(0, 1, [{| elt_eid := 1%Z; elt_loss := [Binary32.of_Z 60] |}])]
              [(0, 0, []);
               (0, 1, [{| elt_eid := 1%Z; elt_loss := [Binary32.of_Z 60] |}])]
              [] 0 0 false (Binary32.of_Z 1) 2 result
              PostExample.oq [Scenario.A1] 1 PostExample.ds 1 ∅ PostExample.cb)
    as (Hskip & _ & _ & Hmissing).
  - intros data Hin. apply elem_of_cons in Hin as [[= ->]|Hin]; [done|].
    apply elem_of_cons in Hin as [[=]|Hin]. by apply elem_of_nil in Hin.
  - exact Hres.
  - reflexivity.
  - split; [exact Hskip|exact Hmissing].
Defined.

(** ** Statistics and the number of realizations *)

Section Statistics.
Context {F SC SM LM : Type} `{Arith F}.
Variable event_based : list F -> F -> nat -> option (list F * list F).
Variable average_loss : list F * list F -> option F.

Lemma build_agg_curves_stats (oq : OqParam F) (rm : RiskModel F LM) (R : nat)
    (ds ds' : Datastore F SC SM LM) :
  EbrPostCalculator.build_agg_curve event_based average_loss oq rm R ds
    = Some ds' ->
  ds_loss_curves_stats ds' = ds_loss_curves_stats ds
  /\ ds_loss_maps_stats ds' = ds_loss_maps_stats ds.
Proof.
  unfold EbrPostCalculator.build_agg_curve. intros Hb.
  destruct (mapM _ _) as [lr_data|]; simpl in Hb; [|done].
  destruct (build_agg_curve _ _ _ _ _ _) as [result|]; simpl in Hb; [|done].
  destruct (foldM _ ∅ _) as [agg_curve|]; simpl in Hb; [|done].
  by injection Hb as <-.
Qed.

(** C8, as the code has it. With at most one realization [build_stats]
    computes no statistics at all: the statistics builder is not called
    (the result is the same for every builder) and neither
    ['loss_curves-stats'] nor ['loss_maps-stats'] is written; the
    only output is the aggregate curve of each realization. The
    statistics are computed, by [compute_store_stats], when there are at
    least two realizations and ['rcurves-rlzs'] is in the datastore. *)
Theorem statistics_need_two_realizations
    (get_curves_maps : gmap string (list (StatOutput F)) -> option (SC * SM))
    (oq : OqParam F) (rm : RiskModel F LM) (assets : list (Asset F))
    (rlzs : list (Realization F)) (ds ds' : Datastore F SC SM LM) :
  length rlzs <= 1 ->
  EbrPostCalculator.build_stats event_based average_loss get_curves_maps
    oq rm assets rlzs ds = Some ds' ->
  ds_loss_curves_stats ds' = ds_loss_curves_stats ds
  /\ ds_loss_maps_stats ds' = ds_loss_maps_stats ds
  /\ (forall builder,
        EbrPostCalculator.build_stats event_based average_loss builder
          oq rm assets rlzs ds = Some ds')
  /\ (forall rlzs2 ds1,
        1 < length rlzs2 ->
        (if has_group (ds_agg_loss_table ds)
         then EbrPostCalculator.build_agg_curve event_based average_loss
                oq rm (length rlzs2) ds
         else Some ds) = Some ds1 ->
        is_Some (ds_rcurves ds1) ->
        EbrPostCalculator.build_stats event_based average_loss get_curves_maps
          oq rm assets rlzs2 ds
        = EbrPostCalculator.compute_store_stats get_curves_maps oq rm assets
            rlzs2 ds1).
Proof.
  intros Hlen Hb.
  assert (Hgate : (1 <? length rlzs) = false) by (apply Nat.ltb_ge; lia).
  unfold EbrPostCalculator.build_stats in *. rewrite Hgate in *.
  split_and!.
  - destruct (has_group (ds_agg_loss_table ds)); simpl in Hb.
    + destruct (EbrPostCalculator.build_agg_curve _ _ _ _ _ _) as [ds1|] eqn:E;
        simpl in Hb; [|done].
      injection Hb as <-. by apply build_agg_curves_stats in E as [? ?].
    + by injection Hb as <-.
  - destruct (has_group (ds_agg_loss_table ds)); simpl in Hb.
    + destruct (EbrPostCalculator.build_agg_curve _ _ _ _ _ _) as [ds1|] eqn:E;
        simpl in Hb; [|done].
      injection Hb as <-. by apply build_agg_curves_stats in E as [? ?].
    + by injection Hb as <-.
  - intros builder. exact Hb.
  - intros rlzs2 ds1 Hlen2 Hagg [rc Hrc].
    apply Nat.ltb_lt in Hlen2. rewrite Hagg. simpl.
    by rewrite Hlen2, Hrc.
Qed.
End Statistics.

(** C8, the claim as stated fails. With one realization, asset loss ratios
    and curves in the datastore, and a statistics builder that would
    return the values of the realization: after [execute] there are no
    statistics in the datastore; with two realizations there are. *)
Lemma single_realization_has_no_statistics :
  (fun ds' => (match ds_rcurves ds' with Some _ => true | None => false end,
               ds_loss_curves_stats ds', ds_loss_maps_stats ds'))
    <$> EbrPostCalculator.execute PostExample.group_array
          PostExample.event_based PostExample.average_loss
          PostExample.get_curves_maps PostExample.oq PostExample.rm
          [Scenario.A1] PostExample.one_rlz PostExample.ds
  = Some (true, None, None)
  /\ is_Some (EbrPostCalculator.execute PostExample.group_array
                PostExample.event_based PostExample.average_loss
                PostExample.get_curves_maps PostExample.oq PostExample.rm
                [Scenario.A1] PostExample.two_rlzs PostExample.ds
              ≫= ds_loss_curves_stats).
Proof. split; vm_compute; eauto. Qed.

(** One realization: [build_stats] returns the datastore as it is, for
    every statistics builder. *)
Lemma statistics_need_two_realizations_witness :
  ds_loss_curves_stats PostExample.ds = None
  /\ forall builder,
       EbrPostCalculator.build_stats PostExample.event_based
         PostExample.average_loss builder PostExample.oq PostExample.rm
         [Scenario.A1] PostExample.one_rlz PostExample.ds
       = Some PostExample.ds.
Proof.
  destruct (statistics_need_two_realizations PostExample.event_based
              PostExample.average_loss PostExample.get_curves_maps
              PostExample.oq PostExample.rm [Scenario.A1] PostExample.one_rlz
              PostExample.ds PostExample.ds) as (_ & _ & Hany & _);
    [simpl; lia | reflexivity |].
  split; [reflexivity|exact Hany].
Defined.

(** ** The insured dimension of ['rcurves-rlzs'] *)




Lemma broadcast_axis_elems {A : Type} (P : A -> Prop) (n : nat)
    (xs xs' : list A) :
  broadcast_axis n xs = Some xs' -> Forall P xs -> Forall P xs'.
Proof.
  unfold broadcast_axis. case_decide; [by intros [= <-]|].
  destruct xs as [|x [|??]]; [done| |done]. intros [= <-] Hx.
  inversion Hx; subst. apply Forall_forall. intros y Hy.
  by apply elem_of_replicate in Hy as [-> _].
Qed.

Lemma broadcast_axis_length {A : Type} (n : nat) (xs xs' : list A) :
  broadcast_axis n xs = Some xs' -> length xs' = n.
Proof.
  unfold broadcast_axis. case_decide; [by intros [= <-]|].
  destruct xs as [|x [|??]]; [done| |done]. intros [= <-].
  apply length_replicate.
Qed.




(** A block broadcast to an entry of shape (2, C) has that shape. *)
Lemma broadcast_block_shape {F : Type} (C : nat)
    (old v block : list (list F)) :
  length old = 2 -> Forall (fun row => length row = C) old ->
  broadcast_block old v = Some block ->
  length block = 2 /\ Forall (fun row => length row = C) block.
Proof.
  intros Hold Hrows. unfold broadcast_block.
  destruct (mapM _ v) as [v'|] eqn:Hm; simpl; [|done]. intros Hb.
  split; [by rewrite (broadcast_axis_length _ _ _ Hb)|].
  apply (broadcast_axis_elems _ _ _ _ Hb).
  assert (length (hd [] old) = C) as HC.
  { destruct old; [done|]. by inversion Hrows. }
  apply mapM_Some in Hm. apply Forall_forall. intros row Hrow.
  apply list_elem_of_lookup in Hrow as [i Hi].
  destruct (Forall2_lookup_r _ _ _ _ _ Hm Hi) as (x & _ & Hx).
  rewrite <- HC. by apply broadcast_axis_length in Hx.
Qed.

Lemma setitem_entry_shape {F : Type} (A R C r : nat)
    (acc acc' : list (list (list (list F)))) (ab : nat * list (list F)) :
  field_shape A R C acc -> setitem_entry r acc ab = Some acc' ->
  field_shape A R C acc'.
Proof.
  intros [Hlen Hacc]. unfold setitem_entry.
  destruct (acc !! ab.1) as [per_rlz|] eqn:Ha; simpl; [|done].
  destruct (per_rlz !! r) as [old|] eqn:Hr; simpl; [|done].
  destruct (broadcast_block old ab.2) as [block|] eqn:Hb; simpl; [|done].
  intros [= <-].
  assert (length per_rlz = R
          /\ Forall (fun entry : list (list F) =>
                       length entry = 2
                       /\ Forall (fun row => length row = C) entry) per_rlz)
    as [HR Hentries].
  { rewrite Forall_forall in Hacc. apply Hacc.
    apply list_elem_of_lookup. eauto. }
  assert (length old = 2 /\ Forall (fun row => length row = C) old)
    as [Hold Hrows].
  { rewrite Forall_forall in Hentries. apply Hentries.
    apply list_elem_of_lookup. eauto. }
  split; [by rewrite length_insert|].
  apply Forall_insert; [done|]. split; [by rewrite length_insert|].
  apply Forall_insert; [done|].
  by apply (broadcast_block_shape C old ab.2).
Qed.

Lemma setitem_aids_r_shape {F : Type} (A R C : nat)
    (field field' : list (list (list (list F)))) (aids : list nat) (r : nat)
    (v : list (list (list F))) :
  field_shape A R C field -> setitem_aids_r field aids r v = Some field' ->
  field_shape A R C field'.
Proof.
  intros Hshape. unfold setitem_aids_r.
  destruct (broadcast_axis (length aids) v) as [v'|]; simpl; [|done].
  apply foldM_invariant; [|done].
  intros acc ab acc' Hacc. by apply setitem_entry_shape.
Qed.




Section InsuredDimension.
Context {F LM : Type} `{Arith F}.

(** Every field of the array allocated by [execute] is an array of zeros
    of shape (A, R, 2, C). *)
Lemma alloc_rcurves_lookup (A R : nat) (rm : RiskModel F LM) (lt : string)
    (field : list (list (list (list F)))) :
  EbrPostCalculator.alloc_rcurves A R rm !! lt = Some field ->
  exists C, field = replicate A (replicate R (replicate 2 (replicate C fzero))).
Proof.
  unfold EbrPostCalculator.alloc_rcurves. revert lt field.
  apply (foldl_invariant
           (fun m : gmap string (list (list (list (list F)))) =>
              forall lt field, m !! lt = Some field ->
                exists C, field = replicate A (replicate R
                                    (replicate 2 (replicate C fzero))))).
  - intros m [lt' cb] Hm lt field. simpl. rewrite lookup_insert.
    case_decide; [|by apply Hm]. intros [= <-]. by eexists.
  - intros lt field. by rewrite lookup_empty.
Qed.





End InsuredDimension.



(** * Further properties of the aggregator *)

(** A loop raises when its body raises on one of the elements, whatever
    the state it is reached in. *)
Lemma foldM_fails {A B : Type} (f : B -> A -> option B) (xs : list A) (x : A)
    (b : B) :
  x ∈ xs -> (forall b, f b x = None) -> foldM f b xs = None.
Proof.
  intros Hin Hx. revert b. induction xs as [|y xs IH]; intros b.
  - by apply elem_of_nil in Hin.
  - simpl. apply elem_of_cons in Hin as [->|Hin].
    + by rewrite Hx.
    + destruct (f b y); [by apply IH|done].
Qed.

(** The body of a loop that returns has returned on every element. *)
Lemma foldM_Some_in {A B : Type} (f : B -> A -> option B) (xs : list A) (x : A)
    (b b' : B) :
  foldM f b xs = Some b' -> x ∈ xs -> exists b1 b2, f b1 x = Some b2.
Proof.
  revert b. induction xs as [|y xs IH]; intros b Hf Hin.
  - by apply elem_of_nil in Hin.
  - simpl in Hf. destruct (f b y) as [b1|] eqn:E; [|done].
    apply elem_of_cons in Hin as [->|Hin]; eauto.
Qed.

(** ** The index of the event ids *)

Lemma build_idx_snoc (eids : list Z) (x : Z) :
  build_idx (eids ++ [x]) = <[x := length eids]> (build_idx eids).
Proof.
  unfold build_idx. rewrite length_app. simpl.
  rewrite Nat.add_1_r, seq_S. simpl.
  rewrite zip_with_app by (by rewrite length_seq).
  by rewrite foldl_app.
Qed.

(** X1. The index [idx = dict(zip(eids, range(E)))] of [event_based_risk]
    sends an event id to a position of [eids] that holds it, the last one
    when the id is repeated; an id that is not in [eids] is not a key. *)
Theorem build_idx_lookup (eids : list Z) (eid : Z) (i : nat) :
  build_idx eids !! eid = Some i
  <-> eids !! i = Some eid /\ forall j, eids !! j = Some eid -> j <= i.
Proof.
  revert i. induction eids as [|x eids IH] using rev_ind; intros i.
  - unfold build_idx. simpl. rewrite lookup_empty. split; [done|].
    by intros [? _].
  - rewrite build_idx_snoc. destruct (decide (x = eid)) as [->|Hne].
    + rewrite lookup_insert_eq. split.
      * intros [= <-]. split.
        -- rewrite lookup_app_r by lia. by rewrite Nat.sub_diag.
        -- intros j Hj. apply lookup_lt_Some in Hj.
           rewrite length_app in Hj. simpl in Hj. lia.
      * intros [Hi Hmax]. f_equal.
        assert (length eids <= i) as Hle.
        { apply Hmax. rewrite lookup_app_r by lia. by rewrite Nat.sub_diag. }
        apply lookup_lt_Some in Hi. rewrite length_app in Hi. simpl in Hi. lia.
    + rewrite lookup_insert_ne by done. rewrite IH.
      assert (Hl : forall j, (eids ++ [x]) !! j = Some eid
                             <-> eids !! j = Some eid).
      { intros j. rewrite lookup_app_Some. split; [|by left].
        intros [?|[? Hj]]; [done|].
        destruct (j - length eids); simpl in Hj; [congruence|done]. }
      rewrite Hl. by setoid_rewrite Hl.
Qed.

Lemma build_idx_None (eids : list Z) (eid : Z) :
  eid ∉ eids -> build_idx eids !! eid = None.
Proof.
  induction eids as [|x eids IH] using rev_ind; intros Hnin.
  - unfold build_idx. simpl. by rewrite lookup_empty.
  - rewrite build_idx_snoc. rewrite elem_of_app, list_elem_of_singleton in Hnin.
    rewrite lookup_insert_ne by (intros ->; apply Hnin; by right).
    apply IH. intros ?. apply Hnin. by left.
Qed.

(** ** Writes at an index array *)

Lemma foldl_insert_length {A : Type} (l : list (nat * A)) (a : list A) :
  length (foldl (fun acc ir => <[ir.1 := ir.2]> acc) a l) = length a.
Proof.
  revert a. induction l as [|[i v] l IH]; intros a; simpl; [done|].
  by rewrite IH, length_insert.
Qed.

Lemma foldl_insert_Forall {A : Type} (P : A -> Prop) (l : list (nat * A))
    (a : list A) :
  Forall P a -> Forall (fun ir => P ir.2) l ->
  Forall P (foldl (fun acc ir => <[ir.1 := ir.2]> acc) a l).
Proof.
  intros Ha Hl. revert a Ha. induction Hl as [|[i v] l Hv _ IH]; intros a Ha;
    simpl; [done|].
  apply IH. by apply Forall_insert.
Qed.

Lemma foldl_insert_lookup_notin {A : Type} (l : list (nat * A)) (a : list A)
    (j : nat) :
  j ∉ l.*1 -> foldl (fun acc ir => <[ir.1 := ir.2]> acc) a l !! j = a !! j.
Proof.
  revert a. induction l as [|[i v] l IH]; intros a Hj; simpl; [done|].
  simpl in Hj. apply not_elem_of_cons in Hj as [Hne Hj].
  rewrite IH by done. by rewrite list_lookup_insert_ne.
Qed.

Lemma foldl_insert_lookup_in {A : Type} (l : list (nat * A)) (a : list A)
    (j : nat) (v : A) :
  NoDup l.*1 -> (j, v) ∈ l -> j < length a ->
  foldl (fun acc ir => <[ir.1 := ir.2]> acc) a l !! j = Some v.
Proof.
  revert a. induction l as [|[i w] l IH]; intros a Hnd Hin Hlt; simpl.
  - by apply elem_of_nil in Hin.
  - simpl in Hnd. apply NoDup_cons in Hnd as [Hni Hnd].
    apply elem_of_cons in Hin as [[= -> ->]|Hin].
    + rewrite foldl_insert_lookup_notin by done.
      by rewrite list_lookup_insert_eq.
    + apply IH; [done|done|]. by rewrite length_insert.
Qed.

Section AggregatorMore.
Context {F : Type} `{Arith F}.

Lemma has_shape_spec (n m : nat) (x : list (list F)) :
  has_shape n m x = true
  <-> length x = n /\ Forall (fun row => length row = m) x.
Proof.
  unfold has_shape.
  rewrite andb_true_iff, Nat.eqb_eq, forallb_forall, Forall_forall.
  split; intros [Hn Hr]; (split; [done|]); intros row Hin.
  - apply Nat.eqb_eq, Hr. by apply list_elem_of_In.
  - apply Nat.eqb_eq, Hr. by apply list_elem_of_In.
Qed.

Lemma zeros_shape (n m : nat) : has_shape n m (zeros n m) = true.
Proof.
  apply has_shape_spec. unfold zeros. split; [apply length_replicate|].
  apply Forall_replicate, length_replicate.
Qed.

Lemma scale_rows (m : nat) (rows : list (list F)) (v : F) :
  Forall (fun row => length row = m) rows ->
  Forall (fun row => length row = m) (scale rows v).
Proof.
  unfold scale. intros Hr. apply Forall_forall. intros row Hin.
  apply list_elem_of_In, in_map_iff in Hin as (row0 & <- & Hin0).
  rewrite length_map. rewrite Forall_forall in Hr. apply Hr.
  by apply list_elem_of_In.
Qed.

(** What [a[indices] += b] does when no index is repeated. *)
Lemma iadd_at_distinct (a a' : list (list F)) (indices : list nat)
    (b : list (list F)) :
  NoDup indices -> iadd_at a indices b = Some a' ->
  length a' = length a
  /\ (forall k j row, indices !! k = Some j -> b !! k = Some row ->
        exists old_row, a !! j = Some old_row
                        /\ a' !! j = Some (zip_with fadd old_row row))
  /\ (forall j, j ∉ indices -> a' !! j = a !! j).
Proof.
  unfold iadd_at. intros Hnd. case_decide as Hlen; [|done].
  destruct (mapM _ indices) as [rows|] eqn:Hrows; [|done]. intros [= <-].
  pose proof (length_mapM _ _ _ Hrows) as Hlr.
  apply mapM_Some in Hrows.
  assert (Hfst : (zip indices (zip_with (zip_with fadd) rows b)).*1 = indices).
  { apply fst_zip. rewrite length_zip_with. lia. }
  split_and!.
  - apply foldl_insert_length.
  - intros k j row Hk Hb.
    destruct (Forall2_lookup_l _ _ _ _ _ Hrows Hk) as (old_row & Hold & Ha).
    exists old_row. split; [done|].
    apply foldl_insert_lookup_in.
    + by rewrite Hfst.
    + apply list_elem_of_lookup. exists k.
      apply lookup_zip_with_Some. eexists _, _. split; [done|]. split; [done|].
      apply lookup_zip_with_Some. eauto.
    + by apply lookup_lt_Some in Ha.
  - intros j Hj. apply foldl_insert_lookup_notin. by rewrite Hfst.
Qed.

(** [a[indices] += b] keeps the shape of [a] when the rows of [b] are as
    long as those of [a]. *)
Lemma iadd_at_shape (n m : nat) (a a' : list (list F)) (indices : list nat)
    (b : list (list F)) :
  has_shape n m a = true -> Forall (fun row => length row = m) b ->
  iadd_at a indices b = Some a' -> has_shape n m a' = true.
Proof.
  rewrite !has_shape_spec. intros [Hn Hrows] Hb. unfold iadd_at.
  case_decide as Hlen; [|done].
  destruct (mapM _ indices) as [rows|] eqn:Hm; [|done]. intros [= <-].
  split; [by rewrite foldl_insert_length|].
  apply foldl_insert_Forall; [done|].
  apply Forall_forall. intros [j row] Hin. simpl.
  apply list_elem_of_lookup in Hin as [k Hk].
  apply lookup_zip_with_Some in Hk as (j' & row' & [= <- <-] & _ & Hrow).
  apply lookup_zip_with_Some in Hrow as (r1 & r2 & -> & Hr1 & Hr2).
  rewrite length_zip_with.
  apply mapM_Some in Hm.
  destruct (Forall2_lookup_r _ _ _ _ _ Hm Hr1) as (j0 & _ & Hj0).
  rewrite Forall_forall in Hrows, Hb.
  rewrite (Hrows r1) by (apply list_elem_of_lookup; eauto).
  rewrite (Hb r2) by (apply list_elem_of_lookup; eauto). lia.
Qed.

(** X2. The losses of an asset go to the rows of the events of the output.
    When the event ids of the output select pairwise distinct rows of the
    dense aggregate of the pair, [agglr[indices] += losses] adds to the row
    of each event the loss ratios of the asset in that event times the value
    of the asset; the other rows and the aggregates of the other pairs stay
    as they were. *)
Theorem aggregate_asset_adds_losses (mon : Monitor F) (A E : nat)
    (loss_type : string) (out : Output F) (indices : list nat)
    (st st' : AggState F) (i : nat) (asset : Asset F) :
  NoDup indices ->
  aggregate_asset mon A E loss_type out indices st (i, asset) = Some st' ->
  exists ratios old new,
    old = accum_get (zeros E (num_I (mon_insured_losses mon))) (st_agg st)
                    (out_lr out)
    /\ out_loss_ratios out !! i = Some ratios
    /\ st_agg st' !! out_lr out = Some new
    /\ length new = length old
    /\ (forall k j row, indices !! k = Some j -> ratios !! k = Some row ->
          exists old_row,
            old !! j = Some old_row
            /\ new !! j
               = Some (zip_with fadd old_row
                         (map (fun x => fmul x (value asset loss_type)) row)))
    /\ (forall j, j ∉ indices -> new !! j = old !! j)
    /\ (forall lr, lr <> out_lr out -> st_agg st' !! lr = st_agg st !! lr).
Proof.
  intros Hnd. unfold aggregate_asset. simpl. intros Hs.
  destruct (out_loss_ratios out !! i) as [ratios|]; simpl in Hs; [|done].
  destruct (has_shape _ _ ratios); [|done].
  destruct (if mon_avg_losses mon then _ else _) as [avg'|]; simpl in Hs;
    [|done].
  destruct (iadd_at _ indices _) as [agglr'|] eqn:Hadd; simpl in Hs; [|done].
  injection Hs as <-. simpl.
  destruct (iadd_at_distinct _ _ _ _ Hnd Hadd) as (Hlen & Hin & Hout).
  eexists ratios, _, agglr'. split; [reflexivity|]. split; [done|].
  split; [by rewrite lookup_insert_eq|]. split; [done|].
  split; [|split; [done|]].
  - intros k j row Hk Hrow. apply (Hin k j); [done|].
    unfold scale. change (map ?f ?l) with (f <$> l) at 1.
    by rewrite list_lookup_fmap, Hrow.
  - intros lr Hne. by rewrite lookup_insert_ne.
Qed.

(** ** The pairs, the keys and the shapes *)

Lemma aggregate_asset_lrs (mon : Monitor F) (A E : nat) (loss_type : string)
    (out : Output F) (indices : list nat) (st st' : AggState F)
    (ia : nat * Asset F) :
  aggregate_asset mon A E loss_type out indices st ia = Some st' ->
  st_lrs st' = st_lrs st.
Proof.
  unfold aggregate_asset. simpl. intros Hs.
  destruct (out_loss_ratios out !! ia.1); simpl in Hs; [|done].
  destruct (has_shape _ _ _); [|done].
  destruct (if mon_avg_losses mon then _ else _); simpl in Hs; [|done].
  destruct (iadd_at _ _ _); simpl in Hs; [|done].
  by injection Hs as <-.
Qed.

Lemma aggregate_output_lrs (loss_types : list string) (mon : Monitor F)
    (A E : nat) (idx : gmap Z nat) (st st' : AggState F) (out : Output F) :
  aggregate_output loss_types mon A E idx st out = Some st' ->
  st_lrs st' = {[out_lr out]} ∪ st_lrs st
  /\ (out_lr out).1 < length loss_types.
Proof.
  unfold aggregate_output. intros Hs.
  destruct (loss_types !! (out_lr out).1) as [loss_type|] eqn:Hlt;
    simpl in Hs; [|done].
  destruct (mapM _ (out_eids out)) as [indices|]; simpl in Hs; [|done].
  split; [|by apply lookup_lt_Some in Hlt].
  revert Hs.
  apply (foldM_invariant
           (fun s : AggState F => st_lrs s = {[out_lr out]} ∪ st_lrs st));
    [|done].
  intros b x b' Hb Hstep. by rewrite (aggregate_asset_lrs _ _ _ _ _ _ _ _ _ Hstep).
Qed.

(** The set [lrs] after the loop over the outputs. *)
Lemma aggregate_outputs_lrs (loss_types : list string) (mon : Monitor F)
    (A E : nat) (idx : gmap Z nat) (outputs : list (Output F))
    (st st' : AggState F) :
  foldM (aggregate_output loss_types mon A E idx) st outputs = Some st' ->
  st_lrs st' = list_to_set (out_lr <$> outputs) ∪ st_lrs st
  /\ Forall (fun out => (out_lr out).1 < length loss_types) outputs.
Proof.
  revert st. induction outputs as [|out outputs IH]; intros st; simpl.
  - intros [= <-]. split; [by rewrite (left_id_L ∅ (∪))|constructor].
  - destruct (aggregate_output _ _ _ _ _ st out) as [st1|] eqn:Hout; [|done].
    intros Hf. destruct (IH _ Hf) as [-> Hall].
    destruct (aggregate_output_lrs _ _ _ _ _ _ _ _ Hout) as [-> Hl].
    split; [|by constructor]. simpl.
    rewrite (assoc_L (∪)). f_equal. apply (comm_L (∪)).
Qed.

Lemma col_sums_length (m : nat) (rows : list (list F)) :
  length (col_sums m rows) = m.
Proof. unfold col_sums. by rewrite length_map, length_seq. Qed.

Lemma asset_rows_lengths (aid : nat) (eids : list Z) (ratios : list (list F))
    (I : nat) :
  Forall (fun row => length row = I) ratios ->
  Forall (fun rec => length (ela_loss rec) = I) (asset_rows aid eids ratios).
Proof.
  intros Hr. apply Forall_forall. intros rec Hin.
  apply asset_rows_elem in Hin as (k & _ & Hk & _ & _).
  rewrite Forall_forall in Hr. apply Hr. apply list_elem_of_lookup. eauto.
Qed.

(** The body of the loop over the assets keeps the shapes. *)
Lemma shapes_kept_asset (mon : Monitor F) (A E : nat) (loss_type : string)
    (out : Output F) (indices : list nat) (st st' : AggState F)
    (ia : nat * Asset F) :
  out_lr out ∈ st_lrs st ->
  shapes_kept A E (num_I (mon_insured_losses mon)) st ->
  aggregate_asset mon A E loss_type out indices st ia = Some st' ->
  shapes_kept A E (num_I (mon_insured_losses mon)) st'.
Proof.
  intros Hlr (Hagg & Havg & Hass & Hdom). unfold aggregate_asset. simpl.
  intros Hs.
  destruct (out_loss_ratios out !! ia.1) as [ratios|]; simpl in Hs; [|done].
  destruct (has_shape _ _ ratios) eqn:Hshape; [|done].
  apply has_shape_spec in Hshape as [Hrn Hrows].
  destruct (if mon_avg_losses mon then _ else _) as [avg'|] eqn:Havg';
    simpl in Hs; [|done].
  destruct (iadd_at _ _ _) as [agglr'|] eqn:Hadd; simpl in Hs; [|done].
  injection Hs as <-.
  set (I := num_I (mon_insured_losses mon)) in *.
  assert (Havg1 : (forall lr m, avg' !! lr = Some m -> has_shape A I m = true)
                  /\ (forall lr, is_Some (avg' !! lr) -> lr ∈ st_lrs st)).
  { destruct (mon_avg_losses mon).
    - destruct (accum_get _ _ _ !! ordinal ia.2) as [row|] eqn:Hrow;
        simpl in Havg'; [|done].
      injection Havg' as <-.
      assert (Hcur : has_shape A I (accum_get (zeros A I) (st_avg st)
                                              (out_lr out)) = true).
      { unfold accum_get.
        destruct (st_avg st !! out_lr out) eqn:Hc;
          [by eapply Havg|apply zeros_shape]. }
      apply has_shape_spec in Hcur as [Hcn Hcrows]. split.
      + intros lr m. rewrite lookup_insert. case_decide; [|apply Havg].
        intros [= <-]. apply has_shape_spec.
        split; [by rewrite length_insert|].
        apply Forall_insert; [done|].
        rewrite length_zip_with, length_map, col_sums_length.
        rewrite Forall_forall in Hcrows.
        rewrite (Hcrows row); [lia|]. apply list_elem_of_lookup; eauto.
      + intros lr. rewrite lookup_insert. case_decide; [by subst|].
        intros ?. apply Hdom. auto.
    - injection Havg' as <-. split; [done|]. intros lr ?. apply Hdom. auto. }
  destruct Havg1 as [Havg1 Havg2].
  assert (Hdata : Forall (fun rec : ela_rec F => length (ela_loss rec) = I)
                    (asset_rows (ordinal ia.2) (out_eids out) ratios))
    by (by apply asset_rows_lengths).
  split_and!; simpl.
  - intros lr m. rewrite lookup_insert. case_decide; [|apply Hagg].
    intros [= <-]. eapply iadd_at_shape; [| |exact Hadd].
    + unfold accum_get.
      destruct (st_agg st !! out_lr out) eqn:Hc;
        [by eapply Hagg|apply zeros_shape].
    + by apply scale_rows.
  - exact Havg1.
  - intros lr arrays. destruct (mon_loss_ratios mon); [|apply Hass].
    destruct (asset_rows _ _ ratios) as [|rec data] eqn:Hrows';
      [apply Hass|].
    rewrite lookup_insert. case_decide; [|apply Hass]. intros [= <-].
    apply Forall_app. split; [|constructor; [exact Hdata|constructor]].
    unfold accum_get.
    destruct (st_ass st !! out_lr out) eqn:Hc; [by eapply Hass|constructor].
  - intros lr [Hk|[Hk|Hk]].
    + revert Hk. rewrite lookup_insert. case_decide; [by subst|].
      intros ?. apply Hdom. auto.
    + by apply Havg2.
    + revert Hk. destruct (mon_loss_ratios mon); [|intros ?; apply Hdom; auto].
      destruct (asset_rows _ _ ratios); [intros ?; apply Hdom; auto|].
      rewrite lookup_insert. case_decide; [by subst|].
      intros ?. apply Hdom. auto.
Qed.

Lemma shapes_kept_output (loss_types : list string) (mon : Monitor F)
    (A E : nat) (idx : gmap Z nat) (st st' : AggState F) (out : Output F) :
  shapes_kept A E (num_I (mon_insured_losses mon)) st ->
  aggregate_output loss_types mon A E idx st out = Some st' ->
  shapes_kept A E (num_I (mon_insured_losses mon)) st'.
Proof.
  intros (Hagg & Havg & Hass & Hdom). unfold aggregate_output. intros Hs.
  destruct (loss_types !! (out_lr out).1) as [loss_type|]; simpl in Hs;
    [|done].
  destruct (mapM _ (out_eids out)) as [indices|]; simpl in Hs; [|done].
  revert Hs.
  apply (foldM_invariant
           (fun s : AggState F =>
              out_lr out ∈ st_lrs s
              /\ shapes_kept A E (num_I (mon_insured_losses mon)) s)
           _ _ _ st' (fun b x b' Hb Hstep =>
             conj (eq_ind_r (fun s => out_lr out ∈ s) (proj1 Hb)
                            (aggregate_asset_lrs _ _ _ _ _ _ _ _ _ Hstep))
                  (shapes_kept_asset _ _ _ _ _ _ _ _ _ (proj1 Hb) (proj2 Hb)
                                     Hstep))).
  split; simpl.
  - apply elem_of_union_l, elem_of_singleton. done.
  - split_and!; simpl; [|done|done|].
    + intros lr m. rewrite lookup_insert. case_decide; [|apply Hagg].
      intros [= <-]. unfold accum_get.
      destruct (st_agg st !! out_lr out) eqn:Hc;
        [by eapply Hagg|apply zeros_shape].
    + intros lr [Hk|Hk].
      * revert Hk. rewrite lookup_insert. case_decide.
        -- subst. intros _. apply elem_of_union_l, elem_of_singleton. done.
        -- intros ?. apply elem_of_union_r, Hdom. auto.
      * apply elem_of_union_r, Hdom. auto.
Qed.

(** What [_aggregate] returns: the sorted elements of the set of the pairs
    of the outputs, with accumulators of the shapes they were created with. *)
Lemma _aggregate_state (outputs : list (Output F)) (loss_types : list string)
    (mon : Monitor F) (A E : nat) (idx : gmap Z nat) (st : AggState F)
    (lrs : list (nat * nat)) :
  _aggregate outputs loss_types mon A E idx
             {| st_agg := ∅; st_ass := ∅; st_avg := ∅; st_lrs := ∅ |}
    = Some (st, lrs) ->
  lrs = merge_sort lr_le (elements (st_lrs st))
  /\ st_lrs st = list_to_set (out_lr <$> outputs)
  /\ Forall (fun out => (out_lr out).1 < length loss_types) outputs
  /\ shapes_kept A E (num_I (mon_insured_losses mon)) st.
Proof.
  unfold _aggregate. intros Hagg.
  destruct (foldM _ _ outputs) as [st'|] eqn:Hfold; simpl in Hagg; [|done].
  injection Hagg as <- <-.
  destruct (aggregate_outputs_lrs _ _ _ _ _ _ _ _ Hfold) as [Hlrs Hall].
  simpl in Hlrs. rewrite (right_id_L ∅ (∪)) in Hlrs.
  split_and!; [done|done|done|].
  revert Hfold. apply foldM_invariant.
  - intros b x b'. apply shapes_kept_output.
  - split_and!; simpl; try (intros ? ?; by rewrite lookup_empty).
    intros lr [Hk|[Hk|Hk]]; rewrite lookup_empty in Hk; by destruct Hk.
Qed.

Lemma elem_of_pairs (outputs : list (Output F)) (lr : nat * nat) :
  lr ∈ merge_sort lr_le
         (elements (list_to_set (out_lr <$> outputs) : gset (nat * nat)))
  <-> exists out, out ∈ outputs /\ out_lr out = lr.
Proof.
  rewrite merge_sort_Permutation, elem_of_elements.
  rewrite elem_of_list_to_set, list_elem_of_fmap. split.
  - intros (out & -> & Hin). by exists out.
  - intros (out & Hin & <-). by exists out.
Qed.

#[export] Instance lr_le_total : Total lr_le.
Proof. intros [a1 a2] [b1 b2]. unfold lr_le. simpl. lia. Qed.

(** X3. [_aggregate] returns [sorted(lrs)]: each pair (loss type,
    realization) of an output exactly once, in increasing order, and no
    other pair; the loss type index of every pair is an index of
    [loss_types]. *)
Theorem _aggregate_sorted_pairs (outputs : list (Output F))
    (loss_types : list string) (mon : Monitor F) (A E : nat)
    (idx : gmap Z nat) (st : AggState F) (lrs : list (nat * nat)) :
  _aggregate outputs loss_types mon A E idx
             {| st_agg := ∅; st_ass := ∅; st_avg := ∅; st_lrs := ∅ |}
    = Some (st, lrs) ->
  Sorted lr_le lrs /\ NoDup lrs
  /\ (forall lr, lr ∈ lrs <-> exists out, out ∈ outputs /\ out_lr out = lr)
  /\ Forall (fun lr => lr.1 < length loss_types) lrs.
Proof.
  intros Hagg.
  destruct (_aggregate_state _ _ _ _ _ _ _ _ Hagg) as (-> & -> & Hall & _).
  split_and!.
  - apply Sorted_merge_sort. apply _.
  - rewrite merge_sort_Permutation. apply NoDup_elements.
  - apply elem_of_pairs.
  - apply Forall_forall. intros lr Hlr.
    apply elem_of_pairs in Hlr as (out & Hin & <-).
    rewrite Forall_forall in Hall. by apply Hall.
Qed.

(** The keys [store_agglosses] writes are pairs of [lrs]. *)
Lemma store_agglosses_keys (eids : list Z) (I : nat)
    (agg : gmap (nat * nat) (list (list F))) (lrs : list (nat * nat))
    (agglosses : gmap (nat * nat) (list (elt_rec F))) (lr : nat * nat) :
  foldM (store_agglosses eids I agg) ∅ lrs = Some agglosses ->
  is_Some (agglosses !! lr) -> lr ∈ lrs.
Proof.
  intros Hf. revert lr. revert Hf.
  apply (foldM_invariant_in
           (fun acc : gmap (nat * nat) (list (elt_rec F)) =>
              forall lr, is_Some (acc !! lr) -> lr ∈ lrs)).
  - intros acc lr0 acc' Hin Hacc. unfold store_agglosses.
    destruct (agg_records eids _) as [records|]; simpl; [|done].
    destruct records; intros [= <-]; [done|].
    intros lr. rewrite lookup_insert. case_decide; [by subst|apply Hacc].
  - intros lr. rewrite lookup_empty. by intros [? ?].
Qed.

(** X4. The keys of the result of a task are pairs of its outputs: a pair
    (loss type, realization) is a key of ['agglosses'], ['asslosses'] or
    ['avglosses'] only if an output has it, and its loss type index is an
    index of [loss_types]. *)
Theorem event_based_risk_keys (eids : list Z) (outputs : list (Output F))
    (loss_types : list string) (A : nat) (mon : Monitor F)
    (res : TaskResult F) (lr : nat * nat) :
  event_based_risk eids outputs loss_types A mon = Some res ->
  is_Some (res_agglosses res !! lr) \/ is_Some (res_asslosses res !! lr)
  \/ (exists avg, res_avglosses res = Some avg /\ is_Some (avg !! lr)) ->
  (exists out, out ∈ outputs /\ out_lr out = lr) /\ lr.1 < length loss_types.
Proof.
  unfold event_based_risk. intros Hr Hkey.
  destruct (_aggregate _ _ _ _ _ _ _) as [[st lrs]|] eqn:Hagg; simpl in Hr;
    [|done].
  destruct (foldM _ ∅ lrs) as [agglosses|] eqn:Hf; simpl in Hr; [|done].
  injection Hr as <-. simpl in Hkey.
  destruct (_aggregate_state _ _ _ _ _ _ _ _ Hagg)
    as (-> & Hlrs & Hall & (_ & _ & _ & Hdom)).
  assert (Hin : lr ∈ st_lrs st).
  { destruct Hkey as [Hk|[Hk|(avg & Havg & Hk)]].
    - apply (store_agglosses_keys _ _ _ _ _ _ Hf) in Hk.
      by rewrite merge_sort_Permutation, elem_of_elements in Hk.
    - apply Hdom. right. right. rewrite lookup_omap in Hk.
      destruct (st_ass st !! lr); [by eexists|]. by destruct Hk.
    - apply Hdom. right. left.
      destruct (mon_avg_losses mon); [|done]. by injection Havg as <-. }
  rewrite Hlrs, elem_of_list_to_set, list_elem_of_fmap in Hin.
  destruct Hin as (out & -> & Hout). split; [by exists out|].
  rewrite Forall_forall in Hall. by apply Hall.
Qed.

(** ** The aggregate loss records and the events *)

Lemma agg_records_sublist_from (eids : list Z) (rows : list (list F)) (s : nat)
    (recs : list (elt_rec F)) :
  mapM (fun il : nat * list F =>
          eid ← eids !! il.1; Some {| elt_eid := eid; elt_loss := il.2 |})
       (List.filter (fun il => fgt0 (row_sum il.2))
                    (zip (seq s (length rows)) rows)) = Some recs ->
  map elt_eid recs `sublist_of` drop s eids.
Proof.
  revert s recs. induction rows as [|row rows IH]; intros s recs; simpl.
  - intros [= <-]. apply sublist_nil_l.
  - destruct (fgt0 (row_sum row)); csimpl.
    + destruct (eids !! s) as [eid|] eqn:Hs; simpl; [|done].
      destruct (mapM _ _) as [recs'|] eqn:Hm; simpl; [|done].
      intros [= <-]. simpl. rewrite (drop_S _ _ _ Hs).
      apply sublist_skip. by apply IH.
    + intros Hm. etrans; [by apply IH|].
      replace (S s) with (s + 1) by lia. rewrite <- drop_drop.
      apply sublist_drop.
Qed.

Lemma agg_records_rows (eids : list Z) (agglr : list (list F)) (I : nat)
    (recs : list (elt_rec F)) :
  Forall (fun row => length row = I) agglr ->
  agg_records eids agglr = Some recs ->
  Forall (fun rec => length (elt_loss rec) = I) recs.
Proof.
  unfold agg_records. intros Hrows Hm. apply mapM_Some in Hm.
  apply Forall_forall. intros rec Hrec.
  apply list_elem_of_lookup in Hrec as [k Hk].
  destruct (Forall2_lookup_r _ _ _ _ _ Hm Hk) as ([i row] & Hil & Hf).
  simpl in Hf. destruct (eids !! i); simpl in Hf; [|done].
  injection Hf as <-. simpl.
  assert ((i, row) ∈ enumerate agglr) as Hin.
  { apply list_elem_of_In.
    eapply (proj1 (filter_In _ _ _)). apply list_elem_of_In.
    apply list_elem_of_lookup. eauto. }
  apply enumerate_elem in Hin. rewrite Forall_forall in Hrows.
  apply Hrows. apply list_elem_of_lookup. eauto.
Qed.

(** X5. The aggregate loss records of a pair are in the order of the event
    ids of the risk input, with at most one record per position: their
    event ids are a subsequence of [riskinput.eids]. There are at most
    [E] of them, and no event id is repeated when none is in
    [riskinput.eids]. *)
Theorem agglosses_in_event_order (eids : list Z) (outputs : list (Output F))
    (loss_types : list string) (A : nat) (mon : Monitor F)
    (res : TaskResult F) (lr : nat * nat) (recs : list (elt_rec F)) :
  event_based_risk eids outputs loss_types A mon = Some res ->
  res_agglosses res !! lr = Some recs ->
  map elt_eid recs `sublist_of` eids
  /\ length recs <= length eids
  /\ (NoDup eids -> NoDup (map elt_eid recs)).
Proof.
  unfold event_based_risk. intros Hr Hrecs.
  destruct (_aggregate _ _ _ _ _ _ _) as [[st lrs]|]; simpl in Hr; [|done].
  destruct (foldM _ ∅ lrs) as [agglosses|] eqn:Hf; simpl in Hr; [|done].
  injection Hr as <-. simpl in Hrecs.
  assert (Hsub : map elt_eid recs `sublist_of` eids).
  { revert lr recs Hrecs. revert Hf.
    apply (foldM_invariant
             (fun acc : gmap (nat * nat) (list (elt_rec F)) =>
                forall lr recs, acc !! lr = Some recs ->
                  map elt_eid recs `sublist_of` eids)).
    - intros acc lr0 acc' Hacc. unfold store_agglosses.
      destruct (agg_records eids _) as [records|] eqn:Hrec; simpl; [|done].
      assert (map elt_eid records `sublist_of` eids) as Hsub.
      { unfold agg_records, enumerate in Hrec.
        apply agg_records_sublist_from in Hrec. by rewrite drop_0 in Hrec. }
      destruct records as [|rec records]; intros [= <-]; [done|].
      intros lr recs. rewrite lookup_insert.
      case_decide; [by intros [= <-]|apply Hacc].
    - intros lr recs. by rewrite lookup_empty. }
  split_and!.
  - exact Hsub.
  - apply sublist_length in Hsub. by rewrite length_map in Hsub.
  - intros Hnd. by eapply sublist_NoDup.
Qed.

(** X6. The records and arrays of the result of a task have the shapes of
    the data types of [build_el_dtypes]: with [I = insured_losses + 1], the
    loss of every aggregate loss record and of every asset loss record has
    [I] entries, and every array of average losses has the shape (A, I). *)
Theorem result_fits_dtypes (eids : list Z) (outputs : list (Output F))
    (loss_types : list string) (A : nat) (mon : Monitor F)
    (res : TaskResult F) :
  event_based_risk eids outputs loss_types A mon = Some res ->
  (forall lr recs, res_agglosses res !! lr = Some recs ->
     Forall (fun rec => length (elt_loss rec)
                        = num_I (mon_insured_losses mon)) recs)
  /\ (forall lr recs, res_asslosses res !! lr = Some recs ->
        Forall (fun rec => length (ela_loss rec)
                           = num_I (mon_insured_losses mon)) recs)
  /\ (forall avg lr m, res_avglosses res = Some avg -> avg !! lr = Some m ->
        has_shape A (num_I (mon_insured_losses mon)) m = true).
Proof.
  unfold event_based_risk. intros Hr.
  destruct (_aggregate _ _ _ _ _ _ _) as [[st lrs]|] eqn:Hagg; simpl in Hr;
    [|done].
  destruct (foldM _ ∅ lrs) as [agglosses|] eqn:Hf; simpl in Hr; [|done].
  injection Hr as <-. simpl.
  destruct (_aggregate_state _ _ _ _ _ _ _ _ Hagg)
    as (_ & _ & _ & (Hsagg & Hsavg & Hsass & _)).
  split_and!.
  - revert Hf.
    apply (foldM_invariant
             (fun acc : gmap (nat * nat) (list (elt_rec F)) =>
                forall lr recs, acc !! lr = Some recs ->
                  Forall (fun rec => length (elt_loss rec)
                                     = num_I (mon_insured_losses mon)) recs)).
    + intros acc lr0 acc' Hacc. unfold store_agglosses.
      destruct (agg_records eids _) as [records|] eqn:Hrec; simpl; [|done].
      apply (agg_records_rows _ _ (num_I (mon_insured_losses mon))) in Hrec.
      * destruct records as [|rec records]; intros [= <-]; [done|].
        intros lr recs. rewrite lookup_insert.
        case_decide; [by intros [= <-]|apply Hacc].
      * assert (Hs : has_shape (length eids) (num_I (mon_insured_losses mon))
                       (accum_get (zeros (length eids)
                                         (num_I (mon_insured_losses mon)))
                                  (st_agg st) lr0) = true).
        { unfold accum_get. destruct (st_agg st !! lr0) eqn:Hc;
            [by eapply Hsagg|apply zeros_shape]. }
        by apply has_shape_spec in Hs as [_ ?].
    + intros lr recs. by rewrite lookup_empty.
  - intros lr recs. rewrite lookup_omap.
    destruct (st_ass st !! lr) as [arrays|] eqn:Harr; simpl; [|done].
    destruct arrays as [|a arrays]; [done|]. intros [= <-].
    apply (Forall_concat _ (a :: arrays)). by eapply Hsass.
  - intros avg lr m Havg. destruct (mon_avg_losses mon); [|done].
    injection Havg as <-. apply Hsavg.
Qed.

(** X7. A task whose outputs do not fit the risk input raises: when an
    output has a loss type index that is not an index of [loss_types]
    (IndexError) or an event id that is not among [riskinput.eids]
    (KeyError), [event_based_risk] returns no result, whatever the other
    outputs are. *)
Theorem event_based_risk_rejects (eids : list Z) (outputs : list (Output F))
    (loss_types : list string) (A : nat) (mon : Monitor F) (out : Output F) :
  out ∈ outputs ->
  length loss_types <= (out_lr out).1
  \/ (exists eid, eid ∈ out_eids out /\ eid ∉ eids) ->
  event_based_risk eids outputs loss_types A mon = None.
Proof.
  intros Hin Hbad. unfold event_based_risk, _aggregate.
  rewrite (foldM_fails _ outputs out); [done|done|].
  intros st. unfold aggregate_output.
  destruct Hbad as [Hl|(eid & Heid & Hnot)].
  - by rewrite (lookup_ge_None_2 _ _ Hl).
  - destruct (loss_types !! (out_lr out).1); simpl; [|done].
    destruct (mapM _ (out_eids out)) as [indices|] eqn:Hm; [|done].
    exfalso. assert (is_Some (mapM (fun eid => build_idx eids !! eid)
                                   (out_eids out))) as Hs by eauto.
    apply mapM_is_Some in Hs. rewrite Forall_forall in Hs.
    specialize (Hs eid Heid). simpl in Hs.
    rewrite (build_idx_None _ _ Hnot) in Hs. by destruct Hs.
Qed.
End AggregatorMore.

(** The first asset of the scenario, of value 100: the row of the event 2
    of the dense aggregate gets the loss ratio 0.2 times 100. *)
Lemma aggregate_asset_adds_losses_witness :
  exists st' new,
    aggregate_asset Scenario.monitor 2 3 "structural" Scenario.out0 [0; 1; 2]
      {| st_agg := ∅; st_ass := ∅; st_avg := ∅; st_lrs := ∅ |}
      (0, Scenario.A1) = Some st'
    /\ st_agg st' !! (0, 0) = Some new
    /\ new !! 2
       = Some (zip_with fadd [Binary32.zero]
                 (map (fun x => fmul x (Binary32.of_Z 100))
                      [Binary32.of_ratio 2 10])).
Proof.
  destruct (aggregate_asset Scenario.monitor 2 3 "structural" Scenario.out0
              [0; 1; 2]
              {| st_agg := ∅; st_ass := ∅; st_avg := ∅; st_lrs := ∅ |}
              (0, Scenario.A1)) as [st'|] eqn:Hs; [|by vm_compute in Hs].
  assert (Hnd : NoDup [0; 1; 2]) by (by apply (bool_decide_unpack _)).
  destruct (aggregate_asset_adds_losses _ _ _ _ _ _ _ _ _ _ Hnd Hs)
    as (ratios & old & new & Hold & Hr & Hnew & _ & Hin & _ & _).
  exists st', new. split; [done|]. split; [exact Hnew|].
  simpl in Hr. injection Hr as <-.
  destruct (Hin 2 2 [Binary32.of_ratio 2 10] eq_refl eq_refl)
    as (old_row & Ho & Hn).
  rewrite Hold in Ho. vm_compute in Ho. injection Ho as <-. exact Hn.
Defined.

(** The two outputs of the scenario: the pairs (0, 0) and (0, 1), in this
    order. *)
Lemma _aggregate_sorted_pairs_witness :
  exists st lrs,
    _aggregate [Scenario.out1; Scenario.out0] Scenario.loss_types
      Scenario.monitor 2 3 (build_idx Scenario.eids)
      {| st_agg := ∅; st_ass := ∅; st_avg := ∅; st_lrs := ∅ |} = Some (st, lrs)
    /\ Sorted lr_le lrs /\ NoDup lrs /\ (0, 1) ∈ lrs.
Proof.
  destruct (_aggregate [Scenario.out1; Scenario.out0] Scenario.loss_types
              Scenario.monitor 2 3 (build_idx Scenario.eids)
              {| st_agg := ∅; st_ass := ∅; st_avg := ∅; st_lrs := ∅ |})
    as [[st lrs]|] eqn:Hagg; [|by vm_compute in Hagg].
  exists st, lrs. split; [done|].
  destruct (_aggregate_sorted_pairs _ _ _ _ _ _ _ _ Hagg)
    as (Hsorted & Hnd & Hmem & _).
  split; [exact Hsorted|]. split; [exact Hnd|].
  apply Hmem. exists Scenario.out1. split; [apply list_elem_of_here|done].
Defined.

(** The scenario: the key (0, 0) of the aggregate losses is the pair of
    an output, with the loss type index 0. *)
Lemma event_based_risk_keys_witness :
  exists res,
    event_based_risk Scenario.eids [Scenario.out0; Scenario.out1]
                     Scenario.loss_types 2 Scenario.monitor = Some res
    /\ is_Some (res_agglosses res !! (0, 0))
    /\ (exists out, out ∈ [Scenario.out0; Scenario.out1]
                    /\ out_lr out = (0, 0))
    /\ (0, 0).1 < length Scenario.loss_types.
Proof.
  destruct (event_based_risk Scenario.eids [Scenario.out0; Scenario.out1]
              Scenario.loss_types 2 Scenario.monitor) as [res|] eqn:Hres;
    [|by vm_compute in Hres].
  assert (Hkey : is_Some (res_agglosses res !! (0, 0))).
  { vm_compute in Hres. injection Hres as <-. vm_compute. eauto. }
  exists res. split; [done|]. split; [exact Hkey|].
  exact (event_based_risk_keys _ _ _ _ _ _ (0, 0) Hres (or_introl Hkey)).
Defined.

(** The scenario: the records of the pair (0, 0) are those of the events
    0 and 2, a subsequence of the event ids 0, 1, 2. *)
Lemma agglosses_in_event_order_witness :
  exists res recs,
    event_based_risk Scenario.eids [Scenario.out0; Scenario.out1]
                     Scenario.loss_types 2 Scenario.monitor = Some res
    /\ res_agglosses res !! (0, 0) = Some recs
    /\ map elt_eid recs = [0; 2]%Z
    /\ map elt_eid recs `sublist_of` Scenario.eids.
Proof.
  destruct (event_based_risk Scenario.eids [Scenario.out0; Scenario.out1]
              Scenario.loss_types 2 Scenario.monitor) as [res|] eqn:Hres;
    [|by vm_compute in Hres].
  destruct (res_agglosses res !! (0, 0)) as [recs|] eqn:Hrecs.
  - exists res, recs. split; [done|]. split; [done|]. split.
    + vm_compute in Hres. injection Hres as <-. vm_compute in Hrecs.
      by injection Hrecs as <-.
    + exact (proj1 (agglosses_in_event_order _ _ _ _ _ _ _ _ Hres Hrecs)).
  - exfalso. vm_compute in Hres. injection Hres as <-. by vm_compute in Hrecs.
Defined.

(** The scenario, without insured losses: the losses of the records have
    one entry. *)
Lemma result_fits_dtypes_witness :
  exists res,
    event_based_risk Scenario.eids [Scenario.out0; Scenario.out1]
                     Scenario.loss_types 2 Scenario.monitor = Some res
    /\ forall lr recs, res_agglosses res !! lr = Some recs ->
         Forall (fun rec => length (elt_loss rec) = 1) recs.
Proof.
  destruct (event_based_risk Scenario.eids [Scenario.out0; Scenario.out1]
              Scenario.loss_types 2 Scenario.monitor) as [res|] eqn:Hres;
    [|by vm_compute in Hres].
  exists res. split; [done|].
  exact (proj1 (result_fits_dtypes _ _ _ _ _ _ Hres)).
Defined.

(** The first output of the scenario has the event 2, which is not among
    the event ids 0 and 1 of the risk input: the task raises. *)
Lemma event_based_risk_rejects_witness :
  event_based_risk [0; 1]%Z [Scenario.out0] Scenario.loss_types 2
                   Scenario.monitor = None.
Proof.
  apply (event_based_risk_rejects _ _ _ _ _ Scenario.out0).
  - apply list_elem_of_here.
  - right. exists 2%Z. split; [by apply (bool_decide_unpack _)|].
    by apply (bool_decide_unpack _).
Defined.

(** * Further properties of the reducer *)

(** A loop returns when its body returns on every element, in every state
    that satisfies an invariant of the body. *)
Lemma foldM_is_Some {A B : Type} (P : B -> Prop) (f : B -> A -> option B)
    (xs : list A) (b : B) :
  (forall b x, x ∈ xs -> P b -> exists b', f b x = Some b' /\ P b') ->
  P b -> exists b', foldM f b xs = Some b' /\ P b'.
Proof.
  revert b. induction xs as [|x xs IH]; intros b Hstep Hb; simpl.
  - eauto.
  - destruct (Hstep b x) as (b1 & -> & Hb1); [by left|done|].
    apply IH; [|done]. intros b0 y Hy. apply Hstep. by right.
Qed.

Lemma table_extends_refl {Rec : Type} (t : gmap (nat * string) (list Rec)) :
  table_extends t t.
Proof. intros key. done. Qed.

Lemma table_extends_trans {Rec : Type}
    (t1 t2 t3 : gmap (nat * string) (list Rec)) :
  table_extends t1 t2 -> table_extends t2 t3 -> table_extends t1 t3.
Proof.
  intros H12 H23 key. destruct (H12 key) as [Hd Hr], (H23 key) as [Hd' Hr'].
  split; [auto|by etrans].
Qed.

(** Calls of [extend] only append. *)
Lemma table_extends_foldl {Rec : Type} (t : gmap (nat * string) (list Rec))
    (us : list (nat * string * list Rec)) :
  table_extends t (foldl apply_table_update t us).
Proof.
  intros key. split.
  - intros Hk. apply is_Some_foldl. by left.
  - rewrite rows_at_foldl. by apply prefix_app_r.
Qed.

(** The rows of a list with distinct keys that are under a key *)
Lemma filter_key_NoDup {K V : Type} `{Countable K} (l : list (K * V)) (k : K) :
  NoDup l.*1 ->
  List.filter (fun kv => bool_decide (kv.1 = k)) l
  = match (list_to_map l : gmap K V) !! k with
    | Some v => [(k, v)]
    | None => []
    end.
Proof.
  induction l as [|[k' v'] l IH]; intros Hnd; simpl.
  - by rewrite lookup_empty.
  - simpl in Hnd. apply NoDup_cons in Hnd as [Hnin Hnd].
    rewrite IH by done. case_bool_decide as Hk; simpl in Hk.
    + subst k'. rewrite lookup_insert_eq.
      by rewrite (not_elem_of_list_to_map_1 _ _ Hnin).
    + by rewrite lookup_insert_ne.
Qed.

Section ReducerMore.
Context {F SC SM LM : Type} `{Arith F}.
Local Abbreviation Calc := (EbriskCalculator.t F SC SM LM).
Local Abbreviation DS := (Datastore F SC SM LM).

(** What the writes of a task change, and what they leave. *)
Lemma apply_writes_frame (oq : OqParam F) (s s' : Calc) (w : Writes F) :
  apply_writes oq s w = Some s' ->
  ds_agg_loss_table (EbriskCalculator.datastore s')
  = foldl apply_table_update
          (ds_agg_loss_table (EbriskCalculator.datastore s)) (w_agg w)
  /\ ds_ass_loss_ratios (EbriskCalculator.datastore s')
     = foldl apply_table_update
             (ds_ass_loss_ratios (EbriskCalculator.datastore s)) (w_ass w)
  /\ ds_events (EbriskCalculator.datastore s')
     = ds_events (EbriskCalculator.datastore s)
  /\ EbriskCalculator.log s' = EbriskCalculator.log s.
Proof.
  unfold apply_writes. intros Hw.
  destruct (avg_losses oq); simpl in Hw.
  - destruct (ds_avg_losses _) as [dset|]; simpl in Hw; [|done].
    destruct (foldM apply_avg_update dset _); simpl in Hw; [|done].
    by injection Hw as <-.
  - by injection Hw as <-.
Qed.

Lemma save_task_frame (oq : OqParam F) (loss_types : list string)
    (vals : string -> list F) (L start : nat) (s s' : Calc)
    (dic : TaskResult F) :
  EbriskCalculator.save_task oq loss_types vals L start s dic = Some s' ->
  table_extends (ds_agg_loss_table (EbriskCalculator.datastore s))
                (ds_agg_loss_table (EbriskCalculator.datastore s'))
  /\ table_extends (ds_ass_loss_ratios (EbriskCalculator.datastore s))
                   (ds_ass_loss_ratios (EbriskCalculator.datastore s'))
  /\ ds_events (EbriskCalculator.datastore s')
     = ds_events (EbriskCalculator.datastore s)
  /\ EbriskCalculator.log s' = EbriskCalculator.log s.
Proof.
  rewrite save_task_writes. intros Hs.
  destruct (task_writes _ _ _ _ _ dic) as [w|]; simpl in Hs; [|done].
  destruct (apply_writes_frame _ _ _ _ Hs) as (-> & -> & -> & ->).
  split_and!; try done; apply table_extends_foldl.
Qed.

Lemma save_tasks_frame (oq : OqParam F) (loss_types : list string)
    (vals : string -> list F) (L start : nat) (tasks : list (TaskResult F))
    (s s' : Calc) :
  foldM (EbriskCalculator.save_task oq loss_types vals L start) s tasks
    = Some s' ->
  table_extends (ds_agg_loss_table (EbriskCalculator.datastore s))
                (ds_agg_loss_table (EbriskCalculator.datastore s'))
  /\ table_extends (ds_ass_loss_ratios (EbriskCalculator.datastore s))
                   (ds_ass_loss_ratios (EbriskCalculator.datastore s'))
  /\ ds_events (EbriskCalculator.datastore s')
     = ds_events (EbriskCalculator.datastore s)
  /\ EbriskCalculator.log s' = EbriskCalculator.log s.
Proof.
  apply (foldM_invariant
           (fun s1 : Calc =>
              table_extends (ds_agg_loss_table (EbriskCalculator.datastore s))
                            (ds_agg_loss_table (EbriskCalculator.datastore s1))
              /\ table_extends
                   (ds_ass_loss_ratios (EbriskCalculator.datastore s))
                   (ds_ass_loss_ratios (EbriskCalculator.datastore s1))
              /\ ds_events (EbriskCalculator.datastore s1)
                 = ds_events (EbriskCalculator.datastore s)
              /\ EbriskCalculator.log s1 = EbriskCalculator.log s)).
  - intros b dic b' (Hagg & Hass & Hev & Hlog) Hstep.
    destruct (save_task_frame _ _ _ _ _ _ _ _ Hstep)
      as (Hagg' & Hass' & Hev' & Hlog').
    split_and!; [by eapply table_extends_trans
                |by eapply table_extends_trans|congruence|congruence].
  - split_and!; try done; apply table_extends_refl.
Qed.

(** The loop of [save_results] over the results: the tables grow, the
    events are counted and one debug line per source model is logged. *)
Lemma save_result_loop (oq : OqParam F) (loss_types : list string)
    (vals : string -> list F) (L : nat) (allres : list (IterResult F))
    (s s' : Calc) (n n' : nat) :
  foldM (EbriskCalculator.save_result oq loss_types vals L) (s, n) allres
    = Some (s', n') ->
  table_extends (ds_agg_loss_table (EbriskCalculator.datastore s))
                (ds_agg_loss_table (EbriskCalculator.datastore s'))
  /\ table_extends (ds_ass_loss_ratios (EbriskCalculator.datastore s))
                   (ds_ass_loss_ratios (EbriskCalculator.datastore s'))
  /\ ds_events (EbriskCalculator.datastore s')
     = ds_events (EbriskCalculator.datastore s)
  /\ n' = n + sum_list (map (fun res => num_events (ir_attrs res)) allres)
  /\ EbriskCalculator.log s'
     = EbriskCalculator.log s
       ++ map (fun res => DebugSaving (sm_id (ir_attrs res) + 1)
                                      (ir_rlz_slice res).1 (ir_rlz_slice res).2)
              allres.
Proof.
  revert s n. induction allres as [|res allres IH]; intros s n; simpl.
  - intros [= <- <-]. rewrite app_nil_r.
    split_and!; try done; apply table_extends_refl.
  - unfold EbriskCalculator.save_result at 1. simpl.
    destruct (ir_rlz_slice res) as [start stop] eqn:Hslice.
    destruct (foldM _ s (ir_tasks res)) as [s1|] eqn:Htasks; simpl; [|done].
    intros Hf. apply IH in Hf as (Hagg & Hass & Hev & -> & ->). simpl in *.
    destruct (save_tasks_frame _ _ _ _ _ _ _ _ Htasks)
      as (Hagg1 & Hass1 & Hev1 & Hlog1).
    split_and!.
    + by eapply table_extends_trans.
    + by eapply table_extends_trans.
    + congruence.
    + lia.
    + rewrite Hlog1. by rewrite <- app_assoc.
Qed.

(** X8. The two loss tables are append-only through [save_results]: every
    key the datastore had is kept and, under each key, the rows it had
    come first and in their order; the rows of the tasks are appended
    after them, none is removed, changed or moved. *)
Theorem save_results_appends (oq : OqParam F) (loss_types : list string)
    (vals : string -> list F) (L A : nat) (self s : Calc)
    (allres : list (IterResult F)) (n_rlzs n : nat) :
  EbriskCalculator.save_results oq loss_types vals L A self allres n_rlzs
    = Some (s, n) ->
  forall key,
    (is_Some (ds_agg_loss_table (EbriskCalculator.datastore self) !! key) ->
     is_Some (ds_agg_loss_table (EbriskCalculator.datastore s) !! key))
    /\ rows_at key (ds_agg_loss_table (EbriskCalculator.datastore self))
       `prefix_of` rows_at key (ds_agg_loss_table (EbriskCalculator.datastore s))
    /\ (is_Some (ds_ass_loss_ratios (EbriskCalculator.datastore self) !! key) ->
        is_Some (ds_ass_loss_ratios (EbriskCalculator.datastore s) !! key))
    /\ rows_at key (ds_ass_loss_ratios (EbriskCalculator.datastore self))
       `prefix_of` rows_at key (ds_ass_loss_ratios (EbriskCalculator.datastore s)).
Proof.
  unfold EbriskCalculator.save_results. intros Hs key.
  destruct (foldM _ _ allres) as [[s1 n1]|] eqn:Hf; simpl in Hs; [|done].
  destruct (ds_events _); simpl in Hs; [|done]. injection Hs as <- <-.
  apply save_result_loop in Hf as (Hagg & Hass & _). simpl in *.
  assert (Hagg0 : table_extends
                    (ds_agg_loss_table (EbriskCalculator.datastore self))
                    (ds_agg_loss_table (EbriskCalculator.datastore s1)))
    by (by destruct (avg_losses oq)).
  assert (Hass0 : table_extends
                    (ds_ass_loss_ratios (EbriskCalculator.datastore self))
                    (ds_ass_loss_ratios (EbriskCalculator.datastore s1)))
    by (by destruct (avg_losses oq)).
  destruct (Hagg0 key) as [? ?], (Hass0 key) as [? ?]. done.
Qed.

(** X9. The counters of [save_results]. The number of events returned,
    which is also stored in the attribute [num_events] of ['events'], is
    the sum of the attributes [num_events] of the results; the counter
    [gmfbytes] starts from zero, whatever it was, and ends as the sum of
    the bytes of all tasks; one debug line per source model is logged, in
    the order of the results. *)
Theorem save_results_counters (oq : OqParam F) (loss_types : list string)
    (vals : string -> list F) (L A : nat) (self s : Calc)
    (allres : list (IterResult F)) (n_rlzs n : nat) :
  EbriskCalculator.save_results oq loss_types vals L A self allres n_rlzs
    = Some (s, n) ->
  n = sum_list (map (fun res => num_events (ir_attrs res)) allres)
  /\ ds_events (EbriskCalculator.datastore s) = Some (Some n)
  /\ EbriskCalculator.gmfbytes s
     = foldr Z.add 0%Z
         (map (fun res => foldr Z.add 0%Z (map res_gmfbytes (ir_tasks res)))
              allres)
  /\ EbriskCalculator.log s
     = EbriskCalculator.log self
       ++ map (fun res => DebugSaving (sm_id (ir_attrs res) + 1)
                                      (ir_rlz_slice res).1 (ir_rlz_slice res).2)
              allres.
Proof.
  intros Hs. pose proof (save_results_gmfbytes _ _ _ _ _ _ _ _ _ _ Hs) as Hg.
  unfold EbriskCalculator.save_results in Hs.
  destruct (foldM _ _ allres) as [[s1 n1]|] eqn:Hf; simpl in Hs; [|done].
  destruct (ds_events _); simpl in Hs; [|done]. injection Hs as <- <-.
  apply save_result_loop in Hf as (_ & _ & _ & -> & Hlog). simpl in *.
  split_and!; [done|done|exact Hg|exact Hlog].
Qed.

(** X10. [save_results] needs the dataset ['events']: without it the
    attribute [num_events] cannot be set and the call raises (KeyError at
    its last statement, when no task raised before), whatever the
    results are. *)
Theorem save_results_needs_events (oq : OqParam F) (loss_types : list string)
    (vals : string -> list F) (L A : nat) (self : Calc)
    (allres : list (IterResult F)) (n_rlzs : nat) :
  ds_events (EbriskCalculator.datastore self) = None ->
  EbriskCalculator.save_results oq loss_types vals L A self allres n_rlzs
    = None.
Proof.
  intros Hev. unfold EbriskCalculator.save_results.
  destruct (foldM _ _ allres) as [[s1 n1]|] eqn:Hf; simpl; [|done].
  apply save_result_loop in Hf as (_ & _ & Hev1 & _). simpl in Hev1.
  rewrite Hev1. by destruct (avg_losses oq); simpl; rewrite Hev.
Qed.
(** The calls of [extend] for a key, when the loss types have distinct
    names: those of the items of the pair of the key. *)
Lemma table_updates_for_key {Rec : Type} (loss_types : list string)
    (offset : nat) (items : list (nat * nat * list Rec))
    (us : list (nat * string * list Rec)) (l r : nat) (lt : string) :
  NoDup loss_types -> loss_types !! l = Some lt ->
  mapM (table_update loss_types offset) items = Some us ->
  map snd (List.filter (fun u => bool_decide (u.1 = (r + offset, lt))) us)
  = map snd (List.filter (fun it => bool_decide (it.1 = (l, r))) items).
Proof.
  intros Hnd Hl. revert us.
  induction items as [|[[l' r'] rows] items IH]; intros us; csimpl.
  - by intros [= <-].
  - destruct (loss_types !! l') as [lt'|] eqn:Hl'; simpl; [|done].
    destruct (mapM _ items) as [us'|]; simpl; [|done]. intros [= <-].
    specialize (IH us' eq_refl).
    assert (Hiff : (r' + offset, lt') = (r + offset, lt) <-> (l', r') = (l, r)).
    { split.
      - intros [= Hr ->]. assert (r' = r) as -> by lia. f_equal.
        eapply NoDup_lookup; eauto.
      - intros [= -> ->]. f_equal. congruence. }
    simpl. do 2 case_bool_decide; simpl; rewrite ?IH; try done; tauto.
Qed.

Lemma rows_of_map {Rec : Type} (m : gmap (nat * nat) (list Rec))
    (k : nat * nat) :
  concat (map snd (List.filter (fun it => bool_decide (it.1 = k))
                               (map_to_list m)))
  = accum_get [] m k.
Proof.
  rewrite filter_key_NoDup by apply NoDup_fst_map_to_list.
  rewrite list_to_map_to_list. unfold accum_get.
  destruct (m !! k); simpl; [by rewrite app_nil_r|done].
Qed.

(** X11. Where the records of a task go. When the loss types have distinct
    names, [save_losses] appends the records a task has under the pair
    [(l, r)] to the dataset of the realization [r + offset] and the loss
    type [loss_types[l]], after the rows it had, and nothing else: this
    holds for ['agg_loss_table'] and for ['ass_loss_ratios']. *)
Theorem save_losses_rows (loss_types : list string)
    (agglosses : gmap (nat * nat) (list (elt_rec F)))
    (asslosses : gmap (nat * nat) (list (ela_rec F))) (offset : nat)
    (ds ds' : DS) (l r : nat) (lt : string) :
  NoDup loss_types -> loss_types !! l = Some lt ->
  EbriskCalculator.save_losses loss_types agglosses asslosses offset ds
    = Some ds' ->
  rows_at (r + offset, lt) (ds_agg_loss_table ds')
  = rows_at (r + offset, lt) (ds_agg_loss_table ds)
    ++ accum_get [] agglosses (l, r)
  /\ rows_at (r + offset, lt) (ds_ass_loss_ratios ds')
     = rows_at (r + offset, lt) (ds_ass_loss_ratios ds)
       ++ accum_get [] asslosses (l, r).
Proof.
  intros Hnd Hl. rewrite save_losses_updates. intros Hs.
  destruct (mapM _ (map_to_list agglosses)) as [gu|] eqn:Hgu; simpl in Hs;
    [|done].
  destruct (mapM _ (map_to_list asslosses)) as [su|] eqn:Hsu; simpl in Hs;
    [|done].
  injection Hs as <-. simpl. rewrite !rows_at_foldl.
  rewrite (table_updates_for_key _ _ _ _ l r lt Hnd Hl Hgu).
  rewrite (table_updates_for_key _ _ _ _ l r lt Hnd Hl Hsu).
  by rewrite !rows_of_map.
Qed.

(** ** The dense dataset of the average losses *)

Lemma dset_iadd_in_shape (dset dset' : AvgDset F) (r c : nat) (v : list F) :
  dset_in_shape dset ->
  EbriskCalculator.dset_iadd dset r c v = Some dset' ->
  dset_in_shape dset' /\ avg_A dset' = avg_A dset
  /\ avg_R dset' = avg_R dset /\ avg_C dset' = avg_C dset.
Proof.
  intros Hwf. unfold EbriskCalculator.dset_iadd.
  case_decide as Hd; [|done]. intros [= <-]. simpl. split; [|done].
  intros r' c' col. simpl. rewrite lookup_insert. case_decide as Hk.
  - injection Hk as <- <-. intros [= <-]. destruct Hd as (? & ? & Hv).
    split_and!; [done|done|].
    rewrite length_zip_with, Hv. unfold accum_get.
    destruct (avg_cols dset !! (r, c)) eqn:Hc.
    + destruct (Hwf _ _ _ Hc) as (_ & _ & ->). lia.
    + rewrite length_replicate. lia.
  - apply Hwf.
Qed.

Lemma save_avglosses_in_shape (loss_types : list string)
    (vals : string -> list F) (L : nat) (ins : bool) (start : nat)
    (dset dset' : AvgDset F) (item : nat * nat * list (list F)) :
  dset_in_shape dset ->
  EbriskCalculator.save_avglosses loss_types vals L ins start dset item
    = Some dset' ->
  dset_in_shape dset' /\ avg_A dset' = avg_A dset
  /\ avg_R dset' = avg_R dset /\ avg_C dset' = avg_C dset.
Proof.
  intros Hwf. destruct item as [[l r] losses].
  unfold EbriskCalculator.save_avglosses.
  destruct (loss_types !! l) as [loss_type|]; simpl; [|done].
  destruct (EbriskCalculator.column 0 losses) as [col0|]; simpl; [|done].
  destruct (EbriskCalculator.mul_values col0 _) as [v0|]; simpl; [|done].
  destruct (EbriskCalculator.dset_iadd dset _ _ v0) as [dset1|] eqn:H1; simpl;
    [|done].
  destruct (dset_iadd_in_shape _ _ _ _ _ Hwf H1) as (Hwf1 & HA & HR & HC).
  destruct ins.
  - destruct (EbriskCalculator.column 1 losses) as [col1|]; simpl; [|done].
    destruct (EbriskCalculator.mul_values col1 _) as [v1|]; simpl; [|done].
    intros H2.
    destruct (dset_iadd_in_shape _ _ _ _ _ Hwf1 H2) as (Hwf2 & HA2 & HR2 & HC2).
    split_and!; [done|congruence..].
  - intros [= <-]. done.
Qed.

(** The dataset ['avg_losses-rlzs'] keeps its shape through a task. *)
Lemma save_task_avg_shape (oq : OqParam F) (loss_types : list string)
    (vals : string -> list F) (L start : nat) (s s' : Calc)
    (dic : TaskResult F) (dset : AvgDset F) :
  ds_avg_losses (EbriskCalculator.datastore s) = Some dset ->
  dset_in_shape dset ->
  EbriskCalculator.save_task oq loss_types vals L start s dic = Some s' ->
  exists dset',
    ds_avg_losses (EbriskCalculator.datastore s') = Some dset'
    /\ dset_in_shape dset' /\ avg_A dset' = avg_A dset
    /\ avg_R dset' = avg_R dset /\ avg_C dset' = avg_C dset.
Proof.
  intros Hd Hwf. unfold EbriskCalculator.save_task.
  destruct (avg_losses oq).
  - destruct (res_avglosses dic) as [avgl|]; simpl; [|done].
    rewrite Hd. simpl.
    destruct (foldM _ dset (map_to_list avgl)) as [dset1|] eqn:Hf; simpl;
      [|done].
    assert (Hinv : dset_in_shape dset1 /\ avg_A dset1 = avg_A dset
                   /\ avg_R dset1 = avg_R dset /\ avg_C dset1 = avg_C dset).
    { revert Hf.
      apply (foldM_invariant
               (fun d : AvgDset F =>
                  dset_in_shape d /\ avg_A d = avg_A dset
                  /\ avg_R d = avg_R dset /\ avg_C d = avg_C dset));
        [|done].
      intros b x b' (Hb & HA & HR & HC) Hstep.
      destruct (save_avglosses_in_shape _ _ _ _ _ _ _ _ Hb Hstep)
        as (? & ? & ? & ?).
      split_and!; [done|congruence..]. }
    unfold EbriskCalculator.save_losses.
    destruct (foldM _ _ (map_to_list (res_agglosses dic))); simpl; [|done].
    destruct (foldM _ _ (map_to_list (res_asslosses dic))); simpl; [|done].
    intros [= <-]. simpl. by exists dset1.
  - simpl. unfold EbriskCalculator.save_losses.
    destruct (foldM _ _ (map_to_list (res_agglosses dic))); simpl; [|done].
    destruct (foldM _ _ (map_to_list (res_asslosses dic))); simpl; [|done].
    intros [= <-]. simpl. by exists dset.
Qed.

(** X12. The dense dataset ['avg_losses-rlzs']. When average losses are
    computed, [save_results] leaves in the datastore a dataset of the shape
    (A, R, L * I) it created, with [I = insured_losses + 1]: every column
    written is inside that shape, at a realization below [R] and a column
    below [L * I], and has one entry per asset. *)
Theorem save_results_avg_shape (oq : OqParam F) (loss_types : list string)
    (vals : string -> list F) (L A : nat) (self s : Calc)
    (allres : list (IterResult F)) (n_rlzs n : nat) :
  avg_losses oq = true ->
  EbriskCalculator.save_results oq loss_types vals L A self allres n_rlzs
    = Some (s, n) ->
  exists dset,
    ds_avg_losses (EbriskCalculator.datastore s) = Some dset
    /\ avg_A dset = A /\ avg_R dset = n_rlzs
    /\ avg_C dset = L * num_I (insured_losses oq)
    /\ forall r c col, avg_cols dset !! (r, c) = Some col ->
         r < n_rlzs /\ c < L * num_I (insured_losses oq) /\ length col = A.
Proof.
  intros Havg. unfold EbriskCalculator.save_results. rewrite Havg.
  intros Hs.
  destruct (foldM _ _ allres) as [[s1 n1]|] eqn:Hf; simpl in Hs; [|done].
  destruct (ds_events _); simpl in Hs; [|done]. injection Hs as <- <-.
  simpl.
  assert (Hinv : exists dset,
            ds_avg_losses (EbriskCalculator.datastore s1) = Some dset
            /\ dset_in_shape dset /\ avg_A dset = A /\ avg_R dset = n_rlzs
            /\ avg_C dset = L * num_I (insured_losses oq)).
  { revert Hf.
    apply (foldM_invariant
             (fun st : Calc * nat =>
                exists dset,
                  ds_avg_losses (EbriskCalculator.datastore st.1) = Some dset
                  /\ dset_in_shape dset /\ avg_A dset = A
                  /\ avg_R dset = n_rlzs
                  /\ avg_C dset = L * num_I (insured_losses oq))
             _ _ _ (s1, n1)).
    - intros [b k] res [b' k'] Hb. unfold EbriskCalculator.save_result.
      simpl. destruct (ir_rlz_slice res) as [start stop].
      destruct (foldM _ b (ir_tasks res)) as [b1|] eqn:Htasks; simpl; [|done].
      intros [= <- <-]. simpl. revert Htasks.
      apply (foldM_invariant
               (fun c : Calc =>
                  exists dset,
                    ds_avg_losses (EbriskCalculator.datastore c) = Some dset
                    /\ dset_in_shape dset /\ avg_A dset = A
                    /\ avg_R dset = n_rlzs
                    /\ avg_C dset = L * num_I (insured_losses oq)));
        [|exact Hb].
      intros c dic c' (dset & Hd & Hwf & HA & HR & HC) Hstep.
      destruct (save_task_avg_shape _ _ _ _ _ _ _ _ _ Hd Hwf Hstep)
        as (dset' & Hd' & Hwf' & HA' & HR' & HC').
      exists dset'. split_and!; [done|done|congruence..].
    - simpl. eexists. split; [reflexivity|]. split; [|done].
      intros r c col. simpl. by rewrite lookup_empty. }
  destruct Hinv as (dset & Hd & Hwf & HA & HR & HC).
  exists dset. split_and!; try done.
  intros r c col Hcol. destruct (Hwf r c col Hcol) as (? & ? & ?).
  split_and!; congruence.
Qed.

(** ** A task and the reducer *)

(** The keys and the arrays of the result of a task, as the reducer reads
    them. *)
Lemma task_result_wf (eids : list Z) (outputs : list (Output F))
    (loss_types : list string) (A : nat) (mon : Monitor F)
    (res : TaskResult F) :
  event_based_risk eids outputs loss_types A mon = Some res ->
  (forall lr, is_Some (res_agglosses res !! lr) -> lr.1 < length loss_types)
  /\ (forall lr, is_Some (res_asslosses res !! lr) ->
        lr.1 < length loss_types)
  /\ (mon_avg_losses mon = true ->
      exists avg,
        res_avglosses res = Some avg
        /\ forall lr m, avg !! lr = Some m ->
             lr.1 < length loss_types
             /\ (exists out, out ∈ outputs /\ out_lr out = lr)
             /\ has_shape A (num_I (mon_insured_losses mon)) m = true).
Proof.
  unfold event_based_risk. intros Hr.
  destruct (_aggregate _ _ _ _ _ _ _) as [[st lrs]|] eqn:Hagg; simpl in Hr;
    [|done].
  destruct (foldM _ ∅ lrs) as [agglosses|] eqn:Hf; simpl in Hr; [|done].
  injection Hr as <-. simpl.
  destruct (_aggregate_state _ _ _ _ _ _ _ _ Hagg)
    as (-> & Hlrs & Hall & (_ & Hsavg & _ & Hdom)).
  assert (Hout : forall lr, lr ∈ st_lrs st ->
            lr.1 < length loss_types
            /\ exists out, out ∈ outputs /\ out_lr out = lr).
  { intros lr. rewrite Hlrs, elem_of_list_to_set, list_elem_of_fmap.
    intros (out & -> & Hin). split; [|by exists out].
    rewrite Forall_forall in Hall. by apply Hall. }
  split_and!.
  - intros lr Hk. apply Hout.
    apply (store_agglosses_keys _ _ _ _ _ _ Hf) in Hk.
    by rewrite merge_sort_Permutation, elem_of_elements in Hk.
  - intros lr Hk. apply Hout, Hdom. right. right.
    rewrite lookup_omap in Hk.
    destruct (st_ass st !! lr); [by eexists|]. by destruct Hk.
  - intros ->. exists (st_avg st). split; [done|]. intros lr m Hm.
    destruct (Hout lr) as [? ?]; [apply Hdom; right; left; by eexists|].
    split_and!; try done. by eapply Hsavg.
Qed.

Lemma column_is_Some (j A I : nat) (m : list (list F)) :
  has_shape A I m = true -> j < I ->
  exists col, EbriskCalculator.column j m = Some col /\ length col = A.
Proof.
  intros Hs Hj. apply has_shape_spec in Hs as [Hn Hrows].
  destruct (EbriskCalculator.column j m) as [col|] eqn:Hc.
  - exists col. split; [done|]. apply length_mapM in Hc. congruence.
  - exfalso.
    assert (is_Some (EbriskCalculator.column j m)) as Hs;
      [|by rewrite Hc in Hs; destruct Hs].
    apply mapM_is_Some. eapply Forall_impl; [exact Hrows|].
    intros row Hrow. simpl in *. apply lookup_lt_is_Some_2.
    rewrite Hrow. exact Hj.
Qed.

Lemma mul_values_is_Some (v vs : list F) :
  length v = length vs ->
  EbriskCalculator.mul_values v vs = Some (zip_with fmul v vs).
Proof.
  intros Hlen. unfold EbriskCalculator.mul_values. by rewrite decide_True.
Qed.

Lemma dset_iadd_is_Some (dset : AvgDset F) (r c : nat) (v : list F) :
  r < avg_R dset -> c < avg_C dset -> length v = avg_A dset ->
  exists dset',
    EbriskCalculator.dset_iadd dset r c v = Some dset'
    /\ avg_A dset' = avg_A dset /\ avg_C dset' = avg_C dset
    /\ avg_R dset' = avg_R dset.
Proof.
  intros Hr Hc Hv. unfold EbriskCalculator.dset_iadd.
  rewrite decide_True by done. by eexists.
Qed.

Lemma save_avglosses_succeeds (loss_types : list string)
    (vals : string -> list F) (ins : bool) (start A : nat)
    (dset : AvgDset F) (l r : nat) (losses : list (list F)) :
  l < length loss_types -> has_shape A (num_I ins) losses = true ->
  (forall lt, length (vals lt) = A) ->
  avg_A dset = A -> avg_C dset = length loss_types * num_I ins ->
  r + start < avg_R dset ->
  exists dset',
    EbriskCalculator.save_avglosses loss_types vals (length loss_types) ins
      start dset (l, r, losses) = Some dset'
    /\ avg_A dset' = A /\ avg_C dset' = avg_C dset /\ avg_R dset' = avg_R dset.
Proof.
  intros Hl Hshape Hvals HA HC HR. unfold EbriskCalculator.save_avglosses.
  destruct (lookup_lt_is_Some_2 _ _ Hl) as [lt ->]. simpl.
  destruct (column_is_Some 0 _ _ _ Hshape) as (col0 & -> & Hc0);
    [destruct ins; simpl; lia|]. simpl.
  rewrite mul_values_is_Some by (by rewrite Hvals). simpl.
  destruct (dset_iadd_is_Some dset (r + start) l (zip_with fmul col0 (vals lt)))
    as (dset1 & -> & HA1 & HC1 & HR1).
  { done. }
  { rewrite HC. destruct ins; simpl; lia. }
  { rewrite length_zip_with, Hvals, Hc0, HA. lia. }
  simpl. destruct ins; [|exists dset1; split_and!; congruence].
  destruct (column_is_Some 1 _ _ _ Hshape) as (col1 & -> & Hc1);
    [simpl; lia|]. simpl.
  rewrite mul_values_is_Some by (by rewrite Hvals). simpl.
  destruct (dset_iadd_is_Some dset1 (r + start) (l + length loss_types)
              (zip_with fmul col1 (vals lt)))
    as (dset2 & -> & HA2 & HC2 & HR2).
  { by rewrite HR1. }
  { rewrite HC1, HC. simpl. lia. }
  { rewrite length_zip_with, Hvals, Hc1, HA1, HA. lia. }
  exists dset2. split_and!; congruence.
Qed.

Lemma save_losses_succeeds (loss_types : list string)
    (agglosses : gmap (nat * nat) (list (elt_rec F)))
    (asslosses : gmap (nat * nat) (list (ela_rec F))) (offset : nat)
    (ds : DS) :
  (forall lr, is_Some (agglosses !! lr) -> lr.1 < length loss_types) ->
  (forall lr, is_Some (asslosses !! lr) -> lr.1 < length loss_types) ->
  is_Some (EbriskCalculator.save_losses loss_types agglosses asslosses
             offset ds).
Proof.
  intros Hagg Hass. unfold EbriskCalculator.save_losses.
  assert (Hloop : forall (Rec : Type) (m : gmap (nat * nat) (list Rec)) t,
            (forall lr, is_Some (m !! lr) -> lr.1 < length loss_types) ->
            exists t', foldM (EbriskCalculator.save_losses_item loss_types
                                offset) t (map_to_list m) = Some t' /\ True).
  { intros Rec m t Hm. apply (foldM_is_Some (fun _ => True)); [|done].
    intros b [[l r] rows] Hin _.
    apply elem_of_map_to_list in Hin.
    unfold EbriskCalculator.save_losses_item.
    destruct (lookup_lt_is_Some_2 loss_types l) as [lt ->];
      [apply (Hm (l, r)); by eexists|].
    simpl. eauto. }
  destruct (Hloop _ agglosses (ds_agg_loss_table ds) Hagg) as (t1 & -> & _).
  simpl.
  destruct (Hloop _ asslosses (ds_ass_loss_ratios ds) Hass) as (t2 & -> & _).
  simpl. by eexists.
Qed.

(** X13. The reducer accepts the result of a task. A result of
    [event_based_risk], computed with the flags of the job as [gen_args]
    passes them in the monitor and for the [A] assets and the loss types of
    the risk model, is saved by the body of the loop of [save_results]
    without an exception: its keys are indices of [loss_types], its arrays
    of average losses have one row per asset and [I] columns, and the
    columns they are added to are inside the dataset (A, R, L * I), as long
    as the realization of every output, shifted by the start of the slice of
    its source model, is below [R]. *)
Theorem task_result_is_saved (oq : OqParam F) (loss_types : list string)
    (vals : string -> list F) (start : nat) (self : Calc) (eids : list Z)
    (outputs : list (Output F)) (A : nat) (mon : Monitor F)
    (dic : TaskResult F) :
  event_based_risk eids outputs loss_types A mon = Some dic ->
  mon_avg_losses mon = avg_losses oq ->
  mon_insured_losses mon = insured_losses oq ->
  (forall lt, length (vals lt) = A) ->
  (avg_losses oq = true ->
   exists dset,
     ds_avg_losses (EbriskCalculator.datastore self) = Some dset
     /\ avg_A dset = A
     /\ avg_C dset = length loss_types * num_I (insured_losses oq)
     /\ forall out, out ∈ outputs -> (out_lr out).2 + start < avg_R dset) ->
  is_Some (EbriskCalculator.save_task oq loss_types vals (length loss_types)
             start self dic).
Proof.
  intros Hres Hflag Hins Hvals Hdset.
  destruct (task_result_wf _ _ _ _ _ _ Hres) as (Hagg & Hass & Havg).
  unfold EbriskCalculator.save_task.
  assert (Hds1 : exists ds1 : DS,
            (if avg_losses oq
             then avglosses ← res_avglosses dic;
                  dset ← ds_avg_losses (EbriskCalculator.datastore self);
                  dset' ← foldM (EbriskCalculator.save_avglosses loss_types
                                   vals (length loss_types)
                                   (insured_losses oq) start)
                                dset (map_to_list avglosses);
                  Some (set_avg_losses (Some dset')
                                       (EbriskCalculator.datastore self))
             else Some (EbriskCalculator.datastore self)) = Some ds1).
  { destruct (avg_losses oq) eqn:Hon; [|by eexists].
    destruct (Havg Hflag) as (avg & -> & Hitems).
    destruct (Hdset eq_refl) as (dset & -> & HA & HC & HR). simpl.
    destruct (foldM_is_Some
                (fun d : AvgDset F =>
                   avg_A d = A /\ avg_C d = avg_C dset /\ avg_R d = avg_R dset)
                (EbriskCalculator.save_avglosses loss_types vals
                   (length loss_types) (insured_losses oq) start)
                (map_to_list avg) dset) as (dset' & -> & _); [|done|].
    - intros d [[l r] losses] Hin (HdA & HdC & HdR).
      apply elem_of_map_to_list in Hin.
      destruct (Hitems _ _ Hin) as (Hl & (out & Hout & Hlr) & Hshape).
      rewrite Hins in Hshape.
      destruct (save_avglosses_succeeds loss_types vals (insured_losses oq)
                  start A d l r losses) as (d' & -> & ? & ? & ?);
        try done; try congruence.
      + rewrite HdR. specialize (HR out Hout). by rewrite Hlr in HR.
      + exists d'. split; [done|]. split_and!; congruence.
    - simpl. by eexists. }
  destruct Hds1 as [ds1 ->]. simpl.
  destruct (save_losses_succeeds loss_types _ _ start ds1 Hagg Hass)
    as [ds2 ->].
  simpl. by eexists.
Qed.

(** ** The attributes written by [post_execute] *)

Section PostExecuteMore.
Variable parent_post_execute : Calc -> nat -> exn + Calc.

(** X14. What [post_execute] leaves when it returns. The bytes of ground
    motion fields, which are not zero, are stored under ['job_info']; the
    two loss tables are as the parent left them; every dataset of
    ['agg_loss_table'] gets the attribute [nonzero_fraction] with the
    number of its rows over the number of events, every dataset of
    ['ass_loss_ratios'] with the number of its rows over the number of
    assets times the number of events. *)
Theorem post_execute_attributes (A : nat) (self self1 self' : Calc)
    (n_events : nat) :
  parent_post_execute self n_events = inr self1 ->
  EbriskCalculator.post_execute parent_post_execute A self n_events
    = inr self' ->
  EbriskCalculator.gmfbytes self1 <> 0%Z
  /\ ds_job_info (EbriskCalculator.datastore self')
     = Some (EbriskCalculator.gmfbytes self1)
  /\ ds_agg_loss_table (EbriskCalculator.datastore self')
     = ds_agg_loss_table (EbriskCalculator.datastore self1)
  /\ ds_ass_loss_ratios (EbriskCalculator.datastore self')
     = ds_ass_loss_ratios (EbriskCalculator.datastore self1)
  /\ (forall key rows,
        ds_agg_loss_table (EbriskCalculator.datastore self1) !! key
          = Some rows ->
        ds_agg_nonzero (EbriskCalculator.datastore self') !! key
          = Some (length rows, n_events))
  /\ (forall key rows,
        ds_ass_loss_ratios (EbriskCalculator.datastore self1) !! key
          = Some rows ->
        ds_ass_nonzero (EbriskCalculator.datastore self') !! key
          = Some (length rows, A * n_events)).
Proof.
  intros Hparent. unfold EbriskCalculator.post_execute. rewrite Hparent.
  destruct (EbriskCalculator.gmfbytes self1 =? 0)%Z eqn:Hz; [done|].
  apply Z.eqb_neq in Hz. simpl.
  set (d1 := EbriskCalculator.datastore self1).
  assert (Hgroup : forall (Rec : Type) (t : gmap (nat * string) (list Rec))
                     key rows,
            t !! key = Some rows -> has_group t = true).
  { intros Rec t key rows Hk. unfold has_group. apply bool_decide_eq_true.
    intros ->. by rewrite lookup_empty in Hk. }
  assert (Hfrac : forall (Rec : Type) (t : gmap (nat * string) (list Rec))
                    d key rows,
            t !! key = Some rows ->
            EbriskCalculator.nonzero_fractions d t !! key
            = Some (length rows, d)).
  { intros Rec t d key rows Hk.
    unfold EbriskCalculator.nonzero_fractions.
    by rewrite lookup_fmap, Hk. }
  destruct (has_group (ds_ass_loss_ratios d1) && (A * n_events =? 0));
    [done|].
  destruct (has_group (ds_agg_loss_table d1)) eqn:Hagg; simpl.
  - destruct (n_events =? 0); [done|]. intros [= <-]. simpl.
    split_and!; try done.
    + intros key rows Hk. by apply Hfrac.
    + intros key rows Hk. rewrite (Hgroup _ _ _ _ Hk). by apply Hfrac.
  - intros [= <-]. simpl. split_and!; try done.
    + intros key rows Hk. by rewrite (Hgroup _ _ _ _ Hk) in Hagg.
    + intros key rows Hk. rewrite (Hgroup _ _ _ _ Hk). by apply Hfrac.
Qed.
End PostExecuteMore.
End ReducerMore.

(** Two tasks saved on a table that has the row of the event 9: the row
    stays first. *)
Lemma save_results_appends_witness :
  exists s n,
    EbriskCalculator.save_results Reduction.oqZ Scenario.loss_types
      Reduction.valsZ 1 2 Growth.calc_row
      (Reduction.allres [Reduction.taskZ 0 10 1 2; Reduction.taskZ 3 50 4 5]) 2
    = Some (s, n)
    /\ [{| elt_eid := 9%Z; elt_loss := [7%Z] |}]
       `prefix_of` rows_at (0, "structural")
                     (ds_agg_loss_table (EbriskCalculator.datastore s)).
Proof.
  destruct (EbriskCalculator.save_results Reduction.oqZ Scenario.loss_types
              Reduction.valsZ 1 2 Growth.calc_row
              (Reduction.allres [Reduction.taskZ 0 10 1 2;
                                 Reduction.taskZ 3 50 4 5]) 2)
    as [[s n]|] eqn:Hs; [|by vm_compute in Hs].
  exists s, n. split; [done|].
  destruct (save_results_appends _ _ _ _ _ _ _ _ _ _ Hs (0, "structural"))
    as (_ & Hprefix & _). exact Hprefix.
Defined.

(** A task with one aggregate loss record under the pair (0, 0), saved
    with the offset 1: the record is the last row of the realization 1. *)
Lemma save_losses_rows_witness :
  exists ds',
    EbriskCalculator.save_losses Scenario.loss_types
      {[ (0, 0) := [{| elt_eid := 3%Z; elt_loss := [50%Z] |}] ]} ∅ 1
      (EbriskCalculator.datastore Growth.calc_row) = Some ds'
    /\ rows_at (1, "structural") (ds_agg_loss_table ds')
       = [{| elt_eid := 3%Z; elt_loss := [50%Z] |}].
Proof.
  destruct (EbriskCalculator.save_losses Scenario.loss_types
              {[ (0, 0) := [{| elt_eid := 3%Z; elt_loss := [50%Z] |}] ]} ∅ 1
              (EbriskCalculator.datastore Growth.calc_row))
    as [ds'|] eqn:Hs; [|by vm_compute in Hs].
  exists ds'. split; [done|].
  assert (Hnd : NoDup Scenario.loss_types)
    by (by apply (bool_decide_unpack _)).
  destruct (save_losses_rows _ _ _ _ _ _ 0 0 "structural" Hnd eq_refl Hs)
    as [Hrows _].
  exact Hrows.
Defined.

(** Two tasks of one source model with four events and eight bytes each. *)
Lemma save_results_counters_witness :
  exists s n,
    EbriskCalculator.save_results Reduction.oqZ Scenario.loss_types
      Reduction.valsZ 1 2 Growth.calc_row
      (Reduction.allres [Reduction.taskZ 0 10 1 2; Reduction.taskZ 3 50 4 5]) 2
    = Some (s, n)
    /\ n = 4 /\ EbriskCalculator.gmfbytes s = 16%Z
    /\ EbriskCalculator.log s = [DebugSaving 1 0 2].
Proof.
  destruct (EbriskCalculator.save_results Reduction.oqZ Scenario.loss_types
              Reduction.valsZ 1 2 Growth.calc_row
              (Reduction.allres [Reduction.taskZ 0 10 1 2;
                                 Reduction.taskZ 3 50 4 5]) 2)
    as [[s n]|] eqn:Hs; [|by vm_compute in Hs].
  exists s, n. split; [done|].
  destruct (save_results_counters _ _ _ _ _ _ _ _ _ _ Hs)
    as (Hn & _ & Hg & Hlog).
  split; [exact Hn|]. split; [exact Hg|exact Hlog].
Defined.

(** Without the dataset ['events'] the results are not saved. *)
Lemma save_results_needs_events_witness :
  EbriskCalculator.save_results Reduction.oqZ Scenario.loss_types
    Reduction.valsZ 1 2 Growth.calc_no_events
    (Reduction.allres [Reduction.taskZ 0 10 1 2]) 2 = None.
Proof. apply save_results_needs_events. reflexivity. Defined.

(** Two tasks that add to the average losses of two assets, one loss type
    and two realizations: the dataset has the shape (2, 2, 1). *)
Lemma save_results_avg_shape_witness :
  exists s n dset,
    EbriskCalculator.save_results Reduction.oqZ Scenario.loss_types
      Reduction.valsZ 1 2 Reduction.calcZ
      (Reduction.allres [Reduction.taskZ 0 10 1 2; Reduction.taskZ 3 50 4 5]) 2
    = Some (s, n)
    /\ ds_avg_losses (EbriskCalculator.datastore s) = Some dset
    /\ avg_A dset = 2 /\ avg_R dset = 2 /\ avg_C dset = 1.
Proof.
  destruct (EbriskCalculator.save_results Reduction.oqZ Scenario.loss_types
              Reduction.valsZ 1 2 Reduction.calcZ
              (Reduction.allres [Reduction.taskZ 0 10 1 2;
                                 Reduction.taskZ 3 50 4 5]) 2)
    as [[s n]|] eqn:Hs; [|by vm_compute in Hs].
  destruct (save_results_avg_shape Reduction.oqZ _ _ _ _ _ _ _ _ _ eq_refl Hs)
    as (dset & Hd & HA & HR & HC & _).
  exists s, n, dset. split; [done|]. split; [exact Hd|].
  split; [exact HA|]. split; [exact HR|exact HC].
Defined.

(** The task of the scenario is saved into the dataset of two assets, two
    realizations and one loss type. *)
Lemma task_result_is_saved_witness :
  exists dic,
    event_based_risk Scenario.eids [Scenario.out0; Scenario.out1]
                     Scenario.loss_types 2 Scenario.monitor = Some dic
    /\ is_Some (EbriskCalculator.save_task Reduction.oq Scenario.loss_types
                  Reduction.vals (length Scenario.loss_types) 0
                  Growth.calc_avg dic).
Proof.
  destruct (event_based_risk Scenario.eids [Scenario.out0; Scenario.out1]
              Scenario.loss_types 2 Scenario.monitor) as [dic|] eqn:Hres;
    [|by vm_compute in Hres].
  exists dic. split; [done|].
  apply (task_result_is_saved Reduction.oq Scenario.loss_types Reduction.vals
           0 Growth.calc_avg Scenario.eids [Scenario.out0; Scenario.out1] 2
           Scenario.monitor dic Hres eq_refl eq_refl).
  - intros lt. reflexivity.
  - intros _. eexists. split; [reflexivity|]. split; [reflexivity|].
    split; [reflexivity|]. intros out Hout.
    apply elem_of_cons in Hout as [->|Hout]; [simpl; lia|].
    apply elem_of_cons in Hout as [->|Hout]; [simpl; lia|].
    by apply elem_of_nil in Hout.
Defined.

(** Three events, two assets, two aggregate loss records and one asset
    loss record: the fractions 2 / 3 and 1 / 6. *)
Lemma post_execute_attributes_witness :
  exists self',
    EbriskCalculator.post_execute Reduction.parent_returns 2
      Growth.calc_tables 3 = inr self'
    /\ ds_agg_nonzero (EbriskCalculator.datastore self') !! (0, "structural")
       = Some (2, 3)
    /\ ds_ass_nonzero (EbriskCalculator.datastore self') !! (0, "structural")
       = Some (1, 6).
Proof.
  destruct (EbriskCalculator.post_execute Reduction.parent_returns 2
              Growth.calc_tables 3) as [e|self'] eqn:Hpost;
    [by vm_compute in Hpost|].
  exists self'. split; [done|].
  destruct (post_execute_attributes Reduction.parent_returns 2
              Growth.calc_tables Growth.calc_tables self' 3 eq_refl Hpost)
    as (_ & _ & _ & _ & Hagg & Hass).
  split; [exact (Hagg (0, "structural") _ eq_refl)
         |exact (Hass (0, "structural") _ eq_refl)].
Defined.

(** * Further properties of the task distributor *)

Lemma sum_list_Permutation (l l' : list nat) :
  l ≡ₚ l' -> sum_list l = sum_list l'.
Proof. induction 1; simpl; lia. Qed.

Lemma count_events_Permutation (l l' : list EBRupture) :
  l ≡ₚ l' -> EbriskCalculator.count_events l = EbriskCalculator.count_events l'.
Proof.
  intros Hp. unfold EbriskCalculator.count_events. apply sum_list_Permutation.
  change (map ?f ?l) with (f <$> l). by rewrite Hp.
Qed.

Lemma count_events_concat (ls : list (list EBRupture)) :
  EbriskCalculator.count_events (concat ls)
  = sum_list (map EbriskCalculator.count_events ls).
Proof.
  induction ls as [|l ls IH]; simpl; [done|].
  rewrite <- IH. unfold EbriskCalculator.count_events.
  by rewrite map_app, sum_list_with_app.
Qed.

(** A list of equal elements is sorted. *)
Lemma StronglySorted_constant (g : nat) (l : list nat) :
  Forall (fun x => x = g) l -> StronglySorted Nat.le l.
Proof.
  induction 1 as [|x l -> Hl IH]; constructor; [done|].
  eapply Forall_impl; [exact Hl|]. intros y ->. done.
Qed.

(** The groups of the blocks of sorted groups are sorted. *)
Lemma StronglySorted_groups {B : Type} (bl : nat -> list B) (ids : list nat) :
  StronglySorted Nat.le ids ->
  StronglySorted Nat.le
    (map fst (concat (map (fun g => map (pair g) (bl g)) ids))).
Proof.
  induction 1 as [|g ids Hs IH Hall]; simpl; [constructor|].
  rewrite map_app. apply StronglySorted_app_2; [| |exact IH].
  - intros x1 x2 H1 H2.
    apply list_elem_of_In, in_map_iff in H1 as ([g1 b1] & <- & H1).
    apply in_map_iff in H1 as (b & [= <- <-] & _). simpl.
    apply list_elem_of_In, in_map_iff in H2 as ([g2 b2] & <- & H2).
    apply in_concat in H2 as (l & Hl & H2).
    apply in_map_iff in Hl as (g' & <- & Hg').
    apply in_map_iff in H2 as (b' & [= <- <-] & _). simpl.
    rewrite Forall_forall in Hall. apply Hall. by apply list_elem_of_In.
  - apply (StronglySorted_constant g). apply Forall_forall. intros x Hx.
    apply list_elem_of_In, in_map_iff in Hx as ([g1 b1] & <- & H1).
    by apply in_map_iff in H1 as (b & [= <- <-] & _).
Qed.

(** The values of a map under distinct keys add up to at most the values
    of all its keys. *)
Lemma sum_over_keys_le (f : list EBRupture -> nat) (ids : list nat)
    (m : gmap nat (list EBRupture)) :
  f [] = 0 -> NoDup ids ->
  sum_list (map (fun g => f (accum_get [] m g)) ids)
  <= sum_list (map (fun kv => f kv.2) (map_to_list m)).
Proof.
  intros Hnil Hnd. revert m. induction Hnd as [|g ids Hnin Hnd IH]; intros m.
  - simpl. lia.
  - simpl. destruct (m !! g) as [v|] eqn:Hg.
    + assert (Hm : map_to_list m ≡ₚ (g, v) :: map_to_list (delete g m)).
      { rewrite <- (insert_id m g v Hg) at 1.
        rewrite <- insert_delete_eq.
        apply map_to_list_insert, lookup_delete_eq. }
      rewrite (sum_list_Permutation
                 (map (fun kv => f kv.2) (map_to_list m))
                 (map (fun kv => f kv.2) ((g, v) :: map_to_list (delete g m)))).
      2:{ change (map ?h ?l) with (h <$> l). by rewrite Hm. }
      simpl. unfold accum_get at 1. rewrite Hg.
      specialize (IH (delete g m)).
      assert (Heq : map (fun g0 => f (accum_get [] m g0)) ids
                    = map (fun g0 => f (accum_get [] (delete g m) g0)) ids).
      { apply map_ext_in. intros g0 Hg0. unfold accum_get.
        rewrite lookup_delete_ne; [done|].
        intros ->. apply Hnin. by apply list_elem_of_In. }
      rewrite Heq. lia.
    + unfold accum_get at 1. rewrite Hg, Hnil. simpl. apply IH.
Qed.

Section DistributorMore.
Context {G F64 F32 : Type} `{NumpyRandom G F64}.
Context {F : Type}.
Variable block_splitter : list EBRupture -> nat -> list (list EBRupture).

(** A risk input as its group and its ruptures. *)
Local Abbreviation key_of :=
  (fun ri : RiskInput F32 F64 => (ri_grp_id ri, ri_ruptures ri)).

Lemma starmap_block_inputs (oq : OqParam F) (covs : bool)
    (num_assets n_all : nat) (seeds : list Z) (grp_id : nat)
    (st st' : nat * G * list (RiskInput F32 F64)) (rupts : list EBRupture) :
  EbriskCalculator.starmap_block oq covs num_assets n_all seeds
    grp_id st rupts = Some st' ->
  map key_of st'.2 = map key_of st.2 ++ [(grp_id, rupts)].
Proof.
  destruct st as [[start g] allargs]. unfold EbriskCalculator.starmap_block.
  destruct (ignore_covs oq || negb covs); simpl;
    [intros [= <-]; simpl; by rewrite map_app|].
  destruct (asset_correlation oq); simpl;
    [|intros [= <-]; simpl; by rewrite map_app].
  destruct (EpsilonMatrix1.init n_all (master_seed oq) g) as [[e g1]|];
    simpl; [|done].
  intros [= <-]. simpl. by rewrite map_app.
Qed.

Lemma starmap_group_inputs (oq : OqParam F) (covs : bool) (num_assets : nat)
    (ruptures_by_grp : gmap nat (list EBRupture)) (n_all : nat)
    (seeds : list Z) (st st' : nat * G * list (RiskInput F32 F64))
    (grp_id : nat) :
  EbriskCalculator.starmap_group block_splitter oq covs num_assets
    ruptures_by_grp n_all seeds st grp_id = Some st' ->
  map key_of st'.2
  = map key_of st.2
    ++ map (pair grp_id)
           (block_splitter (accum_get [] ruptures_by_grp grp_id)
                           (ruptures_per_block oq)).
Proof.
  unfold EbriskCalculator.starmap_group.
  generalize (block_splitter (accum_get [] ruptures_by_grp grp_id)
                             (ruptures_per_block oq)).
  intros blocks. revert st.
  induction blocks as [|b blocks IH]; intros st; simpl.
  - intros [= <-]. by rewrite app_nil_r.
  - destruct (EbriskCalculator.starmap_block _ _ _ _ _ _ st b) as [st1|] eqn:Hb;
      [|done].
    intros Hst. rewrite (IH _ Hst), (starmap_block_inputs _ _ _ _ _ _ _ _ _ Hb).
    by rewrite <- app_assoc.
Qed.

(** The risk inputs of [build_starmap]: one per block of each group, the
    groups in increasing order, the blocks in the order of the splitter. *)
Lemma build_starmap_inputs (oq : OqParam F) (covs : bool) (num_assets : nat)
    (sm : SourceModel) (ruptures_by_grp : gmap nat (list EBRupture)) (g : G)
    (r : list (RiskInput F32 F64) * StarmapAttrs * G) :
  EbriskCalculator.build_starmap block_splitter oq covs num_assets
    sm ruptures_by_grp g = Some r ->
  map key_of r.1.1
  = concat (map (fun grp_id =>
                   map (pair grp_id)
                       (block_splitter (accum_get [] ruptures_by_grp grp_id)
                                       (ruptures_per_block oq)))
                (merge_sort Nat.le (sm_grp_ids sm))).
Proof.
  unfold EbriskCalculator.build_starmap.
  set (n_all := sum_list _).
  destruct (seed_array _ n_all) as [seeds|]; simpl; [|done].
  assert (Hgen : forall ids st st',
            foldM (EbriskCalculator.starmap_group block_splitter oq covs
                     num_assets ruptures_by_grp n_all seeds) st ids = Some st' ->
            map key_of st'.2
            = map key_of st.2
              ++ concat (map (fun grp_id =>
                           map (pair grp_id)
                               (block_splitter
                                  (accum_get [] ruptures_by_grp grp_id)
                                  (ruptures_per_block oq))) ids)).
  { intros ids. induction ids as [|i ids IH]; intros st st'; simpl.
    - intros [= <-]. by rewrite app_nil_r.
    - destruct (EbriskCalculator.starmap_group _ _ _ _ _ _ _ st i)
        as [st1|] eqn:Hg; [|done].
      intros Hst. rewrite (IH _ _ Hst), (starmap_group_inputs _ _ _ _ _ _ _ _ _ Hg).
      by rewrite <- app_assoc. }
  destruct (foldM _ (0, g, []) _) as [[[start g'] allargs]|] eqn:Hfold;
    simpl; [|done].
  intros [= <-]. simpl. exact (Hgen _ _ _ Hfold).
Qed.

(** X15. The order of dispatch. [build_starmap] returns when the
    [random_seed] fits int64 and no [EpsilonMatrix1] is to be built with a
    master seed that [numpy.random.seed] refuses. When it returns, it has
    built one risk input per block of ruptures, for the source groups of
    the source model in increasing order of their ids: the group ids of the
    risk inputs are sorted, every risk input holds one of the blocks the
    splitter cut from the ruptures of its group, and that group is a group
    of the source model. *)
Theorem build_starmap_dispatch_order (oq : OqParam F) (covs : bool)
    (num_assets : nat) (sm : SourceModel)
    (ruptures_by_grp : gmap nat (list EBRupture)) (g : G) :
  ((- 2 ^ 63 <= random_seed oq < 2 ^ 63)%Z ->
   ignore_covs oq || negb covs = true \/ asset_correlation oq = false
   \/ valid_seed (master_seed oq) ->
   is_Some (EbriskCalculator.build_starmap (F32:=F32) block_splitter
              oq covs num_assets sm ruptures_by_grp g))
  /\ forall r,
       EbriskCalculator.build_starmap (F32:=F32) block_splitter
         oq covs num_assets sm ruptures_by_grp g = Some r ->
       StronglySorted Nat.le (map ri_grp_id r.1.1)
       /\ Forall (fun ri : RiskInput F32 F64 =>
                    ri_grp_id ri ∈ sm_grp_ids sm
                    /\ ri_ruptures ri
                       ∈ block_splitter
                           (accum_get [] ruptures_by_grp (ri_grp_id ri))
                           (ruptures_per_block oq))
                 r.1.1.
Proof.
  split; [apply build_starmap_is_Some|].
  intros r Hr.
  pose proof (build_starmap_inputs oq covs num_assets sm ruptures_by_grp g r Hr)
    as Hin.
  split.
  - assert (Hfst : map ri_grp_id r.1.1 = map fst (map key_of r.1.1))
      by (by rewrite map_map).
    rewrite Hfst, Hin. apply StronglySorted_groups.
    apply StronglySorted_merge_sort; apply _.
  - apply Forall_forall. intros ri Hri.
    assert (Hk : In (key_of ri) (map key_of r.1.1)).
    { apply (in_map key_of _ ri). by apply list_elem_of_In. }
    rewrite Hin in Hk. apply in_concat in Hk as (l & Hl & Hk).
    apply in_map_iff in Hl as (grp_id & <- & Hgrp).
    apply in_map_iff in Hk as (b & [= <- <-] & Hb). split.
    + apply list_elem_of_In in Hgrp.
      by rewrite merge_sort_Permutation in Hgrp.
    + by apply list_elem_of_In.
Qed.

(** The ruptures dispatched, when the splitter cuts every list into
    consecutive blocks. *)
Lemma build_starmap_ruptures (oq : OqParam F) (covs : bool) (num_assets : nat)
    (sm : SourceModel) (ruptures_by_grp : gmap nat (list EBRupture)) (g : G)
    (r : list (RiskInput F32 F64) * StarmapAttrs * G) :
  Forall (fun grp_id =>
            concat (block_splitter (accum_get [] ruptures_by_grp grp_id)
                                   (ruptures_per_block oq))
            = accum_get [] ruptures_by_grp grp_id) (sm_grp_ids sm) ->
  EbriskCalculator.build_starmap (F32:=F32) block_splitter oq covs
    num_assets sm ruptures_by_grp g = Some r ->
  concat (map ri_ruptures r.1.1)
  = concat (map (accum_get [] ruptures_by_grp)
                (merge_sort Nat.le (sm_grp_ids sm))).
Proof.
  intros Hsplit Hr.
  pose proof (build_starmap_inputs oq covs num_assets sm ruptures_by_grp g r Hr)
    as Hin.
  assert (Hsnd : map ri_ruptures r.1.1 = map snd (map key_of r.1.1))
    by (by rewrite map_map).
  rewrite Hsnd, Hin.
  assert (Hsorted : Forall (fun grp_id =>
            concat (block_splitter (accum_get [] ruptures_by_grp grp_id)
                                   (ruptures_per_block oq))
            = accum_get [] ruptures_by_grp grp_id)
            (merge_sort Nat.le (sm_grp_ids sm))).
  { apply Forall_forall. intros x Hx. rewrite merge_sort_Permutation in Hx.
    rewrite Forall_forall in Hsplit. by apply Hsplit. }
  clear Hin Hsnd Hsplit.
  induction Hsorted as [|i ids Hi _ IH]; simpl; [done|].
  rewrite map_app, concat_app, IH. f_equal.
  rewrite map_map. simpl. rewrite map_id. exact Hi.
Qed.

(** X16. Every rupture is dispatched once. [build_starmap] returns when
    the [random_seed] fits int64 and no [EpsilonMatrix1] is to be built
    with a master seed that [numpy.random.seed] refuses. When it returns
    and the splitter cuts the ruptures of each source group of the source
    model into consecutive blocks, the ruptures of the risk inputs, one
    after the other, are the ruptures of the groups of the source model,
    group after group in increasing order of the group ids: no rupture is
    lost, repeated or moved. A group without ruptures in [ruptures_by_grp]
    contributes none. *)
Theorem build_starmap_covers_ruptures (oq : OqParam F) (covs : bool)
    (num_assets : nat) (sm : SourceModel)
    (ruptures_by_grp : gmap nat (list EBRupture)) (g : G) :
  Forall (fun grp_id =>
            concat (block_splitter (accum_get [] ruptures_by_grp grp_id)
                                   (ruptures_per_block oq))
            = accum_get [] ruptures_by_grp grp_id) (sm_grp_ids sm) ->
  ((- 2 ^ 63 <= random_seed oq < 2 ^ 63)%Z ->
   ignore_covs oq || negb covs = true \/ asset_correlation oq = false
   \/ valid_seed (master_seed oq) ->
   is_Some (EbriskCalculator.build_starmap (F32:=F32) block_splitter
              oq covs num_assets sm ruptures_by_grp g))
  /\ forall r,
       EbriskCalculator.build_starmap (F32:=F32) block_splitter oq covs
         num_assets sm ruptures_by_grp g = Some r ->
       concat (map ri_ruptures r.1.1)
       = concat (map (accum_get [] ruptures_by_grp)
                     (merge_sort Nat.le (sm_grp_ids sm)))
       /\ EbriskCalculator.count_events (concat (map ri_ruptures r.1.1))
          = sum_list (map (fun grp_id =>
                             EbriskCalculator.count_events
                               (accum_get [] ruptures_by_grp grp_id))
                          (sm_grp_ids sm)).
Proof.
  intros Hsplit. split; [apply build_starmap_is_Some|].
  intros r Hr.
  rewrite (build_starmap_ruptures _ _ _ _ _ _ _ Hsplit Hr). split; [done|].
  rewrite count_events_concat, map_map.
  apply sum_list_Permutation. change (map ?f ?l) with (f <$> l).
  by rewrite merge_sort_Permutation.
Qed.

(** ** The global generator *)

(** X17. The global generator of numpy and the risk inputs.
    [build_starmap] returns when the [random_seed] fits int64 and no
    [EpsilonMatrix1] is to be built with a master seed that
    [numpy.random.seed] refuses. When it returns: without asset
    correlation, or without coefficients of variation, it leaves the state
    of the global generator as it found it: an [EpsilonMatrix0] draws
    nothing before its first read. With asset correlation every block
    builds an [EpsilonMatrix1], which seeds the generator with the master
    seed and draws one sample per event: if a risk input is built at all,
    the master seed is one that [numpy.random.seed] accepts and the
    generator is left in the state after that draw, whatever its state
    was. *)
Theorem build_starmap_generator (oq : OqParam F) (covs : bool)
    (num_assets : nat) (sm : SourceModel)
    (ruptures_by_grp : gmap nat (list EBRupture)) (g : G) :
  ((- 2 ^ 63 <= random_seed oq < 2 ^ 63)%Z ->
   ignore_covs oq || negb covs = true \/ asset_correlation oq = false
   \/ valid_seed (master_seed oq) ->
   is_Some (EbriskCalculator.build_starmap (F32:=F32) block_splitter
              oq covs num_assets sm ruptures_by_grp g))
  /\ forall r,
       EbriskCalculator.build_starmap (F32:=F32) block_splitter oq covs
         num_assets sm ruptures_by_grp g = Some r ->
       (ignore_covs oq || negb covs || negb (asset_correlation oq) = true ->
        r.2 = g)
       /\ (ignore_covs oq || negb covs || negb (asset_correlation oq) = false ->
           r.1.1 <> [] ->
           exists gs,
             np_seed (master_seed oq) = Some gs
             /\ r.2 = (np_normal (num_events r.1.2) gs).2).
Proof.
  split; [apply build_starmap_is_Some|].
  intros r. unfold EbriskCalculator.build_starmap.
  set (n_all := sum_list _).
  destruct (seed_array _ n_all) as [seeds|]; simpl; [|done].
  set (after := fun g' : G =>
                  exists gs, np_seed (master_seed oq) = Some gs
                             /\ g' = (np_normal n_all gs).2).
  assert (Hstep : forall grp_id st rupts st',
            EbriskCalculator.starmap_block (F32:=F32) oq covs
              num_assets n_all seeds grp_id st rupts = Some st' ->
            (ignore_covs oq || negb covs || negb (asset_correlation oq) = true
             -> st'.1.2 = st.1.2)
            /\ (ignore_covs oq || negb covs || negb (asset_correlation oq)
                = false -> after st'.1.2)
            /\ st'.2 <> []).
  { intros grp_id [[start g0] allargs] rupts st'.
    unfold EbriskCalculator.starmap_block.
    destruct (ignore_covs oq || negb covs); simpl.
    { intros [= <-]. split_and!; [done|done|]. by destruct allargs. }
    destruct (asset_correlation oq); simpl.
    - pose proof (init1_spec n_all (master_seed oq) g0) as Hinit.
      destruct (np_seed (master_seed oq)) as [gs|] eqn:Hgs;
        rewrite Hinit; simpl; [|done].
      intros [= <-]. simpl.
      split_and!; [done|intros _; by exists gs|]. by destruct allargs.
    - intros [= <-]. split_and!; [done|done|]. by destruct allargs. }
  set (Inv := fun (st0 st : nat * G * list (RiskInput F32 F64)) =>
                (ignore_covs oq || negb covs || negb (asset_correlation oq)
                 = true -> st.1.2 = st0.1.2)
                /\ (ignore_covs oq || negb covs || negb (asset_correlation oq)
                    = false -> st.2 <> [] -> after st.1.2)).
  assert (Hblocks : forall grp_id blocks st0 st st',
            Inv st0 st ->
            foldM (EbriskCalculator.starmap_block (F32:=F32) oq covs
                     num_assets n_all seeds grp_id) st blocks = Some st' ->
            Inv st0 st').
  { intros grp_id blocks st0 st st' Hst Hfold.
    pattern st'. eapply foldM_invariant; [|exact Hst|exact Hfold]. cbv beta.
    clear st st' Hst Hfold. intros st b st' [H1 H2] Hb.
    destruct (Hstep grp_id st b st' Hb) as (S1 & S2 & S3). split.
    - intros Hc. rewrite (S1 Hc). by apply H1.
    - intros Hc _. by apply S2. }
  assert (Hgroups : forall ids st0 st st',
            Inv st0 st ->
            foldM (EbriskCalculator.starmap_group block_splitter oq
                     covs num_assets ruptures_by_grp n_all seeds)
                  st ids = Some st' ->
            Inv st0 st').
  { intros ids st0 st st' Hst Hfold.
    pattern st'. eapply foldM_invariant; [|exact Hst|exact Hfold]. cbv beta.
    clear st st' Hst Hfold. intros st i st' Hst Hg.
    unfold EbriskCalculator.starmap_group in Hg. by eapply Hblocks. }
  destruct (foldM _ (0, g, []) _) as [[[start g'] allargs]|] eqn:Hfold;
    simpl; [|done].
  intros [= <-]. simpl.
  destruct (Hgroups _ (0, g, []) _ _ (conj (fun _ => eq_refl)
                                            (fun _ Hne => False_ind _ (Hne eq_refl)))
              Hfold) as [H1 H2].
  simpl in *. split; [exact H1|].
  intros Hc Hne. by apply H2.
Qed.
(** ** The seeds of a risk input *)

(** X18. One seed per event. Without asset correlation and with
    coefficients of variation, [build_starmap] returns when the
    [random_seed] fits int64; when it returns, the groups of the source
    model have distinct ids and the splitter cuts the ruptures of each
    group into consecutive blocks, every risk input gets an
    [EpsilonMatrix0] for the assets of the collection with exactly as many
    seeds as its ruptures have events: the slices
    [seeds[start: start + n_events]] never run past the end of the seed
    array. *)
Theorem risk_inputs_one_seed_per_event (oq : OqParam F) (covs : bool)
    (num_assets : nat) (sm : SourceModel)
    (ruptures_by_grp : gmap nat (list EBRupture)) (g : G) :
  ignore_covs oq = false -> covs = true -> asset_correlation oq = false ->
  NoDup (sm_grp_ids sm) ->
  Forall (fun grp_id =>
            concat (block_splitter (accum_get [] ruptures_by_grp grp_id)
                                   (ruptures_per_block oq))
            = accum_get [] ruptures_by_grp grp_id) (sm_grp_ids sm) ->
  ((- 2 ^ 63 <= random_seed oq < 2 ^ 63)%Z ->
   is_Some (EbriskCalculator.build_starmap (F32:=F32) block_splitter
              oq covs num_assets sm ruptures_by_grp g))
  /\ forall r,
       EbriskCalculator.build_starmap (F32:=F32) block_splitter oq covs
         num_assets sm ruptures_by_grp g = Some r ->
       Forall (fun ri : RiskInput F32 F64 =>
                 exists e, ri_eps ri = Eps0 e
                           /\ EpsilonMatrix0.num_assets e = num_assets
                           /\ length (EpsilonMatrix0.seeds e)
                              = EbriskCalculator.count_events (ri_ruptures ri))
              r.1.1.
Proof.
  intros Hign Hcovs Hcorr Hnd Hsplit.
  split; [intros Hseed; apply build_starmap_is_Some; [done|by right; left]|].
  intros r Hb.
  pose proof (build_starmap_ruptures oq covs num_assets sm ruptures_by_grp g r
                Hsplit Hb) as Hr.
  unfold EbriskCalculator.build_starmap in Hb.
  set (n_all := sum_list _) in *.
  destruct (seed_array _ n_all) as [seeds|] eqn:Hseeds; simpl in Hb; [|done].
  set (ok := fun ri : RiskInput F32 F64 =>
               exists e, ri_eps ri = Eps0 e
                         /\ EpsilonMatrix0.num_assets e = num_assets
                         /\ length (EpsilonMatrix0.seeds e)
                            = EbriskCalculator.count_events (ri_ruptures ri)).
  set (Inv := fun st : nat * G * list (RiskInput F32 F64) =>
                st.1.1 = EbriskCalculator.count_events
                           (concat (map ri_ruptures st.2))
                /\ (st.1.1 <= length seeds -> Forall ok st.2)).
  destruct (foldM _ (0, g, []) _) as [[[start g'] allargs]|] eqn:Hfold;
    simpl in Hb; [|done].
  injection Hb as <-. simpl in *.
  assert (HInv : Inv (start, g', allargs)).
  { eapply foldM_invariant; [| |exact Hfold]; [|by split].
    intros st grp_id st' Hst. unfold EbriskCalculator.starmap_group.
    apply foldM_invariant; [|done].
    clear st st' Hst. intros [[start0 g0] allargs0] rupts st' [Hstart Hok].
    unfold EbriskCalculator.starmap_block. rewrite Hign, Hcovs, Hcorr.
    simpl. intros [= <-].
    unfold Inv. simpl in *. split.
    - rewrite map_app, concat_app. simpl. rewrite app_nil_r.
      unfold EbriskCalculator.count_events in *.
      rewrite map_app, sum_list_with_app. lia.
    - intros Hle. apply Forall_app. split; [apply Hok; lia|].
      constructor; [|constructor]. eexists. split; [reflexivity|].
      split; [reflexivity|]. simpl.
      rewrite length_take, length_drop. lia. }
  destruct HInv as [Hstart Hok]. simpl in Hstart, Hok. apply Hok.
  rewrite Hstart, Hr, count_events_concat, map_map.
  apply seed_array_Some in Hseeds as [_ ->].
  rewrite length_map, length_seq.
  etrans; [|apply (sum_over_keys_le EbriskCalculator.count_events
                     (merge_sort Nat.le (sm_grp_ids sm)) ruptures_by_grp);
            [done|by rewrite merge_sort_Permutation]].
  done.
Qed.
End DistributorMore.

(** ** The number of events of a run *)

Lemma sum_list_constant {A : Type} (f : A -> nat) (c : nat) (l : list A) :
  Forall (fun x => f x = c) l -> sum_list (map f l) = length l * c.
Proof. induction 1 as [|x l Hx _ IH]; simpl; [done|]. rewrite IH, Hx. lia. Qed.

(** Sorting the ruptures of every group keeps the number of events. *)
Lemma total_events_sorted (ruptures_by_grp : gmap nat (list EBRupture)) :
  sum_list (map (fun kv => EbriskCalculator.count_events kv.2)
                (map_to_list (merge_sort serial_le <$> ruptures_by_grp)))
  = sum_list (map (fun kv => EbriskCalculator.count_events kv.2)
                  (map_to_list ruptures_by_grp)).
Proof.
  rewrite map_to_list_fmap. change (?f <$> ?l) with (map f l) at 1.
  rewrite map_map. f_equal. apply map_ext. intros [k v]. simpl.
  apply count_events_Permutation, merge_sort_Permutation.
Qed.

Section ExecuteMore.
Context {G F64 F32 : Type} `{NumpyRandom G F64}.
Context {F SC SM LM : Type} `{Arith F}.
Variable block_splitter : list EBRupture -> nat -> list (list EBRupture).
Variable run_tasks : list (RiskInput F32 F64) -> list (TaskResult F).

Lemma build_starmap_num_events (oq : OqParam F) (covs : bool)
    (num_assets : nat) (sm : SourceModel)
    (ruptures_by_grp : gmap nat (list EBRupture)) (g : G)
    (r : list (RiskInput F32 F64) * StarmapAttrs * G) :
  EbriskCalculator.build_starmap (F32:=F32) block_splitter oq covs
    num_assets sm ruptures_by_grp g = Some r ->
  num_events r.1.2
  = sum_list (map (fun kv => EbriskCalculator.count_events kv.2)
                  (map_to_list ruptures_by_grp)).
Proof.
  unfold EbriskCalculator.build_starmap.
  destruct (seed_array _ _) as [seeds|]; simpl; [|done].
  destruct (foldM _ _ _) as [[[start g'] allargs]|]; simpl; [|done].
  by intros [= <-].
Qed.

(** The results submitted: one per source model, each with the events of
    all the groups as its number of events. *)
Lemma submit_all_attrs (oq : OqParam F) (covs : bool) (num_assets : nat)
    (source_models : list SourceModel)
    (ruptures_by_grp : gmap nat (list EBRupture)) (g : G)
    (st : nat * G
          * list (list (RiskInput F32 F64) * StarmapAttrs * (nat * nat))) :
  EbriskCalculator.submit_all (F32:=F32) block_splitter oq covs
    num_assets source_models ruptures_by_grp g = Some st ->
  Forall (fun x : list (RiskInput F32 F64) * StarmapAttrs * (nat * nat) =>
            num_events x.1.2
            = sum_list (map (fun kv => EbriskCalculator.count_events kv.2)
                            (map_to_list ruptures_by_grp)))
         st.2
  /\ length st.2 = length source_models.
Proof.
  unfold EbriskCalculator.submit_all.
  assert (Hgen : forall sms n g0 acc st,
            Forall (fun x : list (RiskInput F32 F64) * StarmapAttrs
                            * (nat * nat) =>
                      num_events x.1.2
                      = sum_list (map (fun kv =>
                                         EbriskCalculator.count_events kv.2)
                                      (map_to_list ruptures_by_grp))) acc ->
            foldM (EbriskCalculator.submit_model (F32:=F32)
                     block_splitter oq covs num_assets
                     ruptures_by_grp) (n, g0, acc) sms = Some st ->
            Forall (fun x : list (RiskInput F32 F64) * StarmapAttrs
                            * (nat * nat) =>
                      num_events x.1.2
                      = sum_list (map (fun kv =>
                                         EbriskCalculator.count_events kv.2)
                                      (map_to_list ruptures_by_grp))) st.2
            /\ length st.2 = length acc + length sms).
  { intros sms. induction sms as [|sm sms IH]; intros n g0 acc st0 Hacc; simpl.
    - intros [= <-]. split; [done|simpl; lia].
    - destruct (EbriskCalculator.build_starmap _ _ _ _ _ _ g0)
        as [[[allargs attrs] g1]|] eqn:Hb; simpl; [|done].
      apply build_starmap_num_events in Hb. simpl in Hb.
      intros Hst.
      destruct (IH (n + num_rlzs attrs) g1
                   (acc ++ [(allargs, attrs, (n, n + num_rlzs attrs))]) st0)
        as [Hall Hlen]; [|exact Hst|].
      + apply Forall_app. split; [done|]. by repeat constructor.
      + split; [exact Hall|]. rewrite Hlen, length_app. simpl. lia. }
  intros Hst.
  destruct (Hgen source_models 0 g [] st) as [Hall Hlen];
    [constructor|exact Hst|].
  split; [exact Hall|exact Hlen].
Qed.

(** X19. The number of events of a run. [execute] returns, and stores in
    the attribute [num_events] of ['events'], the number of events of the
    ruptures of all the groups of [ruptures_by_grp], counted once for every
    source model: each call of [build_starmap] is given all the ruptures
    and counts them all, whatever the groups of its source model, and
    [save_results] adds up the counts of the source models. *)
Theorem execute_num_events (oq : OqParam F) (covs : bool)
    (loss_types : list string) (L : nat) (assetcol : list (Asset F))
    (source_models : list SourceModel)
    (ruptures_by_grp : gmap nat (list EBRupture))
    (self s : EbriskCalculator.t F SC SM LM) (g : G) (n : nat) :
  EbriskCalculator.execute (F32:=F32) block_splitter run_tasks oq covs
    loss_types L assetcol source_models ruptures_by_grp self g = Some (s, n) ->
  n = length source_models
      * sum_list (map (fun kv => EbriskCalculator.count_events kv.2)
                      (map_to_list ruptures_by_grp))
  /\ ds_events (EbriskCalculator.datastore s) = Some (Some n).
Proof.
  unfold EbriskCalculator.execute.
  destruct (EbriskCalculator.submit_all _ _ _ _ _ _ g)
    as [[[n_rlzs g'] submitted]|] eqn:Hsub; simpl; [|done].
  apply submit_all_attrs in Hsub as [Hall Hlen]. simpl in Hall, Hlen.
  unfold EbriskCalculator.save_results.
  destruct (foldM _ _ _) as [[s1 n1]|] eqn:Hf; simpl; [|done].
  destruct (ds_events _); simpl; [|done]. intros [= <- <-]. simpl.
  split; [|done].
  apply save_result_loop in Hf as (_ & _ & _ & -> & _). simpl.
  rewrite map_map. simpl.
  rewrite (sum_list_constant _ _ _ Hall), Hlen.
  by rewrite total_events_sorted.
Qed.
End ExecuteMore.

(** One source model with the groups 1 and 0, of two and one ruptures,
    cut into blocks of one rupture: the risk inputs of the group 0, then
    the one of the group 1. *)
Lemma build_starmap_dispatch_order_witness :
  exists r,
    EbriskCalculator.build_starmap (F32:=Binary32.f32)
      TwoModels.block_splitter TwoModels.oq_blocks true 2
      TwoModels.sm01 TwoModels.ruptures_three 7%Z = Some r
    /\ map ri_grp_id r.1.1 = [0; 0; 1]
    /\ StronglySorted Nat.le (map ri_grp_id r.1.1).
Proof.
  destruct (build_starmap_dispatch_order (F32:=Binary32.f32)
              TwoModels.block_splitter TwoModels.oq_blocks true 2
              TwoModels.sm01 TwoModels.ruptures_three 7%Z) as [Hret Hr].
  destruct Hret as [r Hret]; [by vm_compute|by right; left|].
  exists r. split; [done|]. split; [|by apply Hr].
  vm_compute in Hret. by injection Hret as <-.
Defined.

(** The same source model: the ruptures of the group 0, then those of the
    group 1; six events. *)
Lemma build_starmap_covers_ruptures_witness :
  exists r,
    EbriskCalculator.build_starmap (F32:=Binary32.f32)
      TwoModels.block_splitter TwoModels.oq_blocks true 2
      TwoModels.sm01 TwoModels.ruptures_three 7%Z = Some r
    /\ map serial (concat (map ri_ruptures r.1.1)) = [1; 2; 3]%Z
    /\ EbriskCalculator.count_events (concat (map ri_ruptures r.1.1)) = 6.
Proof.
  destruct (build_starmap_covers_ruptures (F32:=Binary32.f32)
              TwoModels.block_splitter TwoModels.oq_blocks true 2
              TwoModels.sm01 TwoModels.ruptures_three 7%Z) as [Hret Hr].
  - repeat constructor.
  - destruct Hret as [r Hret]; [by vm_compute|by right; left|].
    exists r. split; [done|].
    destruct (Hr r Hret) as [-> ->]. split; reflexivity.
Defined.

(** The same source model without and with asset correlation: the
    generator stays in the state 7, or is left in the state after the draw
    of six samples from the master seed 5. *)
Lemma build_starmap_generator_witness :
  (exists r,
     EbriskCalculator.build_starmap (F32:=Binary32.f32)
       TwoModels.block_splitter TwoModels.oq_blocks true 2
       TwoModels.sm01 TwoModels.ruptures_three 7%Z = Some r
     /\ r.2 = 7%Z)
  /\ (exists r,
        EbriskCalculator.build_starmap (F32:=Binary32.f32)
          TwoModels.block_splitter TwoModels.oq_corr true 2
          TwoModels.sm01 TwoModels.ruptures_three 7%Z = Some r
        /\ r.2 = (ToyRandom.draw 6 5%Z).2).
Proof.
  split.
  - destruct (build_starmap_generator (F32:=Binary32.f32)
                TwoModels.block_splitter TwoModels.oq_blocks true 2
                TwoModels.sm01 TwoModels.ruptures_three 7%Z) as [Hret Hr].
    destruct Hret as [r Hret]; [by vm_compute|by right; left|].
    exists r. split; [done|]. by apply (Hr r Hret).
  - destruct (build_starmap_generator (F32:=Binary32.f32)
                TwoModels.block_splitter TwoModels.oq_corr true 2
                TwoModels.sm01 TwoModels.ruptures_three 7%Z) as [Hret Hr].
    destruct Hret as [r Hret];
      [by vm_compute|right; right; unfold valid_seed; simpl; lia|].
    exists r. split; [done|].
    destruct (Hr r Hret) as [_ H2].
    destruct H2 as (gs & Hgs & ->); [reflexivity| |].
    + vm_compute in Hret. by injection Hret as <-.
    + injection Hgs as <-.
      vm_compute in Hret. by injection Hret as <-.
Defined.

(** The same source model: the blocks of 2, 1 and 3 events get 2, 1 and 3
    seeds. *)
Lemma risk_inputs_one_seed_per_event_witness :
  exists r,
    EbriskCalculator.build_starmap (F32:=Binary32.f32)
      TwoModels.block_splitter TwoModels.oq_blocks true 2
      TwoModels.sm01 TwoModels.ruptures_three 7%Z = Some r
    /\ Forall (fun ri : RiskInput Binary32.f32 Z =>
                 exists e, ri_eps ri = Eps0 e
                           /\ EpsilonMatrix0.num_assets e = 2
                           /\ length (EpsilonMatrix0.seeds e)
                              = EbriskCalculator.count_events (ri_ruptures ri))
              r.1.1.
Proof.
  destruct (risk_inputs_one_seed_per_event (F32:=Binary32.f32)
              TwoModels.block_splitter TwoModels.oq_blocks true 2
              TwoModels.sm01 TwoModels.ruptures_three 7%Z) as [Hret Hr];
    [reflexivity|reflexivity|reflexivity| |repeat constructor|].
  - by apply (bool_decide_unpack _).
  - destruct Hret as [r Hret]; [by vm_compute|].
    exists r. split; [done|]. by apply Hr.
Defined.

(** Two source models and two groups of one event each, with tasks that
    return nothing: the run counts four events. *)
Lemma execute_num_events_witness :
  exists s,
    EbriskCalculator.execute (F32:=Binary32.f32) TwoModels.block_splitter
      (fun _ => []) TwoModels.oq true Scenario.loss_types 1
      [Scenario.A1; Scenario.A2] [TwoModels.sm0; TwoModels.sm1]
      TwoModels.ruptures_by_grp Reduction.calc0 7%Z = Some (s, 4).
Proof.
  destruct (EbriskCalculator.execute (F32:=Binary32.f32)
              TwoModels.block_splitter (fun _ => []) TwoModels.oq true
              Scenario.loss_types 1 [Scenario.A1; Scenario.A2]
              [TwoModels.sm0; TwoModels.sm1] TwoModels.ruptures_by_grp
              Reduction.calc0 7%Z) as [[s n]|] eqn:Hs;
    [|by vm_compute in Hs].
  exists s. destruct (execute_num_events _ _ _ _ _ _ _ _ _ _ _ _ _ Hs)
    as [-> _].
  reflexivity.
Defined.


(** * Further properties of the epsilon sources *)

Lemma np_index_is_Some (n : nat) (i : Z) :
  is_Some (np_index n i) <-> (- Z.of_nat n <= i < Z.of_nat n)%Z.
Proof.
  unfold np_index. repeat case_decide; split; intros Hi;
    try (by eexists); try lia; by destruct Hi.
Qed.

Lemma np_index_of_nat (n i : nat) : i < n -> np_index n (Z.of_nat i) = Some i.
Proof.
  intros Hi. unfold np_index. rewrite decide_True by lia.
  by rewrite Nat2Z.id.
Qed.

Section EpsilonMore.
Context {G F64 F32 : Type} `{NumpyRandom G F64}.
Variable astype_f32 : F64 -> F32.
Variable zero32 : F32.

(** The generator after the columns of the accepted seeds [l] were drawn:
    the one left by the draw for the last seed. *)
Lemma make_eps_fold_generator (N : nat) (m0 : list (list F32)) (g : G)
    (l : list Z) :
  Forall valid_seed l ->
  match last l with
  | Some s =>
      exists gs, np_seed s = Some gs
        /\ (foldl (EpsilonMatrix0.make_eps_step astype_f32 N) (Some m0, g)
                  (enumerate l)).2 = (np_normal N gs).2
  | None =>
      (foldl (EpsilonMatrix0.make_eps_step astype_f32 N) (Some m0, g)
             (enumerate l)).2 = g
  end.
Proof.
  destruct l as [|s l _] using rev_ind; [done|].
  intros [Hl Hs]%Forall_app. rewrite Forall_singleton in Hs.
  rewrite enumerate_snoc, foldl_app, last_snoc. simpl.
  apply (make_eps_fold_is_Some astype_f32 N m0 g) in Hl as [m Hm].
  destruct (foldl _ (Some m0, g) (enumerate l)) as [om g1]. simpl in Hm.
  subst om. unfold EpsilonMatrix0.make_eps_step. simpl.
  destruct (np_seed_valid s Hs) as [gs Hgs]. rewrite Hgs.
  exists gs. split; [done|]. by destruct (np_normal N gs).
Qed.

(** The loop over seeds of which [s] is the first that is refused: it is
    left when [s] is met, with the generator as the seeds before left
    it. *)
Lemma make_eps_fold_refused (N : nat) (m0 : list (list F32)) (g : G)
    (l1 l2 : list Z) (s : Z) :
  Forall valid_seed l1 -> ~ valid_seed s ->
  foldl (EpsilonMatrix0.make_eps_step astype_f32 N) (Some m0, g)
        (enumerate (l1 ++ s :: l2))
  = (None, (foldl (EpsilonMatrix0.make_eps_step astype_f32 N) (Some m0, g)
                  (enumerate l1)).2).
Proof.
  intros Hl1 Hs. rewrite enumerate_app, foldl_app. simpl.
  apply (make_eps_fold_is_Some astype_f32 N m0 g) in Hl1 as [m Hm].
  destruct (foldl _ (Some m0, g) (enumerate l1)) as [om g1]. simpl in Hm.
  subst om. unfold EpsilonMatrix0.make_eps_step at 2. simpl.
  rewrite (np_seed_invalid s Hs). apply make_eps_fold_raised.
Qed.

(** A read of a matrix with [N] rows outside the assets raises. *)
Lemma matrix_get_asset_out (m : list (list F32)) (a e : Z) :
  np_index (length m) a = None -> matrix_get m (a, e) = None.
Proof. intros Ha. unfold matrix_get. simpl. by rewrite Ha. Qed.

(** A read of the matrix of shape (N, E) returns a value exactly at the
    indices inside the matrix. *)
Lemma matrix_get_is_Some (N E : nat) (m : list (list F32)) (a e : Z) :
  length m = N -> Forall (fun row => length row = E) m ->
  is_Some (matrix_get m (a, e))
  <-> is_Some (np_index N a) /\ is_Some (np_index E e).
Proof.
  intros Hm Hrows. unfold matrix_get. simpl. rewrite Hm.
  destruct (np_index N a) as [ka|] eqn:Ha; simpl;
    [|split; [by intros []|by intros [[] _]]].
  pose proof (np_index_lt _ _ _ Ha) as Hka.
  destruct (lookup_lt_is_Some_2 m ka) as [row Hrow]; [lia|].
  rewrite Hrow. simpl.
  assert (length row = E) as ->.
  { rewrite Forall_forall in Hrows. apply Hrows.
    apply list_elem_of_lookup. eauto. }
  destruct (np_index E e) as [ke|] eqn:He; simpl.
  - split; [by split; eexists|]. intros _. apply lookup_lt_is_Some_2.
    apply np_index_lt in He. rewrite Forall_forall in Hrows.
    rewrite (Hrows row); [done|]. apply list_elem_of_lookup. eauto.
  - split; [by intros []|by intros [_ []]].
Qed.

(** X20. The reads that return. A read of a fresh [EpsilonMatrix0] at
    (asset index, event index) returns a value exactly when every seed is
    one that [numpy.random.seed] accepts, a seed in [0, 2^32), and both
    indices are inside the matrix, counting from the end when negative; it
    raises otherwise. An [EpsilonMatrix1] is built exactly when its seed is
    accepted; a read of it looks at the event index alone: it returns a
    value exactly when the event index is inside the vector, and the same
    value for every asset index, also one that no asset has. *)
Theorem epsilon_index_bounds (N : nat) (seeds : list Z) (n_events : nat)
    (seed : Z) (a a' e : Z) (g : G) :
  (is_Some (EpsilonMatrix0.getitem astype_f32 zero32
              (EpsilonMatrix0.init N seeds) (a, e) g).1.1
   <-> Forall valid_seed seeds
       /\ (- Z.of_nat N <= a < Z.of_nat N)%Z
       /\ (- Z.of_nat (length seeds) <= e < Z.of_nat (length seeds))%Z)
  /\ (is_Some (EpsilonMatrix1.init n_events seed g) <-> valid_seed seed)
  /\ (forall eps1 g',
        EpsilonMatrix1.init n_events seed g = Some (eps1, g') ->
        (is_Some (EpsilonMatrix1.getitem eps1 (a, e))
         <-> (- Z.of_nat n_events <= e < Z.of_nat n_events)%Z)
        /\ EpsilonMatrix1.getitem eps1 (a, e)
           = EpsilonMatrix1.getitem eps1 (a', e)).
Proof.
  split_and!.
  - destruct (getitem_fresh astype_f32 zero32 N seeds (a, e) g) as [_ Hget].
    pose proof (make_eps_is_Some astype_f32 zero32
                  (EpsilonMatrix0.init N seeds) g) as Hsome. simpl in Hsome.
    rewrite <- !np_index_is_Some.
    destruct (EpsilonMatrix0.make_eps astype_f32 zero32 _ g).1 as [m|] eqn:Hm.
    + destruct Hget as [-> _].
      assert (Hvalid : Forall valid_seed seeds) by (apply Hsome; by eexists).
      destruct (make_eps_spec astype_f32 zero32 (EpsilonMatrix0.init N seeds) g
                  Hvalid) as (m' & Hm' & Hlen & Hrows & _).
      simpl in Hlen, Hrows. rewrite Hm in Hm'. injection Hm' as <-.
      rewrite (matrix_get_is_Some N (length seeds)) by done. tauto.
    + destruct Hget as [-> _]. split; [by intros []|].
      intros [Hvalid _]. apply Hsome in Hvalid. by destruct Hvalid.
  - pose proof (init1_spec n_events seed g) as Hinit.
    destruct (np_seed seed) as [gs|] eqn:Hgs; rewrite Hinit.
    + split; [|by eexists]. intros _. apply np_seed_range. by eexists.
    + split; [by intros []|]. intros Hs.
      apply np_seed_valid in Hs as [gs Hs]. congruence.
  - intros eps1 g' Hinit. split; [|done].
    pose proof (init1_spec n_events seed g) as Hspec.
    destruct (np_seed seed) as [gs|]; rewrite Hspec in Hinit; [|done].
    injection Hinit as <- <-.
    unfold EpsilonMatrix1.getitem. simpl.
    pose proof (np_normal_length n_events gs) as Hlen. rewrite Hlen.
    rewrite <- np_index_is_Some.
    destruct (np_index n_events e) as [ke|] eqn:He; simpl.
    + split; [by eexists|]. intros _. apply lookup_lt_is_Some_2.
      apply np_index_lt in He. lia.
    + done.
Qed.

(** X21. Equal seeds give equal epsilons. In an [EpsilonMatrix0] whose
    seeds are all seeds that [numpy.random.seed] accepts, the epsilon of
    an asset for an event depends on the number of assets and on the seed
    of the event alone: it is the sample of the asset drawn after seeding
    with that seed. So two events with the same seed, in one matrix or in
    two matrices for the same number of assets, have the same epsilons,
    whatever the positions of the events, the other seeds and the states
    of the global generator. *)
Theorem epsilon0_equal_seeds (N : nat) (seeds1 seeds2 : list Z) (a : Z)
    (i j : nat) (s : Z) (g1 g2 : G) :
  Forall valid_seed seeds1 -> Forall valid_seed seeds2 ->
  seeds1 !! i = Some s -> seeds2 !! j = Some s ->
  exists gs,
    np_seed s = Some gs
    /\ (EpsilonMatrix0.getitem astype_f32 zero32
          (EpsilonMatrix0.init N seeds1) (a, Z.of_nat i) g1).1.1
       = (ka ← np_index N a; astype_f32 <$> (np_normal N gs).1 !! ka)
    /\ (EpsilonMatrix0.getitem astype_f32 zero32
          (EpsilonMatrix0.init N seeds2) (a, Z.of_nat j) g2).1.1
       = (EpsilonMatrix0.getitem astype_f32 zero32
            (EpsilonMatrix0.init N seeds1) (a, Z.of_nat i) g1).1.1.
Proof.
  intros Hv1 Hv2 Hi Hj.
  assert (Hread : forall seeds k g,
            Forall valid_seed seeds -> seeds !! k = Some s ->
            exists gs,
              np_seed s = Some gs
              /\ (EpsilonMatrix0.getitem astype_f32 zero32
                    (EpsilonMatrix0.init N seeds) (a, Z.of_nat k) g).1.1
                 = (ka ← np_index N a;
                    astype_f32 <$> (np_normal N gs).1 !! ka)).
  { intros seeds k g Hv Hk.
    destruct (np_seed_valid s) as [gs Hgs].
    { rewrite Forall_forall in Hv. apply Hv. apply list_elem_of_lookup. eauto. }
    exists gs. split; [done|].
    destruct (getitem_fresh astype_f32 zero32 N seeds (a, Z.of_nat k) g)
      as [_ Hget].
    pose proof (np_index_of_nat _ _ (lookup_lt_Some _ _ _ Hk)) as Hek.
    destruct (np_index N a) as [ka|] eqn:Ha; simpl.
    - destruct (make_eps_entry astype_f32 zero32 N seeds a _ ka k g Hv Ha Hek)
        as (s' & gs' & x & m & Hs' & Hgs' & Hx & Hm & Hv').
      rewrite Hm in Hget. destruct Hget as [-> _].
      assert (s' = s) as -> by congruence.
      assert (gs' = gs) as -> by congruence.
      by rewrite Hv', Hx.
    - destruct (make_eps_spec astype_f32 zero32 (EpsilonMatrix0.init N seeds) g
                  Hv) as (m & Hm & Hlen & _). simpl in Hlen.
      rewrite Hm in Hget. destruct Hget as [-> _].
      apply matrix_get_asset_out. by rewrite Hlen. }
  destruct (Hread seeds1 i g1 Hv1 Hi) as (gs & Hgs & H1).
  destruct (Hread seeds2 j g2 Hv2 Hj) as (gs' & Hgs' & H2).
  assert (gs' = gs) as -> by congruence.
  exists gs. split_and!; [done|done|congruence].
Qed.

(** X22. What the reads do to the global generator. The first read of an
    [EpsilonMatrix0] builds the whole matrix, also when the index read is
    out of range. When every seed is accepted by [numpy.random.seed], it
    leaves the global generator in the state reached by seeding it with
    the last seed and drawing one sample per asset (as it was, when there
    are no seeds), and the matrix is kept: a later read of the object does
    not touch the generator. When a seed is refused the read raises, the
    generator is left as the seeds before the first refused one left it,
    and nothing is kept: a later read builds the matrix again. The
    construction of an [EpsilonMatrix1] leaves the generator in the state
    reached by seeding it with the seed and drawing one sample per
    event. *)
Theorem epsilon_generator_after (N : nat) (seeds : list Z) (n_events : nat)
    (seed : Z) (item item2 : Z * Z) (g g2 : G) :
  let first := EpsilonMatrix0.getitem astype_f32 zero32
                 (EpsilonMatrix0.init N seeds) item g in
  let second := EpsilonMatrix0.getitem astype_f32 zero32 first.1.2 item2 g2 in
  (Forall valid_seed seeds ->
   match last seeds with
   | Some s => exists gs, np_seed s = Some gs /\ first.2 = (np_normal N gs).2
   | None => first.2 = g
   end
   /\ is_Some (EpsilonMatrix0.eps first.1.2)
   /\ second.2 = g2
   /\ second.1.2 = first.1.2)
  /\ (forall l1 s l2,
        seeds = l1 ++ s :: l2 -> Forall valid_seed l1 -> ~ valid_seed s ->
        first.1.1 = None
        /\ first.1.2 = EpsilonMatrix0.init N seeds
        /\ match last l1 with
           | Some s1 =>
               exists gs, np_seed s1 = Some gs /\ first.2 = (np_normal N gs).2
           | None => first.2 = g
           end
        /\ second = EpsilonMatrix0.getitem astype_f32 zero32
                      (EpsilonMatrix0.init N seeds) item2 g2)
  /\ (forall eps1 g',
        EpsilonMatrix1.init n_events seed g = Some (eps1, g') ->
        exists gs, np_seed seed = Some gs /\ g' = (np_normal n_events gs).2).
Proof.
  cbv zeta.
  destruct (getitem_fresh astype_f32 zero32 N seeds item g) as [Hgen Hget].
  split_and!.
  - intros Hvalid.
    destruct (make_eps_spec astype_f32 zero32 (EpsilonMatrix0.init N seeds) g
                Hvalid) as (m & Hm & _).
    rewrite Hm in Hget. destruct Hget as [_ Hself]. rewrite Hself, Hgen.
    split_and!; [|by eexists|done|done].
    apply (make_eps_fold_generator N
             (replicate N (replicate (length seeds) zero32)) g seeds Hvalid).
  - intros l1 s l2 -> Hl1 Hs.
    pose proof (make_eps_fold_refused N
                  (replicate N (replicate (length (l1 ++ s :: l2)) zero32))
                  g l1 l2 s Hl1 Hs) as Hfold.
    pose proof (make_eps_fold_generator N
                  (replicate N (replicate (length (l1 ++ s :: l2)) zero32))
                  g l1 Hl1) as Hg1.
    unfold EpsilonMatrix0.make_eps in Hgen, Hget. simpl in Hgen, Hget.
    rewrite Hfold in Hgen, Hget. simpl in Hgen, Hget.
    destruct Hget as [Hv Hself]. rewrite Hself, Hgen.
    split_and!; [done|done| |done].
    destruct (last l1); [|done].
    destruct Hg1 as (gs & Hgs & Hg1). by exists gs.
  - intros eps1 g' Hinit.
    pose proof (init1_spec n_events seed g) as Hspec.
    destruct (np_seed seed) as [gs|]; rewrite Hspec in Hinit; [|done].
    injection Hinit as <- <-. by exists gs.
Qed.
End EpsilonMore.

(** Two assets and the seeds 42, 43, 44: the reads inside the matrix
    return, from the front and from the end; three events and the seed 5
    for the correlated source. *)
Lemma epsilon_index_bounds_witness :
  is_Some (EpsilonMatrix0.getitem Binary32.of_Z Binary32.zero
             (EpsilonMatrix0.init 2 [42; 43; 44]%Z) (-2, 2)%Z 7%Z).1.1
  /\ exists eps1 g',
       EpsilonMatrix1.init 3 5%Z 7%Z = Some (eps1, g')
       /\ is_Some (EpsilonMatrix1.getitem eps1 (9, -3)%Z).
Proof.
  destruct (epsilon_index_bounds Binary32.of_Z Binary32.zero 2 [42; 43; 44]%Z
              3 5%Z (-2)%Z 9%Z 2%Z 7%Z) as (H0 & _ & _).
  split.
  - apply H0. split; [repeat constructor; unfold valid_seed; lia|simpl; lia].
  - destruct (epsilon_index_bounds Binary32.of_Z Binary32.zero 2 [42]%Z
                3 5%Z 9%Z 9%Z (-3)%Z 7%Z) as (_ & Hinit & Hread).
    destruct Hinit as [_ Hinit].
    destruct Hinit as [[eps1 g'] Hinit]; [unfold valid_seed; lia|].
    exists eps1, g'. split; [done|].
    apply (Hread eps1 g' Hinit). lia.
Defined.

(** The seed 43 at the position 1 of one matrix and at the position 0 of
    another. *)
Lemma epsilon0_equal_seeds_witness :
  (EpsilonMatrix0.getitem Binary32.of_Z Binary32.zero
     (EpsilonMatrix0.init 2 [43; 50]%Z) (1, 0)%Z 9%Z).1.1
  = (EpsilonMatrix0.getitem Binary32.of_Z Binary32.zero
       (EpsilonMatrix0.init 2 [42; 43; 44]%Z) (1, 1)%Z 7%Z).1.1.
Proof.
  destruct (epsilon0_equal_seeds Binary32.of_Z Binary32.zero 2 [42; 43; 44]%Z
              [43; 50]%Z 1%Z 1 0 43%Z 7%Z 9%Z) as (gs & _ & _ & Heq);
    [repeat constructor; unfold valid_seed; lia
    |repeat constructor; unfold valid_seed; lia
    |reflexivity|reflexivity|].
  exact Heq.
Defined.

(** The seeds 43 and -1: the read raises, nothing is kept, and the
    generator is left in the state after the draw for the seed 43. *)
Lemma epsilon_generator_after_witness :
  EpsilonMatrix0.getitem Binary32.of_Z Binary32.zero
    (EpsilonMatrix0.init 2 [43; -1]%Z) (0, 0)%Z 7%Z
  = (None, EpsilonMatrix0.init 2 [43; -1]%Z, (ToyRandom.draw 2 43%Z).2).
Proof.
  destruct (epsilon_generator_after Binary32.of_Z Binary32.zero 2 [43; -1]%Z
              3 5%Z (0, 0)%Z (0, 0)%Z 7%Z 9%Z) as (_ & Hraise & _).
  destruct (Hraise [43%Z] (-1)%Z []) as (Hv & Hself & Hgen & _);
    [reflexivity|repeat constructor; unfold valid_seed; lia
    |unfold valid_seed; lia|].
  simpl in Hgen. destruct Hgen as (gs & [= <-] & Hgen).
  apply injective_projections; [apply injective_projections|]; done.
Defined.


(** * Further properties of the post-calculator *)

Section AggCurveMore.
Context {F : Type} `{Arith F}.
Variable event_based : list F -> F -> nat -> option (list F * list F).
Variable average_loss : list F * list F -> option F.

(** Equations between keys and disjunctions of them. *)
Local Ltac curve_key :=
  repeat match goal with
         | H : _ \/ _ |- _ => destruct H as [H|H]
         | H : _ /\ _ |- _ => destruct H
         | H : (_, _, _) = (_, _, _) |- _ => injection H as <- <- <-
         | H : False |- _ => destruct H
         end;
  subst; auto 12.

(** The keys one triple adds to the dictionary. *)
Lemma build_agg_curve_item_keys (insured : bool) (ratio : F) (C : nat)
    (result0 result1 : gmap (nat * nat * string) (curve_value F))
    (l' r' : nat) (data : list (elt_rec F)) :
  build_agg_curve_item event_based average_loss insured ratio C result0
    (l', r', data) = Some result1 ->
  forall l r name,
    is_Some (result1 !! (l, r, name))
    <-> is_Some (result0 !! (l, r, name))
        \/ (l = l' /\ r = r' /\ data <> [] /\ name ∈ curve_names insured).
Proof.
  unfold build_agg_curve_item. intros Hitem l r name.
  destruct (length data =? 0) eqn:Hlen.
  { injection Hitem as <-. apply Nat.eqb_eq, nil_length_inv in Hlen.
    split; [by left|]. intros [?|(_ & _ & ? & _)]; done. }
  assert (data <> []) as Hdata by (by intros ->).
  destruct (loss_column 0 data); simpl in Hitem; [|done].
  destruct (event_based _ _ _) as [lp|]; simpl in Hitem; [|done].
  destruct (average_loss lp); simpl in Hitem; [|done].
  unfold curve_names. destruct insured.
  - destruct (loss_column 1 data); simpl in Hitem; [|done].
    destruct (event_based _ _ _) as [lp1|]; simpl in Hitem; [|done].
    destruct (average_loss lp1); simpl in Hitem; [|done].
    injection Hitem as <-. rewrite !lookup_insert_is_Some'.
    simpl. rewrite !elem_of_cons, elem_of_nil. split; intros Hk; curve_key.
  - injection Hitem as <-. rewrite !lookup_insert_is_Some'.
    simpl. rewrite !elem_of_cons, elem_of_nil. split; intros Hk; curve_key.
Qed.

(** The keys of the dictionary after the loop. *)
Lemma build_agg_curve_fold_keys (lr_data : list (nat * nat * list (elt_rec F)))
    (insured : bool) (ratio : F) (C : nat)
    (result0 result : gmap (nat * nat * string) (curve_value F)) :
  foldM (build_agg_curve_item event_based average_loss insured ratio C)
        result0 lr_data = Some result ->
  forall l r name,
    is_Some (result !! (l, r, name))
    <-> is_Some (result0 !! (l, r, name))
        \/ ((exists data, (l, r, data) ∈ lr_data /\ data <> [])
            /\ name ∈ curve_names insured).
Proof.
  revert result0. induction lr_data as [|[[l' r'] data] lr_data IH];
    intros result0 Hfold l r name.
  - injection Hfold as <-. split; [by left|].
    intros [?|[(data & Hin & _) _]]; [done|]. by apply elem_of_nil in Hin.
  - rewrite foldM_cons in Hfold.
    destruct (build_agg_curve_item event_based average_loss insured ratio C
                result0 (l', r', data)) as [result1|] eqn:Hitem; [|done].
    simpl in Hfold. rewrite (IH _ Hfold).
    rewrite (build_agg_curve_item_keys _ _ _ _ _ _ _ _ Hitem). split.
    + intros [[?|(-> & -> & Hdata & Hname)]|[(data' & Hin & Hdata) Hname]].
      * by left.
      * right. split; [|done]. exists data. split; [by left|done].
      * right. split; [|done]. exists data'. split; [by right|done].
    + intros [?|[(data' & Hin & Hdata) Hname]]; [by left; left|].
      apply elem_of_cons in Hin as [[= -> -> ->]|Hin].
      * left. by right.
      * right. split; [|done]. by exists data'.
Qed.

(** X23. The keys of the dictionary of [build_agg_curve]. The dictionary
    returned has values for the pairs (loss type, realization) that have
    a triple with data, and for these alone; for such a pair it has the
    three names [losses], [poes] and [avg], with insured losses also
    [losses_ins], [poes_ins] and [avg_ins], and no other name. *)
Theorem build_agg_curve_names (lr_data : list (nat * nat * list (elt_rec F)))
    (insured : bool) (ratio : F) (C : nat)
    (result : gmap (nat * nat * string) (curve_value F)) (l r : nat)
    (name : string) :
  build_agg_curve event_based average_loss lr_data insured ratio C
    = Some result ->
  (is_Some (result !! (l, r, name))
   <-> (exists data, (l, r, data) ∈ lr_data /\ data <> [])
       /\ name ∈ curve_names insured)
  /\ (insured = false ->
      result !! (l, r, "losses_ins") = None
      /\ result !! (l, r, "poes_ins") = None
      /\ result !! (l, r, "avg_ins") = None).
Proof.
  unfold build_agg_curve. intros Hres.
  pose proof (build_agg_curve_fold_keys _ _ _ _ _ _ Hres) as Hkeys.
  split.
  - rewrite Hkeys, lookup_empty. split; [|by right].
    intros [Hno|?]; [by destruct Hno|done].
  - intros ->. split_and!; apply eq_None_not_Some; rewrite Hkeys, lookup_empty;
      intros [Hno|[_ Hname]]; try (by destruct Hno);
      unfold curve_names in Hname; simpl in Hname;
      rewrite !elem_of_cons, elem_of_nil in Hname; intuition discriminate.
Qed.
End AggCurveMore.

Section PostCalculatorMore.
Context {F SC SM LM : Type} `{Arith F}.
Variable group_array : list (ela_rec F) -> gmap nat (list (ela_rec F)).
Variable event_based : list F -> F -> nat -> option (list F * list F).
Variable average_loss : list F * list F -> option F.
Variable get_curves_maps : gmap string (list (StatOutput F)) -> option (SC * SM).
Local Abbreviation DS := (Datastore F SC SM LM).

(** *** What each step writes *)

Lemma save_rcurves_writes (oq : OqParam F) (rm : RiskModel F LM)
    (assets : list (Asset F))
    (rcurves : gmap string (list (list (list (list F))))) (I : nat)
    (ds ds' : DS) :
  EbrPostCalculator.save_rcurves group_array oq rm assets rcurves I ds
    = Some ds' ->
  has_group (ds_ass_loss_ratios ds) = true
  /\ exists rcurves', ds' = set_rcurves (Some rcurves') ds.
Proof.
  unfold EbrPostCalculator.save_rcurves. intros Hs.
  destruct (has_group (ds_ass_loss_ratios ds)); [|done].
  destruct (foldM _ rcurves _) as [rcurves'|]; simpl in Hs; [|done].
  injection Hs as <-. eauto.
Qed.

Lemma save_loss_maps_writes (oq : OqParam F) (rm : RiskModel F LM)
    (assets : list (Asset F)) (R : nat) (ds ds' : DS) :
  EbrPostCalculator.save_loss_maps oq rm assets R ds = Some ds' ->
  ds' = ds \/ exists loss_maps, ds' = set_loss_maps (Some loss_maps) ds.
Proof.
  unfold EbrPostCalculator.save_loss_maps. intros Hs.
  destruct (conditional_loss_poes oq), (ds_rcurves ds) as [rcurves|];
    try (injection Hs as <-; by left).
  destruct (foldM _ ∅ _) as [loss_maps|]; simpl in Hs; [|done].
  injection Hs as <-. eauto.
Qed.

Lemma build_agg_curve_writes (oq : OqParam F) (rm : RiskModel F LM) (R : nat)
    (ds ds' : DS) :
  EbrPostCalculator.build_agg_curve event_based average_loss oq rm R ds
    = Some ds' ->
  exists agg_curve, ds' = set_agg_curve (Some agg_curve) ds.
Proof.
  unfold EbrPostCalculator.build_agg_curve. intros Hb.
  destruct (mapM _ _) as [lr_data|]; simpl in Hb; [|done].
  destruct (build_agg_curve _ _ _ _ _ _) as [result|]; simpl in Hb; [|done].
  destruct (foldM _ ∅ _) as [agg_curve|]; simpl in Hb; [|done].
  injection Hb as <-. eauto.
Qed.

Lemma compute_store_stats_writes (oq : OqParam F) (rm : RiskModel F LM)
    (assets : list (Asset F)) (rlzs : list (Realization F)) (ds ds' : DS) :
  EbrPostCalculator.compute_store_stats get_curves_maps oq rm assets rlzs ds
    = Some ds' ->
  is_Some (EbrPostCalculator._collect_all_data oq rm assets rlzs ds)
  /\ (ds' = ds
      \/ exists c m, ds' = set_stats c m ds
                     /\ (conditional_loss_poes oq = false
                         -> m = ds_loss_maps_stats ds)).
Proof.
  unfold EbrPostCalculator.compute_store_stats. intros Hc.
  destruct (EbrPostCalculator._collect_all_data _ _ _ _ _) as [data|];
    simpl in Hc; [|done].
  split; [by eexists|].
  case_bool_decide; [injection Hc as <-; by left|].
  destruct (get_curves_maps data) as [cm|]; simpl in Hc; [|done].
  injection Hc as <-. right. eexists _, _. split; [done|].
  by intros ->.
Qed.

(** *** What the aggregate curves need *)

(** The method [build_agg_curve] returns when every dataset of the
    aggregate loss table is of a loss type of the risk model and, when it
    has records, of a realization below [R]. *)
Lemma build_agg_curve_needs (oq : OqParam F) (rm : RiskModel F LM) (R : nat)
    (ds ds' : DS) (r : nat) (lt : string) (data : list (elt_rec F)) :
  EbrPostCalculator.build_agg_curve event_based average_loss oq rm R ds
    = Some ds' ->
  ds_agg_loss_table ds !! (r, lt) = Some data ->
  exists l, rm_lti rm !! lt = Some l
            /\ (data <> [] -> r < R /\ is_Some (rm_loss_types rm !! l)).
Proof.
  unfold EbrPostCalculator.build_agg_curve. intros Hb Hdata.
  destruct (mapM _ _) as [lr_data|] eqn:Hm; simpl in Hb; [|done].
  destruct (build_agg_curve _ _ _ _ _ _) as [result|] eqn:Hres;
    simpl in Hb; [|done].
  destruct (foldM _ ∅ _) as [agg_curve|] eqn:Hfold; simpl in Hb; [|done].
  apply mapM_Some in Hm.
  apply elem_of_map_to_list, list_elem_of_lookup in Hdata as [i Hi].
  destruct (Forall2_lookup_l _ _ _ _ _ Hm Hi) as (y & Hy & Hfy).
  simpl in Hfy. destruct (rm_lti rm !! lt) as [l|]; simpl in Hfy; [|done].
  injection Hfy as <-. exists l. split; [done|]. intros Hne.
  assert (is_Some (result !! (l, r, "losses"))) as [v Hv].
  { unfold build_agg_curve in Hres.
    rewrite (build_agg_curve_fold_keys _ _ _ _ _ _ _ _ Hres). right. split.
    - exists data. split; [|done]. apply list_elem_of_lookup. eauto.
    - unfold curve_names. apply elem_of_app. left. apply list_elem_of_here. }
  apply elem_of_map_to_list in Hv.
  destruct (foldM_Some_in _ _ _ _ _ Hfold Hv) as (acc1 & acc2 & Hstep).
  simpl in Hstep.
  destruct (rm_loss_types rm !! l) as [lt'|]; simpl in Hstep; [|done].
  case_decide; [|done]. split; [done|by eexists].
Qed.

(** *** The outputs handed to the statistics builder *)

Lemma collect_rlz_output (oq : OqParam F) (assets : list (Asset F)) (L l : nat)
    (cb : CurveBuilder F LM) (field : list (list (list (list F))))
    (avg : option (AvgDset F)) (rlz : Realization F) (out : StatOutput F) :
  EbrPostCalculator.collect_rlz oq assets L l cb field avg rlz = Some out ->
  so_ordinal _ out = rlz_ordinal rlz
  /\ so_weight _ out = rlz_weight rlz
  /\ so_loss_type _ out = cb_loss_type cb
  /\ so_assets _ out = map ordinal assets
  /\ (is_Some (so_insured_curves _ out) <-> insured_losses oq = true)
  /\ (so_average_insured_losses _ out = None
      <-> avg_losses oq = true /\ insured_losses oq = false).
Proof.
  unfold EbrPostCalculator.collect_rlz. intros Hc.
  destruct (avg_losses oq) eqn:Havg, (insured_losses oq) eqn:Hins;
    simpl in Hc;
    repeat match type of Hc with
           | context [?x ≫= _] =>
               lazymatch x with
               | _ ≫= _ => fail
               | _ => destruct x eqn:?; simpl in Hc; [|done]
               end
           end;
    injection Hc as <-; simpl; split_and!; try done;
    split; intros Hx; first [done | by eexists | by destruct Hx].
Qed.

Lemma collect_rlz_zeros (oq : OqParam F) (assets : list (Asset F)) (L l : nat)
    (cb : CurveBuilder F LM) (field : list (list (list (list F))))
    (avg : option (AvgDset F)) (rlz : Realization F) (out : StatOutput F) :
  avg_losses oq = false ->
  EbrPostCalculator.collect_rlz oq assets L l cb field avg rlz = Some out ->
  so_average_losses _ out = replicate (length assets) fzero
  /\ so_average_insured_losses _ out = Some (replicate (length assets) fzero).
Proof.
  unfold EbrPostCalculator.collect_rlz. intros -> Hout. simpl in Hout.
  destruct (EbrPostCalculator.rcurves_column field _ 0); simpl in Hout;
    [|done].
  destruct (insured_losses oq); simpl in Hout.
  - destruct (EbrPostCalculator.rcurves_column field _ 1); simpl in Hout;
      [|done].
    by injection Hout as <-.
  - by injection Hout as <-.
Qed.

Lemma collect_rlzs_outputs (oq : OqParam F) (assets : list (Asset F))
    (L l : nat) (cb : CurveBuilder F LM)
    (field : list (list (list (list F)))) (avg : option (AvgDset F))
    (rlzs : list (Realization F)) (data : list (StatOutput F)) :
  mapM (EbrPostCalculator.collect_rlz oq assets L l cb field avg) rlzs
    = Some data ->
  map (so_ordinal _) data = map rlz_ordinal rlzs
  /\ map (so_weight _) data = map rlz_weight rlzs
  /\ Forall (fun out =>
               so_loss_type _ out = cb_loss_type cb
               /\ so_assets _ out = map ordinal assets
               /\ (is_Some (so_insured_curves _ out)
                   <-> insured_losses oq = true)
               /\ (so_average_insured_losses _ out = None
                   <-> avg_losses oq = true /\ insured_losses oq = false))
            data.
Proof.
  intros Hm. apply mapM_Some in Hm.
  induction Hm as [|rlz out rlzs data Hout _ (IH1 & IH2 & IH3)]; [done|].
  apply collect_rlz_output in Hout as (Ho & Hw & Hrest).
  simpl. rewrite Ho, Hw, IH1, IH2.
  split_and!; [done|done|constructor; [exact Hrest|exact IH3]].
Qed.

(** X24. The outputs of [_collect_all_data]. When it returns, the
    dictionary has one key per loss type of the curve builders; under each
    key there is one output per realization, in the order of the
    realizations, with the ordinal and the weight of its realization, the
    loss type of the key and the ordinals of all the assets. The insured
    curves of an output are there when insured losses are asked for; its
    average insured losses are [None] when the average losses are asked
    for and the insured losses are not, and zeros when the average losses
    are not asked for. *)
Theorem _collect_all_data_outputs (oq : OqParam F) (rm : RiskModel F LM)
    (assets : list (Asset F)) (rlzs : list (Realization F)) (ds : DS)
    (data_by_lt : gmap string (list (StatOutput F))) :
  EbrPostCalculator._collect_all_data oq rm assets rlzs ds = Some data_by_lt ->
  (forall lt, is_Some (data_by_lt !! lt)
              <-> lt ∈ map cb_loss_type (rm_curve_builders rm))
  /\ (forall lt data, data_by_lt !! lt = Some data ->
        map (so_ordinal _) data = map rlz_ordinal rlzs
        /\ map (so_weight _) data = map rlz_weight rlzs
        /\ Forall (fun out =>
                     so_loss_type _ out = lt
                     /\ so_assets _ out = map ordinal assets
                     /\ (is_Some (so_insured_curves _ out)
                         <-> insured_losses oq = true)
                     /\ (so_average_insured_losses _ out = None
                         <-> avg_losses oq = true
                             /\ insured_losses oq = false))
                  data)
  /\ (avg_losses oq = false ->
      forall lt data, data_by_lt !! lt = Some data ->
        Forall (fun out =>
                  so_average_losses _ out = replicate (length assets) fzero
                  /\ so_average_insured_losses _ out
                     = Some (replicate (length assets) fzero)) data).
Proof.
  unfold EbrPostCalculator._collect_all_data. intros Hc.
  destruct (if avg_losses oq then _ else _) as [avg|]; simpl in Hc; [|done].
  destruct (ds_rcurves ds) as [r_curves|]; simpl in Hc; [|done].
  split_and!.
  - assert (Hgen : forall l0 (res0 res : gmap string (list (StatOutput F))),
               foldM (fun data_by_lt (lcb : nat * CurveBuilder F LM) =>
                        field ← r_curves !! cb_loss_type lcb.2;
                        data ← mapM (EbrPostCalculator.collect_rlz oq assets
                                       (size (rm_lti rm)) lcb.1 lcb.2 field avg)
                                    rlzs;
                        Some (<[cb_loss_type lcb.2 := data]> data_by_lt))
                     res0 l0 = Some res ->
               forall lt, is_Some (res !! lt)
                          <-> is_Some (res0 !! lt)
                              \/ lt ∈ map (fun lcb => cb_loss_type lcb.2) l0).
    { induction l0 as [|[l cb] l0 IH]; intros res0 res Hf lt.
      - injection Hf as <-. split; [by left|].
        intros [?|Hin]; [done|]. by apply elem_of_nil in Hin.
      - rewrite foldM_cons in Hf. simpl in Hf.
        destruct (r_curves !! cb_loss_type cb) as [field|]; simpl in Hf;
          [|done].
        destruct (mapM _ rlzs) as [data|]; simpl in Hf; [|done].
        rewrite (IH _ _ Hf), lookup_insert_is_Some'. simpl.
        rewrite elem_of_cons.
        split; [intros [[<-|?]|?]|intros [?|[->|?]]]; auto. }
    intros lt. rewrite (Hgen _ _ _ Hc lt), lookup_empty.
    assert (map (fun lcb : nat * CurveBuilder F LM => cb_loss_type lcb.2)
                (enumerate (rm_curve_builders rm))
            = map cb_loss_type (rm_curve_builders rm)) as ->.
    { unfold enumerate. rewrite <- (map_map snd cb_loss_type). f_equal.
      change (map snd ?l) with (l.*2). apply snd_zip.
      by rewrite length_seq. }
    split; [|by right]. intros [Hno|?]; [by destruct Hno|done].
  - pattern data_by_lt. eapply foldM_invariant; [| |exact Hc]; cbv beta;
      [|by intros lt data; rewrite lookup_empty].
    intros res [l cb] res' IH Hstep lt data. simpl in Hstep.
    destruct (r_curves !! cb_loss_type cb) as [field|]; simpl in Hstep;
      [|done].
    destruct (mapM _ rlzs) as [data'|] eqn:Hm; simpl in Hstep; [|done].
    injection Hstep as <-.
    destruct (decide (cb_loss_type cb = lt)) as [<-|Hne].
    + rewrite lookup_insert_eq. intros [= <-].
      by apply collect_rlzs_outputs in Hm.
    + rewrite lookup_insert_ne by done. apply IH.
  - intros Havg. pattern data_by_lt.
    eapply foldM_invariant; [| |exact Hc]; cbv beta;
      [|by intros lt data; rewrite lookup_empty].
    intros res [l cb] res' IH Hstep lt data. simpl in Hstep.
    destruct (r_curves !! cb_loss_type cb) as [field|]; simpl in Hstep;
      [|done].
    destruct (mapM _ rlzs) as [data'|] eqn:Hm; simpl in Hstep; [|done].
    injection Hstep as <-.
    destruct (decide (cb_loss_type cb = lt)) as [<-|Hne].
    + rewrite lookup_insert_eq. intros [= <-].
      apply mapM_Some in Hm. apply Forall_forall. intros out Hout.
      apply list_elem_of_lookup in Hout as [i Hi].
      destruct (Forall2_lookup_r _ _ _ _ _ Hm Hi) as (rlz & _ & Hrlz).
      by apply collect_rlz_zeros in Hrlz.
    + rewrite lookup_insert_ne by done. apply IH.
Qed.

(** *** The calculator as a whole *)

Lemma build_stats_writes (oq : OqParam F) (rm : RiskModel F LM)
    (assets : list (Asset F)) (rlzs : list (Realization F)) (ds ds' : DS) :
  EbrPostCalculator.build_stats event_based average_loss get_curves_maps
    oq rm assets rlzs ds = Some ds' ->
  ebrisk_outputs ds' = ebrisk_outputs ds
  /\ ds_rcurves ds' = ds_rcurves ds
  /\ ds_loss_maps ds' = ds_loss_maps ds
  /\ (conditional_loss_poes oq = false
      -> ds_loss_maps_stats ds' = ds_loss_maps_stats ds)
  /\ (if has_group (ds_agg_loss_table ds) then is_Some (ds_agg_curve ds')
      else ds_agg_curve ds' = ds_agg_curve ds)
  /\ (forall r lt data, ds_agg_loss_table ds !! (r, lt) = Some data ->
        exists l, rm_lti rm !! lt = Some l
                  /\ (data <> [] -> r < length rlzs
                                    /\ is_Some (rm_loss_types rm !! l)))
  /\ (1 < length rlzs -> is_Some (ds_rcurves ds) -> avg_losses oq = true ->
      is_Some (ds_avg_losses ds)).
Proof.
  unfold EbrPostCalculator.build_stats. intros Hb.
  destruct (if has_group (ds_agg_loss_table ds) then _ else _) as [ds1|] eqn:H1;
    simpl in Hb; [|done].
  assert (ebrisk_outputs ds1 = ebrisk_outputs ds
          /\ ds_rcurves ds1 = ds_rcurves ds
          /\ ds_loss_maps ds1 = ds_loss_maps ds
          /\ ds_loss_curves_stats ds1 = ds_loss_curves_stats ds
          /\ ds_loss_maps_stats ds1 = ds_loss_maps_stats ds
          /\ (if has_group (ds_agg_loss_table ds)
              then is_Some (ds_agg_curve ds1)
              else ds_agg_curve ds1 = ds_agg_curve ds)
          /\ (forall r lt data, ds_agg_loss_table ds !! (r, lt) = Some data ->
                exists l, rm_lti rm !! lt = Some l
                          /\ (data <> [] -> r < length rlzs
                                            /\ is_Some (rm_loss_types rm !! l))))
    as (Hout1 & Hrc1 & Hlm1 & Hcs1 & Hms1 & Hagg1 & Hneeds).
  { destruct (has_group (ds_agg_loss_table ds)) eqn:Hgrp.
    - pose proof (fun r lt data =>
                    build_agg_curve_needs _ _ _ _ _ r lt data H1) as Hneeds.
      apply build_agg_curve_writes in H1 as [agg_curve ->].
      split_and!; try done; by eexists.
    - injection H1 as <-. split_and!; try done.
      intros r lt data Hdata. unfold has_group in Hgrp.
      apply bool_decide_eq_false in Hgrp.
      assert (ds_agg_loss_table ds = ∅) as Hempty
        by (destruct (decide (ds_agg_loss_table ds = ∅)); [done|by destruct Hgrp]).
      by rewrite Hempty, lookup_empty in Hdata. }
  assert (ds' = ds1 ->
          ebrisk_outputs ds' = ebrisk_outputs ds
          /\ ds_rcurves ds' = ds_rcurves ds
          /\ ds_loss_maps ds' = ds_loss_maps ds
          /\ (conditional_loss_poes oq = false
              -> ds_loss_maps_stats ds' = ds_loss_maps_stats ds)
          /\ (if has_group (ds_agg_loss_table ds)
              then is_Some (ds_agg_curve ds')
              else ds_agg_curve ds' = ds_agg_curve ds)) as Hsame.
  { intros ->. by split_and!. }
  destruct (1 <? length rlzs) eqn:Hlen.
  - destruct (ds_rcurves ds1) as [rc|] eqn:Hrc.
    + apply compute_store_stats_writes in Hb as [Hcollect Hb].
      assert (avg_losses oq = true -> is_Some (ds_avg_losses ds)) as Havg.
      { intros Ha. unfold EbrPostCalculator._collect_all_data in Hcollect.
        rewrite Ha in Hcollect.
        assert (ds_avg_losses ds1 = ds_avg_losses ds) as Heq
          by (by injection Hout1).
        rewrite Heq in Hcollect.
        destruct (ds_avg_losses ds); [by eexists|].
        simpl in Hcollect. by destruct Hcollect. }
      destruct Hb as [->|(c & m & -> & Hm)].
      * destruct (Hsame eq_refl) as (? & ? & ? & ? & ?). by split_and!.
      * split_and!; try done.
        -- simpl. congruence.
        -- intros Hpoes. simpl. rewrite (Hm Hpoes). congruence.
    + injection Hb as <-.
      destruct (Hsame eq_refl) as (? & ? & ? & ? & ?). split_and!; try done.
      intros _ Hsome. rewrite <- Hrc1 in Hsome. by destruct Hsome.
  - injection Hb as <-.
    destruct (Hsame eq_refl) as (? & ? & ? & ? & ?). split_and!; try done.
    intros Hgt. apply Nat.ltb_ge in Hlen. lia.
Qed.

(** X25. The post-calculator adds outputs and leaves what it reads. When
    [execute] returns, the average losses, the two loss tables and their
    attributes, the number of events and the size of the ground motion
    fields are as the calculator of the losses left them. Without loss
    ratios ['rcurves-rlzs'] is not written; without conditional loss poes
    neither ['loss_maps-rlzs'] nor ['loss_maps-stats'] is written;
    ['agg_curve-rlzs'] is written when the aggregate loss table is in the
    datastore, and is left alone when it is not. *)
Theorem postcalc_keeps_inputs (oq : OqParam F) (rm : RiskModel F LM)
    (assets : list (Asset F)) (rlzs : list (Realization F)) (ds ds' : DS) :
  EbrPostCalculator.execute group_array event_based average_loss
    get_curves_maps oq rm assets rlzs ds = Some ds' ->
  ebrisk_outputs ds' = ebrisk_outputs ds
  /\ (if loss_ratios oq then is_Some (ds_rcurves ds')
      else ds_rcurves ds' = ds_rcurves ds)
  /\ (conditional_loss_poes oq = false ->
      ds_loss_maps ds' = ds_loss_maps ds
      /\ ds_loss_maps_stats ds' = ds_loss_maps_stats ds)
  /\ (if has_group (ds_agg_loss_table ds) then is_Some (ds_agg_curve ds')
      else ds_agg_curve ds' = ds_agg_curve ds).
Proof.
  unfold EbrPostCalculator.execute. intros He.
  destruct (if loss_ratios oq then _ else _) as [ds1|] eqn:H1; simpl in He;
    [|done].
  destruct (if conditional_loss_poes oq then _ else _) as [ds2|] eqn:H2;
    simpl in He; [|done].
  apply build_stats_writes in He
    as (Hout & Hrc & Hlm & Hms & Hagg & _ & _).
  assert (ebrisk_outputs ds1 = ebrisk_outputs ds
          /\ ds_loss_maps ds1 = ds_loss_maps ds
          /\ ds_loss_maps_stats ds1 = ds_loss_maps_stats ds
          /\ ds_agg_curve ds1 = ds_agg_curve ds
          /\ (if loss_ratios oq then is_Some (ds_rcurves ds1)
              else ds_rcurves ds1 = ds_rcurves ds))
    as (Hout1 & Hlm1 & Hms1 & Hac1 & Hrc1).
  { destruct (loss_ratios oq).
    - apply save_rcurves_writes in H1 as [_ [rc' ->]].
      split_and!; try done; by eexists.
    - by injection H1 as <-. }
  assert (ebrisk_outputs ds2 = ebrisk_outputs ds1
          /\ ds_rcurves ds2 = ds_rcurves ds1
          /\ ds_loss_maps_stats ds2 = ds_loss_maps_stats ds1
          /\ ds_agg_curve ds2 = ds_agg_curve ds1
          /\ (conditional_loss_poes oq = false -> ds2 = ds1))
    as (Hout2 & Hrc2 & Hms2 & Hac2 & Hlm2).
  { destruct (conditional_loss_poes oq).
    - apply save_loss_maps_writes in H2 as [->|[lm ->]]; by split_and!.
    - by injection H2 as <-. }
  assert (ds_agg_loss_table ds2 = ds_agg_loss_table ds) as Htable.
  { assert (ebrisk_outputs ds2 = ebrisk_outputs ds) as Heq by congruence.
    by injection Heq. }
  rewrite Htable, Hac2, Hac1 in Hagg. split_and!.
  - congruence.
  - rewrite Hrc, Hrc2. exact Hrc1.
  - intros Hpoes. specialize (Hlm2 Hpoes). subst ds2.
    split; [congruence|]. rewrite (Hms Hpoes). congruence.
  - exact Hagg.
Qed.

(** X26. What the post-calculator needs. [execute] returns only when:
    with loss ratios, the group ['ass_loss_ratios'] is in the datastore;
    every dataset of the aggregate loss table is of a loss type the risk
    model has an index for, also a dataset without records; every such
    dataset with records is of a realization below the number of
    realizations; and, with more than one realization, loss ratios and
    average losses, the dataset ['avg_losses-rlzs'] is in the
    datastore. Otherwise it raises. *)
Theorem postcalc_needs (oq : OqParam F) (rm : RiskModel F LM)
    (assets : list (Asset F)) (rlzs : list (Realization F)) (ds ds' : DS) :
  EbrPostCalculator.execute group_array event_based average_loss
    get_curves_maps oq rm assets rlzs ds = Some ds' ->
  (loss_ratios oq = true -> has_group (ds_ass_loss_ratios ds) = true)
  /\ (forall r lt data, ds_agg_loss_table ds !! (r, lt) = Some data ->
        exists l, rm_lti rm !! lt = Some l
                  /\ (data <> [] -> r < length rlzs
                                    /\ is_Some (rm_loss_types rm !! l)))
  /\ (1 < length rlzs -> loss_ratios oq = true -> avg_losses oq = true ->
      is_Some (ds_avg_losses ds)).
Proof.
  unfold EbrPostCalculator.execute. intros He.
  destruct (if loss_ratios oq then _ else _) as [ds1|] eqn:H1; simpl in He;
    [|done].
  destruct (if conditional_loss_poes oq then _ else _) as [ds2|] eqn:H2;
    simpl in He; [|done].
  apply build_stats_writes in He as (_ & _ & _ & _ & _ & Hneeds & Havg).
  assert (ds_avg_losses ds2 = ds_avg_losses ds1
          /\ ds_agg_loss_table ds2 = ds_agg_loss_table ds1
          /\ ds_rcurves ds2 = ds_rcurves ds1) as (Ha2 & Ht2 & Hr2).
  { destruct (conditional_loss_poes oq).
    - apply save_loss_maps_writes in H2 as [->|[lm ->]]; by split_and!.
    - by injection H2 as <-. }
  destruct (loss_ratios oq).
  - apply save_rcurves_writes in H1 as [Hgrp [rc' ->]].
    split_and!; [done| |].
    + intros r lt data Hdata. apply Hneeds. by rewrite Ht2.
    + intros Hlen _ Hal. rewrite Ha2 in Havg. apply Havg; [done| |done].
      rewrite Hr2. by eexists.
  - injection H1 as <-. split_and!; [done| |done].
    intros r lt data Hdata. apply Hneeds. by rewrite Ht2.
Qed.
End PostCalculatorMore.

(** One triple with a record, without insured losses. *)
Lemma build_agg_curve_names_witness :
  exists result,
    build_agg_curve PostExample.event_based PostExample.average_loss
      [(0, 1, [{| elt_eid := 1%Z; elt_loss := [Binary32.of_Z 60] |}])]
      false (Binary32.of_Z 1) 2 = Some result
    /\ is_Some (result !! (0, 1, "avg"))
    /\ result !! (0, 1, "avg_ins") = None.
Proof.
  eexists. split; [reflexivity|].
  destruct (build_agg_curve_names PostExample.event_based
              PostExample.average_loss
              [(0, 1, [{| elt_eid := 1%Z; elt_loss := [Binary32.of_Z 60] |}])]
              false (Binary32.of_Z 1) 2 _ 0 1 "avg" eq_refl)
    as [Hkeys Hins].
  split.
  - apply Hkeys. split.
    + eexists. split; [apply list_elem_of_here|done].
    + unfold curve_names. simpl. do 2 right. left.
  - by destruct (Hins eq_refl) as (_ & _ & ?).
Defined.

(** The curves of two realizations of one asset. *)
Lemma _collect_all_data_outputs_witness :
  exists data_by_lt,
    EbrPostCalculator._collect_all_data PostExample.oq PostExample.rm
      [Scenario.A1] PostExample.two_rlzs Growth.ds_curves = Some data_by_lt
    /\ forall lt data, data_by_lt !! lt = Some data ->
         map (so_ordinal _) data = [0; 1].
Proof.
  eexists. split; [reflexivity|].
  intros lt data Hdata.
  by destruct (_collect_all_data_outputs PostExample.oq PostExample.rm
                 [Scenario.A1] PostExample.two_rlzs Growth.ds_curves _ eq_refl)
    as (_ & Hout & _); destruct (Hout lt data Hdata) as (-> & _).
Defined.

(** The post-calculation of the example with its two realizations. *)
Lemma postcalc_keeps_inputs_witness :
  exists ds',
    EbrPostCalculator.execute PostExample.group_array PostExample.event_based
      PostExample.average_loss PostExample.get_curves_maps PostExample.oq
      PostExample.rm [Scenario.A1] PostExample.two_rlzs PostExample.ds
    = Some ds'
    /\ ds_ass_loss_ratios ds' = ds_ass_loss_ratios PostExample.ds
    /\ ds_agg_curve ds' = None.
Proof.
  eexists. split; [reflexivity|].
  destruct (postcalc_keeps_inputs PostExample.group_array
              PostExample.event_based PostExample.average_loss
              PostExample.get_curves_maps PostExample.oq PostExample.rm
              [Scenario.A1] PostExample.two_rlzs PostExample.ds _ eq_refl)
    as (Hout & _ & _ & Hagg).
  split; [exact (f_equal (fun t => t.1.1.1.1.2) Hout)|exact Hagg].
Defined.

(** The same post-calculation on the datastore with an aggregate loss
    table of the realization 1. *)
Lemma postcalc_needs_witness :
  is_Some (EbrPostCalculator.execute PostExample.group_array
             PostExample.event_based PostExample.average_loss
             PostExample.get_curves_maps PostExample.oq PostExample.rm
             [Scenario.A1] PostExample.two_rlzs Growth.ds_curves)
  /\ has_group (ds_ass_loss_ratios Growth.ds_curves) = true
  /\ exists l, rm_lti PostExample.rm !! "structural" = Some l.
Proof.
  destruct (EbrPostCalculator.execute PostExample.group_array
              PostExample.event_based PostExample.average_loss
              PostExample.get_curves_maps PostExample.oq PostExample.rm
              [Scenario.A1] PostExample.two_rlzs Growth.ds_curves)
    as [ds'|] eqn:He; [|by vm_compute in He].
  split; [by eexists|].
  destruct (postcalc_needs PostExample.group_array PostExample.event_based
              PostExample.average_loss PostExample.get_curves_maps
              PostExample.oq PostExample.rm [Scenario.A1]
              PostExample.two_rlzs Growth.ds_curves ds' He)
    as (Hgrp & Htable & _).
  split; [by apply Hgrp|].
  destruct (Htable 1 "structural"
              [{| elt_eid := 1%Z; elt_loss := [Binary32.of_Z 60] |}] eq_refl)
    as (l & Hl & _).
  by exists l.
Defined.


(** * Further properties of the matrix of accumulators *)

Section SquareFacts.
Context {St X : Type}.
Variable factory : St -> X * St.

Lemma calls_length (n : nat) (s : St) : length (calls factory n s).1 = n.
Proof.
  revert s. induction n as [|n IH]; intros s; simpl; [done|].
  destruct (factory s) as [x s1]. specialize (IH s1).
  destruct (calls factory n s1) as [xs s2]. simpl in *. by rewrite IH.
Qed.

(** [n + m] calls are [n] calls followed by [m] calls. *)
Lemma calls_app (n m : nat) (s : St) :
  calls factory (n + m) s
  = ((calls factory n s).1 ++ (calls factory m (calls factory n s).2).1,
     (calls factory m (calls factory n s).2).2).
Proof.
  revert s. induction n as [|n IH]; intros s; simpl.
  - by destruct (calls factory m s).
  - destruct (factory s) as [x s1]. rewrite IH.
    by destruct (calls factory n s1) as [xs s2].
Qed.

(** X27. The matrix of [square(L, R, factory)] has [L] rows of [R]
    elements, and its elements are the results of [L * R] calls of the
    factory, one call per element, made in the order of the rows: the
    element of row [l] and column [r] is the result of the call number
    [l * R + r], and the state the factory works on is, after [square],
    the state after these calls. *)
Theorem square_calls_factory (L R : nat) (s : St) :
  length (square factory L R s).1 = L
  /\ Forall (fun row => length row = R) (square factory L R s).1
  /\ concat (square factory L R s).1 = (calls factory (L * R) s).1
  /\ (square factory L R s).2 = (calls factory (L * R) s).2
  /\ (forall l r, l < L -> r < R ->
        (square factory L R s).1 !! l ≫= (fun row => row !! r)
        = (calls factory (L * R) s).1 !! (l * R + r)).
Proof.
  assert (Hmain : forall L s,
             length (square factory L R s).1 = L
             /\ Forall (fun row => length row = R) (square factory L R s).1
             /\ concat (square factory L R s).1 = (calls factory (L * R) s).1
             /\ (square factory L R s).2 = (calls factory (L * R) s).2).
  { clear L s. induction L as [|L IH]; intros s; simpl; [done|].
    rewrite calls_app.
    pose proof (calls_length R s) as Hrow.
    destruct (calls factory R s) as [row s1]. simpl in *.
    destruct (IH s1) as (Hlen & Hrows & Hconcat & Hstate).
    destruct (square factory L R s1) as [rows s2]. simpl in *.
    split_and!; [by rewrite Hlen|by constructor|by rewrite Hconcat|done]. }
  destruct (Hmain L s) as (Hlen & Hrows & Hconcat & Hstate).
  split_and!; try done.
  intros l r Hl Hr. rewrite <- Hconcat. rewrite <- Hlen in Hl.
  clear Hconcat Hstate Hlen.
  set (m := (square factory L R s).1) in *. clearbody m.
  revert l Hl. induction Hrows as [|row rows Hrow _ IH]; intros l Hl.
  - simpl in Hl. lia.
  - destruct l as [|l]; simpl.
    + rewrite lookup_app_l by lia. done.
    + rewrite lookup_app_r by lia.
      replace (R + l * R + r - length row) with (l * R + r) by lia.
      apply IH. simpl in Hl. lia.
Qed.
End SquareFacts.


(** * Further properties of the curves and the loss maps *)

Section CurvesMore.
Context {F SC SM LM : Type} `{Arith F}.
Variable group_array : list (ela_rec F) -> gmap nat (list (ela_rec F)).
Local Abbreviation DS := (Datastore F SC SM LM).

(** The fields of an array of curves have their shapes and are those of
    the array allocated. *)
Lemma save_rcurves_cb_shape (oq : OqParam F) (assets : list (Asset F))
    (A R I : nat) (rm : RiskModel F LM) (ds : DS) (r : nat)
    (rcurves rcurves' : gmap string (list (list (list (list F)))))
    (cb : CurveBuilder F LM) :
  (forall lt, is_Some (rcurves !! lt)
              <-> is_Some (EbrPostCalculator.alloc_rcurves A R rm !! lt)) ->
  (forall lt field, rcurves !! lt = Some field ->
     exists C, field_shape A R C field) ->
  EbrPostCalculator.save_rcurves_cb group_array oq assets I ds r rcurves cb
    = Some rcurves' ->
  (forall lt, is_Some (rcurves' !! lt)
              <-> is_Some (EbrPostCalculator.alloc_rcurves A R rm !! lt))
  /\ (forall lt field, rcurves' !! lt = Some field ->
        exists C, field_shape A R C field).
Proof.
  intros Hkeys Hshapes. unfold EbrPostCalculator.save_rcurves_cb.
  destruct (ds_ass_loss_ratios ds !! _) as [data|]; [|by intros [= <-]].
  destruct (cb_user_provided cb); [|by intros [= <-]].
  destruct (cb_call cb _ _ _) as [[aids curves]|]; simpl; [|done].
  destruct (length aids =? 0); [by intros [= <-]|].
  destruct (nd_shape curves) as [|A' [|L ?]]; try done.
  destruct (reshape3 curves A' I L) as [v|]; simpl; [|done].
  destruct (rcurves !! cb_loss_type cb) as [field|] eqn:Hfield; simpl; [|done].
  destruct (setitem_aids_r field aids r v) as [field'|] eqn:Hset; simpl;
    [|done].
  intros [= <-]. split.
  - intros lt. rewrite lookup_insert_is_Some', <- Hkeys. split; [|by right].
    intros [<-|?]; [by eexists|done].
  - intros lt field0. destruct (decide (cb_loss_type cb = lt)) as [<-|Hne].
    + rewrite lookup_insert_eq. intros [= <-].
      destruct (Hshapes _ _ Hfield) as [C HC]. exists C.
      by apply (setitem_aids_r_shape A R C field field' aids r v).
    + rewrite lookup_insert_ne by done. apply Hshapes.
Qed.

(** X28. The shape of ['rcurves-rlzs']. The array [save_rcurves] stores,
    when it is given the array allocated by [execute] for [A] assets and
    [R] realizations, has the fields of that array, one per loss type,
    and every field is of shape (A, R, 2, C) for a resolution C of
    curves, whatever the curve builders return and with or without
    insured losses. *)
Theorem save_rcurves_keeps_shape (oq : OqParam F) (rm : RiskModel F LM)
    (assets : list (Asset F)) (A R I : nat) (ds ds' : DS) :
  EbrPostCalculator.save_rcurves group_array oq rm assets
    (EbrPostCalculator.alloc_rcurves A R rm) I ds = Some ds' ->
  exists rcurves,
    ds_rcurves ds' = Some rcurves
    /\ (forall lt, is_Some (rcurves !! lt)
                   <-> is_Some (EbrPostCalculator.alloc_rcurves A R rm !! lt))
    /\ (forall lt field, rcurves !! lt = Some field ->
          exists C, field_shape A R C field).
Proof.
  unfold EbrPostCalculator.save_rcurves. intros Hs.
  destruct (has_group (ds_ass_loss_ratios ds)); [|done].
  destruct (foldM _ _ _) as [rcurves'|] eqn:Hfold; simpl in Hs; [|done].
  injection Hs as <-. exists rcurves'. split; [done|].
  pattern rcurves'. eapply foldM_invariant; [| |exact Hfold]; cbv beta.
  - intros rc r rc' Hrc Hinner.
    pattern rc'. eapply foldM_invariant; [| |exact Hinner]; cbv beta;
      [|exact Hrc].
    intros rc0 cb rc1 [Hkeys Hshapes] Hstep.
    by apply (save_rcurves_cb_shape oq assets A R I rm ds r rc0 rc1 cb).
  - split; [done|]. intros lt field Hfield.
    apply alloc_rcurves_lookup in Hfield as [C ->]. exists C.
    split; [apply length_replicate|].
    apply Forall_replicate. split; [apply length_replicate|].
    apply Forall_replicate. split; [apply length_replicate|].
    apply Forall_replicate, length_replicate.
Qed.

End CurvesMore.

(** The curves of the example with one realization. *)
Lemma save_rcurves_keeps_shape_witness :
  exists rcurves,
    (EbrPostCalculator.save_rcurves PostExample.group_array PostExample.oq
       PostExample.rm [Scenario.A1]
       (EbrPostCalculator.alloc_rcurves 1 1 PostExample.rm) 1 PostExample.ds
     ≫= ds_rcurves) = Some rcurves
    /\ forall lt field, rcurves !! lt = Some field ->
         exists C, field_shape 1 1 C field.
Proof.
  destruct (EbrPostCalculator.save_rcurves PostExample.group_array
              PostExample.oq PostExample.rm [Scenario.A1]
              (EbrPostCalculator.alloc_rcurves 1 1 PostExample.rm) 1
              PostExample.ds) as [ds'|] eqn:Hs; [|by vm_compute in Hs].
  destruct (save_rcurves_keeps_shape PostExample.group_array PostExample.oq
              PostExample.rm [Scenario.A1] 1 1 1 PostExample.ds ds' Hs)
    as (rcurves & Hrc & _ & Hshape).
  exists rcurves. split; [exact Hrc|exact Hshape].
Defined.

